(** * ColladaLoader: a shallow embedding of src/src/ColladaLoader.cc

    The loader reads a COLLADA document (a tinyxml2 DOM) and fills a
    [Mesh].  The embedding follows the C++ text function by function:

    - [unsigned int] values are integers in [Z] reduced modulo 2^32
      ([u32]) wherever the source converts or computes with them;
    - a dereference of a null element pointer, the construction of a
      [std::string] from a null [const char *], an unchecked vector
      access out of range and an uncaught [bad_lexical_cast] all leave the
      defined behaviour of the program: they are the [Fault]s of the
      [outcome] monad;
    - the DOM is an inductive tree; a [tinyxml2::XMLElement *] that is
      used to walk siblings is a [cursor]: the element followed by its
      later siblings, the null pointer being the empty cursor;
    - the value containers the loader writes to (Mesh, SubMesh, Skeleton,
      SkeletonNode, NodeTransform) and the ignition-math primitives are
      not part of this file of the repository; they are modelled from
      their use, each with a note. *)

From Stdlib Require Import ZArith Ascii String List Floats Uint63.
From stdpp Require Import gmap strings list.

Set Default Proof Using "Type".

(** ** Machine integers *)

Definition u32 (z : Z) : Z := (z mod 2 ^ 32)%Z.

(** ** Outcomes of a call *)

Inductive fault : Type :=
| NullDeref      (* member call through a null XMLElement pointer *)
| NullString     (* std::string built from a null char pointer *)
| OutOfRange     (* operator[] past the end of a vector or array *)
| BadCast        (* boost::bad_lexical_cast leaving the loader *)
| Overflow.      (* signed int arithmetic out of range *)

Inductive outcome (A : Type) : Type :=
| Ok (a : A)
| Fault (f : fault)
| OutOfFuel.           (* a loop was still running when the fuel ended *)

Arguments Ok {A} a.
Arguments Fault {A} f.
Arguments OutOfFuel {A}.

#[global] Instance outcome_ret : MRet outcome := λ A a, Ok a.
#[global] Instance outcome_bind : MBind outcome := λ A B f m,
  match m with
  | Ok a => f a
  | Fault e => Fault e
  | OutOfFuel => OutOfFuel
  end.

#[global] Instance outcome_fmap : FMap outcome := λ A B f m,
  match m with
  | Ok a => Ok (f a)
  | Fault e => Fault e
  | OutOfFuel => OutOfFuel
  end.

Definition is_Ok {A} (m : outcome A) : Prop := ∃ a, m = Ok a.

(** [vec[i]] on a std::vector or a raw array, unchecked in C++. *)
Definition vec_at {A} (l : list A) (i : Z) : outcome A :=
  if (i <? 0)%Z then Fault OutOfRange
  else match l !! Z.to_nat i with
       | Some x => Ok x
       | None => Fault OutOfRange
       end.

(** The element at a signed index, when there is one. *)
Definition nthZ {A} (l : list A) (i : Z) : option A :=
  if (i <? 0)%Z then None else l !! Z.to_nat i.

(** [a * b] on [int]. *)
Definition int_mul (a b : Z) : outcome Z :=
  let p := (a * b)%Z in
  if ((- 2 ^ 31 <=? p) && (p <? 2 ^ 31))%Z then Ok p else Fault Overflow.

(** [std::string(p)] for a possibly null [const char *]. *)
Definition std_string (p : option string) : outcome string :=
  match p with
  | Some s => Ok s
  | None => Fault NullString
  end.

(** [*p] or [p->member] on a pointer that may be null: the null pointer is
    the empty list, a live one the list whose head it points at. *)
Definition deref {A} (c : list A) : outcome A :=
  match c with
  | e :: _ => Ok e
  | [] => Fault NullDeref
  end.

(** ** The tinyxml2 DOM *)

#[warnings="-register-all"]
Inductive XMLElement : Type :=
| Element (tag : string) (attrs : list (string * string))
          (txt : option string) (kids : list XMLElement).

Definition Value (e : XMLElement) : string :=
  match e with Element tag _ _ _ => tag end.

Definition attributes (e : XMLElement) : list (string * string) :=
  match e with Element _ attrs _ _ => attrs end.

(** [GetText()]: the text of the element, null when it has none. *)
Definition GetText (e : XMLElement) : option string :=
  match e with Element _ _ txt _ => txt end.

Definition children (e : XMLElement) : list XMLElement :=
  match e with Element _ _ _ kids => kids end.

(** [Attribute(name)]: the value of the first attribute of that name, or
    null. *)
Definition Attribute (name : string) (e : XMLElement) : option string :=
  snd <$> List.find (λ kv, String.eqb (fst kv) name) (attributes e).

(** An element pointer used to walk a sibling list. *)
Definition cursor : Type := list XMLElement.

Fixpoint first_named (name : string) (l : list XMLElement) : cursor :=
  match l with
  | [] => []
  | e :: rest => if String.eqb (Value e) name then e :: rest
                 else first_named name rest
  end.

Definition FirstChildElement (name : string) (e : XMLElement) : cursor :=
  first_named name (children e).

Definition NextSiblingElement (name : string) (c : cursor) : outcome cursor :=
  match c with
  | [] => Fault NullDeref
  | _ :: rest => Ok (first_named name rest)
  end.

(** The loop
    [x = e->FirstChildElement(name);
     while (x) { body(x); x = x->NextSiblingElement(name); }]
    visits, in document order, the children of [e] called [name]. *)
Fixpoint each_named {S : Type} (name : string)
    (body : XMLElement → S → outcome S) (l : list XMLElement) (s : S)
  : outcome S :=
  match l with
  | [] => Ok s
  | e :: rest =>
      if String.eqb (Value e) name
      then s' ← body e s; each_named name body rest s'
      else each_named name body rest s
  end.

(** ** Skin binder: the vertex-weight loop of LoadController *)

Module Skin.

(** Modelled from the spec: the Skeleton container (Skeleton.cc is not in
    this part of the repository).  Its per-vertex attachments are an
    ordered sequence of (joint name, weight) pairs indexed by source-vertex
    index; [SetNumVertAttached] sizes the table and [AddVertNodeWeight]
    appends a pair to one vertex. *)
Abbreviation attachments := (list (list (string * float))).

(** Modelled from the spec: [SetNumVertAttached(n)] sizes the table to [n]
    vertices, the new ones with no pair. *)
Definition SetNumVertAttached (n : nat) (w : attachments) : attachments :=
  resize n [] w.

(** Modelled from the spec: [AddVertNodeWeight(v, node, w)] appends one pair
    to vertex [v]. *)
Definition AddVertNodeWeight (vertex : nat) (node : string) (weight : float)
    (w : attachments) : attachments :=
  alter (λ l, l ++ [(node, weight)]) vertex w.

Section binder.
Variable joints : list string.     (* std::vector<std::string> joints *)
Variable weights : list float.     (* std::vector<float> weights *)
Variable v : list Z.               (* std::vector<unsigned int> v *)
Variables jOffset wOffset : Z.     (* unsigned int *)

(** [for (j = 0; j < vCount[i]; ++j)]: [n] iterations are left. *)
Fixpoint vertex_records (n : nat) (i : nat) (vIndex : Z) (w : attachments)
  : outcome (Z * attachments) :=
  match n with
  | O => Ok (vIndex, w)
  | S n' =>
      jv ← vec_at v (u32 (vIndex + jOffset));
      joint ← vec_at joints jv;
      wv ← vec_at v (u32 (vIndex + wOffset));
      weight ← vec_at weights wv;
      vertex_records n' i (u32 (vIndex + u32 (jOffset + wOffset + 1)))
                     (AddVertNodeWeight i joint weight w)
  end.

(** [for (i = 0; i < vCount.size(); ++i)], entered at index [i] with the
    counts still to visit. *)
Fixpoint vertices_from (vCount : list Z) (i : nat) (vIndex : Z)
    (w : attachments) : outcome (Z * attachments) :=
  match vCount with
  | [] => Ok (vIndex, w)
  | c :: rest =>
      '(vIndex', w') ← vertex_records (Z.to_nat c) i vIndex w;
      vertices_from rest (S i) vIndex' w'
  end.

(** Lines 498-509 of LoadController. *)
Definition bind_vertex_weights (vCount : list Z) (w : attachments)
  : outcome attachments :=
  let w0 := SetNumVertAttached (length vCount) w in
  snd <$> vertices_from vCount 0 0 w0.

End binder.
End Skin.

(** The skin binder as the specification words it: records of width
    [j_off + w_off + 1] read at a cursor that starts at 0. *)
Module SkinSpec.
Section spec.
Variable joints : list string.
Variable weights : list float.
Variable v : list Z.
Variables j_off w_off : Z.

Definition width : Z := (j_off + w_off + 1)%Z.

(** [(joints[v[cursor + j_off]], weights[v[cursor + w_off]])] *)
Definition record_at (cursor : Z) : option (string * float) :=
  jv ← nthZ v (cursor + j_off)%Z;
  joint ← nthZ joints jv;
  wv ← nthZ v (cursor + w_off)%Z;
  weight ← nthZ weights wv;
  Some (joint, weight).

(** The position in [v] where the records of vertex [i] start. *)
Definition cursor_of (vcount : list Z) (i : nat) : Z :=
  (width * foldr Z.add 0 (take i vcount))%Z.

(** What the attachment table holds for the vertices whose counts are
    [vcount], when their records start at [cursor]: vertex [i] has exactly
    [vcount[i]] records, the [r]-th read [r] record widths after the place
    where vertex [i] starts. *)
Definition skin_table (cursor : Z) (vcount : list Z)
    (atts : list (list (string * float))) : Prop :=
  length atts = length vcount ∧
  ∀ i c, vcount !! i = Some c →
    ∃ recs, atts !! i = Some recs ∧ length recs = Z.to_nat c ∧
      ∀ r, r < Z.to_nat c →
        recs !! r = record_at (cursor + cursor_of vcount i
                               + Z.of_nat r * width)%Z.

End spec.
End SkinSpec.

(** ** Collaborators outside this file *)

(** ignition::math::Vector3d and Vector2d hold their components as
    doubles. *)
Record Vector3d : Type := mkVector3d { V3X : float; V3Y : float; V3Z : float }.
Record Vector2d : Type := mkVector2d { V2X : float; V2Y : float }.

(** The ignition-math operations the loader calls.  They belong to another
    library; the loader is modelled for every implementation of them.  A
    method that updates its object takes the object last and returns the
    new one. *)
Class IgnMath : Type := {
  Matrix4d : Type;
  Matrix3d : Type;
  Matrix4d_Identity : Matrix4d;
  Matrix4d_default : Matrix4d;                       (* Matrix4d m; *)
  Matrix3d_default : Matrix3d;                       (* Matrix3d m; *)
  Matrix4d_Set : list float → Matrix4d → Matrix4d;   (* m.Set(v00 .. v33) *)
  Matrix4d_Translate : Vector3d → Matrix4d → Matrix4d;
  Matrix4d_Scale : Vector3d → Matrix4d → Matrix4d;
  Matrix4d_mul : Matrix4d → Matrix4d → Matrix4d;     (* a * b *)
  Matrix4d_mul_vec : Matrix4d → Vector3d → Vector3d; (* m * v *)
  Matrix3d_Axis : Vector3d → float → Matrix3d → Matrix3d;
  Matrix4d_assign3 : Matrix3d → Matrix4d → Matrix4d; (* m4 = m3 *)
  IGN_DTOR : float → float;
  Vector3d_Zero : Vector3d;
  Vector3d_Normalize : Vector3d → Vector3d;
  Vector3d_eq : Vector3d → Vector3d → bool;          (* operator== *)
  Vector2d_eq : Vector2d → Vector2d → bool;
}.

(** Text to number conversions: ignition::math::parseInt and parseFloat,
    boost::lexical_cast (which throws when the text is not a number) and
    extraction from a std::istringstream. *)
Class Parsers : Type := {
  parseInt : string → Z;
  parseFloat : string → float;
  lexical_cast_int : string → option Z;
  lexical_cast_double : string → option float;
  lexical_cast_Vector3d : string → option Vector3d;
  (* the doubles that successive [iss >> d] extract before the stream
     fails *)
  istringstream_doubles : string → list float;
}.

Definition lexical_cast {A} (r : option A) : outcome A :=
  match r with
  | Some x => Ok x
  | None => Fault BadCast
  end.

(** ** LoadAnimations (lines 516-530) *)

Module Animations.
Section loader.
Context {Skel : Type}.

(** LoadAnimationSet (lines 533-695) adds one animation, built from the
    element it receives, to the skeleton.  LoadAnimations only calls it;
    the iteration is modelled for every behaviour of the callee, and each
    call is recorded. *)
Variable LoadAnimationSet : XMLElement → Skel → outcome Skel.

Record loop_state : Type := {
  childXml : cursor;
  skel : Skel;
  calls : list XMLElement;      (* arguments of the calls made so far *)
}.

(** The body of [while (childXml)]: the value of
    [childXml->NextSiblingElement("animation")] is computed and dropped. *)
Definition loop_body (s : loop_state) : outcome loop_state :=
  e ← deref (childXml s);
  sk ← LoadAnimationSet e (skel s);
  _ ← NextSiblingElement "animation" (childXml s);
  Ok {| childXml := childXml s; skel := sk; calls := calls s ++ [e] |}.

Fixpoint while_childXml (fuel : nat) (s : loop_state) : outcome loop_state :=
  match childXml s with
  | [] => Ok s
  | _ :: _ =>
      match fuel with
      | O => OutOfFuel
      | S fuel' => s' ← loop_body s; while_childXml fuel' s'
      end
  end.

(** [n] passes through the loop body. *)
Fixpoint passes (n : nat) (s : loop_state) : outcome loop_state :=
  match n with
  | O => Ok s
  | S n' => s' ← loop_body s; passes n' s'
  end.

Definition LoadAnimations (fuel : nat) (_xml : XMLElement) (_skel : Skel)
  : outcome (Skel * list XMLElement) :=
  let childXml0 := FirstChildElement "animation" _xml in
  first ← deref childXml0;
  match FirstChildElement "animation" first with
  | _ :: _ =>
      s ← while_childXml fuel
            {| childXml := childXml0; skel := _skel; calls := [] |};
      Ok (skel s, calls s)
  | [] =>
      sk ← LoadAnimationSet _xml _skel;
      Ok (sk, [_xml])
  end.

End loader.
End Animations.

(** ** SetSkeletonNodeTransform (lines 724-813) *)

Module SkeletonTransform.

Inductive NodeTransformType : Type := TRANSLATE | ROTATE | SCALE | MATRIX.

Section node.
Context `{IgnMath} `{Parsers}.

(** What SetSourceValues was last given. *)
Inductive SourceValues : Type :=
| NoSource
| FromMatrix (m : Matrix4d)
| FromVector (v : Vector3d)
| FromAxisAngle (axis : Vector3d) (angle : float).

(** Modelled from the spec: a raw transform is tagged with its kind and
    carries its matrix, its original source parameters and an optional SID
    (NodeTransform.hh is not in this part of the repository).  A transform
    built from a matrix starts as MATRIX without SID or source values. *)
Record NodeTransform : Type := {
  nt_transform : Matrix4d;
  nt_sid : option string;
  nt_type : NodeTransformType;
  nt_source : SourceValues;
}.

(** Modelled from the spec: [NodeTransform(mat)] has no SID, the MATRIX type
    and no source values. *)
Definition NodeTransform_of (m : Matrix4d) : NodeTransform :=
  {| nt_transform := m; nt_sid := None; nt_type := MATRIX;
     nt_source := NoSource |}.

(** Modelled from the spec: the setter of the SID. *)
Definition SetSID (sid : string) (nt : NodeTransform) : NodeTransform :=
  {| nt_transform := nt_transform nt; nt_sid := Some sid;
     nt_type := nt_type nt; nt_source := nt_source nt |}.

(** Modelled from the spec: the setter of the transform type. *)
Definition SetType (t : NodeTransformType) (nt : NodeTransform)
  : NodeTransform :=
  {| nt_transform := nt_transform nt; nt_sid := nt_sid nt;
     nt_type := t; nt_source := nt_source nt |}.

(** Modelled from the spec: the setter of the source values. *)
Definition SetSourceValues (src : SourceValues) (nt : NodeTransform)
  : NodeTransform :=
  {| nt_transform := nt_transform nt; nt_sid := nt_sid nt;
     nt_type := nt_type nt; nt_source := src |}.

(** Modelled from the spec: a skeleton node keeps a composed local
    transform and the ordered sequence of its raw transforms. *)
Record SkeletonNode : Type := {
  node_transform : Matrix4d;
  rawTransforms : list NodeTransform;
}.

(** Modelled from the spec: [AddRawTransform] appends to the raw transforms
    of the node. *)
Definition AddRawTransform (nt : NodeTransform) (n : SkeletonNode)
  : SkeletonNode :=
  {| node_transform := node_transform n;
     rawTransforms := rawTransforms n ++ [nt] |}.

(** Modelled from the spec: [SetTransform] replaces the accumulated
    transform of the node. *)
Definition SetTransform (m : Matrix4d) (n : SkeletonNode) : SkeletonNode :=
  {| node_transform := m; rawTransforms := rawTransforms n |}.

(** [iss >> values[0] >> ... ]: the slots that the stream cannot fill keep
    their zero. *)
Definition extract (n : nat) (s : string) : list float :=
  resize n 0%float (istringstream_doubles s).

Definition nth_double (i : nat) (l : list float) : float :=
  default 0%float (l !! i).

(** [nt.SetSID(x->Attribute("sid"))] under [if (x->Attribute("sid"))], for
    an element pointer [x] that may be null. *)
Definition sid_from (x : cursor) (nt : NodeTransform) : outcome NodeTransform :=
  e ← deref x;
  match Attribute "sid" e with
  | Some _ =>
      e' ← deref x;
      sid ← std_string (Attribute "sid" e');
      Ok (SetSID sid nt)
  | None => Ok nt
  end.

(** One [<rotate>] element, lines 766-790. *)
Definition rotate_step (rotateXml : XMLElement)
    (st : Matrix4d * SkeletonNode) : outcome (Matrix4d * SkeletonNode) :=
  let '(transform, _node) := st in
  rotateStr ← std_string (GetText rotateXml);
  let vals := extract 4 rotateStr in
  let axis := mkVector3d (nth_double 0 vals) (nth_double 1 vals)
                         (nth_double 2 vals) in
  let angle := nth_double 3 vals in
  let mat := Matrix3d_Axis axis (IGN_DTOR angle) Matrix3d_default in
  let mat4 := Matrix4d_assign3 mat Matrix4d_Identity in
  let nt := NodeTransform_of mat4 in
  nt ← sid_from [rotateXml] nt;
  let nt := SetType ROTATE nt in
  let nt := SetSourceValues (FromAxisAngle axis angle) nt in
  let _node := AddRawTransform nt _node in
  Ok (Matrix4d_mul transform mat4, _node).

Definition SetSkeletonNodeTransform (_elem : XMLElement)
    (_node : SkeletonNode) : outcome SkeletonNode :=
  let transform := Matrix4d_Identity in
  '(transform, _node) ←
    match FirstChildElement "matrix" _elem with
    | m :: _ =>
        matrixStr ← std_string (GetText m);
        let values := extract 16 matrixStr in
        let transform := Matrix4d_Set values transform in
        let nt := NodeTransform_of transform in
        let nt := SetSourceValues (FromMatrix transform) nt in
        nt ← sid_from (FirstChildElement "matrix" _elem) nt;
        Ok (transform, AddRawTransform nt _node)
    | [] =>
        '(transform, _node) ←
          match FirstChildElement "translate" _elem with
          | t :: _ =>
              transStr ← std_string (GetText t);
              translate ← lexical_cast (lexical_cast_Vector3d transStr);
              let transform := Matrix4d_Translate translate transform in
              let nt := NodeTransform_of transform in
              nt ← sid_from (FirstChildElement "translate" _elem) nt;
              let nt := SetType TRANSLATE nt in
              let nt := SetSourceValues (FromVector translate) nt in
              Ok (transform, AddRawTransform nt _node)
          | [] => Ok (transform, _node)
          end;
        '(transform, _node) ←
          each_named "rotate" rotate_step (children _elem) (transform, _node);
        match FirstChildElement "scale" _elem with
        | sc :: _ =>
            scaleStr ← std_string (GetText sc);
            scale ← lexical_cast (lexical_cast_Vector3d scaleStr);
            let scaleMat := Matrix4d_Scale scale Matrix4d_default in
            let nt := NodeTransform_of scaleMat in
            (* line 802: the SID is asked of the <matrix> child *)
            nt ← sid_from (FirstChildElement "matrix" _elem) nt;
            let nt := SetType SCALE nt in
            let nt := SetSourceValues (FromVector scale) nt in
            Ok (Matrix4d_mul transform scaleMat, AddRawTransform nt _node)
        | [] => Ok (transform, _node)
        end
    end;
  Ok (SetTransform transform _node).

End node.
End SkeletonTransform.

(** ** Loader state and output containers *)

Inductive severity : Type := ignerr | ignwarn | ignlog.

(** A line written to one of the three console sinks (without its trailing
    newline). *)
Definition message : Type := severity * string.

Class Materials : Type := { Material : Type }.

Section containers.
Context `{IgnMath} `{Materials}.

(** Modelled from the spec: a sub-mesh carries a name, a primitive kind, an
    optional material index, vertex positions, normals, one set of
    texcoords, an index stream and node-weight assignments
    (vertex index, node handle, weight); every [add_*] operation appends
    (SubMesh.cc is not in this part of the repository). *)
Inductive PrimitiveType : Type := TRIANGLES | LINES.

Record SubMesh : Type := {
  sm_name : string;
  sm_primitive : PrimitiveType;
  sm_material : option Z;
  sm_vertices : list Vector3d;
  sm_normals : list Vector3d;
  sm_texcoords : list Vector2d;
  sm_indices : list Z;
  sm_assignments : list (Z * Z * float);
}.

(** Modelled from the spec: the skeleton as the geometry weaver reads it:
    the bind-shape transform, the per-vertex attachments and the handle of
    each named node (Skeleton.cc is not in this part of the repository). *)
Record Skeleton : Type := {
  sk_bindShape : Matrix4d;
  sk_rawNodeWeights : list (list (string * float));
  sk_handles : list (string * Z);
}.

(** Modelled from the spec: the mesh owns its sub-meshes in emission order,
    its skeleton and its materials; [Scale] multiplies every vertex of every
    sub-mesh by the factor, component by component (Mesh.cc is not in this
    part of the repository). *)
Record Mesh : Type := {
  mesh_path : string;
  mesh_submeshes : list SubMesh;
  mesh_skeleton : option Skeleton;
  mesh_materials : list Material;
}.

(** Modelled from the spec: a new mesh is empty. *)
Definition Mesh_new : Mesh :=
  {| mesh_path := ""; mesh_submeshes := []; mesh_skeleton := None;
     mesh_materials := [] |}.

(** Modelled from the spec: the setter of the path. *)
Definition SetPath (p : string) (m : Mesh) : Mesh :=
  {| mesh_path := p; mesh_submeshes := mesh_submeshes m;
     mesh_skeleton := mesh_skeleton m; mesh_materials := mesh_materials m |}.

(** Modelled from the spec: [AddSubMesh] appends, so sub-meshes stay in
    emission order. *)
Definition AddSubMesh (s : SubMesh) (m : Mesh) : Mesh :=
  {| mesh_path := mesh_path m; mesh_submeshes := mesh_submeshes m ++ [s];
     mesh_skeleton := mesh_skeleton m; mesh_materials := mesh_materials m |}.

(** Modelled from the spec: one vertex scaled component by component. *)
Definition scale_vertex (f v : Vector3d) : Vector3d :=
  mkVector3d (V3X v * V3X f) (V3Y v * V3Y f) (V3Z v * V3Z f).

(** Modelled from the spec: [SubMesh::Scale] scales every vertex. *)
Definition SubMesh_Scale (f : Vector3d) (s : SubMesh) : SubMesh :=
  {| sm_name := sm_name s; sm_primitive := sm_primitive s;
     sm_material := sm_material s;
     sm_vertices := scale_vertex f <$> sm_vertices s;
     sm_normals := sm_normals s; sm_texcoords := sm_texcoords s;
     sm_indices := sm_indices s; sm_assignments := sm_assignments s |}.

(** Modelled from the spec: [Mesh::Scale] scales every sub-mesh. *)
Definition Mesh_Scale (f : Vector3d) (m : Mesh) : Mesh :=
  {| mesh_path := mesh_path m;
     mesh_submeshes := SubMesh_Scale f <$> mesh_submeshes m;
     mesh_skeleton := mesh_skeleton m; mesh_materials := mesh_materials m |}.

(** The parsed sources, by source id, with their duplicate-index maps. *)
Record SourceCache : Type := {
  positionIds : gmap string (list Vector3d);
  positionDuplicateMap : gmap string (gmap Z Z);
  normalIds : gmap string (list Vector3d);
  normalDuplicateMap : gmap string (gmap Z Z);
  texcoordIds : gmap string (list Vector2d);
  texcoordDuplicateMap : gmap string (gmap Z Z);
}.

Definition no_sources : SourceCache :=
  {| positionIds := ∅; positionDuplicateMap := ∅; normalIds := ∅;
     normalDuplicateMap := ∅; texcoordIds := ∅; texcoordDuplicateMap := ∅ |}.

(** The members of ColladaLoaderPrivate that the loader uses
    (ColladaLoaderPrivate.hh is not in this part of the repository), and the
    console. *)
Record Loader : Type := {
  meter : float;
  filename : string;
  path : string;
  colladaXml : cursor;
  currentNodeName : string;
  materialMap : gmap string string;
  materialIds : gmap string Material;
  sources : SourceCache;
  console : list message;
}.

Definition emit (sev : severity) (text : string) (w : Loader) : Loader :=
  {| meter := meter w; filename := filename w; path := path w;
     colladaXml := colladaXml w; currentNodeName := currentNodeName w;
     materialMap := materialMap w; materialIds := materialIds w;
     sources := sources w; console := console w ++ [(sev, text)] |}.

Definition set_sources (c : SourceCache) (w : Loader) : Loader :=
  {| meter := meter w; filename := filename w; path := path w;
     colladaXml := colladaXml w; currentNodeName := currentNodeName w;
     materialMap := materialMap w; materialIds := materialIds w;
     sources := c; console := console w |}.

Definition set_meter (x : float) (w : Loader) : Loader :=
  {| meter := x; filename := filename w; path := path w;
     colladaXml := colladaXml w; currentNodeName := currentNodeName w;
     materialMap := materialMap w; materialIds := materialIds w;
     sources := sources w; console := console w |}.

End containers.

(** ** ElementId (lines 848-882) *)

Definition strip_hash (_id : string) : string :=
  match _id with
  | String "#"%char rest => rest
  | _ => _id
  end.

Definition attr_is (name id : string) (e : XMLElement) : bool :=
  match Attribute name e with
  | Some a => String.eqb a id
  | None => false
  end.

Fixpoint ElementId_in (_parent : XMLElement) (_name _id : string)
  : option XMLElement :=
  let id := strip_hash _id in
  if (String.eqb id "" && String.eqb (Value _parent) _name)
     || attr_is "id" id _parent || attr_is "sid" id _parent
  then Some _parent
  else
    (fix scan (elems : list XMLElement) : option XMLElement :=
       match elems with
       | [] => None
       | elem :: rest =>
           match ElementId_in elem _name _id with
           | Some result => Some result
           | None => scan rest
           end
       end) (children _parent).

(** [ElementId(_name, _id)] searches from the document root, which is
    dereferenced. *)
Definition ElementId (root : cursor) (_name _id : string)
  : outcome (option XMLElement) :=
  r ← deref root;
  Ok (ElementId_in r _name _id).

(** ** Load and LoadScene (lines 99-175) *)

Module Driver.

(** [std::string::rfind(c)]: the last position of [c], if any. *)
Fixpoint rfind (c : ascii) (s : string) : option nat :=
  match s with
  | EmptyString => None
  | String a rest =>
      match rfind c rest with
      | Some n => Some (S n)
      | None => if Ascii.eqb a c then Some 0 else None
      end
  end.

Definition XML_NO_ERROR : Z := 0.

(** tinyxml2's [LoadFile]: the error code and the top-level elements of the
    document, which stays empty when the file cannot be read or parsed. *)
Definition FileSystem : Type := string → Z * list XMLElement.

Definition version_error : message :=
  (ignerr, "Invalid collada file. Must be version 1.4.0 or 1.4.1").

Section driver.
Context `{IgnMath} `{Parsers} `{Materials}.

(** LoadNode (lines 178-278) loads one scene node with everything below
    it.  The scene driver is modelled for every behaviour of it. *)
Variable LoadNode : XMLElement → Mesh → Matrix4d → Loader → outcome (Mesh * Loader).

Definition LoadScene (_mesh : Mesh) (w : Loader) : outcome (Mesh * Loader) :=
  root ← deref (colladaXml w);
  sceneXml ← deref (FirstChildElement "scene" root);
  ivs ← deref (FirstChildElement "instance_visual_scene" sceneXml);
  sceneURL ← std_string (Attribute "url" ivs);
  visSceneXml ← ElementId (colladaXml w) "visual_scene" sceneURL;
  match visSceneXml with
  | None =>
      Ok (_mesh,
          emit ignerr ("Unable to find visual_scene id ='" ++ sceneURL ++ "'") w)
  | Some vis =>
      each_named "node"
        (λ nodeXml '(m, w'), LoadNode nodeXml m Matrix4d_Identity w')
        (children vis) (_mesh, w)
  end.

(** Lines 101-120: the caches are cleared, the scale is reset, the path
    and the file name are set. *)
Definition reset (_filename : string) (w : Loader) : Loader :=
  {| meter := 1; filename := _filename;
     path := match rfind "/" _filename with
             | Some n => String.substring 0 n _filename
             | None => ""
             end;
     colladaXml := colladaXml w; currentNodeName := currentNodeName w;
     materialMap := materialMap w; materialIds := ∅;
     sources := no_sources; console := console w |}.

(** Lines 121-122: [if (!xmlDoc.LoadFile(..) != XML_NO_ERROR)]; the
    negation binds first and yields a bool. *)
Definition report_load (err : Z) (w : Loader) : Loader :=
  let not_err : Z := if (err =? 0)%Z then 1%Z else 0%Z in
  if negb (not_err =? XML_NO_ERROR)%Z
  then emit ignerr ("Unable to load collada file[" ++ filename w ++ "]") w
  else w.

(** Lines 124-126. *)
Definition find_root (doc : list XMLElement) (w : Loader) : Loader :=
  let w := {| meter := meter w; filename := filename w; path := path w;
              colladaXml := first_named "COLLADA" doc;
              currentNodeName := currentNodeName w;
              materialMap := materialMap w; materialIds := materialIds w;
              sources := sources w; console := console w |} in
  match colladaXml w with
  | [] => emit ignerr "Missing COLLADA tag" w
  | _ :: _ => w
  end.

(** Lines 128-130. *)
Definition check_version (w : Loader) : outcome Loader :=
  root ← deref (colladaXml w);
  v1 ← std_string (Attribute "version" root);
  differs ← (if negb (String.eqb v1 "1.4.0")
             then root' ← deref (colladaXml w);
                  v2 ← std_string (Attribute "version" root');
                  Ok (negb (String.eqb v2 "1.4.1"))
             else Ok false);
  Ok (if differs : bool
      then emit (fst version_error) (snd version_error) w
      else w).

(** Lines 132-140. *)
Definition read_unit (w : Loader) : outcome Loader :=
  root ← deref (colladaXml w);
  Ok match FirstChildElement "asset" root with
     | assetXml :: _ =>
         match FirstChildElement "unit" assetXml with
         | unitXml :: _ =>
             match Attribute "meter" unitXml with
             | Some m => set_meter (parseFloat m) w
             | None => w
             end
         | [] => w
         end
     | [] => w
     end.

Definition Load (fs : FileSystem) (_filename : string) (w : Loader)
  : outcome (Mesh * Loader) :=
  let w := reset _filename w in
  let '(err, doc) := fs _filename in
  let w := report_load err w in
  let w := find_root doc w in
  w ← check_version w;
  w ← read_unit w;
  let mesh := SetPath (path w) Mesh_new in
  '(mesh, w) ← LoadScene mesh w;
  (* This will make the model the correct size. *)
  Ok (Mesh_Scale (mkVector3d (meter w) (meter w) (meter w)) mesh, w).

End driver.
End Driver.

(** ** Source loaders (lines 885-1241) *)

(** [boost::split(strs, s, boost::is_any_of(" "))]: a token ends at every
    space; adjacent separators are not merged, so the result is never
    empty and may hold empty tokens. *)
Fixpoint split_spaces (s : string) : list string :=
  match s with
  | EmptyString => [EmptyString]
  | String c rest =>
      if Ascii.eqb c " "%char then EmptyString :: split_spaces rest
      else match split_spaces rest with
           | [] => [String c EmptyString]
           | tok :: toks => String c tok :: toks
           end
  end.

Module Sources.

(** The table [std::unordered_map<Vector, unsigned int, Hash> unique], in
    insertion order.  Under the container's contract (keys that compare
    equal hash alike) [find] succeeds exactly when a stored key compares
    equal to the probe. *)
Section dedupe.
Context {V : Type}.
Variable veq : V → V → bool.     (* operator== of the vector type *)

Definition unique_find (unique : list (V * Z)) (vec : V) : option Z :=
  snd <$> List.find (λ kv, veq vec (fst kv)) unique.

(** "create a map of duplicate indices": the block that follows
    [_values.push_back(vec)] in each of the three loaders; [values] already
    holds [vec] at its end. *)
Definition note_duplicate (vec : V) (values : list V)
    (st : list (V * Z) * gmap Z Z) : list (V * Z) * gmap Z Z :=
  let '(unique, duplicates) := st in
  let last := (Z.of_nat (length values) - 1)%Z in
  match unique_find unique vec with
  | Some first => (unique, <[last := first]> duplicates)
  | None => (unique ++ [(vec, last)], duplicates)
  end.

Definition push_back (vec : V) (st : list V * (list (V * Z) * gmap Z Z))
  : list V * (list (V * Z) * gmap Z Z) :=
  let values := st.1 ++ [vec] in
  (values, note_duplicate vec values st.2).

End dedupe.

Section loaders.
Context `{IgnMath} `{Parsers} `{Materials}.

(** The caller's buffers: [_values] and [_duplicates]. *)
Abbreviation buffers V := (list V * gmap Z Z)%type.

(** The block run when [<float_array>] or its text is missing: the message
    depends on the declared count (lines 953-978, 1036-1061, 1119-1144). *)
Definition missing_array (floatArrayXml : cursor) (complaint : message)
    (zero : string) (w : Loader) : Loader :=
  let count : Z :=
    match floatArrayXml with
    | fa :: _ =>
        match Attribute "count" fa with
        | Some c => default 1%Z (lexical_cast_int c)
        | None => 1%Z
        end
    | [] => 1%Z
    end in
  if (count =? 0)%Z then emit ignlog zero w
  else emit complaint.1 complaint.2 w.

(** The text of [<float_array>], when the element and its text exist. *)
Definition array_text (floatArrayXml : cursor) : option string :=
  match floatArrayXml with
  | fa :: _ => GetText fa
  | [] => None
  end.

Definition store_positions (_id : string) (b : buffers Vector3d)
    (w : Loader) : Loader :=
  let c := sources w in
  set_sources
    {| positionIds := <[_id := b.1]> (positionIds c);
       positionDuplicateMap := <[_id := b.2]> (positionDuplicateMap c);
       normalIds := normalIds c; normalDuplicateMap := normalDuplicateMap c;
       texcoordIds := texcoordIds c;
       texcoordDuplicateMap := texcoordDuplicateMap c |} w.

Definition store_normals (_id : string) (b : buffers Vector3d)
    (w : Loader) : Loader :=
  let c := sources w in
  set_sources
    {| positionIds := positionIds c;
       positionDuplicateMap := positionDuplicateMap c;
       normalIds := <[_id := b.1]> (normalIds c);
       normalDuplicateMap := <[_id := b.2]> (normalDuplicateMap c);
       texcoordIds := texcoordIds c;
       texcoordDuplicateMap := texcoordDuplicateMap c |} w.

Definition store_texcoords (_id : string) (b : buffers Vector2d)
    (w : Loader) : Loader :=
  let c := sources w in
  set_sources
    {| positionIds := positionIds c;
       positionDuplicateMap := positionDuplicateMap c;
       normalIds := normalIds c; normalDuplicateMap := normalDuplicateMap c;
       texcoordIds := <[_id := b.1]> (texcoordIds c);
       texcoordDuplicateMap := <[_id := b.2]> (texcoordDuplicateMap c) |} w.

(** Lines 990-1004: [for (iter = strs.begin(); iter != end; iter += 3)].
    With one or two tokens left the iterator is taken past the end. *)
Fixpoint read_positions (_transform : Matrix4d) (strs : list string)
    (st : list Vector3d * (list (Vector3d * Z) * gmap Z Z))
  : outcome (list Vector3d * (list (Vector3d * Z) * gmap Z Z)) :=
  match strs with
  | [] => Ok st
  | x :: y :: z :: rest =>
      let vec := mkVector3d (parseFloat x) (parseFloat y) (parseFloat z) in
      let vec := Matrix4d_mul_vec _transform vec in
      read_positions _transform rest (push_back Vector3d_eq vec st)
  | _ => Fault OutOfRange
  end.

Definition LoadPositions (_id : string) (_transform : Matrix4d)
    (b : buffers Vector3d) (w : Loader)
  : outcome (buffers Vector3d * Loader) :=
  match positionIds (sources w) !! _id with
  | Some cached =>
      Ok ((cached, default ∅ (positionDuplicateMap (sources w) !! _id)), w)
  | None =>
      sourceXml ← ElementId (colladaXml w) "source" _id;
      match sourceXml with
      | None => Ok (b, emit ignerr "Unable to find source" w)
      | Some src =>
          let floatArrayXml := FirstChildElement "float_array" src in
          match array_text floatArrayXml with
          | None =>
              Ok (b, missing_array floatArrayXml
                       (ignerr, "Vertex source missing float_array element, or count is invalid.")
                       "Vertex source has a float_array with a count of zero. This is likely not desired"
                       w)
          | Some valueStr =>
              '(values, (_, duplicates)) ←
                read_positions _transform (split_spaces valueStr)
                               (b.1, ([], b.2));
              Ok ((values, duplicates),
                  store_positions _id (values, duplicates) w)
          end
      end
  end.

(** Lines 1069-1085: the stream yields complete triples; what is left when
    it fails is dropped. *)
Fixpoint read_normals (rotMat : Matrix4d) (vals : list float)
    (st : list Vector3d * (list (Vector3d * Z) * gmap Z Z))
  : list Vector3d * (list (Vector3d * Z) * gmap Z Z) :=
  match vals with
  | x :: y :: z :: rest =>
      let vec := mkVector3d x y z in
      let vec := Matrix4d_mul_vec rotMat vec in
      let vec := Vector3d_Normalize vec in
      read_normals rotMat rest (push_back Vector3d_eq vec st)
  | _ => st
  end.

Definition LoadNormals (_id : string) (_transform : Matrix4d)
    (b : buffers Vector3d) (w : Loader)
  : outcome (buffers Vector3d * Loader) :=
  match normalIds (sources w) !! _id with
  | Some cached =>
      Ok ((cached, default ∅ (normalDuplicateMap (sources w) !! _id)), w)
  | None =>
      let rotMat := Matrix4d_Translate Vector3d_Zero _transform in
      normalsXml ← ElementId (colladaXml w) "source" _id;
      match normalsXml with
      | None =>
          Ok (b, emit ignerr
                   ("Unable to find normals[" ++ _id ++ "] in collada file") w)
      | Some src =>
          let floatArrayXml := FirstChildElement "float_array" src in
          match array_text floatArrayXml with
          | None =>
              Ok (b, missing_array floatArrayXml
                       (ignwarn, "Normal source missing float_array element, or count is invalid.")
                       "Normal source has a float_array with a count of zero. This is likely not desired"
                       w)
          | Some valueStr =>
              let '(values, (_, duplicates)) :=
                read_normals rotMat (istringstream_doubles valueStr)
                             (b.1, ([], b.2)) in
              Ok ((values, duplicates),
                  store_normals _id (values, duplicates) w)
          end
      end
  end.

(** Lines 1223-1237: [for (int i = 0; i < totCount; i += stride)]. *)
Fixpoint read_texcoords (fuel : nat) (i totCount stride : Z)
    (values : list string)
    (st : list Vector2d * (list (Vector2d * Z) * gmap Z Z))
  : outcome (list Vector2d * (list (Vector2d * Z) * gmap Z Z)) :=
  if (i <? totCount)%Z then
    match fuel with
    | O => OutOfFuel
    | S fuel' =>
        su ← vec_at values i;
        u ← lexical_cast (lexical_cast_double su);
        sv ← vec_at values (i + 1);
        v ← lexical_cast (lexical_cast_double sv);
        (* We only handle 2D texture coordinates right now. *)
        let vec := mkVector2d u (1 - v) in
        read_texcoords fuel' (i + stride) totCount stride values
                       (push_back Vector2d_eq vec st)
    end
  else Ok st.

(** The required attribute [name] of [e] as an int (lines 1147-1197). *)
Definition int_attribute (name : string) (e : XMLElement) : outcome Z :=
  a ← std_string (Attribute name e);
  lexical_cast (lexical_cast_int a).

Definition LoadTexCoords (_id : string) (b : buffers Vector2d) (w : Loader)
  : outcome (buffers Vector2d * Loader) :=
  match texcoordIds (sources w) !! _id with
  | Some cached =>
      Ok ((cached, default ∅ (texcoordDuplicateMap (sources w) !! _id)), w)
  | None =>
      xml ← ElementId (colladaXml w) "source" _id;
      match xml with
      | None =>
          Ok (b, emit ignerr
                   ("Unable to find tex coords[" ++ _id ++ "] in collada file") w)
      | Some src =>
          let floatArrayXml := FirstChildElement "float_array" src in
          match floatArrayXml, array_text floatArrayXml with
          | fa :: _, Some valueStr =>
              match Attribute "count" fa with
              | None =>
                  Ok (b, emit ignerr
                           ("<float_array> has no count attribute in texture coordinate element with id[" ++ _id ++ "]") w)
              | Some _ =>
                  totCount ← int_attribute "count" fa;
                  match FirstChildElement "technique_common" src with
                  | [] =>
                      Ok (b, emit ignerr
                               ("Unable to find technique_common element for texture coordinates with id[" ++ _id ++ "]") w)
                  | tc :: _ =>
                      match FirstChildElement "accessor" tc with
                      | [] =>
                          Ok (b, emit ignerr
                                   ("Unable to find <accessor> as a child of <technique_common> for texture coordinates with id[" ++ _id ++ "]") w)
                      | acc :: _ =>
                          match Attribute "stride" acc, Attribute "count" acc with
                          | None, _ =>
                              Ok (b, emit ignerr
                                       ("<accessor> has no stride attribute in texture coordinate element with id[" ++ _id ++ "]") w)
                          | Some _, None =>
                              stride ← int_attribute "stride" acc;
                              Ok (b, emit ignerr
                                       ("<accessor> has no count attribute in texture coordinate element with id[" ++ _id ++ "]") w)
                          | Some _, Some _ =>
                              stride ← int_attribute "stride" acc;
                              texCount ← int_attribute "count" acc;
                              product ← int_mul texCount stride;
                              if negb (product =? totCount)%Z then
                                Ok (b, emit ignerr
                                         ("Error reading texture coordinates. Coordinate counts in element with id[" ++ _id ++ "] do not add up correctly") w)
                              else if (totCount =? 0)%Z then Ok (b, w)
                              else
                                '(values, (_, duplicates)) ←
                                  read_texcoords (S (Z.to_nat totCount)) 0 totCount
                                    stride (split_spaces valueStr)
                                    (b.1, ([], b.2));
                                Ok ((values, duplicates),
                                    store_texcoords _id (values, duplicates) w)
                          end
                      end
                  end
              end
          | _, _ =>
              Ok (b, missing_array floatArrayXml
                       (ignerr, "Normal source missing float_array element, or count is invalid.")
                       "Normal source has a float_array with a count of zero. This is likely not desired"
                       w)
          end
      end
  end.

(** One [<input>] of [<vertices>] (lines 915-924). *)
Definition vertices_input (_transform : Matrix4d) (inputXml : XMLElement)
    (st : buffers Vector3d * buffers Vector3d * Loader)
  : outcome (buffers Vector3d * buffers Vector3d * Loader) :=
  let '(verts, norms, w) := st in
  semantic ← std_string (Attribute "semantic" inputXml);
  sourceStr ← std_string (Attribute "source" inputXml);
  if String.eqb semantic "NORMAL" then
    '(norms, w) ← LoadNormals sourceStr _transform norms w;
    Ok (verts, norms, w)
  else if String.eqb semantic "POSITION" then
    '(verts, w) ← LoadPositions sourceStr _transform verts w;
    Ok (verts, norms, w)
  else Ok (verts, norms, w).

(** LoadVertices with the duplicate maps (lines 896-928); [verts] and
    [norms] pair each vector buffer with its map. *)
Definition LoadVertices (_id : string) (_transform : Matrix4d)
    (verts norms : buffers Vector3d) (w : Loader)
  : outcome (buffers Vector3d * buffers Vector3d * Loader) :=
  root ← deref (colladaXml w);
  match ElementId_in root "vertices" _id with
  | None =>
      Ok (verts, norms,
          emit ignerr ("Unable to find vertices[" ++ _id ++ "] in collada file") w)
  | Some verticesXml =>
      each_named "input" (vertices_input _transform) (children verticesXml)
                 (verts, norms, w)
  end.

End loaders.
End Sources.

(** ** Geometry weaver: LoadTriangles and LoadPolylist (lines 1417-1997) *)

Module Weaver.

(** The per-vertex accumulator of ColladaLoaderPrivate.hh (a declaration
    that is not in this part of the repository).  A field that the loader
    leaves unset reads 0 here; such a field is never compared. *)
Record GeometryIndices : Type := {
  vertexIndex : Z;
  normalIndex : Z;
  texcoordIndex : Z;
  mappedIndex : Z;
}.

Definition VERTEX : Z := 0.
Definition NORMAL : Z := 1.
Definition TEXCOORD : Z := 2.

(** The two loaders share the text of the per-corner block but for the
    skinning lines. *)
Inductive primitive : Type := Triangles | Polylist.

Section weaver.
Context `{IgnMath} `{Parsers} `{Materials}.

(** The local variables that the [<input>] loop sets. *)
Record Inputs : Type := {
  verts : list Vector3d;
  positionDupMap : gmap Z Z;
  norms : list Vector3d;
  normalDupMap : gmap Z Z;
  texcoords : list Vector2d;
  texDupMap : gmap Z Z;
  inputs : gmap Z Z;               (* std::map<const unsigned int, int> *)
  otherSemantics : Z;
  hasVertices : bool;
  hasNormals : bool;
  hasTexcoords : bool;
  combinedVertNorms : bool;
  offsetSize : Z;                  (* LoadTriangles only *)
}.

Definition no_inputs : Inputs :=
  {| verts := []; positionDupMap := ∅; norms := []; normalDupMap := ∅;
     texcoords := []; texDupMap := ∅; inputs := ∅;
     otherSemantics := TEXCOORD + 1;
     hasVertices := false; hasNormals := false; hasTexcoords := false;
     combinedVertNorms := false; offsetSize := 0 |}.

(** [inputs[slot]] *)
Definition input_offset (inp : Inputs) (slot : Z) : Z :=
  default 0%Z (inputs inp !! slot).

(** [if (dup.find(i) != dup.end()) i = dup[i];] *)
Definition remap (dup : gmap Z Z) (i : Z) : Z := default i (dup !! i).

(** *** The [<input>] loops (lines 1479-1515 and 1775-1812) *)

Definition unsupported (p : primitive) (semantic : string) : message :=
  (ignwarn,
   ((match p with Triangles => "Triangle" | Polylist => "Polylist" end)
    ++ " input semantic: '" ++ semantic ++ "' is currently not supported")%string).

Definition input_step (p : primitive) (_transform : Matrix4d)
    (inputXml : XMLElement) (st : Inputs * Loader) : outcome (Inputs * Loader) :=
  let '(inp, w) := st in
  semantic ← std_string (Attribute "semantic" inputXml);
  source ← std_string (Attribute "source" inputXml);
  offset ← std_string (Attribute "offset" inputXml);
  '(inp, w) ←
    (if String.eqb semantic "VERTEX" then
       let count := length (norms inp) in
       '(v, n, w) ← Sources.LoadVertices source _transform
                      (verts inp, positionDupMap inp)
                      (norms inp, normalDupMap inp) w;
       Ok ({| verts := v.1; positionDupMap := v.2;
              norms := n.1; normalDupMap := n.2;
              texcoords := texcoords inp; texDupMap := texDupMap inp;
              inputs := <[VERTEX := parseInt offset]> (inputs inp);
              otherSemantics := otherSemantics inp;
              hasVertices := true; hasNormals := hasNormals inp;
              hasTexcoords := hasTexcoords inp;
              combinedVertNorms :=
                if bool_decide (count < length n.1) then true
                else combinedVertNorms inp;
              offsetSize := offsetSize inp |}, w)
     else if String.eqb semantic "NORMAL" then
       '(n, w) ← Sources.LoadNormals source _transform
                   (norms inp, normalDupMap inp) w;
       Ok ({| verts := verts inp; positionDupMap := positionDupMap inp;
              norms := n.1; normalDupMap := n.2;
              texcoords := texcoords inp; texDupMap := texDupMap inp;
              inputs := <[NORMAL := parseInt offset]> (inputs inp);
              otherSemantics := otherSemantics inp;
              hasVertices := hasVertices inp; hasNormals := true;
              hasTexcoords := hasTexcoords inp;
              combinedVertNorms := false;
              offsetSize := offsetSize inp |}, w)
     else if String.eqb semantic "TEXCOORD"
             && match p with
                | Triangles => negb (hasTexcoords inp)
                | Polylist => true
                end then
       (* we currently only support one set of UVs *)
       '(t, w) ← Sources.LoadTexCoords source
                   (texcoords inp, texDupMap inp) w;
       Ok ({| verts := verts inp; positionDupMap := positionDupMap inp;
              norms := norms inp; normalDupMap := normalDupMap inp;
              texcoords := t.1; texDupMap := t.2;
              inputs := <[TEXCOORD := parseInt offset]> (inputs inp);
              otherSemantics := otherSemantics inp;
              hasVertices := hasVertices inp; hasNormals := hasNormals inp;
              hasTexcoords := true;
              combinedVertNorms := combinedVertNorms inp;
              offsetSize := offsetSize inp |}, w)
     else
       Ok ({| verts := verts inp; positionDupMap := positionDupMap inp;
              norms := norms inp; normalDupMap := normalDupMap inp;
              texcoords := texcoords inp; texDupMap := texDupMap inp;
              inputs := <[otherSemantics inp := parseInt offset]> (inputs inp);
              otherSemantics := u32 (otherSemantics inp + 1);
              hasVertices := hasVertices inp; hasNormals := hasNormals inp;
              hasTexcoords := hasTexcoords inp;
              combinedVertNorms := combinedVertNorms inp;
              offsetSize := offsetSize inp |},
           emit (unsupported p semantic).1 (unsupported p semantic).2 w));
  (* [offsetSize++] closes the loop body of LoadTriangles *)
  Ok (match p with
      | Triangles =>
          {| verts := verts inp; positionDupMap := positionDupMap inp;
             norms := norms inp; normalDupMap := normalDupMap inp;
             texcoords := texcoords inp; texDupMap := texDupMap inp;
             inputs := inputs inp; otherSemantics := otherSemantics inp;
             hasVertices := hasVertices inp; hasNormals := hasNormals inp;
             hasTexcoords := hasTexcoords inp;
             combinedVertNorms := combinedVertNorms inp;
             offsetSize := u32 (offsetSize inp + 1) |}
      | Polylist => inp
      end, w).

Definition read_inputs (p : primitive) (_transform : Matrix4d)
    (primXml : XMLElement) (w : Loader) : outcome (Inputs * Loader) :=
  each_named "input" (input_step p _transform) (children primXml)
             (no_inputs, w).

(** *** One corner (lines 1577-1712 and 1867-1992) *)

(** Modelled from the spec: [AddIndex] appends to the index stream. *)
Definition AddIndex (i : Z) (s : SubMesh) : SubMesh :=
  {| sm_name := sm_name s; sm_primitive := sm_primitive s;
     sm_material := sm_material s; sm_vertices := sm_vertices s;
     sm_normals := sm_normals s; sm_texcoords := sm_texcoords s;
     sm_indices := sm_indices s ++ [i];
     sm_assignments := sm_assignments s |}.

(** Modelled from the spec: [AddVertex] appends a position. *)
Definition AddVertex (v : Vector3d) (s : SubMesh) : SubMesh :=
  {| sm_name := sm_name s; sm_primitive := sm_primitive s;
     sm_material := sm_material s; sm_vertices := sm_vertices s ++ [v];
     sm_normals := sm_normals s; sm_texcoords := sm_texcoords s;
     sm_indices := sm_indices s; sm_assignments := sm_assignments s |}.

(** Modelled from the spec: [SetVertex(i, v)] replaces position [i]. *)
Definition SetVertex (i : Z) (v : Vector3d) (s : SubMesh) : SubMesh :=
  {| sm_name := sm_name s; sm_primitive := sm_primitive s;
     sm_material := sm_material s;
     sm_vertices := <[Z.to_nat i := v]> (sm_vertices s);
     sm_normals := sm_normals s; sm_texcoords := sm_texcoords s;
     sm_indices := sm_indices s; sm_assignments := sm_assignments s |}.

(** Modelled from the spec: [AddNormal] appends a normal. *)
Definition AddNormal (n : Vector3d) (s : SubMesh) : SubMesh :=
  {| sm_name := sm_name s; sm_primitive := sm_primitive s;
     sm_material := sm_material s; sm_vertices := sm_vertices s;
     sm_normals := sm_normals s ++ [n]; sm_texcoords := sm_texcoords s;
     sm_indices := sm_indices s; sm_assignments := sm_assignments s |}.

(** Modelled from the spec: [AddTexCoord(u, v)] appends a texture
    coordinate. *)
Definition AddTexCoord (u v : float) (s : SubMesh) : SubMesh :=
  {| sm_name := sm_name s; sm_primitive := sm_primitive s;
     sm_material := sm_material s; sm_vertices := sm_vertices s;
     sm_normals := sm_normals s;
     sm_texcoords := sm_texcoords s ++ [mkVector2d u v];
     sm_indices := sm_indices s; sm_assignments := sm_assignments s |}.

(** Modelled from the spec: [AddNodeAssignment] appends one
    (vertex, node handle, weight) assignment. *)
Definition AddNodeAssignment (vertex handle : Z) (weight : float)
    (s : SubMesh) : SubMesh :=
  {| sm_name := sm_name s; sm_primitive := sm_primitive s;
     sm_material := sm_material s; sm_vertices := sm_vertices s;
     sm_normals := sm_normals s; sm_texcoords := sm_texcoords s;
     sm_indices := sm_indices s;
     sm_assignments := sm_assignments s ++ [(vertex, handle, weight)] |}.

(** Modelled from the spec: the number of positions. *)
Definition VertexCount (s : SubMesh) : Z := Z.of_nat (length (sm_vertices s)).

(** Modelled from the spec: the attachments of a source vertex, none when
    the skeleton has no such vertex. *)
Definition VertNodeWeights (sk : Skeleton) (vertex : Z)
  : list (string * float) :=
  default [] (nthZ (sk_rawNodeWeights sk) vertex).

(** Modelled from the spec: [NodeByName] gives the handle of the node of
    that name, null when the skeleton has none. *)
Definition NodeByName (sk : Skeleton) (name : string) : list Z :=
  match List.find (λ nh, String.eqb nh.1 name) (sk_handles sk) with
  | Some nh => [nh.2]
  | None => []
  end.

(** [values[inputs[NORMAL]]] through the normal duplicates. *)
Definition remapped_normal (inp : Inputs) (values : list Z) : outcome Z :=
  n ← vec_at values (input_offset inp NORMAL);
  Ok (remap (normalDupMap inp) n).

Definition remapped_texcoord (inp : Inputs) (values : list Z) : outcome Z :=
  t ← vec_at values (input_offset inp TEXCOORD);
  Ok (remap (texDupMap inp) t).

(** The scan of [inputValues] for an entry with the same normal and
    texcoord indices; the result is the index to reuse, if any. *)
Fixpoint find_shared (inp : Inputs) (values : list Z)
    (inputValues : list GeometryIndices) : outcome (option Z) :=
  match inputValues with
  | [] => Ok None
  | iv :: rest =>
      normEqual ←
        (if hasNormals inp
         then n ← remapped_normal inp values; Ok (normalIndex iv =? n)%Z
         else Ok false);
      texEqual ←
        (if hasTexcoords inp
         then t ← remapped_texcoord inp values; Ok (texcoordIndex iv =? t)%Z
         else Ok false);
      if (negb (hasNormals inp) || normEqual)
         && (negb (hasTexcoords inp) || texEqual)
      then Ok (Some (mappedIndex iv))
      else find_shared inp values rest
  end.

(** The skinning lines of the two loaders. *)
Definition skin_vertex (p : primitive) (_mesh : Mesh) (values : list Z)
    (daeVertIndex newVertIndex : Z) (subMesh : SubMesh) : outcome SubMesh :=
  match mesh_skeleton _mesh with
  | None => Ok subMesh
  | Some skel =>
      '(subMesh, vertex) ←
        match p with
        | Polylist =>
            v ← vec_at (sm_vertices subMesh) newVertIndex;
            Ok (SetVertex newVertIndex
                  (Matrix4d_mul_vec (sk_bindShape skel) v) subMesh,
                daeVertIndex)
        | Triangles =>
            v ← vec_at values daeVertIndex;
            Ok (subMesh, v)
        end;
      foldl (λ acc node_weight,
               s ← acc;
               node ← deref (NodeByName skel node_weight.1);
               Ok (AddNodeAssignment (VertexCount s - 1) node
                                     node_weight.2 s))
            (Ok subMesh) (VertNodeWeights skel vertex)
  end.

(** "if the vertex index is new or can not be shared then add it" *)
Definition add_corner (p : primitive) (inp : Inputs) (_mesh : Mesh)
    (values : list Z) (daeVertIndex : Z)
    (st : SubMesh * gmap Z (list GeometryIndices))
  : outcome (SubMesh * gmap Z (list GeometryIndices)) :=
  let '(subMesh, vertexIndexMap) := st in
  '(subMesh, vIdx, mIdx) ←
    (if hasVertices inp then
       v ← vec_at (verts inp) daeVertIndex;
       let subMesh := AddVertex v subMesh in
       let newVertIndex := u32 (VertexCount subMesh - 1) in
       let subMesh := AddIndex newVertIndex subMesh in
       subMesh ← (if combinedVertNorms inp
                  then n ← vec_at (norms inp) daeVertIndex;
                       Ok (AddNormal n subMesh)
                  else Ok subMesh);
       subMesh ← skin_vertex p _mesh values daeVertIndex newVertIndex subMesh;
       Ok (subMesh, daeVertIndex, newVertIndex)
     else Ok (subMesh, 0%Z, 0%Z));
  '(subMesh, nIdx) ←
    (if hasNormals inp then
       n ← remapped_normal inp values;
       v ← vec_at (norms inp) n;
       Ok (AddNormal v subMesh, n)
     else Ok (subMesh, 0%Z));
  '(subMesh, tIdx) ←
    (if hasTexcoords inp then
       t ← remapped_texcoord inp values;
       uv ← vec_at (texcoords inp) t;
       Ok (AddTexCoord (V2X uv) (V2Y uv) subMesh, t)
     else Ok (subMesh, 0%Z));
  let input := {| vertexIndex := vIdx; normalIndex := nIdx;
                  texcoordIndex := tIdx; mappedIndex := mIdx |} in
  (* add the new ignition submesh vertex index to the map *)
  Ok (subMesh,
      if hasVertices inp
      then <[daeVertIndex := [input]]> vertexIndexMap
      else vertexIndexMap).

Definition weave_corner (p : primitive) (inp : Inputs) (_mesh : Mesh)
    (values : list Z) (st : SubMesh * gmap Z (list GeometryIndices))
  : outcome (SubMesh * gmap Z (list GeometryIndices)) :=
  let '(subMesh, vertexIndexMap) := st in
  if hasVertices inp then
    v ← vec_at values (input_offset inp VERTEX);
    let daeVertIndex := remap (positionDupMap inp) v in
    match vertexIndexMap !! daeVertIndex with
    | None => add_corner p inp _mesh values daeVertIndex st
    | Some inputValues =>
        reuse ← find_shared inp values inputValues;
        match reuse with
        | Some reuseIndex => Ok (AddIndex reuseIndex subMesh, vertexIndexMap)
        | None => add_corner p inp _mesh values daeVertIndex st
        end
    end
  else add_corner p inp _mesh values 0 st.

End weaver.
End Weaver.

(** *** The index loops and the two loaders *)

Fixpoint collect {A B} (f : A → outcome B) (l : list A) : outcome (list B) :=
  match l with
  | [] => Ok []
  | x :: rest => y ← f x; ys ← collect f rest; Ok (y :: ys)
  end.

Fixpoint foldM {A S} (f : A → S → outcome S) (l : list A) (s : S) : outcome S :=
  match l with
  | [] => Ok s
  | x :: rest => s' ← f x s; foldM f rest s'
  end.

Module Primitives.
Import Weaver.

Section primitives.
Context `{IgnMath} `{Parsers} `{Materials}.

(** Lines 1431-1451 and 1732-1751 resolve the [material] attribute through
    the material map and LoadMaterial (lines 1244-1416) and set the material
    index of the sub-mesh.  They do not touch the geometry; the loaders are
    modelled for every behaviour of that block. *)
Variable bind_material :
  string → Mesh → SubMesh → Loader → outcome (Mesh * SubMesh * Loader).

(** Modelled from the spec: a new sub-mesh is empty, of triangles, with no
    material. *)
Definition SubMesh_new : SubMesh :=
  {| sm_name := ""; sm_primitive := TRIANGLES; sm_material := None;
     sm_vertices := []; sm_normals := []; sm_texcoords := [];
     sm_indices := []; sm_assignments := [] |}.

(** Modelled from the spec: the setter of the name. *)
Definition SetName (n : string) (s : SubMesh) : SubMesh :=
  {| sm_name := n; sm_primitive := sm_primitive s;
     sm_material := sm_material s; sm_vertices := sm_vertices s;
     sm_normals := sm_normals s; sm_texcoords := sm_texcoords s;
     sm_indices := sm_indices s; sm_assignments := sm_assignments s |}.

(** Lines 1425-1451 and 1726-1751. *)
Definition start_submesh (primXml : XMLElement) (_mesh : Mesh) (w : Loader)
  : outcome (Mesh * SubMesh * Loader) :=
  let subMesh := SetName (currentNodeName w) SubMesh_new in
  match Attribute "material" primXml with
  | Some matStr => bind_material matStr _mesh subMesh w
  | None => Ok (_mesh, subMesh, w)
  end.

Section loops.
Variable inp : Inputs.
Variable _mesh : Mesh.
Variable strs : list string.

(** [values[i] = parseInt(first[i])] for the [W] slots of one corner, the
    token of slot [i] being the one at [place i]. *)
Definition read_values (W : Z) (place : Z → Z) : outcome (list Z) :=
  collect (λ i, s ← vec_at strs (place i); Ok (u32 (parseInt s))) (seqZ 0 W).

(** LoadTriangles, lines 1862-1993:
    [for (j = 0; j < strs.size(); j += offsetSize)]. *)
Fixpoint triangles_loop (fuel : nat) (j : Z)
    (st : SubMesh * gmap Z (list GeometryIndices))
  : outcome (SubMesh * gmap Z (list GeometryIndices)) :=
  if (j <? Z.of_nat (length strs))%Z then
    match fuel with
    | O => OutOfFuel
    | S fuel' =>
        values ← read_values (offsetSize inp) (λ i, u32 (j + i));
        st' ← weave_corner Triangles inp _mesh values st;
        triangles_loop fuel' (u32 (j + offsetSize inp)) st'
    end
  else Ok st.

(** LoadPolylist, lines 1551-1713: corner [j] of the triangle that ends at
    polygon vertex [k]; [base] is the place of [strs_iter] in [strs] and [W]
    is [inputs.size()]. *)
Definition polylist_corner (W base k j : Z)
    (st : SubMesh * gmap Z (list GeometryIndices))
  : outcome (SubMesh * gmap Z (list GeometryIndices)) :=
  let triangle_index :=
    if (j =? 0)%Z then 0%Z
    else if (j =? 1)%Z then u32 ((k - 1) * W)
    else u32 (k * W) in
  values ← read_values W (λ i, base + u32 (triangle_index + i))%Z;
  weave_corner Polylist inp _mesh values st.

(** [for (j = 0; j < 3; ++j)] *)
Definition polylist_triangle (W base k : Z)
    (st : SubMesh * gmap Z (list GeometryIndices))
  : outcome (SubMesh * gmap Z (list GeometryIndices)) :=
  foldM (polylist_corner W base k) [0; 1; 2]%Z st.

(** [for (k = 2; k < (unsigned int)vcounts[l]; ++k)] *)
Definition polylist_polygon (W base vcount : Z)
    (st : SubMesh * gmap Z (list GeometryIndices))
  : outcome (SubMesh * gmap Z (list GeometryIndices)) :=
  foldM (polylist_triangle W base) (seqZ 2 (u32 vcount - 2)) st.

(** [for (l = 0; l < vcounts.size(); ++l)], with the count of the polygon
    before [l], if there is one. *)
Fixpoint polylist_polygons (W : Z) (previous : option Z) (base : Z)
    (vcounts : list Z) (st : SubMesh * gmap Z (list GeometryIndices))
  : outcome (SubMesh * gmap Z (list GeometryIndices)) :=
  match vcounts with
  | [] => Ok st
  | vcount :: rest =>
      (* put us at the beginning of the polygon list *)
      let base := match previous with
                  | Some before => (base + W * before)%Z
                  | None => base
                  end in
      st' ← polylist_polygon W base vcount st;
      polylist_polygons W (Some vcount) base rest st'
  end.

End loops.

Definition LoadTriangles (fuel : nat) (_trianglesXml : XMLElement)
    (_transform : Matrix4d) (_mesh : Mesh) (w : Loader)
  : outcome (Mesh * Loader) :=
  '(_mesh, subMesh, w) ← start_submesh _trianglesXml _mesh w;
  '(inp, w) ← read_inputs Triangles _transform _trianglesXml w;
  let pXml := FirstChildElement "p" _trianglesXml in
  match Sources.array_text pXml with
  | None =>
      let count : Z :=
        match Attribute "count" _trianglesXml with
        | Some c => default 1%Z (lexical_cast_int c)
        | None => 1%Z
        end in
      Ok (_mesh,
          if (count =? 0)%Z
          then emit ignlog
                 "Triangle input has a count of zero. This is likely not desired" w
          else emit ignerr
                 ("Collada file[" ++ filename w ++ "] is invalid. Loading what we can...") w)
  | Some pStr =>
      let strs := split_spaces pStr in
      '(subMesh, _) ← triangles_loop inp _mesh strs fuel 0 (subMesh, ∅);
      Ok (AddSubMesh subMesh _mesh, w)
  end.

Definition LoadPolylist (_polylistXml : XMLElement) (_transform : Matrix4d)
    (_mesh : Mesh) (w : Loader) : outcome (Mesh * Loader) :=
  '(_mesh, subMesh, w) ← start_submesh _polylistXml _mesh w;
  '(inp, w) ← read_inputs Polylist _transform _polylistXml w;
  vcountXml ← deref (FirstChildElement "vcount" _polylistXml);
  vcountStr ← std_string (GetText vcountXml);
  let vcounts := parseInt <$> split_spaces vcountStr in
  pXml ← deref (FirstChildElement "p" _polylistXml);
  pStr ← std_string (GetText pXml);
  let strs := split_spaces pStr in
  '(subMesh, _) ←
    polylist_polygons inp _mesh strs (Z.of_nat (size (inputs inp))) None 0
                      vcounts (subMesh, ∅);
  Ok (AddSubMesh subMesh _mesh, w).

End primitives.
End Primitives.

(** The texcoord loader as the specification states it. *)
Module TexcoordSpec.
Section spec.
Context `{Parsers}.

(** The texcoord made of the tokens at [i] and [i + 1]: [(u, 1.0 - v)]. *)
Definition flipped_pair (values : list string) (i : Z) (uv : Vector2d) : Prop :=
  ∃ su sv u v,
    nthZ values i = Some su ∧ nthZ values (i + 1) = Some sv
    ∧ lexical_cast_double su = Some u ∧ lexical_cast_double sv = Some v
    ∧ uv = mkVector2d u (1 - v).

End spec.
End TexcoordSpec.

(** The weaver as the specification states it. *)
Module WeaverSpec.
Import Weaver.

Section spec.
Context `{IgnMath} `{Parsers} `{Materials}.

(** A corner whose remapped position index [p] is already in the map while
    no stored entry has its remapped normal and texcoord indices. *)
Definition unmatched_corner (inp : Inputs) (values : list Z)
    (vertexIndexMap : gmap Z (list GeometryIndices)) (p : Z)
    (entries : list GeometryIndices) : Prop :=
  hasVertices inp = true
  ∧ (∃ v, vec_at values (input_offset inp VERTEX) = Ok v
          ∧ p = remap (positionDupMap inp) v)
  ∧ vertexIndexMap !! p = Some entries
  ∧ find_shared inp values entries = Ok None.

(** The statement that such a corner leaves [vertexIndexMap[p]] as it
    was. *)
Definition retains_first_entry (prim : primitive) : Prop :=
  ∀ inp _mesh values subMesh vertexIndexMap p entries subMesh' vertexIndexMap',
    unmatched_corner inp values vertexIndexMap p entries →
    weave_corner prim inp _mesh values (subMesh, vertexIndexMap)
    = Ok (subMesh', vertexIndexMap') →
    vertexIndexMap' !! p = Some entries.

(** The record of a vertex that the corner [values] has just added as
    output vertex number [mapped] for position [p]. *)
Definition records (inp : Inputs) (values : list Z) (p mapped : Z)
    (input : GeometryIndices) : Prop :=
  vertexIndex input = p
  ∧ mappedIndex input = mapped
  ∧ (hasNormals inp = true →
     remapped_normal inp values = Ok (normalIndex input))
  ∧ (hasTexcoords inp = true →
     remapped_texcoord inp values = Ok (texcoordIndex input)).

(** Every position index in the map has exactly one entry, its own. *)
Definition one_entry_each (vertexIndexMap : gmap Z (list GeometryIndices))
  : Prop :=
  ∀ p entries, vertexIndexMap !! p = Some entries →
    ∃ input, entries = [input] ∧ vertexIndex input = p.





End spec.
End WeaverSpec.

(** ** Sample collaborators and documents

    One implementation of the two interfaces above, used to run the loader
    on concrete documents: plain decimal literals for the conversions and
    row-major lists for the matrices.  Rotation matrices are not computed
    here ([Axis] yields the identity). *)

Module Sample.

Definition digit (c : Ascii.ascii) : option Z :=
  let n := Z.of_nat (Ascii.nat_of_ascii c) in
  if ((48 <=? n) && (n <=? 57))%Z then Some (n - 48)%Z else None.

Fixpoint digits (s : string) (acc : Z) : option Z :=
  match s with
  | EmptyString => Some acc
  | String c s' => d ← digit c; digits s' (10 * acc + d)%Z
  end.

Definition unsigned_int (s : string) : option Z :=
  match s with
  | EmptyString => None
  | _ => digits s 0
  end.

Definition decimal_int (s : string) : option Z :=
  match s with
  | String "-"%char s' => Z.opp <$> unsigned_int s'
  | _ => unsigned_int s
  end.

(** [whole.frac] as the double nearest to the quotient of two integers. *)
Fixpoint split_point (s : string) : string * option string :=
  match s with
  | EmptyString => (EmptyString, None)
  | String "."%char s' => (EmptyString, Some s')
  | String c s' => let '(w, f) := split_point s' in (String c w, f)
  end.

Definition float_of_Z (z : Z) : float := PrimFloat.of_uint63 (Uint63.of_Z z).

Definition unsigned_double (s : string) : option float :=
  let '(w, f) := split_point s in
  let frac := default EmptyString f in
  match s with
  | EmptyString => None
  | _ =>
      m ← digits (w ++ frac) 0;
      Some (float_of_Z m / float_of_Z (10 ^ Z.of_nat (String.length frac)))%float
  end.

Definition decimal_double (s : string) : option float :=
  match s with
  | String "-"%char s' => PrimFloat.opp <$> unsigned_double s'
  | _ => unsigned_double s
  end.

Fixpoint words_from (s : string) (cur : string) : list string :=
  match s with
  | EmptyString => [cur]
  | String c s' =>
      if Ascii.eqb c " "%char then cur :: words_from s' EmptyString
      else words_from s' (cur ++ String c EmptyString)
  end.

Definition words (s : string) : list string :=
  List.filter (λ w, negb (String.eqb w EmptyString)) (words_from s EmptyString).

Fixpoint leading_doubles (ws : list string) : list float :=
  match ws with
  | [] => []
  | w :: rest =>
      match decimal_double w with
      | Some d => d :: leading_doubles rest
      | None => []
      end
  end.

Definition vector3_of (s : string) : option Vector3d :=
  match words s with
  | [a; b; c] =>
      x ← decimal_double a; y ← decimal_double b; z ← decimal_double c;
      Some (mkVector3d x y z)
  | _ => None
  end.

#[export] Instance parsers : Parsers := {|
  parseInt s := default 0%Z (decimal_int s);
  parseFloat s := default nan (decimal_double s);
  lexical_cast_int := decimal_int;
  lexical_cast_double := decimal_double;
  lexical_cast_Vector3d := vector3_of;
  istringstream_doubles s := leading_doubles (words s);
|}.

Definition entry (m : list float) (i : nat) : float := default 0%float (m !! i).

Definition identity4 : list float :=
  [1; 0; 0; 0;  0; 1; 0; 0;  0; 0; 1; 0;  0; 0; 0; 1]%float.

Definition mul4 (a b : list float) : list float :=
  (λ k, let r := (k / 4)%nat in let c := (k mod 4)%nat in
        (entry a (4 * r) * entry b c + entry a (4 * r + 1) * entry b (4 + c)
         + entry a (4 * r + 2) * entry b (8 + c)
         + entry a (4 * r + 3) * entry b (12 + c))%float) <$> seq 0 16.

Definition mul4_vec (m : list float) (p : Vector3d) : Vector3d :=
  let row r := (entry m (4 * r) * V3X p + entry m (4 * r + 1) * V3Y p
                + entry m (4 * r + 2) * V3Z p + entry m (4 * r + 3))%float in
  mkVector3d (row 0%nat) (row 1%nat) (row 2%nat).

Definition normalize (p : Vector3d) : Vector3d :=
  let d := PrimFloat.sqrt (V3X p * V3X p + V3Y p * V3Y p + V3Z p * V3Z p)%float in
  if PrimFloat.eqb d 0 then p
  else mkVector3d (V3X p / d) (V3Y p / d) (V3Z p / d).

#[export] Instance math : IgnMath := {|
  Matrix4d := list float;
  Matrix3d := list float;
  Matrix4d_Identity := identity4;
  Matrix4d_default := replicate 16 0%float;
  Matrix3d_default := replicate 9 0%float;
  Matrix4d_Set vals _ := vals;
  Matrix4d_Translate t m := <[3 := V3X t]> (<[7 := V3Y t]> (<[11 := V3Z t]> m));
  Matrix4d_Scale s m :=
    <[0 := V3X s]> (<[5 := V3Y s]> (<[10 := V3Z s]> (<[15 := 1%float]> m)));
  Matrix4d_mul := mul4;
  Matrix4d_mul_vec := mul4_vec;
  Matrix3d_Axis _ _ _ := [1; 0; 0;  0; 1; 0;  0; 0; 1]%float;
  Matrix4d_assign3 m3 m :=
    [entry m3 0; entry m3 1; entry m3 2; 0;
     entry m3 3; entry m3 4; entry m3 5; 0;
     entry m3 6; entry m3 7; entry m3 8; 0;
     0; 0; 0; 1]%float;
  IGN_DTOR a := (a * 0x1.921fb54442d18p+1 / 180)%float;
  Vector3d_Zero := mkVector3d 0 0 0;
  Vector3d_Normalize := normalize;
  Vector3d_eq a b :=
    PrimFloat.eqb (V3X a) (V3X b) && PrimFloat.eqb (V3Y a) (V3Y b)
    && PrimFloat.eqb (V3Z a) (V3Z b);
  Vector2d_eq a b :=
    PrimFloat.eqb (V2X a) (V2X b) && PrimFloat.eqb (V2Y a) (V2Y b);
|}.

(** A library with two nested animation groups. *)
Definition two_animation_groups : XMLElement :=
  Element "library_animations" [] None
    [ Element "animation" [("id", "walk")] None
        [Element "animation" [] None []];
      Element "animation" [("id", "run")] None
        [Element "animation" [] None []] ]%string.

(** A joint that is placed by a translation and a scale. *)
Definition scaled_joint : XMLElement :=
  Element "node" [("id", "hip"); ("type", "JOINT")] None
    [ Element "translate" [("sid", "location")] (Some "0 0 1") [];
      Element "scale" [("sid", "scale")] (Some "2 2 2") [] ]%string.

#[export] Instance materials : Materials := {| Material := string |}.

(** A loader as its constructor leaves it. *)
Definition fresh_loader : Loader :=
  {| meter := 1; filename := ""; path := ""; colladaXml := [];
     currentNodeName := ""; materialMap := ∅; materialIds := ∅;
     sources := no_sources; console := [] |}.

(** A COLLADA 1.5.0 document with an empty visual scene, and a disk that
    holds it. *)
Definition collada_1_5 : XMLElement :=
  Element "COLLADA" [("version", "1.5.0")] None
    [ Element "asset" [] None [Element "unit" [("meter", "0.5")] None []];
      Element "library_visual_scenes" [] None
        [Element "visual_scene" [("id", "Scene")] None []];
      Element "scene" [] None
        [Element "instance_visual_scene" [("url", "#Scene")] None []] ]%string.

Definition disk : Driver.FileSystem :=
  λ name, if String.eqb name "meshes/model.dae" then (0%Z, [collada_1_5])
          else (3%Z, []).

(** A node loader that adds nothing. *)
Definition skip_node : XMLElement → Mesh → Matrix4d → Loader
                       → outcome (Mesh * Loader) :=
  λ _ m _ w, Ok (m, w).

(** A joint that is placed by a translation and a rotation only. *)
Definition turned_joint : XMLElement :=
  Element "node" [("id", "knee"); ("type", "JOINT")] None
    [ Element "translate" [("sid", "location")] (Some "0 0 1") [];
      Element "rotate" [("sid", "rotationZ")] (Some "0 0 1 90") [] ]%string.

(** A loader that holds a parsed document. *)
Definition loader_on (root : XMLElement) : Loader :=
  {| meter := 1; filename := ""; path := ""; colladaXml := [root];
     currentNodeName := "quad"; materialMap := ∅; materialIds := ∅;
     sources := no_sources; console := [] |}.

Definition float_source (id count text stride items : string) : XMLElement :=
  Element "source" [("id", id)] None
    [ Element "float_array" [("id", id ++ "-array"); ("count", count)]
        (Some text) [];
      Element "technique_common" [] None
        [Element "accessor" [("count", items); ("stride", stride)] None []]
    ]%string.

Definition input (semantic source offset : string) : XMLElement :=
  Element "input"
    [("semantic", semantic); ("source", source); ("offset", offset)]%string
    None [].

Definition normals_source : XMLElement :=
  float_source "normals" "6" "0 0 1 0 0 2" "3" "2".

Definition uvs_source : XMLElement :=
  float_source "uvs" "6" "0.25 0.75 0.5 0.5 0.25 0.75" "2" "3".

Definition uvs_array : XMLElement :=
  Element "float_array" [("id", "uvs-array"); ("count", "6")]
    (Some "0.25 0.75 0.5 0.5 0.25 0.75") []%string.

Definition uvs_accessor : XMLElement :=
  Element "accessor" [("count", "3"); ("stride", "2")] None []%string.

Definition uvs_technique : XMLElement :=
  Element "technique_common" [] None [uvs_accessor].

(** Two triangles with a second UV set at offset 3. *)
Definition square_triangles : XMLElement :=
  Element "triangles" [("count", "2")] None
    [ input "VERTEX" "#verts" "0"; input "NORMAL" "#normals" "1";
      input "TEXCOORD" "#uvs" "2"; input "TEXCOORD" "#uvs2" "3";
      Element "p" []
        (Some "0 0 0 0 1 0 1 0 2 0 2 0 0 0 0 0 2 0 2 0 3 1 1 0") [] ]%string.

(** The quad: a polylist with one VERTEX input, one polygon of four
    vertices and the indices 0 1 2 3. *)
Definition square_polylist : XMLElement :=
  Element "polylist" [("count", "1")] None
    [ input "VERTEX" "#verts" "0";
      Element "vcount" [] (Some "4") [];
      Element "p" [] (Some "0 1 2 3") [] ]%string.

(** A unit square with two normals that normalise to the same vector, three
    texcoords of which the last repeats the first, and a second UV set. *)
Definition square_mesh : XMLElement :=
  Element "mesh" [] None
    [ float_source "positions" "12" "0 0 0 1 0 0 1 1 0 0 1 0" "3" "4";
      normals_source;
      uvs_source;
      float_source "uvs2" "2" "0.5 0.25" "2" "1";
      Element "vertices" [("id", "verts")] None
        [Element "input" [("semantic", "POSITION"); ("source", "#positions")]
           None []];
      square_triangles;
      square_polylist
    ]%string.

Definition square_doc : XMLElement :=
  Element "COLLADA" [("version", "1.4.1")] None
    [Element "library_geometries" [] None
       [Element "geometry" [("id", "square")] None [square_mesh]]]%string.

Definition square_loader : Loader := loader_on square_doc.

(** What the loaders leave in the caller's buffers for the sample normals
    and texcoords. *)
Definition square_normals : list Vector3d * gmap Z Z :=
  ([mkVector3d 0 0 1; mkVector3d 0 0 1], {[1%Z := 0%Z]}).

Definition square_uvs : list Vector2d * gmap Z Z :=
  ([mkVector2d 0.25 0.25; mkVector2d 0.5 0.5; mkVector2d 0.25 0.25],
   {[2%Z := 0%Z]}).

(** One position seen under two normals. *)
Definition crease_inputs : Weaver.Inputs :=
  {| Weaver.verts := [mkVector3d 0 0 0]; Weaver.positionDupMap := ∅;
     Weaver.norms := [mkVector3d 0 0 1; mkVector3d 0 1 0];
     Weaver.normalDupMap := ∅;
     Weaver.texcoords := []; Weaver.texDupMap := ∅;
     Weaver.inputs := {[0%Z := 0%Z; 1%Z := 1%Z]};
     Weaver.otherSemantics := 3;
     Weaver.hasVertices := true; Weaver.hasNormals := true;
     Weaver.hasTexcoords := false; Weaver.combinedVertNorms := false;
     Weaver.offsetSize := 2 |}.

Definition crease_record (normal mapped : Z) : Weaver.GeometryIndices :=
  {| Weaver.vertexIndex := 0; Weaver.normalIndex := normal;
     Weaver.texcoordIndex := 0; Weaver.mappedIndex := mapped |}.

(** The map that holds one record for position 0. *)
Definition crease_map (normal mapped : Z)
  : gmap Z (list Weaver.GeometryIndices) :=
  {[0%Z := [crease_record normal mapped]]}.

(** The sub-mesh after the corner (0, normal 0), and after the corner
    (0, normal 1) that follows it. *)
Definition crease_after_first : SubMesh :=
  {| sm_name := ""; sm_primitive := TRIANGLES; sm_material := None;
     sm_vertices := [mkVector3d 0 0 0]; sm_normals := [mkVector3d 0 0 1];
     sm_texcoords := []; sm_indices := [0%Z]; sm_assignments := [] |}.

Definition crease_after_second : SubMesh :=
  {| sm_name := ""; sm_primitive := TRIANGLES; sm_material := None;
     sm_vertices := [mkVector3d 0 0 0; mkVector3d 0 0 0];
     sm_normals := [mkVector3d 0 0 1; mkVector3d 0 1 0];
     sm_texcoords := []; sm_indices := [0%Z; 1%Z]; sm_assignments := [] |}.

(** The same as a document: a triangle whose three corners are one
    position under the normals 0, 1 and 0 again. *)
Definition crease_triangles : XMLElement :=
  Element "triangles" [("count", "1")] None
    [ input "VERTEX" "#verts" "0"; input "NORMAL" "#normals" "1";
      Element "p" [] (Some "0 0 0 1 0 0") [] ]%string.

Definition crease_doc : XMLElement :=
  Element "COLLADA" [("version", "1.4.1")] None
    [Element "library_geometries" [] None
       [Element "geometry" [("id", "crease")] None
          [Element "mesh" [] None
             [ float_source "positions" "3" "0 0 0" "3" "1";
               float_source "normals" "6" "0 0 1 0 1 0" "3" "2";
               Element "vertices" [("id", "verts")] None
                 [Element "input"
                    [("semantic", "POSITION"); ("source", "#positions")]
                    None []];
               crease_triangles ]]]]%string.

(** No material is bound in the samples. *)
Definition no_material : string → Mesh → SubMesh → Loader
                         → outcome (Mesh * SubMesh * Loader) :=
  λ _ m s w, Ok (m, s, w).


(** The local variables of LoadTriangles once the first UV set of the
    sample has been taken. *)
Definition uv_taken : Weaver.Inputs :=
  {| Weaver.verts := []; Weaver.positionDupMap := ∅;
     Weaver.norms := []; Weaver.normalDupMap := ∅;
     Weaver.texcoords := square_uvs.1; Weaver.texDupMap := square_uvs.2;
     Weaver.inputs := {[2%Z := 2%Z]};
     Weaver.otherSemantics := 3;
     Weaver.hasVertices := false; Weaver.hasNormals := false;
     Weaver.hasTexcoords := true; Weaver.combinedVertNorms := false;
     Weaver.offsetSize := 1 |}.


(** A skeleton node as the constructor leaves it. *)
Definition fresh_node : @SkeletonTransform.SkeletonNode math :=
  @SkeletonTransform.Build_SkeletonNode math identity4 [].

End Sample.

(** The duplicate map as the specification states it. *)
Module DuplicateSpec.
Section spec.
Context {V : Type}.
Variable veq : V → V → bool.

(** [values[i] == values[d]] *)
Definition equal_at (values : list V) (i d : Z) : Prop :=
  ∃ x y, nthZ values i = Some x ∧ nthZ values d = Some y
         ∧ veq x y = true.

(** No earlier index holds a value equal to the one at [i]. *)
Definition first_occurrence (values : list V) (i : Z) : Prop :=
  ∀ d, (0 ≤ d < i)%Z → ¬ equal_at values i d.

Definition no_duplicate_values (values : list V) : Prop :=
  ∀ i, first_occurrence values i.

Definition duplicates_ok (values : list V) (duplicates : gmap Z Z) : Prop :=
  (∀ i d, duplicates !! i = Some d →
          equal_at values i d ∧ (0 ≤ d < i)%Z)
  ∧ (∀ i, first_occurrence values i → duplicates !! i = None)
  ∧ (no_duplicate_values values → duplicates = ∅).

(** The invariants of the loaders' loops.  Every entry of the map points
    back to an earlier, equal value; every key of [unique] is the value
    stored at its index. *)
Definition dup_inv (values : list V) (duplicates : gmap Z Z) : Prop :=
  ∀ i d, duplicates !! i = Some d → equal_at values i d ∧ (0 ≤ d < i)%Z.

Definition uniq_inv (values : list V) (unique : list (V * Z)) : Prop :=
  ∀ k idx, In (k, idx) unique → nthZ values idx = Some k.

Definition loop_inv (st : list V * (list (V * Z) * gmap Z Z)) : Prop :=
  dup_inv st.1 st.2.2 ∧ uniq_inv st.1 st.2.1.

End spec.

Section cache.
Context `{IgnMath}.

Definition entries_ok {V} (veq : V → V → bool)
    (ids : gmap string (list V)) (dups : gmap string (gmap Z Z)) : Prop :=
  ∀ id values, ids !! id = Some values →
    duplicates_ok veq values (default ∅ (dups !! id)).

Definition cache_ok (c : SourceCache) : Prop :=
  entries_ok Vector3d_eq (positionIds c) (positionDuplicateMap c)
  ∧ entries_ok Vector3d_eq (normalIds c) (normalDuplicateMap c)
  ∧ entries_ok Vector2d_eq (texcoordIds c) (texcoordDuplicateMap c).

End cache.
End DuplicateSpec.

(** * Further parts of the loader *)

(** ** Document order *)

Module DocumentOrder.

(** The elements of a tree in document order: an element comes before its
    children, and each child with all below it before the next child. *)
Fixpoint preorder (e : XMLElement) : list XMLElement :=
  e :: (fix below (elems : list XMLElement) : list XMLElement :=
          match elems with
          | [] => []
          | elem :: rest => preorder elem ++ below rest
          end) (children e).

(** The test of lines 862-864 on one element, for the id without its
    leading [#]. *)
Definition answers (_name id : string) (e : XMLElement) : bool :=
  (String.eqb id "" && String.eqb (Value e) _name)
  || attr_is "id" id e || attr_is "sid" id e.

End DocumentOrder.

(** ** Material binding of a primitive (lines 1431-1451 and 1732-1751) *)

Module MaterialBinding.
Section binding.
Context `{IgnMath} `{Materials}.

(** A [MaterialPtr]; the null pointer is [None]. *)
Abbreviation MaterialPtr := (option Material).

(** LoadMaterial (lines 1244-1342) and the two Mesh operations the block
    calls (Mesh.cc is not in this part of the repository).  The block is
    modelled for every behaviour of the three. *)
Variable LoadMaterial : string → Loader → outcome (MaterialPtr * Loader).
Variable IndexOfMaterial : MaterialPtr → Mesh → Z.
Variable AddMaterial : MaterialPtr → Mesh → Z * Mesh.

(** Modelled from the spec: the setter of the material index. *)
Definition SetMaterialIndex (i : Z) (s : SubMesh) : SubMesh :=
  {| sm_name := sm_name s; sm_primitive := sm_primitive s;
     sm_material := Some i; sm_vertices := sm_vertices s;
     sm_normals := sm_normals s; sm_texcoords := sm_texcoords s;
     sm_indices := sm_indices s; sm_assignments := sm_assignments s |}.

Definition bind_material (matStr : string) (_mesh : Mesh) (subMesh : SubMesh)
    (w : Loader) : outcome (Mesh * SubMesh * Loader) :=
  let matStr := default matStr (materialMap w !! matStr) in
  '(mat, w) ← LoadMaterial matStr w;
  let matIndex := IndexOfMaterial mat _mesh in
  let '(matIndex, _mesh) :=
    if (matIndex <? 0)%Z then AddMaterial mat _mesh else (matIndex, _mesh) in
  if (matIndex <? 0)%Z
  then Ok (_mesh, subMesh,
           emit ignwarn ("Unable to add material[" ++ matStr ++ "]") w)
  else Ok (_mesh, SetMaterialIndex matIndex subMesh, w).

End binding.
End MaterialBinding.

(** ** LoadNodeTransform (lines 281-342) *)

Module NodeTransforms.
Section transform.
Context `{IgnMath} `{Parsers}.

(** One [<rotate>] element, lines 312-327. *)
Definition rotate_element (rotateXml : XMLElement) (transform : Matrix4d)
  : outcome Matrix4d :=
  rotateStr ← std_string (GetText rotateXml);
  let vals := SkeletonTransform.extract 4 rotateStr in
  let axis := mkVector3d (SkeletonTransform.nth_double 0 vals)
                         (SkeletonTransform.nth_double 1 vals)
                         (SkeletonTransform.nth_double 2 vals) in
  let angle := SkeletonTransform.nth_double 3 vals in
  let mat := Matrix3d_Axis axis (IGN_DTOR angle) Matrix3d_default in
  let mat4 := Matrix4d_assign3 mat Matrix4d_Identity in
  Ok (Matrix4d_mul transform mat4).

Definition LoadNodeTransform (_elem : XMLElement) : outcome Matrix4d :=
  let transform := Matrix4d_Identity in
  match FirstChildElement "matrix" _elem with
  | m :: _ =>
      matrixStr ← std_string (GetText m);
      let values := SkeletonTransform.extract 16 matrixStr in
      Ok (Matrix4d_Set values transform)
  | [] =>
      transform ←
        match FirstChildElement "translate" _elem with
        | t :: _ =>
            transStr ← std_string (GetText t);
            translate ← lexical_cast (lexical_cast_Vector3d transStr);
            Ok (Matrix4d_Translate translate transform)
        | [] => Ok transform
        end;
      transform ← each_named "rotate" rotate_element (children _elem) transform;
      match FirstChildElement "scale" _elem with
      | sc :: _ =>
          scaleStr ← std_string (GetText sc);
          scale ← lexical_cast (lexical_cast_Vector3d scaleStr);
          let scaleMat := Matrix4d_Scale scale Matrix4d_default in
          Ok (Matrix4d_mul transform scaleMat)
      | [] => Ok transform
      end
  end.

End transform.
End NodeTransforms.

(** ** LoadLines (lines 2000-2033) *)

(** Extraction of ints from a std::istringstream: the values that
    successive [iss >> n] extract before the stream fails. *)
Class IntStream : Type := { istringstream_ints : string → list Z }.

Module Lines.
Import Weaver.
Section lines.
Context `{IgnMath} `{Parsers} `{Materials} `{IntStream}.

(** Modelled from the spec: the setter of the primitive kind. *)
Definition SetPrimitiveType (t : PrimitiveType) (s : SubMesh) : SubMesh :=
  {| sm_name := sm_name s; sm_primitive := t;
     sm_material := sm_material s; sm_vertices := sm_vertices s;
     sm_normals := sm_normals s; sm_texcoords := sm_texcoords s;
     sm_indices := sm_indices s; sm_assignments := sm_assignments s |}.

(** Lines 2019-2030: [do { iss >> a >> b; if (!iss) break; ... } while (iss)];
    an int left alone at the end is dropped. *)
Fixpoint line_pairs (verts : list Vector3d) (ints : list Z) (subMesh : SubMesh)
  : outcome SubMesh :=
  match ints with
  | a :: b :: rest =>
      va ← vec_at verts a;
      let subMesh := AddVertex va subMesh in
      let subMesh := AddIndex (u32 (VertexCount subMesh - 1)) subMesh in
      vb ← vec_at verts b;
      let subMesh := AddVertex vb subMesh in
      let subMesh := AddIndex (u32 (VertexCount subMesh - 1)) subMesh in
      line_pairs verts rest subMesh
  | _ => Ok subMesh
  end.

Definition LoadLines (_xml : XMLElement) (_transform : Matrix4d)
    (_mesh : Mesh) (w : Loader) : outcome (Mesh * Loader) :=
  let subMesh := Primitives.SetName (currentNodeName w) Primitives.SubMesh_new in
  let subMesh := SetPrimitiveType LINES subMesh in
  inputXml ← deref (FirstChildElement "input" _xml);
  source ← std_string (Attribute "source" inputXml);
  '(verts, norms, w) ←
    Sources.LoadVertices source _transform ([], ∅) ([], ∅) w;
  pXml ← deref (FirstChildElement "p" _xml);
  pStr ← std_string (GetText pXml);
  subMesh ← line_pairs verts.1 (istringstream_ints pStr) subMesh;
  Ok (AddSubMesh subMesh _mesh, w).

End lines.
End Lines.

(** ** LoadGeometry (lines 816-845) *)

Module Geometry.
Section geometry.
Context `{IgnMath} `{Parsers} `{Materials} `{IntStream}.

Variable bind_material :
  string → Mesh → SubMesh → Loader → outcome (Mesh * SubMesh * Loader).

(** [_xml] is what ElementId found, null when it found nothing. *)
Definition LoadGeometry (fuel : nat) (_xml : option XMLElement)
    (_transform : Matrix4d) (_mesh : Mesh) (w : Loader)
  : outcome (Mesh * Loader) :=
  match _xml with
  | None => Fault NullDeref
  | Some xml =>
      match FirstChildElement "mesh" xml with
      | [] => Ok (_mesh, w)
      | meshXml :: _ =>
          st ← each_named "triangles"
                 (λ childXml '(m, w'),
                    Primitives.LoadTriangles bind_material fuel childXml
                      _transform m w')
                 (children meshXml) (_mesh, w);
          st ← each_named "polylist"
                 (λ childXml '(m, w'),
                    Primitives.LoadPolylist bind_material childXml
                      _transform m w')
                 (children meshXml) st;
          each_named "lines"
            (λ childXml '(m, w'), Lines.LoadLines childXml _transform m w')
            (children meshXml) st
      end
  end.

End geometry.
End Geometry.

(** ** LoadNode (lines 178-278) *)

Module Nodes.
Section nodes.
Context `{IgnMath} `{Parsers} `{Materials} `{IntStream}.

Variable bind_material :
  string → Mesh → SubMesh → Loader → outcome (Mesh * SubMesh * Loader).

(** LoadController (lines 345-513) loads the skin that a controller
    describes; its two element arguments are what ElementId found.  The node
    loader is modelled for every behaviour of it. *)
Variable LoadController :
  option XMLElement → option XMLElement → Matrix4d → Mesh → Loader
  → outcome (Mesh * Loader).

Definition set_currentNodeName (name : string) (w : Loader) : Loader :=
  {| meter := meter w; filename := filename w; path := path w;
     colladaXml := colladaXml w; currentNodeName := name;
     materialMap := materialMap w; materialIds := materialIds w;
     sources := sources w; console := console w |}.

Definition set_materialMap (m : gmap string string) (w : Loader) : Loader :=
  {| meter := meter w; filename := filename w; path := path w;
     colladaXml := colladaXml w; currentNodeName := currentNodeName w;
     materialMap := m; materialIds := materialIds w;
     sources := sources w; console := console w |}.

(** Lines 232-234 and 266-268. *)
Definition instance_material (matXml : XMLElement) (w : Loader)
  : outcome Loader :=
  symbol ← std_string (Attribute "symbol" matXml);
  target ← std_string (Attribute "target" matXml);
  Ok (set_materialMap (<[symbol := target]> (materialMap w)) w).

(** Lines 227-237 and 261-271. *)
Definition bind_material_element (bindMatXml : XMLElement) (w : Loader)
  : outcome Loader :=
  match FirstChildElement "technique_common" bindMatXml with
  | techniqueXml :: _ =>
      each_named "instance_material" instance_material
                 (children techniqueXml) w
  | [] => Ok w
  end.

(** Lines 222-239 and 256-273: the material map of one instance. *)
Definition read_bindings (instXml : XMLElement) (w : Loader) : outcome Loader :=
  each_named "bind_material" bind_material_element (children instXml)
             (set_materialMap ∅ w).

(** One [<instance_geometry>], lines 219-242. *)
Definition instance_geometry (fuel : nat) (transform : Matrix4d)
    (instGeomXml : XMLElement) (st : Mesh * Loader) : outcome (Mesh * Loader) :=
  let '(_mesh, w) := st in
  geomURL ← std_string (Attribute "url" instGeomXml);
  geomXml ← ElementId (colladaXml w) "geometry" geomURL;
  w ← read_bindings instGeomXml w;
  Geometry.LoadGeometry bind_material fuel geomXml transform _mesh w.

(** One [<instance_controller>], lines 249-276. *)
Definition instance_controller (transform : Matrix4d)
    (instContrXml : XMLElement) (st : Mesh * Loader)
  : outcome (Mesh * Loader) :=
  let '(_mesh, w) := st in
  contrURL ← std_string (Attribute "url" instContrXml);
  contrXml ← ElementId (colladaXml w) "controller" contrURL;
  instSkelXml ← deref (FirstChildElement "skeleton" instContrXml);
  rootURL ← std_string (GetText instSkelXml);
  rootNodeXml ← ElementId (colladaXml w) "node" rootURL;
  w ← read_bindings instContrXml w;
  LoadController contrXml rootNodeXml transform _mesh w.

(** The recursion follows [instance_node] references through the document,
    so it is bounded by [fuel]; the loop of LoadTriangles is given the same
    bound. *)
Fixpoint LoadNode (fuel : nat) (_elem : XMLElement) (_mesh : Mesh)
    (_transform : Matrix4d) (w : Loader) : outcome (Mesh * Loader) :=
  match fuel with
  | O => OutOfFuel
  | S fuel' =>
      transform ← NodeTransforms.LoadNodeTransform _elem;
      let transform := Matrix4d_mul _transform transform in
      let w := match Attribute "name" _elem with
               | Some name => set_currentNodeName name w
               | None => w
               end in
      '(_mesh, w) ←
        each_named "node"
          (λ nodeXml '(m, w'), LoadNode fuel' nodeXml m transform w')
          (children _elem) (_mesh, w);
      match FirstChildElement "instance_node" _elem with
      | inst :: _ =>
          nodeURLStr ← std_string (Attribute "url" inst);
          nodeXml ← ElementId (colladaXml w) "node" nodeURLStr;
          match nodeXml with
          | None =>
              Ok (_mesh,
                  emit ignerr ("Unable to find node[" ++ nodeURLStr ++ "]") w)
          | Some nodeXml => LoadNode fuel' nodeXml _mesh transform w
          end
      | [] =>
          st ← each_named "instance_geometry"
                 (instance_geometry fuel' transform) (children _elem)
                 (_mesh, w);
          each_named "instance_controller" (instance_controller transform)
                     (children _elem) st
      end
  end.

End nodes.
End Nodes.

(** ** What a well-formed sub-mesh is *)

Module MeshSpec.
Import Weaver.
Section spec.
Context `{IgnMath} `{Parsers} `{Materials}.

(** Every index of the stream refers to a vertex of the sub-mesh. *)
Definition indices_in_bounds (s : SubMesh) : Prop :=
  Forall (λ i, (0 ≤ i < VertexCount s)%Z) (sm_indices s).

(** The normals a new vertex brings: one through the VERTEX input when the
    vertices carry normals, one through a NORMAL input. *)
Definition normals_per_vertex (inp : Inputs) : nat :=
  (if combinedVertNorms inp then 1 else 0) + (if hasNormals inp then 1 else 0).

Definition texcoords_per_vertex (inp : Inputs) : nat :=
  if hasTexcoords inp then 1 else 0.

(** The normal and texcoord streams run in step with the vertices. *)
Definition attributes_aligned (inp : Inputs) (s : SubMesh) : Prop :=
  length (sm_normals s) = normals_per_vertex inp * length (sm_vertices s)
  ∧ length (sm_texcoords s) = texcoords_per_vertex inp * length (sm_vertices s).

(** Every record of the map names a vertex of the sub-mesh. *)
Definition records_in_bounds (st : SubMesh * gmap Z (list GeometryIndices))
  : Prop :=
  ∀ p entries, st.2 !! p = Some entries →
    Forall (λ iv, (0 ≤ mappedIndex iv < VertexCount st.1)%Z) entries.

(** The state of the weaving of one sub-mesh that every corner keeps. *)
Definition woven (inp : Inputs)
    (st : SubMesh * gmap Z (list GeometryIndices)) : Prop :=
  indices_in_bounds st.1 ∧ records_in_bounds st
  ∧ attributes_aligned inp st.1.

(** A sub-mesh that holds no geometry yet. *)
Definition no_geometry (s : SubMesh) : Prop :=
  sm_vertices s = [] ∧ sm_normals s = [] ∧ sm_texcoords s = []
  ∧ sm_indices s = [].

(** A material binder that leaves the sub-meshes of the mesh and the
    geometry of the sub-mesh as they are. *)
Definition keeps_geometry
    (bind_material : string → Mesh → SubMesh → Loader
                     → outcome (Mesh * SubMesh * Loader)) : Prop :=
  ∀ matStr _mesh subMesh w _mesh' subMesh' w',
    bind_material matStr _mesh subMesh w = Ok (_mesh', subMesh', w') →
    mesh_submeshes _mesh' = mesh_submeshes _mesh
    ∧ sm_primitive subMesh' = sm_primitive subMesh
    ∧ sm_vertices subMesh' = sm_vertices subMesh
    ∧ sm_normals subMesh' = sm_normals subMesh
    ∧ sm_texcoords subMesh' = sm_texcoords subMesh
    ∧ sm_indices subMesh' = sm_indices subMesh.

(** The sub-mesh has at most two normals and at most one texcoord for each
    of its vertices, the same number for every vertex. *)
Definition attributes_in_step (s : SubMesh) : Prop :=
  ∃ normals texcoords,
    normals ≤ 2 ∧ texcoords ≤ 1
    ∧ length (sm_normals s) = normals * length (sm_vertices s)
    ∧ length (sm_texcoords s) = texcoords * length (sm_vertices s).

(** The triangles of the fans of polygons with these vertex counts, each
    count read as an [unsigned int]. *)
Definition fan_triangles (vcounts : list Z) : nat :=
  foldr (λ vcount n, Z.to_nat (u32 vcount - 2) + n) 0 vcounts.

End spec.
End MeshSpec.

(** ** LoadSkeletonNodes (lines 698-721) *)

Module SkeletonNodes.
Section skeleton.
Context `{IgnMath} `{Parsers}.

(** Modelled from the spec: a skeleton node is a JOINT unless its type is
    set to NODE (SkeletonNode.hh is not in this part of the repository). *)
Inductive SkeletonNodeType : Type := JOINT | NODE.

(** Modelled from the spec: the skeleton is a rooted tree of nodes, each
    with a name, an id, a type, its transforms and its children in the
    order in which they were attached to it. *)
#[warnings="-register-all"]
Inductive SkeletonTree : Type :=
| SkelNode (name id : string) (type : SkeletonNodeType)
           (node : SkeletonTransform.SkeletonNode)
           (childNodes : list SkeletonTree).

(** Modelled from the spec: a node is built with no raw transform. *)
Definition SkeletonNode_new : SkeletonTransform.SkeletonNode :=
  {| SkeletonTransform.node_transform := Matrix4d_Identity;
     SkeletonTransform.rawTransforms := [] |}.

(** The node built for [_xml]; its parent is the node of the call that
    visits [_xml] as a child, null for the root. *)
Fixpoint LoadSkeletonNodes (_xml : XMLElement) : outcome SkeletonTree :=
  name ← match Attribute "sid" _xml with
         | Some _ => std_string (Attribute "sid" _xml)
         | None => std_string (Attribute "name" _xml)
         end;
  id ← std_string (Attribute "id" _xml);
  type ← std_string (Attribute "type" _xml);
  let type := if String.eqb type "NODE" then NODE else JOINT in
  node ← SkeletonTransform.SetSkeletonNodeTransform _xml SkeletonNode_new;
  childNodes ←
    (fix each_node (elems : list XMLElement) : outcome (list SkeletonTree) :=
       match elems with
       | [] => Ok []
       | childXml :: rest =>
           if String.eqb (Value childXml) "node"
           then child ← LoadSkeletonNodes childXml;
                later ← each_node rest;
                Ok (child :: later)
           else each_node rest
       end) (children _xml);
  Ok (SkelNode name id type node childNodes).

End skeleton.
End SkeletonNodes.

(** ** The target of an animation channel (lines 558-597 of
    LoadAnimationSet) *)

Module ChannelTarget.

(** [std::string::npos] and arithmetic on [size_t]. *)
Definition npos : Z := (2 ^ 64 - 1)%Z.
Definition size_t (z : Z) : Z := (z mod 2 ^ 64)%Z.

Fixpoint find_from (c : ascii) (s : string) (pos : Z) : Z :=
  match s with
  | EmptyString => npos
  | String a rest => if Ascii.eqb a c then pos else find_from c rest (pos + 1)
  end.

(** [s.find(c)] *)
Definition find (s : string) (c : ascii) : Z := find_from c s 0.

(** [s.substr(pos, n)]: at most [n] characters from [pos] on; it throws
    when [pos] is past the end. *)
Definition substr (s : string) (pos n : Z) : outcome string :=
  let size := Z.of_nat (String.length s) in
  if (size <? pos)%Z then Fault OutOfRange
  else Ok (String.substring (Z.to_nat pos) (Z.to_nat (Z.min n (size - pos))) s).

Record Target : Type := {
  targetBone : string;
  targetTrans : string;
  idx1 : Z;
  idx2 : Z;
}.

(** Lines 582-583: the index that a member name selects. *)
Definition member_index (idxStr : string) : Z :=
  if String.eqb idxStr "X" then 0
  else if String.eqb idxStr "Y" then 1
  else if String.eqb idxStr "Z" then 2
  else if String.eqb idxStr "ANGLE" then 3
  else -1.

Section target.
Context `{Parsers}.

Definition parse (targetStr : string) : outcome Target :=
  targetBone ← substr targetStr 0 (find targetStr "/");
  let sep : ascii :=
    if negb (find targetStr "(" =? npos)%Z then "("%char
    else if negb (find targetStr "." =? npos)%Z then "."%char
    else "0"%char in
  targetTrans ←
    (if Ascii.eqb sep "0"
     then substr targetStr (size_t (find targetStr "/" + 1)) npos
     else substr targetStr (size_t (find targetStr "/" + 1))
                 (size_t (find targetStr sep - find targetStr "/" - 1)));
  idxStr ← substr targetStr (size_t (find targetStr sep + 1)) npos;
  '(idx1, idx2) ←
    (if Ascii.eqb sep "."
     then Ok (member_index idxStr, -1)%Z
     else if Ascii.eqb sep "("
     then idx1Str ← substr idxStr 0 1;
          let idx1 := parseInt idx1Str in
          if (4 <? Z.of_nat (String.length idxStr))%Z
          then idx2Str ← substr idxStr 3 1;
               Ok (idx1, parseInt idx2Str)
          else Ok (idx1, -1)%Z
     else Ok (-1, -1)%Z);
  Ok {| targetBone := targetBone; targetTrans := targetTrans;
        idx1 := idx1; idx2 := idx2 |}.

End target.
End ChannelTarget.

(** ** What the transforms of a node element are *)

Module TransformSpec.

(** The children of that name, in document order. *)
Definition named (name : string) (l : list XMLElement) : list XMLElement :=
  List.filter (λ e, String.eqb (Value e) name) l.

(** Kind and SID of the raw transforms that a node element describes: its
    first [<matrix>] alone when it has one, else its first [<translate>]
    and then all its [<rotate>] children. *)
Definition described (_elem : XMLElement)
  : list (SkeletonTransform.NodeTransformType * option string) :=
  match named "matrix" (children _elem) with
  | m :: _ => [(SkeletonTransform.MATRIX, Attribute "sid" m)]
  | [] =>
      match named "translate" (children _elem) with
      | t :: _ => [(SkeletonTransform.TRANSLATE, Attribute "sid" t)]
      | [] => []
      end
      ++ ((λ r, (SkeletonTransform.ROTATE, Attribute "sid" r))
          <$> named "rotate" (children _elem))
  end.

End TransformSpec.

(** ** What a tree of nodes without instances is *)

Module NodeSpec.

Definition is_instance (e : XMLElement) : bool :=
  String.eqb (Value e) "instance_node"
  || String.eqb (Value e) "instance_geometry"
  || String.eqb (Value e) "instance_controller".

(** A [<node>] that only groups nodes: neither it nor a node below it
    instantiates a node, a geometry or a controller. *)
Fixpoint grouping (e : XMLElement) : bool :=
  (fix all (elems : list XMLElement) : bool :=
     match elems with
     | [] => true
     | elem :: rest =>
         negb (is_instance elem)
         && (if String.eqb (Value elem) "node" then grouping elem else true)
         && all rest
     end) (children e).

(** The [name] that comes last in document order among the nodes of the
    tree, [current] when none of them has one. *)
Fixpoint last_name (e : XMLElement) (current : string) : string :=
  (fix below (elems : list XMLElement) (current : string) : string :=
     match elems with
     | [] => current
     | elem :: rest =>
         below rest (if String.eqb (Value elem) "node"
                     then last_name elem current else current)
     end) (children e) (default current (Attribute "name" e)).

End NodeSpec.

(** ** What the skeleton of a node element is *)

Module SkeletonSpec.
Import SkeletonNodes.
Section spec.
Context `{IgnMath} `{Parsers}.

(** The node elements of a skeleton in document order: the root, and for
    each child called [node] the node elements of that child. *)
Fixpoint joint_elements (e : XMLElement) : list XMLElement :=
  e :: (fix below (elems : list XMLElement) : list XMLElement :=
          match elems with
          | [] => []
          | elem :: rest =>
              (if String.eqb (Value elem) "node" then joint_elements elem
               else [])
              ++ below rest
          end) (children e).

(** The nodes of a skeleton tree, a node before its children. *)
Fixpoint nodes (t : SkeletonTree) : list SkeletonTree :=
  match t with
  | SkelNode _ _ _ _ childNodes =>
      t :: (fix below (trees : list SkeletonTree) : list SkeletonTree :=
              match trees with
              | [] => []
              | tree :: rest => nodes tree ++ below rest
              end) childNodes
  end.

(** Name, id and type that a node element declares: the name is the [sid]
    when there is one. *)
Definition declared (e : XMLElement)
  : option (string * string * SkeletonNodeType) :=
  name ← match Attribute "sid" e with
         | Some sid => Some sid
         | None => Attribute "name" e
         end;
  id ← Attribute "id" e;
  type ← Attribute "type" e;
  Some (name, id, if String.eqb type "NODE" then NODE else JOINT).

Definition label (t : SkeletonTree) : string * string * SkeletonNodeType :=
  match t with SkelNode name id type _ _ => (name, id, type) end.

Definition transforms (t : SkeletonTree) : SkeletonTransform.SkeletonNode :=
  match t with SkelNode _ _ _ node _ => node end.

(** The tree node [t] is the one built for the element [e]. *)
Definition built_for (e : XMLElement) (t : SkeletonTree) : Prop :=
  declared e = Some (label t)
  ∧ SkeletonTransform.SetSkeletonNodeTransform e SkeletonNode_new
    = Ok (transforms t).

End spec.
End SkeletonSpec.

(** ** Materials: LoadMaterial, LoadColorOrTexture, LoadFloat and
    LoadTransparent (lines 1244-1414 and 2036-2089) *)

(** The Material and Color operations the loader calls (Material.cc and
    Color.cc are not in this part of the repository); the loader is
    modelled for every implementation of them.  A setter takes the
    material last and returns the new one. *)
Class MaterialOps `{Materials} : Type := {
  Color : Type;
  lexical_cast_Color : string → option Color;
  Color_R : Color → float;
  Color_A : Color → float;
  Material_new : Material;                         (* new Material() *)
  SetDiffuse : Color → Material → Material;
  SetAmbient : Color → Material → Material;
  SetEmissive : Color → Material → Material;
  SetSpecular : Color → Material → Material;
  SetLighting : bool → Material → Material;
  SetTextureImage : string → string → Material → Material;
  SetShininess : float → Material → Material;
  SetTransparency : float → Material → Material;
  Transparency : Material → float;
  SetBlendFactors : float → float → Material → Material;
  to_single : float → float;                       (* double to float *)
}.

Module MaterialLoader.
Section materials.
Context `{IgnMath} `{Parsers} `{Materials} `{!MaterialOps}.

Definition set_materialIds (m : gmap string Material) (w : Loader) : Loader :=
  {| meter := meter w; filename := filename w; path := path w;
     colladaXml := colladaXml w; currentNodeName := currentNodeName w;
     materialMap := materialMap w; materialIds := m;
     sources := sources w; console := console w |}.

(** LoadFloat: [float value = 0], replaced by the text of [<float>]. *)
Definition LoadFloat (_elem : XMLElement) : outcome float :=
  match FirstChildElement "float" _elem with
  | floatXml :: _ =>
      text ← std_string (GetText floatXml);
      Ok (to_single (parseFloat text))
  | [] => Ok 0%float
  end.

Definition LoadTransparent (_elem : XMLElement) (_mat : Material)
    (w : Loader) : outcome (Material * Loader) :=
  match Attribute "opaque" _elem with
  | None => Ok (_mat, w)
  | Some opaqueStr =>
      (* TODO: Handle transparent textures *)
      match FirstChildElement "color" _elem with
      | colorXml :: _ =>
          match GetText colorXml with
          | None => Ok (_mat, emit ignerr "No color string" w)
          | Some colorStr =>
              color ← lexical_cast (lexical_cast_Color colorStr);
              let '(srcFactor, dstFactor) :=
                if String.eqb opaqueStr "RGB_ZERO"
                then (Color_R color * Transparency _mat,
                      1 - Color_R color * Transparency _mat)%float
                else if String.eqb opaqueStr "A_ONE"
                then (1 - Color_A color * Transparency _mat,
                      Color_A color * Transparency _mat)%float
                else (0, 0)%float in
              Ok (SetBlendFactors srcFactor dstFactor _mat, w)
          end
      | [] => Ok (_mat, w)
      end
  end.

(** Lines 1369-1405: the image element of a texture name. *)
Definition texture_image (textureName : string) (w : Loader)
  : outcome (option XMLElement) :=
  textureXml ← ElementId (colladaXml w) "newparam" textureName;
  match textureXml with
  | Some textureXml =>
      if String.eqb (Value textureXml) "image" then Ok (Some textureXml)
      else
        match FirstChildElement "sampler2D" textureXml with
        | sampler :: _ =>
            sourceElem ← deref (FirstChildElement "source" sampler);
            sourceName ← std_string (GetText sourceElem);
            sourceXml ← ElementId (colladaXml w) "newparam" sourceName;
            match sourceXml with
            | Some sourceXml =>
                match FirstChildElement "surface" sourceXml with
                | surfaceXml :: _ =>
                    match FirstChildElement "init_from" surfaceXml with
                    | initXml :: _ =>
                        imageName ← std_string (GetText initXml);
                        ElementId (colladaXml w) "image" imageName
                    | [] => Ok None
                    end
                | [] => Ok None
                end
            | None => Ok None
            end
        | [] => Ok None
        end
  | None => ElementId (colladaXml w) "image" textureName
  end.

(** [_elem] is not null at any of the calls. *)
Definition LoadColorOrTexture (_elem : XMLElement) (_type : string)
    (_mat : Material) (w : Loader) : outcome Material :=
  match FirstChildElement _type _elem with
  | [] => Ok _mat
  | typeElem :: _ =>
      match FirstChildElement "color" typeElem with
      | colorXml :: _ =>
          colorStr ← std_string (GetText colorXml);
          color ← lexical_cast (lexical_cast_Color colorStr);
          Ok (if String.eqb _type "diffuse" then SetDiffuse color _mat
              else if String.eqb _type "ambient" then SetAmbient color _mat
              else if String.eqb _type "emission" then SetEmissive color _mat
              else if String.eqb _type "specular" then SetSpecular color _mat
              else _mat)
      | [] =>
          match FirstChildElement "texture" typeElem with
          | textureElem :: _ =>
              let _mat := SetLighting true _mat in
              textureName ← std_string (Attribute "texture" textureElem);
              imageXml ← texture_image textureName w;
              match imageXml with
              | Some imageXml =>
                  match FirstChildElement "init_from" imageXml with
                  | initXml :: _ =>
                      imgFile ← std_string (GetText initXml);
                      Ok (SetTextureImage imgFile (path w) _mat)
                  | [] => Ok _mat
                  end
              | None => Ok _mat
              end
          | [] => Ok _mat
          end
      end
  end.

(** [if (x->FirstChildElement(name)) mat->Set...(LoadFloat(...))] *)
Definition load_float (name : string) (set : float → Material → Material)
    (blockXml : XMLElement) (mat : Material) : outcome Material :=
  match FirstChildElement name blockXml with
  | elem :: _ => value ← LoadFloat elem; Ok (set value mat)
  | [] => Ok mat
  end.

Definition load_transparent (blockXml : XMLElement) (mat : Material)
    (w : Loader) : outcome (Material * Loader) :=
  match FirstChildElement "transparent" blockXml with
  | transXml :: _ => LoadTransparent transXml mat w
  | [] => Ok (mat, w)
  end.

(** Lines 1272-1288. *)
Definition lambert (lambertXml : XMLElement) (mat : Material) (w : Loader)
  : outcome (Material * Loader) :=
  mat ← LoadColorOrTexture lambertXml "ambient" mat w;
  mat ← LoadColorOrTexture lambertXml "emission" mat w;
  mat ← LoadColorOrTexture lambertXml "diffuse" mat w;
  mat ← load_float "transparency" SetTransparency lambertXml mat;
  load_transparent lambertXml mat w.

(** Lines 1289-1308 and 1309-1328: the blocks for [<phong>] and [<blinn>]
    have the same text. *)
Definition phong (phongXml : XMLElement) (mat : Material) (w : Loader)
  : outcome (Material * Loader) :=
  mat ← LoadColorOrTexture phongXml "ambient" mat w;
  mat ← LoadColorOrTexture phongXml "emission" mat w;
  mat ← LoadColorOrTexture phongXml "specular" mat w;
  mat ← LoadColorOrTexture phongXml "diffuse" mat w;
  mat ← load_float "shininess" SetShininess phongXml mat;
  mat ← load_float "transparency" SetTransparency phongXml mat;
  load_transparent phongXml mat w.

Definition LoadMaterial (_name : string) (w : Loader)
  : outcome (option Material * Loader) :=
  match materialIds w !! _name with
  | Some mat => Ok (Some mat, w)
  | None =>
      matXml ← ElementId (colladaXml w) "material" _name;
      match matXml with
      | None => Ok (None, w)
      | Some matXml =>
          match FirstChildElement "instance_effect" matXml with
          | [] => Ok (None, w)
          | instanceEffect :: _ =>
              let mat := Material_new in
              effectName ← std_string (Attribute "url" instanceEffect);
              effectXml ← ElementId (colladaXml w) "effect" effectName;
              effectXml ← deref (option_list effectXml);
              '(mat, w) ←
                match FirstChildElement "profile_COMMON" effectXml with
                | commonXml :: _ =>
                    techniqueXml ←
                      deref (FirstChildElement "technique" commonXml);
                    match FirstChildElement "lambert" techniqueXml,
                          FirstChildElement "phong" techniqueXml,
                          FirstChildElement "blinn" techniqueXml with
                    | lambertXml :: _, _, _ => lambert lambertXml mat w
                    | [], phongXml :: _, _ => phong phongXml mat w
                    | [], [], blinnXml :: _ => phong blinnXml mat w
                    | [], [], [] => Ok (mat, w)
                    end
                | [] => Ok (mat, w)
                end;
              let w := match FirstChildElement "profile_GLSL" effectXml with
                       | _ :: _ => emit ignerr "profile_GLSL unsupported" w
                       | [] => w
                       end in
              let w := match FirstChildElement "profile_CG" effectXml with
                       | _ :: _ => emit ignerr "profile_CG unsupported" w
                       | [] => w
                       end in
              Ok (Some mat,
                  set_materialIds (<[_name := mat]> (materialIds w)) w)
          end
      end
  end.

End materials.
End MaterialLoader.

(** ** More sample documents *)

Module Fixtures.
Section fixtures.
#[local] Existing Instances Sample.math Sample.parsers Sample.materials.

(** The result of a call that returned, [d] otherwise. *)
Definition result_or {A} (d : A) (m : outcome A) : A :=
  match m with Ok a => a | _ => d end.

(** Ints as the sample parsers read them. *)
Fixpoint leading_ints (ws : list string) : list Z :=
  match ws with
  | [] => []
  | w :: rest =>
      match Sample.decimal_int w with
      | Some n => n :: leading_ints rest
      | None => []
      end
  end.

#[export] Instance int_stream : IntStream :=
  {| istringstream_ints s := leading_ints (Sample.words s) |}.

(** The positions of the unit square, as an element and as its array. *)
Definition positions_array : XMLElement :=
  Element "float_array" [("id", "positions-array"); ("count", "12")]
    (Some "0 0 0 1 0 0 1 1 0 0 1 0") []%string.

Definition positions_source : XMLElement :=
  Sample.float_source "positions" "12" "0 0 0 1 0 0 1 1 0 0 1 0" "3" "4".

Definition normals_array : XMLElement :=
  Element "float_array" [("id", "normals-array"); ("count", "6")]
    (Some "0 0 1 0 0 2") []%string.

(** A polylist without [<vcount>] and triangles without [<input>]. *)
Definition bare_polylist : XMLElement :=
  Element "polylist" [("count", "1")] None
    [ Sample.input "VERTEX" "#verts" "0";
      Element "p" [] (Some "0 1 2") [] ]%string.

Definition bare_triangles : XMLElement :=
  Element "triangles" [("count", "1")] None
    [Element "p" [] (Some "0 1 2") []]%string.

(** The outline of the unit square as two line segments. *)
Definition square_lines : XMLElement :=
  Element "lines" [("count", "2")] None
    [ Sample.input "VERTEX" "#verts" "0";
      Element "p" [] (Some "0 1 1 2") [] ]%string.

(** A geometry whose lines come first in the document. *)
Definition wire_geometry : XMLElement :=
  Element "geometry" [("id", "wire")] None
    [Element "mesh" [] None
       [ square_lines;
         positions_source;
         Element "vertices" [("id", "verts")] None
           [Element "input" [("semantic", "POSITION"); ("source", "#positions")]
              None []];
         Sample.square_polylist ]]%string.

Definition wire_doc : XMLElement :=
  Element "COLLADA" [("version", "1.4.1")] None
    [Element "library_geometries" [] None [wire_geometry]]%string.

(** A node that instantiates itself. *)
Definition loop_instance : XMLElement :=
  Element "instance_node" [("url", "#again")] None []%string.

Definition loop_node : XMLElement :=
  Element "node" [("id", "again")] None [loop_instance]%string.

Definition loop_doc : XMLElement :=
  Element "COLLADA" [("version", "1.4.1")] None
    [Element "library_nodes" [] None [loop_node]]%string.

(** An instance that binds two materials, and a loader that still holds
    the binding of an earlier instance. *)
Definition bound_instance : XMLElement :=
  Element "instance_geometry" [("url", "#square")] None
    [Element "bind_material" [] None
       [Element "technique_common" [] None
          [ Element "instance_material"
              [("symbol", "skin"); ("target", "#red")] None [];
            Element "instance_material"
              [("symbol", "eyes"); ("target", "#blue")] None [] ]]]%string.

Definition stale_loader : Loader :=
  Nodes.set_materialMap {["skin" := "#green"; "hair" := "#black"]}%string
    Sample.fresh_loader.

(** A named node that groups a named node. *)
Definition arm_group : XMLElement :=
  Element "node" [("name", "arm")] None
    [ Element "node" [("name", "hand")] None [];
      Element "extra" [] None [] ]%string.

Definition no_controller : option XMLElement → option XMLElement → Matrix4d
                           → Mesh → Loader → outcome (Mesh * Loader) :=
  λ _ _ _ m w, Ok (m, w).

(** Two joints, the first named by its [sid]. *)
Definition arm_joints : XMLElement :=
  Element "node"
    [("id", "arm"); ("name", "Arm"); ("sid", "arm_bone"); ("type", "JOINT")]
    None
    [ Element "translate" [("sid", "location")] (Some "0 0 1") [];
      Element "node" [("id", "hand"); ("name", "Hand"); ("type", "NODE")]
        None [] ]%string.




(** Material collaborators: every name has a material, and the mesh takes
    each material as its first. *)
Definition named_material : string → Loader → outcome (option string * Loader) :=
  λ name w, Ok (Some name, w).

Definition not_indexed : option string → Mesh → Z := λ _ _, (-1)%Z.

Definition add_first : option string → Mesh → Z * Mesh := λ _ m, (0%Z, m).

(** Materials as the list of the setter calls that made them. *)
#[export] Instance material_ops : MaterialOps := {|
  Color := string;
  lexical_cast_Color s := Some s;
  Color_R _ := 1%float;
  Color_A _ := 1%float;
  Material_new := ""%string;
  SetDiffuse c m := (m ++ " diffuse=" ++ c)%string;
  SetAmbient c m := (m ++ " ambient=" ++ c)%string;
  SetEmissive c m := (m ++ " emissive=" ++ c)%string;
  SetSpecular c m := (m ++ " specular=" ++ c)%string;
  SetLighting _ m := (m ++ " lighting")%string;
  SetTextureImage f p m := (m ++ " texture=" ++ p ++ "/" ++ f)%string;
  SetShininess _ m := (m ++ " shininess")%string;
  SetTransparency _ m := (m ++ " transparency")%string;
  Transparency _ := 0%float;
  SetBlendFactors _ _ m := (m ++ " blend")%string;
  to_single x := x;
|}.

(** A red lambert material. *)
Definition red_doc : XMLElement :=
  Element "COLLADA" [("version", "1.4.1")] None
    [ Element "library_materials" [] None
        [Element "material" [("id", "red")] None
           [Element "instance_effect" [("url", "#red-fx")] None []]];
      Element "library_effects" [] None
        [Element "effect" [("id", "red-fx")] None
           [Element "profile_COMMON" [] None
              [Element "technique" [] None
                 [Element "lambert" [] None
                    [Element "diffuse" [] None
                       [Element "color" [] (Some "1 0 0 1") []]]]]]] ]%string.

(** A material whose effect is not in the document. *)
Definition dangling_material : XMLElement :=
  Element "material" [("id", "ghost")] None
    [Element "instance_effect" [("url", "#gone")] None []]%string.

Definition dangling_doc : XMLElement :=
  Element "COLLADA" [("version", "1.4.1")] None
    [Element "library_materials" [] None [dangling_material]]%string.

(** A node that instantiates a geometry that is not in the document. *)
Definition lost_instance : XMLElement :=
  Element "instance_geometry" [("url", "#nowhere")] None []%string.

Definition lost_node : XMLElement :=
  Element "node" [("name", "lost")] None [lost_instance]%string.

(** What the loaders return on the samples. *)
Definition loaded_positions : (list Vector3d * gmap Z Z) * Loader :=
  result_or (([], ∅), Sample.square_loader)
    (Sources.LoadPositions "#positions" Sample.identity4 ([], ∅)
       Sample.square_loader).

Definition turned_node : SkeletonTransform.SkeletonNode :=
  result_or Sample.fresh_node
    (SkeletonTransform.SetSkeletonNodeTransform Sample.turned_joint
       Sample.fresh_node).

Definition crease_loaded : Mesh * Loader :=
  result_or (Mesh_new, Sample.fresh_loader)
    (Primitives.LoadTriangles Sample.no_material 10 Sample.crease_triangles
       Sample.identity4 Mesh_new (Sample.loader_on Sample.crease_doc)).

Definition quad_loaded : Mesh * Loader :=
  result_or (Mesh_new, Sample.fresh_loader)
    (Primitives.LoadPolylist Sample.no_material Sample.square_polylist
       Sample.identity4 Mesh_new Sample.square_loader).

Definition crease_woven : SubMesh * gmap Z (list Weaver.GeometryIndices) :=
  result_or (Primitives.SubMesh_new, ∅)
    (Primitives.triangles_loop Sample.crease_inputs Mesh_new
       (split_spaces "0 0 0 1 0 0") 10 0 (Primitives.SubMesh_new, ∅)).


Definition lines_loaded : Mesh * Loader :=
  result_or (Mesh_new, Sample.fresh_loader)
    (Lines.LoadLines square_lines Sample.identity4 Mesh_new
       (Sample.loader_on wire_doc)).

Definition wire_loaded : Mesh * Loader :=
  result_or (Mesh_new, Sample.fresh_loader)
    (Geometry.LoadGeometry Sample.no_material 10 (Some wire_geometry)
       Sample.identity4 Mesh_new (Sample.loader_on wire_doc)).

Definition bindings_read (w : Loader) : Loader :=
  result_or w (Nodes.read_bindings bound_instance w).

Definition group_loaded : Mesh * Loader :=
  result_or (Mesh_new, Sample.fresh_loader)
    (Nodes.LoadNode Sample.no_material no_controller 5 arm_group Mesh_new
       Sample.identity4 Sample.fresh_loader).

Definition arm_skeleton : SkeletonNodes.SkeletonTree :=
  result_or (SkeletonNodes.SkelNode "" "" SkeletonNodes.JOINT
               Sample.fresh_node [])
    (SkeletonNodes.LoadSkeletonNodes arm_joints).

Definition red_loaded : option string * Loader :=
  result_or (None, Sample.fresh_loader)
    (MaterialLoader.LoadMaterial "red" (Sample.loader_on red_doc)).

End fixtures.
End Fixtures.

(** ** Tokens of a text *)

(** The spaces of a text; splitting the text at spaces gives one token more
    than it has spaces. *)
Definition spaces (s : string) : nat :=
  count_occ Ascii.ascii_dec (list_ascii_of_string s) " "%char.

(** * Part II: properties *)

Lemma u32_range z : (0 ≤ u32 z < 2 ^ 32)%Z.
Proof. unfold u32. apply Z.mod_pos_bound. lia. Qed.

Lemma u32_small z : (0 ≤ z < 2 ^ 32)%Z → u32 z = z.
Proof. intros H. unfold u32. apply Z.mod_small. exact H. Qed.

Lemma bind_Ok {A B} (m : outcome A) (f : A → outcome B) b :
  m ≫= f = Ok b ↔ ∃ a, m = Ok a ∧ f a = Ok b.
Proof.
  destruct m; simpl; split; try (intros [? [? ?]]); try intros ?;
    try discriminate; eauto.
  congruence.
Qed.

Lemma vec_at_nthZ {A} (l : list A) i x :
  vec_at l i = Ok x ↔ nthZ l i = Some x.
Proof.
  unfold vec_at, nthZ. destruct (i <? 0)%Z; [split; discriminate|].
  destruct (l !! Z.to_nat i); split; congruence.
Qed.

(** ** Skin binder *)

Lemma alter_app_twice {A} (l1 l2 : list A) i (w : list (list A)) :
  alter (λ l, l ++ l2) i (alter (λ l, l ++ l1) i w)
  = alter (λ l, l ++ (l1 ++ l2)) i w.
Proof.
  apply list_eq. intros j. destruct (decide (i = j)) as [->|Hne].
  - rewrite !list_lookup_alter_eq. destruct (w !! j); simpl; [|reflexivity].
    rewrite <- app_assoc. reflexivity.
  - rewrite !list_lookup_alter_ne by exact Hne. reflexivity.
Qed.

Section skin_proofs.
Variable joints : list string.
Variable weights : list float.
Variable v : list Z.
Variables jOffset wOffset : Z.
Hypothesis HjOffset : (0 ≤ jOffset)%Z.
Hypothesis HwOffset : (0 ≤ wOffset)%Z.

Abbreviation width := (SkinSpec.width jOffset wOffset).
Abbreviation record_at := (SkinSpec.record_at joints weights v jOffset wOffset).
Abbreviation vertex_records := (Skin.vertex_records joints weights v jOffset wOffset).
Abbreviation vertices_from := (Skin.vertices_from joints weights v jOffset wOffset).
Abbreviation skin_table := (SkinSpec.skin_table joints weights v jOffset wOffset).

Lemma width_pos : (0 < width)%Z.
Proof using HjOffset HwOffset. unfold SkinSpec.width. lia. Qed.

(** One pass of the inner loop body reads the record at the cursor. *)
Lemma vertex_records_S n i cursor w res :
  (0 ≤ cursor)%Z → (cursor + width < 2 ^ 32)%Z →
  vertex_records (S n) i cursor w = Ok res ↔
  ∃ rec, record_at cursor = Some rec ∧
    vertex_records n i (cursor + width)
      (Skin.AddVertNodeWeight i rec.1 rec.2 w) = Ok res.
Proof using HjOffset HwOffset.
  intros Hc Hw. simpl. unfold SkinSpec.record_at.
  assert (Hw' : (0 ≤ jOffset + wOffset + 1 < 2 ^ 32)%Z)
    by (unfold SkinSpec.width in Hw; lia).
  unfold SkinSpec.width in Hw.
  rewrite (u32_small (jOffset + wOffset + 1)) by lia.
  rewrite (u32_small (cursor + jOffset)) by lia.
  rewrite (u32_small (cursor + wOffset)) by lia.
  rewrite (u32_small (cursor + (jOffset + wOffset + 1))) by lia.
  fold width.
  destruct (vec_at v (cursor + jOffset)) as [jv| |] eqn:E1; simpl.
  2,3: split; [discriminate|]; intros [rec [H _]]; revert H.
  2,3: destruct (nthZ v (cursor + jOffset)) eqn:E; simpl; [|discriminate].
  2,3: apply vec_at_nthZ in E; congruence.
  apply vec_at_nthZ in E1. rewrite E1. simpl.
  destruct (vec_at joints jv) as [joint| |] eqn:E2; simpl.
  2,3: split; [discriminate|]; intros [rec [H _]]; revert H.
  2,3: destruct (nthZ joints jv) eqn:E; simpl; [|discriminate].
  2,3: apply vec_at_nthZ in E; congruence.
  apply vec_at_nthZ in E2. rewrite E2. simpl.
  destruct (vec_at v (cursor + wOffset)) as [wv| |] eqn:E3; simpl.
  2,3: split; [discriminate|]; intros [rec [H _]]; revert H.
  2,3: destruct (nthZ v (cursor + wOffset)) eqn:E; simpl; [|discriminate].
  2,3: apply vec_at_nthZ in E; congruence.
  apply vec_at_nthZ in E3. rewrite E3. simpl.
  destruct (vec_at weights wv) as [weight| |] eqn:E4; simpl.
  2,3: split; [discriminate|]; intros [rec [H _]]; revert H.
  2,3: destruct (nthZ weights wv) eqn:E; simpl; [|discriminate].
  2,3: apply vec_at_nthZ in E; congruence.
  apply vec_at_nthZ in E4. rewrite E4. simpl.
  split.
  - intros H. exists (joint, weight). split; [reflexivity | exact H].
  - intros [rec [Hr H]]. inversion Hr; subst. exact H.
Qed.

(** The inner loop: [n] records, the [r]-th read at [cursor + r * width],
    appended in order to the list of vertex [i]. *)
Lemma vertex_records_Ok n : ∀ i cursor w res,
  (0 ≤ cursor)%Z → (cursor + Z.of_nat n * width < 2 ^ 32)%Z →
  vertex_records n i cursor w = Ok res ↔
  ∃ recs, length recs = n ∧
    (∀ r, r < n → recs !! r = record_at (cursor + Z.of_nat r * width)) ∧
    res = ((cursor + Z.of_nat n * width)%Z, alter (λ l, l ++ recs) i w).
Proof using HjOffset HwOffset.
  pose proof width_pos as Hwp.
  induction n as [|n IH]; intros i cursor w res Hc Hb.
  - simpl. split.
    + intros [= <-]. exists []. split; [reflexivity|]. split; [intros; lia|].
      f_equal; [lia|]. symmetry. apply list_alter_id. intros x. apply app_nil_r.
    + intros [recs [Hl [_ ->]]]. destruct recs; [|discriminate].
      f_equal. f_equal; [lia|]. symmetry. apply list_alter_id. intros x. apply app_nil_r.
  - rewrite vertex_records_S by lia. split.
    + intros [rec [Hrec Hrest]]. apply IH in Hrest; [|lia|lia].
      destruct Hrest as [recs [Hl [Hr ->]]].
      exists (rec :: recs). split; [simpl; lia|]. split.
      * intros [|r] Hlt; simpl.
        -- rewrite <- Hrec. f_equal. lia.
        -- rewrite Hr by lia. f_equal. lia.
      * f_equal; [lia|]. unfold Skin.AddVertNodeWeight.
        destruct rec as [jn wt]; simpl. apply (alter_app_twice [(jn, wt)] recs).
    + intros [recs [Hl [Hr ->]]]. destruct recs as [|rec recs]; [discriminate|].
      exists rec. split.
      * specialize (Hr 0 ltac:(lia)). simpl in Hr. rewrite Hr. f_equal. lia.
      * apply IH; [lia|lia|]. exists recs. split; [simpl in Hl; lia|]. split.
        -- intros r Hlt. specialize (Hr (S r) ltac:(lia)). simpl in Hr.
           rewrite Hr. f_equal. lia.
        -- f_equal; [lia|]. unfold Skin.AddVertNodeWeight.
           destruct rec as [jn wt]; simpl. symmetry. apply (alter_app_twice [(jn, wt)] recs).
Qed.

Lemma vertices_from_Ok vCount : ∀ done cursor res,
  (0 ≤ cursor)%Z → Forall (λ c, 0 ≤ c)%Z vCount →
  (cursor + width * foldr Z.add 0 vCount < 2 ^ 32)%Z →
  vertices_from vCount (length done) cursor
    (done ++ replicate (length vCount) []) = Ok res ↔
  ∃ atts, skin_table cursor vCount atts ∧
    res = ((cursor + width * foldr Z.add 0 vCount)%Z, done ++ atts).
Proof using HjOffset HwOffset.
  pose proof width_pos as Hwp.
  induction vCount as [|c rest IH]; intros done cursor res Hc Hpos Hb.
  - simpl. split.
    + intros [= <-]. exists []. split.
      * split; [reflexivity|]. intros i c Hi. discriminate.
      * f_equal. lia.
    + intros [atts [[Hl _] ->]]. destruct atts; [|discriminate].
      f_equal. f_equal. lia.
  - apply Forall_cons in Hpos as [Hc0 Hpos]. simpl in Hb.
    assert (Hrest : (0 ≤ foldr Z.add 0 rest)%Z).
    { clear -Hpos. induction Hpos; simpl; lia. }
    simpl vertices_from. split.
    + intros H. apply bind_Ok in H as [[vIndex' w'] [H1 H2]].
      apply vertex_records_Ok in H1; [|lia|nia].
      destruct H1 as [recs [Hlr [Hr [= -> ->]]]].
      rewrite alter_app_r_alt in H2 by lia.
      rewrite Nat.sub_diag in H2. simpl in H2.
      change (done ++ (recs :: replicate (length rest) []))
        with (done ++ [recs] ++ replicate (length rest) []) in H2.
      rewrite app_assoc in H2.
      replace (S (length done)) with (length (done ++ [recs])) in H2
        by (rewrite length_app; simpl; lia).
      apply IH in H2; [|nia|exact Hpos|nia].
      destruct H2 as [atts [[Hl Ht] ->]].
      exists (recs :: atts). split.
      * split; [simpl; lia|]. intros [|i] c' Hi; simpl in Hi.
        -- injection Hi as <-. exists recs. split; [reflexivity|].
           split; [exact Hlr|]. intros r Hlt. rewrite Hr by exact Hlt.
           f_equal. unfold SkinSpec.cursor_of. simpl. lia.
        -- destruct (Ht i c' Hi) as [recs' [Ha [Hl' Hr']]].
           exists recs'. split; [exact Ha|]. split; [exact Hl'|].
           intros r Hlt. rewrite Hr' by exact Hlt. f_equal.
           unfold SkinSpec.cursor_of. simpl. rewrite Z2Nat.id by exact Hc0. lia.
      * rewrite <- app_assoc. simpl. f_equal. rewrite Z2Nat.id by exact Hc0. lia.
    + intros [atts [[Hl Ht] ->]]. destruct atts as [|recs atts]; [discriminate|].
      destruct (Ht 0 c eq_refl) as [recs0 [[= <-] [Hlr Hr]]].
      apply bind_Ok.
      exists ((cursor + Z.of_nat (Z.to_nat c) * width)%Z,
              alter (λ l, l ++ recs) (length done)
                    (done ++ replicate (length (c :: rest)) [])).
      split.
      * apply vertex_records_Ok; [lia|nia|]. exists recs.
        split; [exact Hlr|]. split; [|reflexivity].
        intros r Hlt. rewrite Hr by exact Hlt. f_equal.
        unfold SkinSpec.cursor_of. simpl. lia.
      * rewrite alter_app_r_alt by lia. rewrite Nat.sub_diag. simpl.
        change (done ++ (recs :: replicate (length rest) []))
          with (done ++ [recs] ++ replicate (length rest) []).
        rewrite app_assoc.
        replace (S (length done)) with (length (done ++ [recs]))
          by (rewrite length_app; simpl; lia).
        apply IH; [nia|exact Hpos|nia|]. exists atts. split.
        -- split; [simpl in Hl; lia|]. intros i c' Hi.
           destruct (Ht (S i) c' Hi) as [recs' [Ha [Hl' Hr']]].
           exists recs'. split; [exact Ha|]. split; [exact Hl'|].
           intros r Hlt. rewrite Hr' by exact Hlt. f_equal.
           unfold SkinSpec.cursor_of. simpl. rewrite Z2Nat.id by exact Hc0. lia.
        -- rewrite <- app_assoc. simpl. f_equal.
           rewrite Z2Nat.id by exact Hc0. lia.
Qed.

End skin_proofs.

(** C3.  The skin binder gives vertex [i] exactly [vcount[i]] attachment
    records, the [r]-th being
    [(joints[v[cursor + j_off]], weights[v[cursor + w_off]])] with the cursor
    advanced by [j_off + w_off + 1] per record, and it returns whenever all
    these reads are in range.  The offsets and counts are unsigned and the
    part of [v] that is consumed is addressable by an [unsigned int].  On
    the scenario S6 (vcount = 2 2, v = 0 0 1 1 0 2 1 3, offsets 0 and 1)
    vertex 0 receives (joints[0], weights[0]), (joints[1], weights[1]) and
    vertex 1 receives (joints[0], weights[2]), (joints[1], weights[3]). *)
Theorem skin_binder_records :
  ∀ (joints : list string) (weights : list float) (v vCount : list Z)
    (jOffset wOffset : Z),
    (0 ≤ jOffset)%Z → (0 ≤ wOffset)%Z →
    Forall (λ c, 0 ≤ c)%Z vCount →
    (SkinSpec.width jOffset wOffset * foldr Z.add 0 vCount < 2 ^ 32)%Z →
    (∀ atts,
       Skin.bind_vertex_weights joints weights v jOffset wOffset vCount []
         = Ok atts
       ↔ SkinSpec.skin_table joints weights v jOffset wOffset 0 vCount atts)
    ∧ (∀ j0 j1 w0 w1 w2 w3,
       Skin.bind_vertex_weights [j0; j1] [w0; w1; w2; w3]
         [0; 0; 1; 1; 0; 2; 1; 3]%Z 0 1 [2; 2]%Z []
       = Ok [[(j0, w0); (j1, w1)]; [(j0, w2); (j1, w3)]]).
Proof.
  intros joints weights v vCount jOffset wOffset Hj Hw Hpos Hb. split.
  - intros atts. unfold Skin.bind_vertex_weights, Skin.SetNumVertAttached.
    rewrite resize_nil.
    split.
    + intros H.
      destruct (Skin.vertices_from joints weights v jOffset wOffset vCount 0 0
                  (replicate (length vCount) [])) as [[vi w]| |] eqn:E;
        simpl in H; try discriminate.
      injection H as ->.
      apply (vertices_from_Ok joints weights v jOffset wOffset Hj Hw
               vCount [] 0%Z) in E; [|lia|exact Hpos|lia].
      destruct E as [atts' [Ht [= _ ->]]]. exact Ht.
    + intros Ht.
      assert (E : Skin.vertices_from joints weights v jOffset wOffset vCount 0 0
                    (replicate (length vCount) [])
                  = Ok ((0 + SkinSpec.width jOffset wOffset
                               * foldr Z.add 0 vCount)%Z, atts)).
      { apply (vertices_from_Ok joints weights v jOffset wOffset Hj Hw
                 vCount [] 0%Z); [lia|exact Hpos|lia|]. exists atts. split; [exact Ht|].
        reflexivity. }
      rewrite E. reflexivity.
  - intros j0 j1 w0 w1 w2 w3. vm_compute. reflexivity.
Qed.

Lemma skin_binder_records_witness :
  (0 ≤ 0)%Z ∧ (0 ≤ 1)%Z ∧ Forall (λ c, 0 ≤ c)%Z [2; 2]%Z ∧
  (SkinSpec.width 0 1 * foldr Z.add 0 [2; 2] < 2 ^ 32)%Z ∧
  Skin.bind_vertex_weights ["hip"; "knee"]%string [1; 0.5; 0.25; 0.75]%float
    [0; 0; 1; 1; 0; 2; 1; 3]%Z 0 1 [2; 2]%Z []
  = Ok [[("hip", 1); ("knee", 0.5)]; [("hip", 0.25); ("knee", 0.75)]]%string%float.
Proof.
  assert (H0 : (0 ≤ 0)%Z) by lia.
  assert (H1 : (0 ≤ 1)%Z) by lia.
  assert (H2 : Forall (λ c, 0 ≤ c)%Z [2; 2]%Z) by (repeat constructor; lia).
  assert (H3 : (SkinSpec.width 0 1 * foldr Z.add 0 [2; 2] < 2 ^ 32)%Z)
    by (vm_compute; reflexivity).
  refine (conj H0 (conj H1 (conj H2 (conj H3 _)))).
  exact (proj2 (skin_binder_records ["hip"; "knee"]%string
                  [1; 0.5; 0.25; 0.75]%float [0; 0; 1; 1; 0; 2; 1; 3]%Z
                  [2; 2]%Z 0 1 H0 H1 H2 H3)
               "hip"%string "knee"%string 1%float 0.5%float 0.25%float
               0.75%float).
Defined.

(** ** LoadAnimations *)

Section animation_proofs.
Context {Skel : Type}.
Variable LoadAnimationSet : XMLElement → Skel → outcome Skel.

Abbreviation loop_body := (Animations.loop_body LoadAnimationSet).
Abbreviation while_childXml := (Animations.while_childXml LoadAnimationSet).
Abbreviation passes := (Animations.passes LoadAnimationSet).

(** A pass through the loop body leaves the cursor where it was. *)
Lemma loop_body_keeps_cursor s s' e rest :
  Animations.childXml s = e :: rest →
  loop_body s = Ok s' →
  Animations.childXml s' = e :: rest ∧
  Animations.calls s' = Animations.calls s ++ [e].
Proof.
  intros Hc. unfold Animations.loop_body. rewrite Hc. simpl.
  destruct (LoadAnimationSet e (Animations.skel s)); simpl; try discriminate.
  intros [= <-]. simpl. auto.
Qed.

Lemma while_childXml_never_returns fuel : ∀ s e rest,
  Animations.childXml s = e :: rest → ¬ is_Ok (while_childXml fuel s).
Proof.
  induction fuel as [|fuel IH]; intros s e rest Hc [r Hr]; simpl in Hr;
    rewrite Hc in Hr.
  - discriminate.
  - apply bind_Ok in Hr as [s' [Hb Hw]].
    destruct (loop_body_keeps_cursor _ _ _ _ Hc Hb) as [Hc' _].
    exact (IH s' e rest Hc' (ex_intro _ r Hw)).
Qed.

Lemma passes_repeat_first n : ∀ s s' e rest,
  Animations.childXml s = e :: rest →
  passes n s = Ok s' →
  Animations.childXml s' = e :: rest ∧
  Animations.calls s' = Animations.calls s ++ replicate n e.
Proof.
  induction n as [|n IH]; intros s s' e rest Hc Hp; simpl in Hp.
  - injection Hp as <-. rewrite app_nil_r. auto.
  - apply bind_Ok in Hp as [s1 [Hb Hp]].
    destruct (loop_body_keeps_cursor _ _ _ _ Hc Hb) as [Hc1 Hcalls1].
    destruct (IH _ _ _ _ Hc1 Hp) as [Hc' Hcalls'].
    split; [exact Hc'|]. rewrite Hcalls', Hcalls1, <- app_assoc. reflexivity.
Qed.

End animation_proofs.

(** C2 (the code departs from it).  When the first [<animation>] child of
    [<library_animations>] has an [<animation>] child of its own,
    LoadAnimations does not return, whatever the fuel: the cursor is never
    advanced, so every pass of the loop calls LoadAnimationSet on the first
    top-level [<animation>] again; after [n] passes the calls made are [n]
    copies of that element. *)
Theorem LoadAnimations_nested_never_returns :
  ∀ (Skel : Type) (LoadAnimationSet : XMLElement → Skel → outcome Skel)
    (_xml first : XMLElement) (rest : list XMLElement),
    FirstChildElement "animation" _xml = first :: rest →
    FirstChildElement "animation" first ≠ [] →
    (∀ fuel sk, ¬ is_Ok (Animations.LoadAnimations LoadAnimationSet fuel _xml sk))
    ∧ (∀ n sk s,
         Animations.passes LoadAnimationSet n
           {| Animations.childXml := first :: rest; Animations.skel := sk;
              Animations.calls := [] |} = Ok s →
         Animations.childXml s = first :: rest ∧
         Animations.calls s = replicate n first).
Proof.
  intros Skel LAS _xml first rest Hfirst Hnested. split.
  - intros fuel sk [r Hr]. unfold Animations.LoadAnimations in Hr.
    rewrite Hfirst in Hr. simpl in Hr.
    destruct (FirstChildElement "animation" first) as [|c cs] eqn:Hn;
      [congruence|].
    apply bind_Ok in Hr as [s [Hw _]].
    eapply (while_childXml_never_returns LAS fuel); [|exists s; exact Hw].
    reflexivity.
  - intros n sk s Hp.
    eapply (passes_repeat_first LAS n) in Hp; [|reflexivity].
    exact Hp.
Qed.

Lemma LoadAnimations_nested_never_returns_witness :
  FirstChildElement "animation" Sample.two_animation_groups
    = Element "animation" [("id", "walk")] None
        [Element "animation" [] None []]
      :: [Element "animation" [("id", "run")] None
            [Element "animation" [] None []]]%string
  ∧ FirstChildElement "animation"
      (Element "animation" [("id", "walk")] None
         [Element "animation" [] None []])%string ≠ []
  ∧ ¬ is_Ok (Animations.LoadAnimations (λ _ (n : nat), Ok (S n)) 100
               Sample.two_animation_groups 0).
Proof.
  assert (H1 : FirstChildElement "animation" Sample.two_animation_groups
    = Element "animation" [("id", "walk")] None
        [Element "animation" [] None []]
      :: [Element "animation" [("id", "run")] None
            [Element "animation" [] None []]]%string) by reflexivity.
  assert (H2 : FirstChildElement "animation"
      (Element "animation" [("id", "walk")] None
         [Element "animation" [] None []])%string ≠ []) by discriminate.
  refine (conj H1 (conj H2 _)).
  exact (proj1 (LoadAnimations_nested_never_returns nat (λ _ n, Ok (S n))
                  _ _ _ H1 H2) 100 0).
Defined.

(** ** SetSkeletonNodeTransform *)

Section skeleton_transform_proofs.
Context `{IgnMath} `{Parsers}.

(** Asking a null element for its SID leaves the defined behaviour. *)
Lemma sid_from_null nt : SkeletonTransform.sid_from [] nt = Fault NullDeref.
Proof. reflexivity. Qed.

Lemma bind_not_Ok {A B} (m : outcome A) (f : A → outcome B) :
  (∀ a, m = Ok a → ¬ is_Ok (f a)) → ¬ is_Ok (m ≫= f).
Proof.
  intros Hf [b Hb]. apply bind_Ok in Hb as [a [Hm Hfa]].
  exact (Hf a Hm (ex_intro _ b Hfa)).
Qed.

End skeleton_transform_proofs.

(** C8 (the code departs from it).  For a node element without a
    [<matrix>] child, a [<scale>] child is never pushed as a raw transform
    with its own SID: line 802 asks the absent [<matrix>] child for the SID,
    so SetSkeletonNodeTransform does not return a node at all.  When the
    element holds nothing but a well-formed [<scale>], the call stops at
    that null dereference. *)
Theorem SetSkeletonNodeTransform_scale_faults :
  ∀ (M : IgnMath) (P : Parsers) (_elem : XMLElement)
    (_node : SkeletonTransform.SkeletonNode),
    FirstChildElement "matrix" _elem = [] →
    FirstChildElement "scale" _elem ≠ [] →
    ¬ is_Ok (SkeletonTransform.SetSkeletonNodeTransform _elem _node)
    ∧ (∀ attrs text scale,
         lexical_cast_Vector3d text = Some scale →
         SkeletonTransform.SetSkeletonNodeTransform
           (Element "node" [] None [Element "scale" attrs (Some text) []])
           _node
         = Fault NullDeref).
Proof.
  intros M P _elem _node Hmatrix Hscale. split.
  - unfold SkeletonTransform.SetSkeletonNodeTransform. rewrite Hmatrix.
    apply bind_not_Ok. intros [transform node'] Hrun.
    apply bind_Ok in Hrun as [[t1 n1] [_ Hrun]].
    apply bind_Ok in Hrun as [[t2 n2] [_ Hrun]].
    destruct (FirstChildElement "scale" _elem) as [|sc rest]; [congruence|].
    apply bind_Ok in Hrun as [scaleStr [_ Hrun]].
    apply bind_Ok in Hrun as [scale [_ Hrun]].
    apply bind_Ok in Hrun as [nt [Hsid _]].
    discriminate Hsid.
  - intros attrs text scale Hcast.
    unfold SkeletonTransform.SetSkeletonNodeTransform. simpl.
    rewrite Hcast. reflexivity.
Qed.

Lemma SetSkeletonNodeTransform_scale_faults_witness :
  FirstChildElement "matrix" Sample.scaled_joint = []
  ∧ FirstChildElement "scale" Sample.scaled_joint ≠ []
  ∧ ¬ is_Ok (@SkeletonTransform.SetSkeletonNodeTransform Sample.math Sample.parsers Sample.scaled_joint Sample.fresh_node).
Proof.
  assert (H1 : FirstChildElement "matrix" Sample.scaled_joint = [])
    by reflexivity.
  assert (H2 : FirstChildElement "scale" Sample.scaled_joint ≠ [])
    by discriminate.
  refine (conj H1 (conj H2 _)).
  exact (proj1 (SetSkeletonNodeTransform_scale_faults Sample.math
                  Sample.parsers Sample.scaled_joint _ H1 H2)).
Defined.

(** Without a scale the sibling blocks do what the claim says: each raw
    transform carries the kind, the source values and the SID of its own
    element. *)
Example turned_joint_run :
  (λ n, (λ nt, (SkeletonTransform.nt_sid nt, SkeletonTransform.nt_type nt,
                SkeletonTransform.nt_source nt))
          <$> SkeletonTransform.rawTransforms n)
    <$> @SkeletonTransform.SetSkeletonNodeTransform Sample.math Sample.parsers
          Sample.turned_joint Sample.fresh_node
  = Ok [ (Some "location"%string, SkeletonTransform.TRANSLATE,
          @SkeletonTransform.FromVector Sample.math (mkVector3d 0 0 1));
         (Some "rotationZ"%string, SkeletonTransform.ROTATE,
          @SkeletonTransform.FromAxisAngle Sample.math (mkVector3d 0 0 1) 90) ].
Proof. vm_compute. reflexivity. Qed.

(** The sample joint with a scale: the call faults on the scale. *)
Example scaled_joint_run :
  @SkeletonTransform.SetSkeletonNodeTransform Sample.math Sample.parsers Sample.scaled_joint Sample.fresh_node
  = Fault NullDeref.
Proof. vm_compute. reflexivity. Qed.


(** ** Load *)

Section driver_proofs.
Context `{IgnMath} `{Parsers} `{Materials}.





End driver_proofs.


Section driver_samples.
#[local] Existing Instances Sample.math Sample.parsers Sample.materials.


(** The 1.5.0 sample: two error lines (the first from the inverted test of
    line 121), then the scene is loaded and an empty mesh comes back. *)
Example Load_1_5_run :
  (λ r, (mesh_path r.1, mesh_submeshes r.1, meter r.2, console r.2))
    <$> Driver.Load Sample.skip_node Sample.disk "meshes/model.dae"
          Sample.fresh_loader
  = Ok ("meshes"%string, [], 0.5%float,
        [(ignerr, "Unable to load collada file[meshes/model.dae]"%string);
         Driver.version_error]).
Proof. vm_compute. reflexivity. Qed.

End driver_samples.

(** ** Duplicate maps *)

Section dedupe_proofs.
Context {V : Type}.
Variable veq : V → V → bool.

Abbreviation equal_at := (DuplicateSpec.equal_at veq).
Abbreviation at_index := (@nthZ V).

Abbreviation dup_inv := (DuplicateSpec.dup_inv veq).
Abbreviation uniq_inv := (@DuplicateSpec.uniq_inv V).
Abbreviation loop_inv := (DuplicateSpec.loop_inv veq).

Lemma at_index_app values more i x :
  at_index values i = Some x → at_index (values ++ more) i = Some x.
Proof.
  unfold nthZ. destruct (i <? 0)%Z; [discriminate|].
  intros Hx. apply lookup_app_l_Some. exact Hx.
Qed.

Lemma at_index_lt values i x :
  at_index values i = Some x → (0 ≤ i < Z.of_nat (length values))%Z.
Proof.
  unfold nthZ. destruct (Z.ltb_spec i 0); [discriminate|].
  intros Hx. apply lookup_lt_Some in Hx. lia.
Qed.

Lemma at_index_last values x :
  at_index (values ++ [x]) (Z.of_nat (length values)) = Some x.
Proof.
  unfold nthZ.
  destruct (Z.ltb_spec (Z.of_nat (length values)) 0); [lia|].
  rewrite Nat2Z.id. apply list_lookup_middle. reflexivity.
Qed.

Lemma equal_at_app values more i d :
  equal_at values i d → equal_at (values ++ more) i d.
Proof.
  intros [x [y [Hx [Hy Heq]]]]. exists x, y.
  split; [apply at_index_app; exact Hx|].
  split; [apply at_index_app; exact Hy|exact Heq].
Qed.

Lemma unique_find_Some unique vec first :
  Sources.unique_find veq unique vec = Some first →
  ∃ k, In (k, first) unique ∧ veq vec k = true.
Proof.
  unfold Sources.unique_find.
  destruct (List.find _ unique) as [[k idx]|] eqn:Hfind; [|discriminate].
  intros [= <-]. apply List.find_some in Hfind as [Hin Heq].
  exists k. split; [exact Hin|exact Heq].
Qed.

(** [push_back] and the duplicate block keep both invariants. *)
Lemma push_back_inv vec st :
  loop_inv st → loop_inv (Sources.push_back veq vec st)
  ∧ (Sources.push_back veq vec st).1 = st.1 ++ [vec].
Proof.
  destruct st as [values [unique duplicates]]. intros [Hdup Huniq].
  simpl in Hdup, Huniq. split; [|reflexivity].
  unfold Sources.push_back, Sources.note_duplicate, loop_inv. simpl.
  replace (Z.of_nat (length (values ++ [vec])) - 1)%Z
    with (Z.of_nat (length values))
    by (rewrite length_app; simpl; lia).
  destruct (Sources.unique_find veq unique vec) as [first|] eqn:Hfind; simpl.
  - apply unique_find_Some in Hfind as [k [Hin Heq]].
    pose proof (Huniq k first Hin) as Hk.
    split.
    + intros i d Hid. destruct (decide (i = Z.of_nat (length values))) as [->|Hne].
      * rewrite lookup_insert_eq in Hid. injection Hid as <-.
        split.
        -- exists vec, k. split; [apply at_index_last|].
           split; [apply at_index_app; exact Hk|exact Heq].
        -- apply at_index_lt in Hk. lia.
      * rewrite lookup_insert_ne in Hid by congruence.
        destruct (Hdup i d Hid) as [He Hlt].
        split; [apply equal_at_app; exact He|exact Hlt].
    + intros k' idx Hin'. apply at_index_app. exact (Huniq k' idx Hin').
  - split.
    + intros i d Hid. destruct (Hdup i d Hid) as [He Hlt].
      split; [apply equal_at_app; exact He|exact Hlt].
    + intros k' idx Hin'. apply in_app_or in Hin' as [Hin'|[Hin'|[]]].
      * apply at_index_app. exact (Huniq k' idx Hin').
      * injection Hin' as <- <-. apply at_index_last.
Qed.

(** The stated properties follow from the first of them. *)
Lemma dup_inv_ok values duplicates :
  dup_inv values duplicates ↔ DuplicateSpec.duplicates_ok veq values duplicates.
Proof.
  split; [|intros [Hinv _]; exact Hinv].
  intros Hinv.
  assert (Hfirst : ∀ i, DuplicateSpec.first_occurrence veq values i →
                        duplicates !! i = None).
  { intros i Hfo. destruct (duplicates !! i) as [d|] eqn:Hid; [|reflexivity].
    destruct (Hinv i d Hid) as [He Hlt]. destruct (Hfo d Hlt He). }
  split; [exact Hinv|]. split; [exact Hfirst|].
  intros Hnone. apply map_eq. intros i. rewrite lookup_empty.
  apply Hfirst. apply Hnone.
Qed.

Lemma dup_inv_empty values : dup_inv values ∅.
Proof. intros i d Hid. rewrite lookup_empty in Hid. discriminate. Qed.

Lemma uniq_inv_nil values : uniq_inv values [].
Proof. intros k idx []. Qed.

End dedupe_proofs.

Section loader_proofs.
Context `{IgnMath} `{Parsers} `{Materials}.

Lemma sources_missing_array fa complaint zero (w : Loader) :
  sources (Sources.missing_array fa complaint zero w) = sources w.
Proof. unfold Sources.missing_array. destruct (_ =? _)%Z; reflexivity. Qed.

Lemma read_positions_inv T n : ∀ strs st st',
  length strs ≤ n →
  Sources.read_positions T strs st = Ok st' →
  DuplicateSpec.loop_inv Vector3d_eq st → DuplicateSpec.loop_inv Vector3d_eq st'.
Proof.
  induction n as [|n IH]; intros strs st st' Hlen Hrun Hinv.
  - destruct strs; [|simpl in Hlen; lia]. simpl in Hrun. congruence.
  - destruct strs as [|x [|y [|z rest]]]; simpl in Hrun; try discriminate.
    + congruence.
    + eapply IH; [|exact Hrun|].
      * simpl in Hlen. lia.
      * apply push_back_inv. exact Hinv.
Qed.

Lemma read_normals_inv R n : ∀ vals st,
  length vals ≤ n →
  DuplicateSpec.loop_inv Vector3d_eq st →
  DuplicateSpec.loop_inv Vector3d_eq (Sources.read_normals R vals st).
Proof.
  induction n as [|n IH]; intros vals st Hlen Hinv.
  - destruct vals; [|simpl in Hlen; lia]. exact Hinv.
  - destruct vals as [|x [|y [|z rest]]]; simpl; try exact Hinv.
    apply IH; [simpl in Hlen; lia|]. apply push_back_inv. exact Hinv.
Qed.

(** Each normal that the loop stores is a triple of the stream, turned by
    [rotMat] and passed through Normalize; its length is whatever
    ignition-math makes of it. *)
Lemma read_normals_content R n : ∀ vals st,
  length vals ≤ n →
  ∃ new, (Sources.read_normals R vals st).1 = st.1 ++ new
    ∧ ∀ k nv, new !! k = Some nv →
        ∃ x y z, vals !! (3 * k) = Some x ∧ vals !! (3 * k + 1) = Some y
          ∧ vals !! (3 * k + 2) = Some z
          ∧ nv = Vector3d_Normalize (Matrix4d_mul_vec R (mkVector3d x y z)).
Proof.
  induction n as [|n IH]; intros vals st Hlen.
  - destruct vals; [|simpl in Hlen; lia]. exists []. simpl.
    split; [symmetry; apply app_nil_r|]. intros k nv Hk. discriminate.
  - destruct vals as [|x [|y [|z rest]]]; simpl;
      try (exists []; split; [symmetry; apply app_nil_r|];
           intros k nv Hk; discriminate).
    destruct (IH rest
                (Sources.push_back Vector3d_eq
                   (Vector3d_Normalize (Matrix4d_mul_vec R (mkVector3d x y z)))
                   st)) as [new [Hvalues Hnew]]; [simpl in Hlen; lia|].
    exists (Vector3d_Normalize (Matrix4d_mul_vec R (mkVector3d x y z)) :: new).
    split.
    + rewrite Hvalues. simpl. rewrite <- app_assoc. reflexivity.
    + intros [|k] nv Hk; simpl in Hk.
      * injection Hk as <-. exists x, y, z. repeat split; reflexivity.
      * destruct (Hnew k nv Hk) as [x' [y' [z' [Hx [Hy [Hz Hnv]]]]]].
        exists x', y', z'.
        replace (S k + (S k + (S k + 0)) + 1) with (3 + (3 * k + 1)) by lia.
        replace (S k + (S k + (S k + 0)) + 2) with (3 + (3 * k + 2)) by lia.
        replace (S k + (S k + (S k + 0))) with (3 + 3 * k) by lia.
        split; [exact Hx|]. split; [exact Hy|]. split; [exact Hz|exact Hnv].
Qed.

Lemma read_texcoords_inv fuel : ∀ i totCount stride values st st',
  Sources.read_texcoords fuel i totCount stride values st = Ok st' →
  DuplicateSpec.loop_inv Vector2d_eq st → DuplicateSpec.loop_inv Vector2d_eq st'.
Proof.
  induction fuel as [|fuel IH]; intros i totCount stride values st st' Hrun Hinv;
    simpl in Hrun; destruct (i <? totCount)%Z; try discriminate;
    try congruence.
  apply bind_Ok in Hrun as [su [_ Hrun]].
  apply bind_Ok in Hrun as [u [_ Hrun]].
  apply bind_Ok in Hrun as [sv [_ Hrun]].
  apply bind_Ok in Hrun as [v [_ Hrun]].
  eapply IH; [exact Hrun|]. apply push_back_inv. exact Hinv.
Qed.

(** Replacing one cache entry by buffers that satisfy the invariant. *)
Lemma entries_ok_insert {V} (veq : V → V → bool) ids dups id values duplicates :
  DuplicateSpec.entries_ok veq ids dups →
  DuplicateSpec.duplicates_ok veq values duplicates →
  DuplicateSpec.entries_ok veq (<[id := values]> ids) (<[id := duplicates]> dups).
Proof.
  intros Hids Hok id' values' Hlook.
  destruct (decide (id = id')) as [->|Hne].
  - rewrite lookup_insert_eq in Hlook. injection Hlook as <-.
    rewrite lookup_insert_eq. exact Hok.
  - rewrite lookup_insert_ne in Hlook by exact Hne.
    rewrite lookup_insert_ne by exact Hne. exact (Hids id' values' Hlook).
Qed.

Lemma start_inv {V} (veq : V → V → bool) (b : list V * gmap Z Z) :
  DuplicateSpec.duplicates_ok veq b.1 b.2 → DuplicateSpec.loop_inv veq (b.1, ([], b.2)).
Proof.
  intros Hok. split; simpl.
  - apply dup_inv_ok. exact Hok.
  - apply uniq_inv_nil.
Qed.

Abbreviation buffers_ok3 :=
  (λ b : list Vector3d * gmap Z Z, DuplicateSpec.duplicates_ok Vector3d_eq b.1 b.2).
Abbreviation buffers_ok2 :=
  (λ b : list Vector2d * gmap Z Z, DuplicateSpec.duplicates_ok Vector2d_eq b.1 b.2).

Lemma LoadPositions_inv _id T b w b' w' :
  DuplicateSpec.cache_ok (sources w) → buffers_ok3 b →
  Sources.LoadPositions _id T b w = Ok (b', w') →
  DuplicateSpec.cache_ok (sources w') ∧ buffers_ok3 b'.
Proof.
  intros Hcache Hb. unfold Sources.LoadPositions.
  destruct (positionIds (sources w) !! _id) as [cached|] eqn:Hhit.
  - intros [= <- <-]. split; [exact Hcache|].
    destruct Hcache as [Hpos _]. exact (Hpos _id cached Hhit).
  - intros Hrun. apply bind_Ok in Hrun as [sourceXml [_ Hrun]].
    destruct sourceXml as [src|];
      [|injection Hrun as <- <-; split; [exact Hcache|exact Hb]].
    destruct (Sources.array_text _) as [valueStr|];
      [|injection Hrun as <- <-; rewrite sources_missing_array;
        split; [exact Hcache|exact Hb]].
    apply bind_Ok in Hrun as [[values [unique duplicates]] [Hloop Hrun]].
    injection Hrun as <- <-.
    eapply read_positions_inv in Hloop; [|reflexivity|apply start_inv; exact Hb].
    destruct Hloop as [Hdup _]. simpl in Hdup. apply dup_inv_ok in Hdup.
    split; [|exact Hdup].
    destruct Hcache as [Hpos [Hnorm Htex]].
    split; [|split; [exact Hnorm|exact Htex]].
    simpl. apply entries_ok_insert; [exact Hpos|exact Hdup].
Qed.

Lemma LoadNormals_inv _id T b w b' w' :
  DuplicateSpec.cache_ok (sources w) → buffers_ok3 b →
  Sources.LoadNormals _id T b w = Ok (b', w') →
  DuplicateSpec.cache_ok (sources w') ∧ buffers_ok3 b'.
Proof.
  intros Hcache Hb. unfold Sources.LoadNormals.
  destruct (normalIds (sources w) !! _id) as [cached|] eqn:Hhit.
  - intros [= <- <-]. split; [exact Hcache|].
    destruct Hcache as [_ [Hnorm _]]. exact (Hnorm _id cached Hhit).
  - intros Hrun. apply bind_Ok in Hrun as [sourceXml [_ Hrun]].
    destruct sourceXml as [src|];
      [|injection Hrun as <- <-; split; [exact Hcache|exact Hb]].
    destruct (Sources.array_text _) as [valueStr|];
      [|injection Hrun as <- <-; rewrite sources_missing_array;
        split; [exact Hcache|exact Hb]].
    destruct (Sources.read_normals _ _ _) as [values [unique duplicates]] eqn:Hloop.
    injection Hrun as <- <-.
    pose proof (read_normals_inv (Matrix4d_Translate Vector3d_Zero T) _
                  (istringstream_doubles valueStr) (b.1, ([], b.2))
                  (Nat.le_refl _) (start_inv _ b Hb)) as Hinv.
    rewrite Hloop in Hinv.
    destruct Hinv as [Hdup _]. simpl in Hdup. apply dup_inv_ok in Hdup.
    split; [|exact Hdup].
    destruct Hcache as [Hpos [Hnorm Htex]].
    split; [exact Hpos|]. split; [|exact Htex].
    simpl. apply entries_ok_insert; [exact Hnorm|exact Hdup].
Qed.

Lemma LoadTexCoords_inv _id b w b' w' :
  DuplicateSpec.cache_ok (sources w) → buffers_ok2 b →
  Sources.LoadTexCoords _id b w = Ok (b', w') →
  DuplicateSpec.cache_ok (sources w') ∧ buffers_ok2 b'.
Proof.
  intros Hcache Hb. unfold Sources.LoadTexCoords.
  destruct (texcoordIds (sources w) !! _id) as [cached|] eqn:Hhit.
  - intros [= <- <-]. split; [exact Hcache|].
    destruct Hcache as [_ [_ Htex]]. exact (Htex _id cached Hhit).
  - intros Hrun. apply bind_Ok in Hrun as [sourceXml [_ Hrun]].
    repeat match type of Hrun with
    | Ok (b, _) = Ok _ =>
        injection Hrun as <- <-; try rewrite sources_missing_array;
        split; [exact Hcache|exact Hb]
    | mbind _ (Sources.read_texcoords _ _ _ _ _ _) = Ok _ => fail 1
    | mbind _ _ = Ok _ => apply bind_Ok in Hrun as [? [_ Hrun]]
    | context [match ?x with _ => _ end] => destruct x eqn:?
    | context [if ?x then _ else _] => destruct x eqn:?
    end.
    apply bind_Ok in Hrun as [[values [unique duplicates]] [Hloop Hrun]].
    injection Hrun as <- <-.
    eapply read_texcoords_inv in Hloop; [|apply start_inv; exact Hb].
    destruct Hloop as [Hdup _]. simpl in Hdup. apply dup_inv_ok in Hdup.
    split; [|exact Hdup].
    destruct Hcache as [Hpos [Hnorm Htex]].
    split; [exact Hpos|]. split; [exact Hnorm|].
    simpl. apply entries_ok_insert; [exact Htex|exact Hdup].
Qed.

End loader_proofs.

(** C5.  Each of the three source loaders keeps the duplicate-map
    invariant, for the buffers it fills and for every entry of the source
    cache: a key [i] of the map has [values[i] == values[duplicates[i]]]
    with [duplicates[i] < i]; an index that is the first occurrence of its
    value is not a key; and values without duplicates have an empty map.
    The cache starts empty, where the invariant holds. *)
Theorem duplicate_map_invariant :
  ∀ (M : IgnMath) (P : Parsers) (Mat : Materials),
    DuplicateSpec.cache_ok no_sources
    ∧ (∀ _id T b (w : Loader) b' w',
         DuplicateSpec.cache_ok (sources w) →
         DuplicateSpec.duplicates_ok Vector3d_eq b.1 b.2 →
         Sources.LoadPositions _id T b w = Ok (b', w') →
         DuplicateSpec.cache_ok (sources w')
         ∧ DuplicateSpec.duplicates_ok Vector3d_eq b'.1 b'.2)
    ∧ (∀ _id T b (w : Loader) b' w',
         DuplicateSpec.cache_ok (sources w) →
         DuplicateSpec.duplicates_ok Vector3d_eq b.1 b.2 →
         Sources.LoadNormals _id T b w = Ok (b', w') →
         DuplicateSpec.cache_ok (sources w')
         ∧ DuplicateSpec.duplicates_ok Vector3d_eq b'.1 b'.2)
    ∧ (∀ _id b (w : Loader) b' w',
         DuplicateSpec.cache_ok (sources w) →
         DuplicateSpec.duplicates_ok Vector2d_eq b.1 b.2 →
         Sources.LoadTexCoords _id b w = Ok (b', w') →
         DuplicateSpec.cache_ok (sources w')
         ∧ DuplicateSpec.duplicates_ok Vector2d_eq b'.1 b'.2).
Proof.
  intros M P Mat. split; [|split; [|split]].
  - unfold DuplicateSpec.cache_ok.
    split; [|split]; intros src values Hlook; simpl in Hlook;
      rewrite lookup_empty in Hlook; discriminate.
  - intros _id T b w b' w'. apply LoadPositions_inv.
  - intros _id T b w b' w'. apply LoadNormals_inv.
  - intros _id b w b' w'. apply LoadTexCoords_inv.
Qed.

(** ** Texture coordinates *)

Section texcoord_proofs.
Context `{IgnMath} `{Parsers} `{Materials}.

Lemma lexical_cast_Ok {A} (r : option A) x : lexical_cast r = Ok x ↔ r = Some x.
Proof. destruct r; simpl; split; congruence. Qed.

Lemma read_texcoords_content fuel : ∀ i totCount stride values st st',
  Sources.read_texcoords fuel i totCount stride values st = Ok st' →
  ∃ new, st'.1 = st.1 ++ new
    ∧ ∀ k uv, new !! k = Some uv →
        TexcoordSpec.flipped_pair values (i + Z.of_nat k * stride) uv.
Proof.
  induction fuel as [|fuel IH]; intros i totCount stride values st st' Hrun;
    simpl in Hrun; destruct (i <? totCount)%Z; try discriminate.
  1,3: injection Hrun as <-; exists []; split;
       [symmetry; apply app_nil_r|intros k uv Hk; discriminate].
  apply bind_Ok in Hrun as [su [Hsu Hrun]].
  apply bind_Ok in Hrun as [u [Hu Hrun]].
  apply bind_Ok in Hrun as [sv [Hsv Hrun]].
  apply bind_Ok in Hrun as [v [Hv Hrun]].
  apply IH in Hrun as [new [Hvalues Hnew]].
  exists (mkVector2d u (1 - v) :: new). split.
  - rewrite Hvalues. simpl. rewrite <- app_assoc. reflexivity.
  - intros [|k] uv Hk; simpl in Hk.
    + injection Hk as <-. exists su, sv, u, v.
      replace (i + Z.of_nat 0 * stride)%Z with i by lia.
      apply vec_at_nthZ in Hsu, Hsv. apply lexical_cast_Ok in Hu, Hv. auto.
    + replace (i + Z.of_nat (S k) * stride)%Z
        with (i + stride + Z.of_nat k * stride)%Z by lia.
      exact (Hnew k uv Hk).
Qed.

Lemma vec_at_returns {A} (l : list A) i : vec_at l i ≠ OutOfFuel.
Proof.
  unfold vec_at. destruct (i <? 0)%Z; [discriminate|].
  destruct (l !! Z.to_nat i); discriminate.
Qed.

Lemma lexical_cast_returns {A} (r : option A) : lexical_cast r ≠ OutOfFuel.
Proof. destruct r; discriminate. Qed.

(** The four reads of the loop body never run out of fuel themselves. *)
Ltac step_reads :=
  repeat match goal with
  | |- context [vec_at ?l ?i] =>
      let E := fresh in
      destruct (vec_at l i) eqn:E; simpl; try discriminate;
      [|exfalso; exact (vec_at_returns _ _ E)]
  | |- context [lexical_cast ?r] =>
      let E := fresh in
      destruct (lexical_cast r) eqn:E; simpl; try discriminate;
      [|exfalso; exact (lexical_cast_returns _ E)]
  end.

Lemma read_texcoords_ascending fuel : ∀ i totCount stride values st,
  (0 < stride)%Z → (totCount - i < Z.of_nat fuel)%Z →
  Sources.read_texcoords fuel i totCount stride values st ≠ OutOfFuel.
Proof.
  induction fuel as [|fuel IH]; intros i totCount stride values st Hs Hfuel;
    simpl; destruct (Z.ltb_spec i totCount); try discriminate.
  { simpl in Hfuel. lia. }
  step_reads. apply IH; lia.
Qed.

Lemma read_texcoords_negative fuel i totCount stride values st :
  (i < 0)%Z → 0 < fuel →
  Sources.read_texcoords fuel i totCount stride values st ≠ OutOfFuel.
Proof.
  intros Hi Hfuel. destruct fuel as [|fuel]; [lia|]. simpl.
  destruct (i <? totCount)%Z; [|discriminate].
  unfold vec_at. destruct (Z.ltb_spec i 0); [|lia]. discriminate.
Qed.

Lemma read_texcoords_returns totCount stride values st :
  stride ≠ 0%Z →
  Sources.read_texcoords (S (Z.to_nat totCount)) 0 totCount stride values st
  ≠ OutOfFuel.
Proof.
  intros Hs. destruct (Z.lt_trichotomy stride 0) as [Hneg|[Hz|Hpos]]; [|lia|].
  - simpl. destruct (Z.ltb_spec 0 totCount); [|discriminate].
    step_reads. apply read_texcoords_negative; lia.
  - apply read_texcoords_ascending; lia.
Qed.

End texcoord_proofs.

Section texcoord_loader_proofs.
Context `{IgnMath} `{Parsers} `{Materials}.
#[local] Arguments Sources.read_texcoords : simpl never.

Lemma int_attribute_Ok name e z :
  Sources.int_attribute name e = Ok z ↔
  ∃ a, Attribute name e = Some a ∧ lexical_cast_int a = Some z.
Proof.
  unfold Sources.int_attribute. destruct (Attribute name e) as [a|]; simpl.
  - rewrite lexical_cast_Ok. split; [eauto|]. intros [a' [[= <-] Hz]]. exact Hz.
  - split; [discriminate|]. intros [a [Ha _]]. discriminate.
Qed.

Lemma int_attribute_returns name e : Sources.int_attribute name e ≠ OutOfFuel.
Proof.
  unfold Sources.int_attribute. destruct (Attribute name e); simpl;
    [apply lexical_cast_returns|discriminate].
Qed.

Lemma int_mul_Ok a b p : int_mul a b = Ok p → p = (a * b)%Z.
Proof. unfold int_mul. destruct (_ && _); congruence. Qed.

Lemma ElementId_returns root name id : ElementId root name id ≠ OutOfFuel.
Proof. unfold ElementId. destruct root; discriminate. Qed.

(** A source that is parsed (not served from the cache) adds to the
    caller's buffer one texcoord per stride, read from the first two tokens
    of the stride. *)
Lemma LoadTexCoords_content _id b (w : Loader) b' w'
    src fa rest valueStr tc tcs acc accs s stride :
  texcoordIds (sources w) !! _id = None →
  ElementId (colladaXml w) "source" _id = Ok (Some src) →
  FirstChildElement "float_array" src = fa :: rest →
  GetText fa = Some valueStr →
  FirstChildElement "technique_common" src = tc :: tcs →
  FirstChildElement "accessor" tc = acc :: accs →
  Attribute "stride" acc = Some s →
  lexical_cast_int s = Some stride →
  Sources.LoadTexCoords _id b w = Ok (b', w') →
  ∃ new, b'.1 = b.1 ++ new
    ∧ ∀ k uv, new !! k = Some uv →
        TexcoordSpec.flipped_pair (split_spaces valueStr) (Z.of_nat k * stride) uv.
Proof.
  intros Hmiss Hsrc Hfa Htext Htc Hacc Hs Hstride.
  unfold Sources.LoadTexCoords. rewrite Hmiss, Hsrc. simpl.
  rewrite Hfa. simpl. rewrite Htext, Htc, Hacc, Hs.
  assert (Hsame : ∀ w0, Ok (b, w0) = Ok (b', w') →
            ∃ new, b'.1 = b.1 ++ new
              ∧ ∀ k uv, new !! k = Some uv →
                  TexcoordSpec.flipped_pair (split_spaces valueStr) (Z.of_nat k * stride) uv).
  { intros w0 [= <- <-]. exists []. split; [symmetry; apply app_nil_r|].
    intros k uv Hk. discriminate. }
  destruct (Attribute "count" fa); [|apply Hsame].
  intros Hrun. apply bind_Ok in Hrun as [totCount [_ Hrun]].
  destruct (Attribute "count" acc).
  - apply bind_Ok in Hrun as [stride' [Hstride' Hrun]].
    apply int_attribute_Ok in Hstride' as [a [Ha Hcast]].
    assert (stride' = stride) as -> by congruence.
    apply bind_Ok in Hrun as [texCount [_ Hrun]].
    apply bind_Ok in Hrun as [product [_ Hrun]].
    destruct (negb _); [exact (Hsame _ Hrun)|].
    destruct (_ =? _)%Z; [exact (Hsame _ Hrun)|].
    apply bind_Ok in Hrun as [[values [unique duplicates]] [Hloop Hrun]].
    injection Hrun as <- <-.
    apply read_texcoords_content in Hloop as [new [Hvalues Hnew]].
    exists new. split; [exact Hvalues|].
    intros k uv Hk. specialize (Hnew k uv Hk).
    replace (0 + Z.of_nat k * stride)%Z with (Z.of_nat k * stride)%Z in Hnew
      by lia.
    exact Hnew.
  - apply bind_Ok in Hrun as [stride' [_ Hrun]]. exact (Hsame _ Hrun).
Qed.

Lemma int_mul_returns a b : int_mul a b ≠ OutOfFuel.
Proof. unfold int_mul. destruct (_ && _); discriminate. Qed.

Ltac returns_step :=
  match goal with
  | |- Ok _ ≠ OutOfFuel => discriminate
  | |- Fault _ ≠ OutOfFuel => discriminate
  | |- mbind _ (ElementId ?r ?n ?i) ≠ _ =>
      let E := fresh "E" in
      destruct (ElementId r n i) eqn:E; simpl;
      [| |exfalso; exact (ElementId_returns _ _ _ E)]
  | |- mbind _ (Sources.int_attribute ?n ?e) ≠ _ =>
      let E := fresh "E" in
      destruct (Sources.int_attribute n e) eqn:E; simpl;
      [| |exfalso; exact (int_attribute_returns _ _ E)]
  | |- mbind _ (int_mul ?a ?b) ≠ _ =>
      let E := fresh "Hmul" in
      destruct (int_mul a b) eqn:E; simpl;
      [| |exfalso; exact (int_mul_returns _ _ E)]
  | |- match ?x with _ => _ end ≠ _ => destruct x eqn:?; simpl
  end.

(** LoadTexCoords always comes back: the fuel given to its loop is
    enough. *)
Lemma LoadTexCoords_returns _id b (w : Loader) :
  Sources.LoadTexCoords _id b w ≠ OutOfFuel.
Proof.
  unfold Sources.LoadTexCoords.
  repeat returns_step.
  match goal with
  | Hm : int_mul ?t ?s = Ok ?p, Hp : negb (?p =? ?tot)%Z = false,
    Hz : (?tot =? 0)%Z = false |- _ =>
      apply int_mul_Ok in Hm; apply negb_false_iff, Z.eqb_eq in Hp;
      apply Z.eqb_neq in Hz;
      pose proof (read_texcoords_returns tot s) as Hloop
  end.
  destruct (Sources.read_texcoords _ _ _ _ _ _) as [[values [unique dups]]| |] eqn:Hrun;
    simpl; try discriminate.
  exfalso. eapply Hloop; [|exact Hrun]. nia.
Qed.

End texcoord_loader_proofs.

(** C7.  A texture-coordinate source that is parsed stores one texcoord
    per stride, made of the first two tokens of the stride: [(u, 1.0 - v)];
    the loader always comes back from it; and an input UV of (0.25, 0.75) is
    stored as (0.25, 0.25). *)
Theorem texcoords_flip_v :
  ∀ (M : IgnMath) (P : Parsers) (Mat : Materials),
    (∀ _id b (w : Loader) b' w' src fa rest valueStr tc tcs acc accs s stride,
       texcoordIds (sources w) !! _id = None →
       ElementId (colladaXml w) "source" _id = Ok (Some src) →
       FirstChildElement "float_array" src = fa :: rest →
       GetText fa = Some valueStr →
       FirstChildElement "technique_common" src = tc :: tcs →
       FirstChildElement "accessor" tc = acc :: accs →
       Attribute "stride" acc = Some s →
       lexical_cast_int s = Some stride →
       Sources.LoadTexCoords _id b w = Ok (b', w') →
       ∃ new, b'.1 = b.1 ++ new
         ∧ ∀ k uv, new !! k = Some uv →
             TexcoordSpec.flipped_pair (split_spaces valueStr) (Z.of_nat k * stride) uv)
    ∧ (∀ _id b (w : Loader), Sources.LoadTexCoords _id b w ≠ OutOfFuel)
    ∧ (∀ su sv,
         lexical_cast_double su = Some 0.25%float →
         lexical_cast_double sv = Some 0.75%float →
         fst <$> Sources.read_texcoords 2 0 2 2 [su; sv] ([], ([], ∅))
         = Ok [mkVector2d 0.25 0.25]).
Proof.
  intros M P Mat. split; [|split].
  - intros _id b w b' w' src fa rest valueStr tc tcs acc accs s stride.
    apply LoadTexCoords_content.
  - apply LoadTexCoords_returns.
  - intros su sv Hu Hv. simpl. rewrite Hu. simpl. rewrite Hv. reflexivity.
Qed.

Section source_samples.
#[local] Existing Instances Sample.math Sample.parsers Sample.materials.

Lemma duplicate_map_invariant_witness :
  DuplicateSpec.cache_ok (sources Sample.square_loader)
  ∧ DuplicateSpec.duplicates_ok Vector3d_eq ([] : list Vector3d) (∅ : gmap Z Z)
  ∧ Sources.LoadNormals "#normals" Sample.identity4 ([], ∅) Sample.square_loader
    = Ok (Sample.square_normals,
          Sources.store_normals "#normals" Sample.square_normals
            Sample.square_loader)
  ∧ DuplicateSpec.cache_ok
      (sources (Sources.store_normals "#normals" Sample.square_normals
                  Sample.square_loader))
  ∧ DuplicateSpec.duplicates_ok Vector3d_eq
      Sample.square_normals.1 Sample.square_normals.2.
Proof.
  pose proof (duplicate_map_invariant Sample.math Sample.parsers
                Sample.materials) as [Hstart [_ [Hnormals _]]].
  assert (Hbuf : DuplicateSpec.duplicates_ok Vector3d_eq
                   ([] : list Vector3d) (∅ : gmap Z Z))
    by (apply dup_inv_ok, dup_inv_empty).
  assert (Hrun : Sources.LoadNormals "#normals" Sample.identity4 ([], ∅)
                   Sample.square_loader
                 = Ok (Sample.square_normals,
                       Sources.store_normals "#normals" Sample.square_normals
                         Sample.square_loader))
    by (vm_compute; reflexivity).
  refine (conj Hstart (conj Hbuf (conj Hrun _))).
  exact (Hnormals "#normals"%string Sample.identity4 ([], ∅)
           Sample.square_loader _ _ Hstart Hbuf Hrun).
Defined.

Lemma texcoords_flip_v_witness :
  texcoordIds (sources Sample.square_loader) !! "#uvs"%string = None
  ∧ ElementId (colladaXml Sample.square_loader) "source" "#uvs"
    = Ok (Some Sample.uvs_source)
  ∧ FirstChildElement "float_array" Sample.uvs_source
    = [Sample.uvs_array; Sample.uvs_technique]
  ∧ GetText Sample.uvs_array = Some "0.25 0.75 0.5 0.5 0.25 0.75"%string
  ∧ FirstChildElement "technique_common" Sample.uvs_source
    = [Sample.uvs_technique]
  ∧ FirstChildElement "accessor" Sample.uvs_technique = [Sample.uvs_accessor]
  ∧ Attribute "stride" Sample.uvs_accessor = Some "2"%string
  ∧ lexical_cast_int "2" = Some 2%Z
  ∧ Sources.LoadTexCoords "#uvs" ([], ∅) Sample.square_loader
    = Ok (Sample.square_uvs,
          Sources.store_texcoords "#uvs" Sample.square_uvs Sample.square_loader)
  ∧ ∃ new, Sample.square_uvs.1 = [] ++ new
      ∧ ∀ k uv, new !! k = Some uv →
          TexcoordSpec.flipped_pair (split_spaces "0.25 0.75 0.5 0.5 0.25 0.75")
                       (Z.of_nat k * 2) uv.
Proof.
  assert (H1 : texcoordIds (sources Sample.square_loader) !! "#uvs"%string
               = None) by reflexivity.
  assert (H2 : ElementId (colladaXml Sample.square_loader) "source" "#uvs"
               = Ok (Some Sample.uvs_source)) by reflexivity.
  assert (H3 : FirstChildElement "float_array" Sample.uvs_source
               = [Sample.uvs_array; Sample.uvs_technique]) by reflexivity.
  assert (H4 : GetText Sample.uvs_array
               = Some "0.25 0.75 0.5 0.5 0.25 0.75"%string) by reflexivity.
  assert (H5 : FirstChildElement "technique_common" Sample.uvs_source
               = [Sample.uvs_technique]) by reflexivity.
  assert (H6 : FirstChildElement "accessor" Sample.uvs_technique
               = [Sample.uvs_accessor]) by reflexivity.
  assert (H7 : Attribute "stride" Sample.uvs_accessor = Some "2"%string)
    by reflexivity.
  assert (H8 : lexical_cast_int "2" = Some 2%Z) by reflexivity.
  assert (H9 : Sources.LoadTexCoords "#uvs" ([], ∅) Sample.square_loader
               = Ok (Sample.square_uvs,
                     Sources.store_texcoords "#uvs" Sample.square_uvs
                       Sample.square_loader)) by (vm_compute; reflexivity).
  refine (conj H1 (conj H2 (conj H3 (conj H4 (conj H5 (conj H6 (conj H7
            (conj H8 (conj H9 _))))))))).
  exact (proj1 (texcoords_flip_v Sample.math Sample.parsers Sample.materials)
           "#uvs"%string ([], ∅) Sample.square_loader _ _ _ _ _ _ _ _ _ _ _
           2%Z H1 H2 H3 H4 H5 H6 H7 H8 H9).
Defined.

End source_samples.

(** ** Geometry weaver: the input loop *)

Section input_proofs.
Context `{IgnMath} `{Parsers} `{Materials}.

(** Once a TEXCOORD input has been taken, a later one in [<triangles>]
    falls through to the branch of the unsupported semantics. *)
Lemma later_texcoord_step T inputXml (inp : Weaver.Inputs) (w : Loader)
    source offset :
  Attribute "semantic" inputXml = Some "TEXCOORD"%string →
  Attribute "source" inputXml = Some source →
  Attribute "offset" inputXml = Some offset →
  Weaver.hasTexcoords inp = true →
  Weaver.input_step Weaver.Triangles T inputXml (inp, w)
  = Ok ({| Weaver.verts := Weaver.verts inp;
           Weaver.positionDupMap := Weaver.positionDupMap inp;
           Weaver.norms := Weaver.norms inp;
           Weaver.normalDupMap := Weaver.normalDupMap inp;
           Weaver.texcoords := Weaver.texcoords inp;
           Weaver.texDupMap := Weaver.texDupMap inp;
           Weaver.inputs :=
             <[Weaver.otherSemantics inp := parseInt offset]> (Weaver.inputs inp);
           Weaver.otherSemantics := u32 (Weaver.otherSemantics inp + 1);
           Weaver.hasVertices := Weaver.hasVertices inp;
           Weaver.hasNormals := Weaver.hasNormals inp;
           Weaver.hasTexcoords := true;
           Weaver.combinedVertNorms := Weaver.combinedVertNorms inp;
           Weaver.offsetSize := u32 (Weaver.offsetSize inp + 1) |},
        emit ignwarn
          "Triangle input semantic: 'TEXCOORD' is currently not supported" w).
Proof.
  intros Hsem Hsrc Hoff Hhas. unfold Weaver.input_step.
  rewrite Hsem, Hsrc, Hoff, Hhas. reflexivity.
Qed.

(** Every step of the triangles input loop keeps a texcoord set that is
    already there. *)
Lemma input_step_keeps_texcoords T inputXml (inp : Weaver.Inputs) (w : Loader)
    inp' w' :
  Weaver.hasTexcoords inp = true →
  Weaver.input_step Weaver.Triangles T inputXml (inp, w) = Ok (inp', w') →
  Weaver.hasTexcoords inp' = true
  ∧ Weaver.texcoords inp' = Weaver.texcoords inp
  ∧ Weaver.texDupMap inp' = Weaver.texDupMap inp.
Proof.
  intros Hhas Hrun. unfold Weaver.input_step in Hrun.
  apply bind_Ok in Hrun as [semantic [_ Hrun]].
  apply bind_Ok in Hrun as [source [_ Hrun]].
  apply bind_Ok in Hrun as [offset [_ Hrun]].
  apply bind_Ok in Hrun as [[inp1 w1] [Hbranch Hrun]].
  injection Hrun as <- <-. simpl.
  rewrite Hhas in Hbranch. rewrite andb_false_r in Hbranch.
  destruct (String.eqb semantic "VERTEX").
  { apply bind_Ok in Hbranch as [[[v n] w2] [_ Hbranch]].
    injection Hbranch as <- <-. simpl. auto. }
  destruct (String.eqb semantic "NORMAL").
  { apply bind_Ok in Hbranch as [[n w2] [_ Hbranch]].
    injection Hbranch as <- <-. simpl. auto. }
  injection Hbranch as <- <-. simpl. auto.
Qed.

(** The rest of the input loop, entered with a texcoord set in place. *)
Lemma read_inputs_keeps_texcoords T (l : list XMLElement) :
  ∀ (inp : Weaver.Inputs) (w : Loader) inp' w',
    Weaver.hasTexcoords inp = true →
    each_named "input" (Weaver.input_step Weaver.Triangles T) l (inp, w)
    = Ok (inp', w') →
    Weaver.hasTexcoords inp' = true
    ∧ Weaver.texcoords inp' = Weaver.texcoords inp
    ∧ Weaver.texDupMap inp' = Weaver.texDupMap inp.
Proof.
  induction l as [|e l IH]; intros inp w inp' w' Hhas Hrun; simpl in Hrun.
  - injection Hrun as <- <-. auto.
  - destruct (String.eqb (Value e) "input").
    + apply bind_Ok in Hrun as [[inp1 w1] [Hstep Hrun]].
      apply input_step_keeps_texcoords in Hstep as [Hhas1 [Ht1 Hd1]];
        [|exact Hhas].
      destruct (IH inp1 w1 inp' w' Hhas1 Hrun) as [Hhas' [Ht' Hd']].
      split; [exact Hhas'|]. split; congruence.
    + exact (IH inp w inp' w' Hhas Hrun).
Qed.

End input_proofs.

(** C10.  In the [<triangles>] loader an [<input>] with semantic TEXCOORD
    that comes after one already taken is handled as an unsupported
    semantic: LoadTexCoords is not called (buffers, duplicate map and source
    cache stay as they are), its offset is recorded under the next free slot
    and counted in the tuple width, and a warning is written; and whatever
    inputs follow, the texcoord set taken first is the one that reaches the
    weaver. *)
Theorem later_texcoord_unsupported :
  ∀ (M : IgnMath) (P : Parsers) (Mat : Materials) (T : Matrix4d),
    (∀ inputXml (inp : Weaver.Inputs) (w : Loader) source offset,
       Attribute "semantic" inputXml = Some "TEXCOORD"%string →
       Attribute "source" inputXml = Some source →
       Attribute "offset" inputXml = Some offset →
       Weaver.hasTexcoords inp = true →
       ∃ inp' w',
         Weaver.input_step Weaver.Triangles T inputXml (inp, w) = Ok (inp', w')
         ∧ Weaver.texcoords inp' = Weaver.texcoords inp
         ∧ Weaver.texDupMap inp' = Weaver.texDupMap inp
         ∧ sources w' = sources w
         ∧ Weaver.inputs inp'
           = <[Weaver.otherSemantics inp := parseInt offset]> (Weaver.inputs inp)
         ∧ Weaver.otherSemantics inp' = u32 (Weaver.otherSemantics inp + 1)
         ∧ Weaver.offsetSize inp' = u32 (Weaver.offsetSize inp + 1)
         ∧ console w'
           = console w
             ++ [(ignwarn,
                  "Triangle input semantic: 'TEXCOORD' is currently not supported"%string)])
    ∧ (∀ (l : list XMLElement) (inp : Weaver.Inputs) (w : Loader) inp' w',
         Weaver.hasTexcoords inp = true →
         each_named "input" (Weaver.input_step Weaver.Triangles T) l (inp, w)
         = Ok (inp', w') →
         Weaver.hasTexcoords inp' = true
         ∧ Weaver.texcoords inp' = Weaver.texcoords inp
         ∧ Weaver.texDupMap inp' = Weaver.texDupMap inp).
Proof.
  intros M P Mat T. split.
  - intros inputXml inp w source offset Hsem Hsrc Hoff Hhas.
    eexists. eexists. split.
    + apply (later_texcoord_step T inputXml inp w source offset);
        assumption.
    + simpl. repeat split; reflexivity.
  - intros l inp w inp' w'. apply read_inputs_keeps_texcoords.
Qed.

(** ** Geometry weaver: one corner *)

Section corner_proofs.
Context `{IgnMath} `{Parsers} `{Materials}.
Import Weaver.

(** The skinning lines leave the index stream and the number of
    vertices as they are. *)
Lemma skin_assignments_geometry skel (l : list (string * float)) :
  ∀ (acc : outcome SubMesh) s',
    foldl (λ acc node_weight,
             s ← acc;
             node ← deref (NodeByName skel node_weight.1);
             Ok (AddNodeAssignment (VertexCount s - 1) node node_weight.2 s))
          acc l = Ok s' →
    ∃ s, acc = Ok s ∧ sm_indices s' = sm_indices s
         ∧ length (sm_vertices s') = length (sm_vertices s).
Proof.
  induction l as [|nw l IH]; intros acc s' Hrun; simpl in Hrun.
  - exists s'. auto.
  - apply IH in Hrun as [s1 [Hstep [Hi Hv]]].
    apply bind_Ok in Hstep as [s [Hacc Hstep]].
    apply bind_Ok in Hstep as [node [_ Hstep]].
    injection Hstep as <-. exists s. simpl in Hi, Hv. auto.
Qed.

Lemma skin_vertex_geometry p (_mesh : Mesh) values dae new (s s' : SubMesh) :
  skin_vertex p _mesh values dae new s = Ok s' →
  sm_indices s' = sm_indices s
  ∧ length (sm_vertices s') = length (sm_vertices s).
Proof.
  unfold skin_vertex. destruct (mesh_skeleton _mesh) as [skel|].
  - intros Hrun. apply bind_Ok in Hrun as [[s1 vertex] [Hset Hrun]].
    apply skin_assignments_geometry in Hrun as [s2 [[= <-] [Hi Hv]]].
    destruct p.
    + apply bind_Ok in Hset as [v [_ [= <- _]]]. auto.
    + apply bind_Ok in Hset as [v [_ [= <- _]]]. simpl in Hi, Hv.
      rewrite length_insert in Hv. auto.
  - intros [= <-]. auto.
Qed.

(** A corner that is added: one more vertex, its index at the end of the
    stream, and a map entry that holds the record of that vertex alone. *)
Lemma add_corner_records p (inp : Inputs) (_mesh : Mesh) values dae
    (subMesh : SubMesh) vertexIndexMap subMesh' vertexIndexMap' :
  hasVertices inp = true →
  add_corner p inp _mesh values dae (subMesh, vertexIndexMap)
  = Ok (subMesh', vertexIndexMap') →
  ∃ input,
    vertexIndexMap' = <[dae := [input]]> vertexIndexMap
    ∧ WeaverSpec.records inp values dae (u32 (VertexCount subMesh)) input
    ∧ sm_indices subMesh' = sm_indices subMesh ++ [u32 (VertexCount subMesh)]
    ∧ length (sm_vertices subMesh') = S (length (sm_vertices subMesh)).
Proof.
  intros Hv Hrun. unfold add_corner in Hrun. rewrite Hv in Hrun.
  apply bind_Ok in Hrun as [[[s1 vIdx] mIdx] [Hvert Hrun]].
  apply bind_Ok in Hrun as [[s2 nIdx] [Hnorm Hrun]].
  apply bind_Ok in Hrun as [[s3 tIdx] [Htex Hrun]].
  injection Hrun as <- <-.
  apply bind_Ok in Hvert as [v [_ Hvert]].
  apply bind_Ok in Hvert as [s0 [Hcomb Hvert]].
  apply bind_Ok in Hvert as [s0' [Hskin Hvert]].
  injection Hvert as <- <- <-.
  apply skin_vertex_geometry in Hskin as [Hi1 Hv1].
  assert (Hs0 : sm_indices s0
                = sm_indices subMesh ++ [u32 (VertexCount subMesh)]
                ∧ length (sm_vertices s0) = S (length (sm_vertices subMesh))).
  { assert (Hnew : u32 (VertexCount (AddVertex v subMesh) - 1)
                   = u32 (VertexCount subMesh)).
    { unfold VertexCount. simpl. rewrite length_app. simpl. f_equal. lia. }
    destruct (combinedVertNorms inp).
    - apply bind_Ok in Hcomb as [n [_ [= <-]]]. simpl.
      rewrite Hnew, length_app. simpl. split; [reflexivity|lia].
    - injection Hcomb as <-. simpl.
      rewrite Hnew, length_app. simpl. split; [reflexivity|lia]. }
  destruct Hs0 as [Hi0 Hv0].
  assert (Hn : sm_indices s2 = sm_indices s0'
               ∧ length (sm_vertices s2) = length (sm_vertices s0')
               ∧ (hasNormals inp = true →
                  remapped_normal inp values = Ok nIdx)).
  { destruct (hasNormals inp).
    - apply bind_Ok in Hnorm as [n [Hn Hnorm]].
      apply bind_Ok in Hnorm as [nv [_ [= <- <-]]]. simpl. auto.
    - injection Hnorm as <- <-. repeat split; [discriminate]. }
  destruct Hn as [Hi2 [Hv2 Hn]].
  assert (Ht : sm_indices s3 = sm_indices s2
               ∧ length (sm_vertices s3) = length (sm_vertices s2)
               ∧ (hasTexcoords inp = true →
                  remapped_texcoord inp values = Ok tIdx)).
  { destruct (hasTexcoords inp).
    - apply bind_Ok in Htex as [t [Ht Htex]].
      apply bind_Ok in Htex as [uv [_ [= <- <-]]]. simpl. auto.
    - injection Htex as <- <-. repeat split; [discriminate]. }
  destruct Ht as [Hi3 [Hv3 Ht]].
  eexists. split; [reflexivity|]. split; [|split].
  - unfold WeaverSpec.records. simpl. split; [reflexivity|].
    split; [|split; [exact Hn|exact Ht]].
    unfold VertexCount. simpl. rewrite length_app. simpl. f_equal. lia.
  - congruence.
  - congruence.
Qed.

(** What the code does at a corner that matches no stored entry: the
    entry of [p] is replaced by the record of the new vertex. *)
Lemma weave_corner_overwrites prim (inp : Inputs) (_mesh : Mesh) values
    (subMesh : SubMesh) vertexIndexMap p entries subMesh' vertexIndexMap' :
  WeaverSpec.unmatched_corner inp values vertexIndexMap p entries →
  weave_corner prim inp _mesh values (subMesh, vertexIndexMap)
  = Ok (subMesh', vertexIndexMap') →
  ∃ input,
    vertexIndexMap' = <[p := [input]]> vertexIndexMap
    ∧ WeaverSpec.records inp values p (u32 (VertexCount subMesh)) input
    ∧ sm_indices subMesh' = sm_indices subMesh ++ [u32 (VertexCount subMesh)]
    ∧ length (sm_vertices subMesh') = S (length (sm_vertices subMesh)).
Proof.
  intros [Hv [[v [Hread ->]] [Hentries Hscan]]] Hrun.
  unfold weave_corner in Hrun. rewrite Hv, Hread in Hrun. simpl in Hrun.
  rewrite Hentries, Hscan in Hrun. simpl in Hrun.
  exact (add_corner_records _ _ _ _ _ _ _ _ _ Hv Hrun).
Qed.

(** Through any corner the map keeps one entry per position index. *)
Lemma weave_corner_one_entry prim (inp : Inputs) (_mesh : Mesh) values
    (subMesh : SubMesh) vertexIndexMap subMesh' vertexIndexMap' :
  WeaverSpec.one_entry_each vertexIndexMap →
  weave_corner prim inp _mesh values (subMesh, vertexIndexMap)
  = Ok (subMesh', vertexIndexMap') →
  WeaverSpec.one_entry_each vertexIndexMap'.
Proof.
  intros Hone Hrun. unfold weave_corner in Hrun.
  assert (Hadd : ∀ dae, hasVertices inp = true →
            add_corner prim inp _mesh values dae (subMesh, vertexIndexMap)
            = Ok (subMesh', vertexIndexMap') →
            WeaverSpec.one_entry_each vertexIndexMap').
  { intros dae Hv Hrun'.
    apply add_corner_records in Hrun' as [input [-> [[Hp _] _]]]; [|exact Hv].
    intros q entries Hq. destruct (decide (dae = q)) as [->|Hne].
    - rewrite lookup_insert_eq in Hq. injection Hq as <-. eauto.
    - rewrite lookup_insert_ne in Hq by exact Hne. exact (Hone q entries Hq). }
  destruct (hasVertices inp) eqn:Hv.
  - apply bind_Ok in Hrun as [v [_ Hrun]].
    destruct (vertexIndexMap !! _) as [inputValues|]; [|eauto].
    apply bind_Ok in Hrun as [reuse [_ Hrun]].
    destruct reuse as [reuseIndex|]; [|eauto].
    injection Hrun as <- <-. exact Hone.
  - unfold add_corner in Hrun. rewrite Hv in Hrun. simpl in Hrun.
    apply bind_Ok in Hrun as [[s2 nIdx] [_ Hrun]].
    apply bind_Ok in Hrun as [[s3 tIdx] [_ Hrun]].
    injection Hrun as <- <-. exact Hone.
Qed.

End corner_proofs.

(** ** Geometry weaver: the index loops *)

Lemma foldM_inv {A S} (P : S → Prop) (f : A → S → outcome S) (l : list A) :
  (∀ x s s', P s → f x s = Ok s' → P s') →
  ∀ s s', P s → foldM f l s = Ok s' → P s'.
Proof.
  intros Hf. induction l as [|x l IH]; intros s s' Hs Hrun; simpl in Hrun.
  - injection Hrun as <-. exact Hs.
  - apply bind_Ok in Hrun as [s1 [Hstep Hrun]].
    exact (IH s1 s' (Hf x s s1 Hs Hstep) Hrun).
Qed.

Section loop_proofs.
Context `{IgnMath} `{Parsers} `{Materials}.
Import Weaver.

Abbreviation one_entry :=
  (λ st : SubMesh * gmap Z (list GeometryIndices),
     WeaverSpec.one_entry_each st.2).

Lemma one_entry_empty : WeaverSpec.one_entry_each ∅.
Proof. intros p entries Hp. rewrite lookup_empty in Hp. discriminate. Qed.

Lemma triangles_loop_one_entry (inp : Inputs) (_mesh : Mesh) strs fuel :
  ∀ j st st',
    one_entry st →
    Primitives.triangles_loop inp _mesh strs fuel j st = Ok st' →
    one_entry st'.
Proof.
  induction fuel as [|fuel IH]; intros j st st' Hst Hrun; simpl in Hrun;
    destruct (j <? _)%Z; try discriminate;
    try (injection Hrun as <-; exact Hst).
  apply bind_Ok in Hrun as [values [_ Hrun]].
  apply bind_Ok in Hrun as [[s1 m1] [Hstep Hrun]].
  destruct st as [s0 m0].
  eapply (IH _ (s1, m1) st'); [|exact Hrun].
  exact (weave_corner_one_entry _ _ _ _ _ _ _ _ Hst Hstep).
Qed.

Lemma polylist_corner_one_entry (inp : Inputs) (_mesh : Mesh) strs W base k j
    st st' :
  one_entry st →
  Primitives.polylist_corner inp _mesh strs W base k j st = Ok st' →
  one_entry st'.
Proof.
  intros Hst Hrun. unfold Primitives.polylist_corner in Hrun.
  apply bind_Ok in Hrun as [values [_ Hrun]].
  destruct st as [s0 m0], st' as [s1 m1].
  exact (weave_corner_one_entry _ _ _ _ _ _ _ _ Hst Hrun).
Qed.

Lemma polylist_polygon_one_entry (inp : Inputs) (_mesh : Mesh) strs W base n
    st st' :
  one_entry st →
  Primitives.polylist_polygon inp _mesh strs W base n st = Ok st' →
  one_entry st'.
Proof.
  unfold Primitives.polylist_polygon.
  apply (foldM_inv (λ st, WeaverSpec.one_entry_each st.2)).
  intros k s s'. unfold Primitives.polylist_triangle.
  apply (foldM_inv (λ st, WeaverSpec.one_entry_each st.2)).
  intros j s1 s2. apply polylist_corner_one_entry.
Qed.

Lemma polylist_polygons_one_entry (inp : Inputs) (_mesh : Mesh) strs W vcounts :
  ∀ previous base st st',
    one_entry st →
    Primitives.polylist_polygons inp _mesh strs W previous base vcounts st
    = Ok st' →
    one_entry st'.
Proof.
  induction vcounts as [|n rest IH]; intros previous base st st' Hst Hrun;
    simpl in Hrun.
  - injection Hrun as <-. exact Hst.
  - apply bind_Ok in Hrun as [s1 [Hpoly Hrun]].
    apply polylist_polygon_one_entry in Hpoly; [|exact Hst].
    exact (IH _ _ _ _ Hpoly Hrun).
Qed.

End loop_proofs.

(** C1, as the code has it.  In both loaders, a corner whose remapped
    position index [p] is in [vertexIndexMap] while no stored entry matches
    its remapped normal and texcoord indices adds a new output vertex, and
    [vertexIndexMap[p]] is replaced by a list that holds the record of that
    new vertex alone.  So all through the weaving of one sub-mesh every
    position index in the map has exactly one entry. *)
Theorem unmatched_corner_replaces_entry :
  ∀ (M : IgnMath) (P : Parsers) (Mat : Materials) (prim : Weaver.primitive),
    (∀ (inp : Weaver.Inputs) (_mesh : Mesh) values (subMesh : SubMesh)
        vertexIndexMap p entries subMesh' vertexIndexMap',
       WeaverSpec.unmatched_corner inp values vertexIndexMap p entries →
       Weaver.weave_corner prim inp _mesh values (subMesh, vertexIndexMap)
       = Ok (subMesh', vertexIndexMap') →
       ∃ input,
         vertexIndexMap' = <[p := [input]]> vertexIndexMap
         ∧ WeaverSpec.records inp values p
             (u32 (Weaver.VertexCount subMesh)) input
         ∧ sm_indices subMesh'
           = sm_indices subMesh ++ [u32 (Weaver.VertexCount subMesh)]
         ∧ length (sm_vertices subMesh') = S (length (sm_vertices subMesh)))
    ∧ (∀ (inp : Weaver.Inputs) (_mesh : Mesh) strs fuel (subMesh : SubMesh) st',
         Primitives.triangles_loop inp _mesh strs fuel 0 (subMesh, ∅) = Ok st' →
         WeaverSpec.one_entry_each st'.2)
    ∧ (∀ (inp : Weaver.Inputs) (_mesh : Mesh) strs W vcounts
          (subMesh : SubMesh) st',
         Primitives.polylist_polygons inp _mesh strs W None 0 vcounts
           (subMesh, ∅) = Ok st' →
         WeaverSpec.one_entry_each st'.2).
Proof.
  intros M P Mat prim. split; [|split].
  - intros inp _mesh values subMesh vertexIndexMap p entries subMesh'
      vertexIndexMap'. apply weave_corner_overwrites.
  - intros inp _mesh strs fuel subMesh st' Hrun.
    eapply triangles_loop_one_entry; [|exact Hrun]. apply one_entry_empty.
  - intros inp _mesh strs W vcounts subMesh st' Hrun.
    eapply polylist_polygons_one_entry; [|exact Hrun]. apply one_entry_empty.
Qed.

Section corner_samples.
#[local] Existing Instances Sample.math Sample.parsers Sample.materials.

(** The claim as it is worded fails on the code: after the corners
    (0, normal 0) and (0, normal 1), which the code reaches from the empty
    map, [vertexIndexMap[0]] holds the record of the second vertex and no
    longer that of the first. *)
Lemma first_entry_not_retained :
  ¬ WeaverSpec.retains_first_entry Weaver.Triangles
  ∧ ¬ WeaverSpec.retains_first_entry Weaver.Polylist.
Proof.
  assert (Hun : WeaverSpec.unmatched_corner Sample.crease_inputs [0; 1]%Z
                  (Sample.crease_map 0 0) 0
                  [Sample.crease_record 0 0]).
  { split; [reflexivity|]. split; [exists 0%Z; split; reflexivity|].
    split; reflexivity. }
  split; intros Hclaim.
  - specialize (Hclaim Sample.crease_inputs Mesh_new [0; 1]%Z
                  Sample.crease_after_first
                  (Sample.crease_map 0 0) 0%Z
                  [Sample.crease_record 0 0] Sample.crease_after_second
                  (Sample.crease_map 1 1) Hun
                  ltac:(vm_compute; reflexivity)).
    vm_compute in Hclaim. discriminate Hclaim.
  - specialize (Hclaim Sample.crease_inputs Mesh_new [0; 1]%Z
                  Sample.crease_after_first
                  (Sample.crease_map 0 0) 0%Z
                  [Sample.crease_record 0 0] Sample.crease_after_second
                  (Sample.crease_map 1 1) Hun
                  ltac:(vm_compute; reflexivity)).
    vm_compute in Hclaim. discriminate Hclaim.
Qed.

(** The state used above is the one the code reaches at the first
    occurrence of position 0. *)
Example crease_first_corner :
  Weaver.weave_corner Weaver.Triangles Sample.crease_inputs Mesh_new [0; 0]%Z
    (Primitives.SubMesh_new, ∅)
  = Ok (Sample.crease_after_first, (Sample.crease_map 0 0)).
Proof. vm_compute. reflexivity. Qed.

Lemma unmatched_corner_replaces_entry_witness :
  WeaverSpec.unmatched_corner Sample.crease_inputs [0; 1]%Z
    (Sample.crease_map 0 0) 0 [Sample.crease_record 0 0]
  ∧ Weaver.weave_corner Weaver.Triangles Sample.crease_inputs Mesh_new
      [0; 1]%Z
      (Sample.crease_after_first, (Sample.crease_map 0 0))
    = Ok (Sample.crease_after_second, (Sample.crease_map 1 1))
  ∧ ∃ input,
      Sample.crease_map 1 1 = <[0%Z := [input]]> (Sample.crease_map 0 0)
      ∧ WeaverSpec.records Sample.crease_inputs [0; 1]%Z 0
          (u32 (Weaver.VertexCount Sample.crease_after_first)) input
      ∧ sm_indices Sample.crease_after_second
        = sm_indices Sample.crease_after_first
          ++ [u32 (Weaver.VertexCount Sample.crease_after_first)]
      ∧ length (sm_vertices Sample.crease_after_second)
        = S (length (sm_vertices Sample.crease_after_first)).
Proof.
  assert (Hun : WeaverSpec.unmatched_corner Sample.crease_inputs [0; 1]%Z
                  (Sample.crease_map 0 0) 0
                  [Sample.crease_record 0 0]).
  { split; [reflexivity|]. split; [exists 0%Z; split; reflexivity|].
    split; reflexivity. }
  assert (Hrun : Weaver.weave_corner Weaver.Triangles Sample.crease_inputs
                   Mesh_new [0; 1]%Z
                   (Sample.crease_after_first,
                    (Sample.crease_map 0 0))
                 = Ok (Sample.crease_after_second,
                       (Sample.crease_map 1 1)))
    by (vm_compute; reflexivity).
  refine (conj Hun (conj Hrun _)).
  exact (proj1 (unmatched_corner_replaces_entry Sample.math Sample.parsers
                  Sample.materials Weaver.Triangles)
           Sample.crease_inputs Mesh_new [0; 1]%Z Sample.crease_after_first
           (Sample.crease_map 0 0) 0%Z
           [Sample.crease_record 0 0] Sample.crease_after_second
           (Sample.crease_map 1 1) Hun Hrun).
Defined.

(** Seen from outside: the third corner of the sample triangle repeats the
    first (position 0, normal 0), yet it gets a vertex of its own, because
    the entry of the first corner is gone from the map. *)
Example crease_triangle_run :
  (λ r, (λ s, (length (sm_vertices s), sm_indices s)) <$> mesh_submeshes r.1)
    <$> Primitives.LoadTriangles Sample.no_material 6 Sample.crease_triangles
          Sample.identity4 Mesh_new (Sample.loader_on Sample.crease_doc)
  = Ok [(3, [0; 1; 2]%Z)].
Proof. vm_compute. reflexivity. Qed.

End corner_samples.

(** ** Geometry weaver: fan triangulation *)





Section fan_proofs.
Context `{IgnMath} `{Parsers} `{Materials}.
Import Weaver.





End fan_proofs.


Section weaver_samples.
#[local] Existing Instances Sample.math Sample.parsers Sample.materials.


Lemma later_texcoord_unsupported_witness :
  Attribute "semantic" (Sample.input "TEXCOORD" "#uvs2" "3")
    = Some "TEXCOORD"%string
  ∧ Attribute "source" (Sample.input "TEXCOORD" "#uvs2" "3")
    = Some "#uvs2"%string
  ∧ Attribute "offset" (Sample.input "TEXCOORD" "#uvs2" "3") = Some "3"%string
  ∧ Weaver.hasTexcoords Sample.uv_taken = true
  ∧ ∃ inp' w',
      Weaver.input_step Weaver.Triangles Sample.identity4
        (Sample.input "TEXCOORD" "#uvs2" "3")
        (Sample.uv_taken, Sample.square_loader) = Ok (inp', w')
      ∧ Weaver.texcoords inp' = Weaver.texcoords Sample.uv_taken
      ∧ Weaver.texDupMap inp' = Weaver.texDupMap Sample.uv_taken
      ∧ sources w' = sources Sample.square_loader
      ∧ Weaver.inputs inp'
        = <[Weaver.otherSemantics Sample.uv_taken := parseInt "3"]>
            (Weaver.inputs Sample.uv_taken)
      ∧ Weaver.otherSemantics inp'
        = u32 (Weaver.otherSemantics Sample.uv_taken + 1)
      ∧ Weaver.offsetSize inp' = u32 (Weaver.offsetSize Sample.uv_taken + 1)
      ∧ console w'
        = console Sample.square_loader
          ++ [(ignwarn,
               "Triangle input semantic: 'TEXCOORD' is currently not supported"%string)].
Proof.
  assert (H1 : Attribute "semantic" (Sample.input "TEXCOORD" "#uvs2" "3")
               = Some "TEXCOORD"%string) by reflexivity.
  assert (H2 : Attribute "source" (Sample.input "TEXCOORD" "#uvs2" "3")
               = Some "#uvs2"%string) by reflexivity.
  assert (H3 : Attribute "offset" (Sample.input "TEXCOORD" "#uvs2" "3")
               = Some "3"%string) by reflexivity.
  assert (H4 : Weaver.hasTexcoords Sample.uv_taken = true) by reflexivity.
  refine (conj H1 (conj H2 (conj H3 (conj H4 _)))).
  exact (proj1 (later_texcoord_unsupported Sample.math Sample.parsers
                  Sample.materials Sample.identity4)
           (Sample.input "TEXCOORD" "#uvs2" "3") Sample.uv_taken
           Sample.square_loader "#uvs2"%string "3"%string H1 H2 H3 H4).
Defined.

(** The sample [<triangles>] has two TEXCOORD inputs: the texcoords of the
    sub-mesh come from the first, and one warning is written. *)
Example square_triangles_run :
  (λ r, (sm_texcoords <$> mesh_submeshes r.1, console r.2))
    <$> Primitives.LoadTriangles Sample.no_material 24
          Sample.square_triangles Sample.identity4 Mesh_new
          Sample.square_loader
  = Ok ([[mkVector2d 0.25 0.25; mkVector2d 0.5 0.5; mkVector2d 0.25 0.25;
          mkVector2d 0.5 0.5]],
        [(ignwarn,
          "Triangle input semantic: 'TEXCOORD' is currently not supported"%string)]).
Proof. vm_compute. reflexivity. Qed.

End weaver_samples.

(** * Part III: lemmas for the further properties *)

(** From here on a lemma of a section depends on the section hypotheses
    that its proof uses. *)
Unset Default Proof Using.

Lemma XMLElement_forall_ind (P : XMLElement → Prop) :
  (∀ tag attrs txt kids, Forall P kids → P (Element tag attrs txt kids)) →
  ∀ e, P e.
Proof.
  intros step.
  fix IH 1. intros [tag attrs txt kids]. apply step.
  induction kids as [|k kids IHk]; constructor; [apply IH | exact IHk].
Qed.

Lemma find_app_list {A} (f : A → bool) (l1 l2 : list A) :
  List.find f (l1 ++ l2)
  = match List.find f l1 with Some x => Some x | None => List.find f l2 end.
Proof.
  induction l1 as [|a l1 IH]; simpl; [reflexivity|].
  destruct (f a); [reflexivity | exact IH].
Qed.

Lemma ElementId_in_preorder _name _id : ∀ e,
  ElementId_in e _name _id
  = List.find (DocumentOrder.answers _name (strip_hash _id))
              (DocumentOrder.preorder e).
Proof.
  induction e as [tag attrs txt kids IH] using XMLElement_forall_ind.
  simpl. unfold DocumentOrder.answers at 1. simpl.
  destruct (_ || _ || _); [reflexivity|].
  induction IH as [|k kids Hk _ IHkids]; simpl; [reflexivity|].
  rewrite find_app_list, <- Hk.
  destruct (ElementId_in k _name _id); [reflexivity | exact IHkids].
Qed.

Lemma answers_named n1 n2 id e :
  id ≠ "" → DocumentOrder.answers n1 id e = DocumentOrder.answers n2 id e.
Proof.
  intros Hid. unfold DocumentOrder.answers.
  destruct (String.eqb_spec id ""); [contradiction | reflexivity].
Qed.

Section driver_stage_proofs.
Context `{IgnMath} `{Parsers} `{Materials}.

(** What Load has done when it calls LoadScene, for a document with a
    versioned root. *)
Lemma Load_prologue
    (LoadNode : XMLElement → Mesh → Matrix4d → Loader → outcome (Mesh * Loader))
    (fs : Driver.FileSystem) _filename (w : Loader) err doc root rest version :
  fs _filename = (err, doc) →
  first_named "COLLADA" doc = root :: rest →
  Attribute "version" root = Some version →
  ∃ w1 : Loader,
    Driver.Load LoadNode fs _filename w
    = ('(mesh, w2) ← Driver.LoadScene LoadNode
                        (SetPath (path w1) Mesh_new) w1;
       Ok (Mesh_Scale (mkVector3d (meter w2) (meter w2) (meter w2)) mesh, w2))
    ∧ path w1 = path (Driver.reset _filename w)
    ∧ colladaXml w1 = root :: rest
    ∧ sources w1 = no_sources
    ∧ console w1
      = console w
        ++ (if (err =? Driver.XML_NO_ERROR)%Z
            then [(ignerr,
                   ("Unable to load collada file[" ++ _filename ++ "]")%string)]
            else [])
        ++ (if String.eqb version "1.4.0" || String.eqb version "1.4.1"
            then [] else [Driver.version_error]).
Proof.
  intros Hfs Hroot Hversion. unfold Driver.Load. rewrite Hfs.
  set (w0 := Driver.reset _filename w).
  assert (Hrep : ∃ wr, Driver.report_load err w0 = wr
            ∧ path wr = path w0 ∧ sources wr = no_sources
            ∧ console wr
              = console w
                ++ (if (err =? Driver.XML_NO_ERROR)%Z
                    then [(ignerr,
                           ("Unable to load collada file[" ++ _filename ++ "]")%string)]
                    else [])).
  { eexists. split; [reflexivity|]. unfold Driver.report_load, Driver.XML_NO_ERROR.
    destruct (err =? 0)%Z; simpl.
    - repeat split; reflexivity.
    - repeat split; try reflexivity. symmetry. apply app_nil_r. }
  destruct Hrep as [wr [-> [Hp [Hs Hc]]]].
  set (wf := Driver.find_root doc wr).
  assert (Hfind : colladaXml wf = root :: rest ∧ path wf = path wr
                  ∧ sources wf = sources wr ∧ console wf = console wr).
  { unfold wf, Driver.find_root. simpl. rewrite Hroot. simpl. auto. }
  destruct Hfind as [Hr [Hp1 [Hs1 Hc1]]].
  assert (Hcheck : ∃ wv, Driver.check_version wf = Ok wv
            ∧ colladaXml wv = root :: rest ∧ path wv = path wf
            ∧ sources wv = sources wf
            ∧ console wv
              = console wf
                ++ (if String.eqb version "1.4.0" || String.eqb version "1.4.1"
                    then [] else [Driver.version_error])).
  { unfold Driver.check_version. rewrite Hr. simpl. rewrite Hversion. simpl.
    destruct (String.eqb version "1.4.0"); simpl.
    - eexists. split; [reflexivity|]. repeat split; try assumption.
      symmetry. apply app_nil_r.
    - try rewrite Hversion. simpl.
      destruct (String.eqb version "1.4.1"); simpl.
      + eexists. split; [reflexivity|]. repeat split; try assumption.
        symmetry. apply app_nil_r.
      + eexists. split; [reflexivity|]. simpl. repeat split; assumption. }
  destruct Hcheck as [wv [Hcv [Hr2 [Hp2 [Hs2 Hc2]]]]].
  assert (Hunit : ∃ wu, Driver.read_unit wv = Ok wu
            ∧ colladaXml wu = root :: rest ∧ path wu = path wv
            ∧ sources wu = sources wv ∧ console wu = console wv).
  { unfold Driver.read_unit. rewrite Hr2. simpl.
    eexists. split; [reflexivity|].
    destruct (FirstChildElement "asset" root) as [|assetXml ?]; [auto|].
    destruct (FirstChildElement "unit" assetXml) as [|unitXml ?]; [auto|].
    destruct (Attribute "meter" unitXml); simpl; auto. }
  destruct Hunit as [wu [Hru [Hr3 [Hp3 [Hs3 Hc3]]]]].
  rewrite Hcv. simpl. rewrite Hru. simpl.
  exists wu. split; [reflexivity|].
  split; [rewrite Hp3, Hp2, Hp1, Hp; reflexivity|]. split; [exact Hr3|].
  split; [rewrite Hs3, Hs2, Hs1, Hs; reflexivity|].
  rewrite Hc3, Hc2, Hc1, Hc. rewrite <- app_assoc. reflexivity.
Qed.

Lemma Load_without_root
    (LoadNode : XMLElement → Mesh → Matrix4d → Loader → outcome (Mesh * Loader))
    (fs : Driver.FileSystem) _filename (w : Loader) :
  first_named "COLLADA" (fs _filename).2 = [] →
  Driver.Load LoadNode fs _filename w = Fault NullDeref.
Proof.
  intros Hroot. unfold Driver.Load.
  destruct (fs _filename) as [err doc]. simpl in Hroot.
  unfold Driver.check_version, Driver.find_root. simpl. rewrite Hroot.
  reflexivity.
Qed.

End driver_stage_proofs.

Lemma rfind_absent c s :
  ¬ In c (list_ascii_of_string s) → Driver.rfind c s = None.
Proof.
  induction s as [|a s IH]; simpl; [reflexivity|].
  intros Hnot. rewrite IH by tauto.
  destruct (Ascii.eqb_spec a c); [|reflexivity]. tauto.
Qed.

Lemma rfind_last c dir base :
  ¬ In c (list_ascii_of_string base) →
  Driver.rfind c (dir ++ String c base) = Some (String.length dir).
Proof.
  intros Hnot. induction dir as [|a dir IH]; simpl.
  - rewrite (rfind_absent c base Hnot). rewrite Ascii.eqb_refl. reflexivity.
  - rewrite IH. reflexivity.
Qed.

Lemma substring_prefix dir more :
  String.substring 0 (String.length dir) (dir ++ more) = dir.
Proof.
  induction dir as [|a dir IH]; simpl.
  - destruct more; reflexivity.
  - rewrite IH. reflexivity.
Qed.

Section reset_proofs.
Context `{IgnMath} `{Materials}.

Lemma reset_path_directory dir base (w : Loader) :
  ¬ In "/"%char (list_ascii_of_string base) →
  path (Driver.reset (dir ++ String "/"%char base) w) = dir.
Proof.
  intros Hnot. unfold Driver.reset. simpl.
  rewrite (rfind_last "/"%char dir base Hnot). apply substring_prefix.
Qed.

Lemma reset_path_bare base (w : Loader) :
  ¬ In "/"%char (list_ascii_of_string base) →
  path (Driver.reset base w) = ""%string.
Proof.
  intros Hnot. unfold Driver.reset. simpl.
  rewrite (rfind_absent "/"%char base Hnot). reflexivity.
Qed.

End reset_proofs.

Lemma split_spaces_length s : length (split_spaces s) = S (spaces s).
Proof.
  unfold spaces. induction s as [|c s IH]; simpl; [reflexivity|].
  destruct (Ascii.eqb_spec c " ") as [->|Hne].
  - simpl. rewrite IH. reflexivity.
  - destruct (Ascii.ascii_dec c " ") as [E|_]; [contradiction|].
    destruct (split_spaces s) as [|tok toks]; simpl in *; [discriminate|].
    exact IH.
Qed.

Lemma triples_ind {A} (P : list A → Prop) :
  P [] → (∀ x, P [x]) → (∀ x y, P [x; y]) →
  (∀ x y z rest, P rest → P (x :: y :: z :: rest)) →
  ∀ l, P l.
Proof.
  intros H0 H1 H2 H3.
  fix IH 1. intros [|x [|y [|z rest]]].
  - exact H0.
  - apply H1.
  - apply H2.
  - apply H3. apply IH.
Qed.

Section position_proofs.
Context `{IgnMath} `{Parsers} `{Materials}.

Lemma read_positions_whole T : ∀ strs st,
  (length strs mod 3 = 0 →
   ∃ st', Sources.read_positions T strs st = Ok st'
          ∧ length st'.1 = length st.1 + length strs / 3)
  ∧ (length strs mod 3 ≠ 0 →
     Sources.read_positions T strs st = Fault OutOfRange).
Proof.
  induction strs as [| x | x y | x y z rest IH] using triples_ind; intros st.
  - split; [|intros Hne; contradiction Hne; reflexivity].
    intros _. exists st. split; [reflexivity|]. simpl. lia.
  - split; [intros Hm; discriminate Hm | reflexivity].
  - split; [intros Hm; discriminate Hm | reflexivity].
  - assert (Hlen : length (x :: y :: z :: rest) = 3 + length rest)
      by reflexivity.
    assert (Hmod : length (x :: y :: z :: rest) mod 3 = length rest mod 3).
    { rewrite Hlen. rewrite Nat.add_comm.
      change 3 with (1 * 3) at 1. apply Nat.Div0.mod_add. }
    assert (Hdiv : length (x :: y :: z :: rest) / 3 = S (length rest / 3)).
    { rewrite Hlen. change 3 with (1 * 3) at 1.
      rewrite Nat.add_comm, Nat.div_add by lia. lia. }
    rewrite Hmod, Hdiv.
    change (Sources.read_positions T (x :: y :: z :: rest) st)
      with (Sources.read_positions T rest
              (Sources.push_back Vector3d_eq
                 (Matrix4d_mul_vec T
                    (mkVector3d (parseFloat x) (parseFloat y) (parseFloat z)))
                 st)).
    destruct (IH (Sources.push_back Vector3d_eq
                 (Matrix4d_mul_vec T
                    (mkVector3d (parseFloat x) (parseFloat y) (parseFloat z)))
                 st)) as [IHok IHbad].
    split; [|exact IHbad].
    intros Hm. destruct (IHok Hm) as [st' [Hrun Hl]].
    exists st'. split; [exact Hrun|]. rewrite Hl.
    unfold Sources.push_back. simpl. rewrite length_app. simpl. lia.
Qed.

Lemma LoadPositions_from_text _id T (b : list Vector3d * gmap Z Z) (w : Loader)
    src fa rest text :
  positionIds (sources w) !! _id = None →
  ElementId (colladaXml w) "source" _id = Ok (Some src) →
  FirstChildElement "float_array" src = fa :: rest →
  GetText fa = Some text →
  Sources.LoadPositions _id T b w
  = ('(values, (_, duplicates)) ←
       Sources.read_positions T (split_spaces text) (b.1, ([], b.2));
     Ok ((values, duplicates),
         Sources.store_positions _id (values, duplicates) w)).
Proof.
  intros Hcache Hsrc Hfa Htext. unfold Sources.LoadPositions.
  rewrite Hcache, Hsrc. simpl. rewrite Hfa. simpl. rewrite Htext. reflexivity.
Qed.

Lemma LoadPositions_cached _id T (b : list Vector3d * gmap Z Z) (w : Loader)
    r w' vs :
  Sources.LoadPositions _id T b w = Ok (r, w') →
  positionIds (sources w') !! _id = Some vs →
  ∀ T' b', Sources.LoadPositions _id T' b' w' = Ok (r, w').
Proof.
  intros Hrun Hvs T' b'. unfold Sources.LoadPositions in *.
  destruct (positionIds (sources w) !! _id) as [cached|] eqn:Hcache.
  - injection Hrun as <- <-. rewrite Hcache. reflexivity.
  - apply bind_Ok in Hrun as [sourceXml [_ Hrun]].
    destruct sourceXml as [src|].
    + destruct (Sources.array_text _) as [valueStr|].
      * apply bind_Ok in Hrun as [[values [unique duplicates]] [_ Hrun]].
        injection Hrun as <- <-. simpl.
        rewrite !lookup_insert_eq. reflexivity.
      * injection Hrun as <- <-.
        rewrite sources_missing_array, Hcache in Hvs. discriminate.
    + injection Hrun as <- <-. simpl in Hvs. rewrite Hcache in Hvs.
      discriminate.
Qed.

Lemma LoadNormals_cached _id T (b : list Vector3d * gmap Z Z) (w : Loader)
    r w' vs :
  Sources.LoadNormals _id T b w = Ok (r, w') →
  normalIds (sources w') !! _id = Some vs →
  ∀ T' b', Sources.LoadNormals _id T' b' w' = Ok (r, w').
Proof.
  intros Hrun Hvs T' b'. unfold Sources.LoadNormals in *.
  destruct (normalIds (sources w) !! _id) as [cached|] eqn:Hcache.
  - injection Hrun as <- <-. rewrite Hcache. reflexivity.
  - apply bind_Ok in Hrun as [sourceXml [_ Hrun]].
    destruct sourceXml as [src|].
    + destruct (Sources.array_text _) as [valueStr|].
      * destruct (Sources.read_normals _ _ _) as [values [unique duplicates]].
        injection Hrun as <- <-. simpl.
        rewrite !lookup_insert_eq. reflexivity.
      * injection Hrun as <- <-.
        rewrite sources_missing_array, Hcache in Hvs. discriminate.
    + injection Hrun as <- <-. simpl in Hvs. rewrite Hcache in Hvs.
      discriminate.
Qed.

Lemma read_normals_length R : ∀ vals st,
  length (Sources.read_normals R vals st).1 = length st.1 + length vals / 3.
Proof.
  induction vals as [| x | x y | x y z rest IH] using triples_ind; intros st.
  - simpl. lia.
  - simpl. lia.
  - simpl. lia.
  - change (Sources.read_normals R (x :: y :: z :: rest) st)
      with (Sources.read_normals R rest
              (Sources.push_back Vector3d_eq
                 (Vector3d_Normalize (Matrix4d_mul_vec R (mkVector3d x y z)))
                 st)).
    assert (Hdiv : length (x :: y :: z :: rest) / 3 = S (length rest / 3)).
    { change (length (x :: y :: z :: rest)) with (3 + length rest).
      change 3 with (1 * 3) at 1.
      rewrite Nat.add_comm, Nat.div_add by lia. lia. }
    rewrite IH, Hdiv. unfold Sources.push_back. simpl.
    rewrite length_app. simpl. lia.
Qed.

End position_proofs.

Lemma u32_le z : (0 ≤ z)%Z → (u32 z ≤ z)%Z.
Proof. intros Hz. unfold u32. apply Z.mod_le; lia. Qed.

Section weave_shape_proofs.
Context `{IgnMath} `{Parsers} `{Materials}.
Import Weaver.

Lemma find_shared_mapped (inp : Inputs) values : ∀ inputValues reuseIndex,
  find_shared inp values inputValues = Ok (Some reuseIndex) →
  ∃ iv, In iv inputValues ∧ reuseIndex = mappedIndex iv.
Proof.
  induction inputValues as [|iv rest IH]; intros reuseIndex Hrun;
    simpl in Hrun; [discriminate|].
  apply bind_Ok in Hrun as [normEqual [_ Hrun]].
  apply bind_Ok in Hrun as [texEqual [_ Hrun]].
  destruct (_ && _).
  - injection Hrun as <-. exists iv. split; [left|]; reflexivity.
  - destruct (IH reuseIndex Hrun) as [iv' [Hin Heq]].
    exists iv'. split; [right; exact Hin|exact Heq].
Qed.

(** The skinning lines leave the normals and the texcoords alone. *)
Lemma skin_assignments_attributes skel (l : list (string * float)) :
  ∀ (acc : outcome SubMesh) s',
    foldl (λ acc node_weight,
             s ← acc;
             node ← deref (NodeByName skel node_weight.1);
             Ok (AddNodeAssignment (VertexCount s - 1) node node_weight.2 s))
          acc l = Ok s' →
    ∃ s, acc = Ok s ∧ sm_normals s' = sm_normals s
         ∧ sm_texcoords s' = sm_texcoords s.
Proof.
  induction l as [|nw l IH]; intros acc s' Hrun; simpl in Hrun.
  - exists s'. auto.
  - apply IH in Hrun as [s1 [Hstep [Hn Ht]]].
    apply bind_Ok in Hstep as [s [Hacc Hstep]].
    apply bind_Ok in Hstep as [node [_ Hstep]].
    injection Hstep as <-. exists s. simpl in Hn, Ht. auto.
Qed.

Lemma skin_vertex_attributes p (_mesh : Mesh) values dae new (s s' : SubMesh) :
  skin_vertex p _mesh values dae new s = Ok s' →
  sm_normals s' = sm_normals s ∧ sm_texcoords s' = sm_texcoords s.
Proof.
  unfold skin_vertex. destruct (mesh_skeleton _mesh) as [skel|].
  - intros Hrun. apply bind_Ok in Hrun as [[s1 vertex] [Hset Hrun]].
    apply skin_assignments_attributes in Hrun as [s2 [[= <-] [Hn Ht]]].
    destruct p.
    + apply bind_Ok in Hset as [v [_ [= <- _]]]. auto.
    + apply bind_Ok in Hset as [v [_ [= <- _]]]. simpl in Hn, Ht. auto.
  - intros [= <-]. auto.
Qed.

(** What a corner that is added appends to the attribute streams. *)
Lemma add_corner_attributes p (inp : Inputs) (_mesh : Mesh) values dae
    (subMesh : SubMesh) vertexIndexMap subMesh' vertexIndexMap' :
  hasVertices inp = true →
  add_corner p inp _mesh values dae (subMesh, vertexIndexMap)
  = Ok (subMesh', vertexIndexMap') →
  length (sm_normals subMesh')
  = MeshSpec.normals_per_vertex inp + length (sm_normals subMesh)
  ∧ length (sm_texcoords subMesh')
    = MeshSpec.texcoords_per_vertex inp + length (sm_texcoords subMesh).
Proof.
  intros Hv Hrun. unfold add_corner in Hrun. rewrite Hv in Hrun.
  apply bind_Ok in Hrun as [[[s1 vIdx] mIdx] [Hvert Hrun]].
  apply bind_Ok in Hrun as [[s2 nIdx] [Hnorm Hrun]].
  apply bind_Ok in Hrun as [[s3 tIdx] [Htex Hrun]].
  injection Hrun as <- <-.
  apply bind_Ok in Hvert as [v [_ Hvert]].
  apply bind_Ok in Hvert as [s0 [Hcomb Hvert]].
  apply bind_Ok in Hvert as [s0' [Hskin Hvert]].
  injection Hvert as <- <- <-.
  apply skin_vertex_attributes in Hskin as [Hn1 Ht1].
  unfold MeshSpec.normals_per_vertex, MeshSpec.texcoords_per_vertex.
  assert (Hs0 : length (sm_normals s0)
                = (if combinedVertNorms inp then 1 else 0)
                  + length (sm_normals subMesh)
                ∧ sm_texcoords s0 = sm_texcoords subMesh).
  { destruct (combinedVertNorms inp).
    - apply bind_Ok in Hcomb as [n [_ [= <-]]]. simpl.
      rewrite length_app. simpl. split; [lia|reflexivity].
    - injection Hcomb as <-. simpl. auto. }
  destruct Hs0 as [Hn0 Ht0].
  assert (Hs2 : length (sm_normals s2)
                = (if hasNormals inp then 1 else 0) + length (sm_normals s0')
                ∧ sm_texcoords s2 = sm_texcoords s0').
  { destruct (hasNormals inp).
    - apply bind_Ok in Hnorm as [n [_ Hnorm]].
      apply bind_Ok in Hnorm as [nv [_ [= <- <-]]]. simpl.
      rewrite length_app. simpl. split; [lia|reflexivity].
    - injection Hnorm as <- <-. auto. }
  destruct Hs2 as [Hn2 Ht2].
  assert (Hs3 : sm_normals s3 = sm_normals s2
                ∧ length (sm_texcoords s3)
                  = (if hasTexcoords inp then 1 else 0)
                    + length (sm_texcoords s2)).
  { destruct (hasTexcoords inp).
    - apply bind_Ok in Htex as [t [_ Htex]].
      apply bind_Ok in Htex as [uv [_ [= <- <-]]]. simpl.
      rewrite length_app. simpl. split; [reflexivity|lia].
    - injection Htex as <- <-. auto. }
  destruct Hs3 as [Hn3 Ht3].
  split.
  - rewrite Hn3, Hn2, Hn1, Hn0. lia.
  - rewrite Ht3, Ht2, Ht1, Ht0. reflexivity.
Qed.

Lemma weave_corner_woven prim (inp : Inputs) (_mesh : Mesh) values st st' :
  hasVertices inp = true →
  MeshSpec.woven inp st →
  weave_corner prim inp _mesh values st = Ok st' →
  MeshSpec.woven inp st' ∧ length (sm_indices st'.1) = S (length (sm_indices st.1)).
Proof.
  intros Hv [Hidx [Hrec [Hnorm Htex]]] Hrun.
  destruct st as [subMesh vertexIndexMap], st' as [subMesh' vertexIndexMap'].
  simpl in Hidx, Hnorm, Htex. simpl.
  assert (Hadd : ∀ dae,
            add_corner prim inp _mesh values dae (subMesh, vertexIndexMap)
            = Ok (subMesh', vertexIndexMap') →
            MeshSpec.woven inp (subMesh', vertexIndexMap')
            ∧ length (sm_indices subMesh') = S (length (sm_indices subMesh))).
  { intros dae Hrun'.
    destruct (add_corner_attributes _ _ _ _ _ _ _ _ _ Hv Hrun') as [Hn' Ht'].
    apply add_corner_records in Hrun'
      as [input [-> [[_ [Hmapped _]] [Hi' Hv']]]]; [|exact Hv].
    assert (Hcount : VertexCount subMesh' = (VertexCount subMesh + 1)%Z).
    { unfold VertexCount. rewrite Hv'. lia. }
    assert (Hnew : (0 ≤ u32 (VertexCount subMesh) < VertexCount subMesh')%Z).
    { pose proof (u32_range (VertexCount subMesh)).
      pose proof (u32_le (VertexCount subMesh)
                    ltac:(unfold VertexCount; lia)). lia. }
    split; [split; [|split]|].
    - unfold MeshSpec.indices_in_bounds. simpl. rewrite Hi'.
      apply Forall_app. split.
      + eapply Forall_impl; [exact Hidx|]. simpl. intros i Hi. lia.
      + constructor; [exact Hnew|constructor].
    - intros q entries Hq. simpl in Hq. simpl.
      destruct (decide (dae = q)) as [->|Hne].
      + rewrite lookup_insert_eq in Hq. injection Hq as <-.
        constructor; [rewrite Hmapped; exact Hnew|constructor].
      + rewrite lookup_insert_ne in Hq by exact Hne.
        eapply Forall_impl; [exact (Hrec q entries Hq)|].
        simpl. intros iv Hiv. lia.
    - split; simpl.
      + rewrite Hn', Hnorm, Hv'. lia.
      + rewrite Ht', Htex, Hv'. lia.
    - rewrite Hi', length_app. simpl. lia. }
  unfold weave_corner in Hrun. rewrite Hv in Hrun.
  apply bind_Ok in Hrun as [v [_ Hrun]].
  destruct (vertexIndexMap !! _) as [inputValues|] eqn:Hlook;
    [|exact (Hadd _ Hrun)].
  apply bind_Ok in Hrun as [reuse [Hscan Hrun]].
  destruct reuse as [reuseIndex|]; [|exact (Hadd _ Hrun)].
  injection Hrun as <- <-.
  apply find_shared_mapped in Hscan as [iv [Hin ->]].
  pose proof (Hrec _ _ Hlook) as Hentries. simpl in Hentries.
  rewrite Forall_forall in Hentries.
  split; [split; [|split]|].
  - unfold MeshSpec.indices_in_bounds. simpl.
    apply Forall_app. split; [exact Hidx|].
    constructor; [|constructor].
    apply Hentries. apply list_elem_of_In. exact Hin.
  - exact Hrec.
  - split; assumption.
  - simpl. rewrite length_app. simpl. lia.
Qed.

(** Without a VERTEX input no corner adds a vertex or an index. *)
Lemma weave_corner_no_vertices prim (inp : Inputs) (_mesh : Mesh) values
    st st' :
  hasVertices inp = false →
  weave_corner prim inp _mesh values st = Ok st' →
  sm_vertices st'.1 = sm_vertices st.1 ∧ sm_indices st'.1 = sm_indices st.1.
Proof.
  intros Hv Hrun. destruct st as [subMesh vertexIndexMap].
  unfold weave_corner in Hrun. rewrite Hv in Hrun.
  unfold add_corner in Hrun. rewrite Hv in Hrun. simpl in Hrun.
  apply bind_Ok in Hrun as [[s2 nIdx] [Hnorm Hrun]].
  apply bind_Ok in Hrun as [[s3 tIdx] [Htex Hrun]].
  injection Hrun as <-. simpl.
  assert (H2 : sm_vertices s2 = sm_vertices subMesh
               ∧ sm_indices s2 = sm_indices subMesh).
  { destruct (hasNormals inp).
    - apply bind_Ok in Hnorm as [n [_ Hnorm]].
      apply bind_Ok in Hnorm as [nv [_ [= <- <-]]]. auto.
    - injection Hnorm as <- <-. auto. }
  assert (H3 : sm_vertices s3 = sm_vertices s2
               ∧ sm_indices s3 = sm_indices s2).
  { destruct (hasTexcoords inp).
    - apply bind_Ok in Htex as [t [_ Htex]].
      apply bind_Ok in Htex as [uv [_ [= <- <-]]]. auto.
    - injection Htex as <- <-. auto. }
  destruct H2, H3. split; congruence.
Qed.

End weave_shape_proofs.

Lemma collect_Ok_each {A B} (f : A → outcome B) : ∀ l r,
  collect f l = Ok r → ∀ x, In x l → ∃ y, f x = Ok y.
Proof.
  induction l as [|a l IH]; intros r Hrun x Hin; [destruct Hin|].
  simpl in Hrun.
  apply bind_Ok in Hrun as [y [Hy Hrun]].
  apply bind_Ok in Hrun as [ys [Hys _]].
  destruct Hin as [<-|Hin]; [eauto|exact (IH ys Hys x Hin)].
Qed.

Lemma vec_at_Ok_bound {A} (l : list A) i x :
  vec_at l i = Ok x → (0 ≤ i < Z.of_nat (length l))%Z.
Proof.
  unfold vec_at. destruct (Z.ltb_spec i 0); [discriminate|].
  destruct (l !! Z.to_nat i) eqn:Hl; [|discriminate].
  intros _. apply lookup_lt_Some in Hl. lia.
Qed.

Lemma foldM_count {A S} (P : S → Prop) (m : S → nat) (k : nat)
    (f : A → S → outcome S) (l : list A) :
  (∀ x s s', P s → f x s = Ok s' → P s' ∧ m s' = m s + k) →
  ∀ s s', P s → foldM f l s = Ok s' → P s' ∧ m s' = m s + k * length l.
Proof.
  intros Hf. induction l as [|x l IH]; intros s s' Hs Hrun; simpl in Hrun.
  - injection Hrun as <-. split; [exact Hs|]. simpl. lia.
  - apply bind_Ok in Hrun as [s1 [Hstep Hrun]].
    destruct (Hf x s s1 Hs Hstep) as [Hs1 Hm1].
    destruct (IH s1 s' Hs1 Hrun) as [Hs' Hm'].
    split; [exact Hs'|]. rewrite Hm', Hm1. simpl. lia.
Qed.

Section weave_loop_proofs.
Context `{IgnMath} `{Parsers} `{Materials}.
Import Weaver.

Abbreviation index_count :=
  (λ st : SubMesh * gmap Z (list GeometryIndices), length (sm_indices st.1)).

Lemma no_geometry_woven (inp : Inputs) (subMesh : SubMesh) :
  MeshSpec.no_geometry subMesh → MeshSpec.woven inp (subMesh, ∅).
Proof.
  intros [Hv [Hn [Ht Hi]]]. split; [|split].
  - unfold MeshSpec.indices_in_bounds. simpl. rewrite Hi. constructor.
  - intros p entries Hp. simpl in Hp. rewrite lookup_empty in Hp. discriminate.
  - split; simpl; [rewrite Hn, Hv|rewrite Ht, Hv]; simpl; lia.
Qed.

(** The triangles loop with a VERTEX input: one index per corner, and the
    corners use up the tokens. *)
Lemma triangles_loop_woven (inp : Inputs) (_mesh : Mesh) strs :
  hasVertices inp = true →
  (0 < offsetSize inp)%Z →
  (Z.of_nat (length strs) + offsetSize inp ≤ 2 ^ 32)%Z →
  ∀ fuel j st st',
    (0 ≤ j ≤ Z.of_nat (length strs))%Z →
    MeshSpec.woven inp st →
    Primitives.triangles_loop inp _mesh strs fuel j st = Ok st' →
    MeshSpec.woven inp st'
    ∧ (Z.of_nat (index_count st' - index_count st) * offsetSize inp
       = Z.of_nat (length strs) - j)%Z
    ∧ index_count st ≤ index_count st'.
Proof.
  intros Hv HW Hlen.
  induction fuel as [|fuel IH]; intros j st st' Hj Hst Hrun; simpl in Hrun;
    destruct (Z.ltb_spec j (Z.of_nat (length strs))) as [Hlt|Hge];
    try discriminate;
    try (injection Hrun as <-; split; [exact Hst|]; split; lia).
  apply bind_Ok in Hrun as [values [Hread Hrun]].
  apply bind_Ok in Hrun as [st1 [Hstep Hrun]].
  destruct (weave_corner_woven _ _ _ _ _ _ Hv Hst Hstep) as [Hst1 Hone].
  assert (Hlast : (j + offsetSize inp ≤ Z.of_nat (length strs))%Z).
  { unfold Primitives.read_values in Hread.
    destruct (collect_Ok_each _ _ _ Hread (offsetSize inp - 1)%Z)
      as [y Hy].
    { apply list_elem_of_In. apply elem_of_seqZ. lia. }
    apply bind_Ok in Hy as [s [Hs _]].
    apply vec_at_Ok_bound in Hs.
    rewrite u32_small in Hs by lia. lia. }
  rewrite u32_small in Hrun by lia.
  destruct (IH (j + offsetSize inp)%Z st1 st' ltac:(lia) Hst1 Hrun)
    as [Hst' [Hcount Hmono]].
  split; [exact Hst'|]. split; [|lia].
  replace (index_count st' - index_count st)
    with (S (index_count st' - index_count st1)) by lia.
  rewrite Nat2Z.inj_succ. lia.
Qed.

(** The index loops whatever the inputs are: the indices stay in range. *)
Lemma weave_corner_in_bounds prim (inp : Inputs) (_mesh : Mesh) values st st' :
  MeshSpec.indices_in_bounds st.1 ∧ MeshSpec.records_in_bounds st →
  weave_corner prim inp _mesh values st = Ok st' →
  MeshSpec.indices_in_bounds st'.1 ∧ MeshSpec.records_in_bounds st'.
Proof.
  intros [Hidx Hrec] Hrun.
  destruct (hasVertices inp) eqn:Hv.
  - destruct st as [subMesh vertexIndexMap],
      st' as [subMesh' vertexIndexMap'].
    simpl in Hidx. simpl.
    assert (Hadd : ∀ dae,
              add_corner prim inp _mesh values dae (subMesh, vertexIndexMap)
              = Ok (subMesh', vertexIndexMap') →
              MeshSpec.indices_in_bounds subMesh'
              ∧ MeshSpec.records_in_bounds (subMesh', vertexIndexMap')).
    { intros dae Hrun'.
      apply add_corner_records in Hrun'
        as [input [-> [[_ [Hmapped _]] [Hi' Hv']]]]; [|exact Hv].
      assert (Hcount : VertexCount subMesh' = (VertexCount subMesh + 1)%Z).
      { unfold VertexCount. rewrite Hv'. lia. }
      assert (Hnew : (0 ≤ u32 (VertexCount subMesh) < VertexCount subMesh')%Z).
      { pose proof (u32_range (VertexCount subMesh)).
        pose proof (u32_le (VertexCount subMesh)
                      ltac:(unfold VertexCount; lia)). lia. }
      split.
      - unfold MeshSpec.indices_in_bounds. simpl. rewrite Hi'.
        apply Forall_app. split.
        + eapply Forall_impl; [exact Hidx|]. simpl. intros i Hi. lia.
        + constructor; [exact Hnew|constructor].
      - intros q entries Hq. simpl in Hq. simpl.
        destruct (decide (dae = q)) as [->|Hne].
        + rewrite lookup_insert_eq in Hq. injection Hq as <-.
          constructor; [rewrite Hmapped; exact Hnew|constructor].
        + rewrite lookup_insert_ne in Hq by exact Hne.
          eapply Forall_impl; [exact (Hrec q entries Hq)|].
          simpl. intros iv Hiv. lia. }
    unfold weave_corner in Hrun. rewrite Hv in Hrun.
    apply bind_Ok in Hrun as [v [_ Hrun]].
    destruct (vertexIndexMap !! _) as [inputValues|] eqn:Hlook;
      [|exact (Hadd _ Hrun)].
    apply bind_Ok in Hrun as [reuse [Hscan Hrun]].
    destruct reuse as [reuseIndex|]; [|exact (Hadd _ Hrun)].
    injection Hrun as <- <-.
    apply find_shared_mapped in Hscan as [iv [Hin ->]].
    pose proof (Hrec _ _ Hlook) as Hentries. simpl in Hentries.
    rewrite Forall_forall in Hentries.
    split; [|exact Hrec].
    unfold MeshSpec.indices_in_bounds. simpl.
    apply Forall_app. split; [exact Hidx|].
    constructor; [|constructor].
    apply Hentries. apply list_elem_of_In. exact Hin.
  - pose proof Hrun as Hmap.
    apply weave_corner_no_vertices in Hrun as [Hverts Hinds]; [|exact Hv].
    assert (Hsame : st'.2 = st.2).
    { destruct st as [subMesh vertexIndexMap].
      unfold weave_corner in Hmap. rewrite Hv in Hmap.
      unfold add_corner in Hmap. rewrite Hv in Hmap. simpl in Hmap.
      apply bind_Ok in Hmap as [[s2 nIdx] [_ Hmap]].
      apply bind_Ok in Hmap as [[s3 tIdx] [_ Hmap]].
      injection Hmap as <-. reflexivity. }
    assert (Hcount : VertexCount st'.1 = VertexCount st.1).
    { unfold VertexCount. rewrite Hverts. reflexivity. }
    split.
    + unfold MeshSpec.indices_in_bounds. rewrite Hinds, Hcount. exact Hidx.
    + intros p entries Hp. rewrite Hsame in Hp. rewrite Hcount.
      exact (Hrec p entries Hp).
Qed.

Abbreviation in_bounds :=
  (λ st : SubMesh * gmap Z (list GeometryIndices),
     MeshSpec.indices_in_bounds st.1 ∧ MeshSpec.records_in_bounds st).

Lemma triangles_loop_in_bounds (inp : Inputs) (_mesh : Mesh) strs fuel :
  ∀ j st st',
    in_bounds st →
    Primitives.triangles_loop inp _mesh strs fuel j st = Ok st' →
    in_bounds st'.
Proof.
  induction fuel as [|fuel IH]; intros j st st' Hst Hrun; simpl in Hrun;
    destruct (j <? _)%Z; try discriminate;
    try (injection Hrun as <-; exact Hst).
  apply bind_Ok in Hrun as [values [_ Hrun]].
  apply bind_Ok in Hrun as [st1 [Hstep Hrun]].
  eapply (IH _ st1 st'); [|exact Hrun].
  exact (weave_corner_in_bounds _ _ _ _ _ _ Hst Hstep).
Qed.

Lemma polylist_polygons_in_bounds (inp : Inputs) (_mesh : Mesh) strs W vcounts :
  ∀ previous base st st',
    in_bounds st →
    Primitives.polylist_polygons inp _mesh strs W previous base vcounts st
    = Ok st' →
    in_bounds st'.
Proof.
  induction vcounts as [|n rest IH]; intros previous base st st' Hst Hrun;
    simpl in Hrun.
  - injection Hrun as <-. exact Hst.
  - apply bind_Ok in Hrun as [s1 [Hpoly Hrun]].
    eapply (IH _ _ s1 st'); [|exact Hrun].
    revert Hpoly. unfold Primitives.polylist_polygon.
    apply (foldM_inv (λ st, in_bounds st)); [|exact Hst].
    intros k s s'. unfold Primitives.polylist_triangle.
    apply (foldM_inv (λ st, in_bounds st)).
    intros j s2 s3 Hs2 Hcorner. unfold Primitives.polylist_corner in Hcorner.
    apply bind_Ok in Hcorner as [values [_ Hcorner]].
    exact (weave_corner_in_bounds _ _ _ _ _ _ Hs2 Hcorner).
Qed.

Lemma polylist_triangle_woven (inp : Inputs) (_mesh : Mesh) strs W base k
    st st' :
  hasVertices inp = true →
  MeshSpec.woven inp st →
  Primitives.polylist_triangle inp _mesh strs W base k st = Ok st' →
  MeshSpec.woven inp st' ∧ index_count st' = index_count st + 3.
Proof.
  intros Hv Hst Hrun. unfold Primitives.polylist_triangle in Hrun.
  assert (Hcorner : ∀ j s s',
            MeshSpec.woven inp s →
            Primitives.polylist_corner inp _mesh strs W base k j s = Ok s' →
            MeshSpec.woven inp s' ∧ index_count s' = index_count s + 1).
  { intros j s s' Hs Hc. unfold Primitives.polylist_corner in Hc.
    apply bind_Ok in Hc as [values [_ Hc]].
    destruct (weave_corner_woven _ _ _ _ _ _ Hv Hs Hc) as [Hs' Hone].
    split; [exact Hs'|lia]. }
  destruct (foldM_count (MeshSpec.woven inp) (λ st, index_count st) 1
              _ [0; 1; 2]%Z Hcorner st st' Hst Hrun) as [Hst' Hm].
  split; [exact Hst'|]. simpl in Hm. lia.
Qed.

Lemma polylist_polygons_woven (inp : Inputs) (_mesh : Mesh) strs W vcounts :
  hasVertices inp = true →
  ∀ previous base st st',
    MeshSpec.woven inp st →
    Primitives.polylist_polygons inp _mesh strs W previous base vcounts st
    = Ok st' →
    MeshSpec.woven inp st'
    ∧ index_count st' = index_count st + 3 * MeshSpec.fan_triangles vcounts.
Proof.
  intros Hv.
  induction vcounts as [|n rest IH]; intros previous base st st' Hst Hrun;
    simpl in Hrun.
  - injection Hrun as <-. split; [exact Hst|]. simpl. lia.
  - apply bind_Ok in Hrun as [s1 [Hpoly Hrun]].
    unfold Primitives.polylist_polygon in Hpoly.
    destruct (foldM_count (MeshSpec.woven inp) (λ st, index_count st) 3
                _ _
                (λ k s s' Hs Htri,
                   polylist_triangle_woven inp _mesh strs W _ k s s' Hv Hs Htri)
                st s1 Hst Hpoly) as [Hs1 Hm1].
    destruct (IH _ _ s1 st' Hs1 Hrun) as [Hst' Hm'].
    split; [exact Hst'|]. rewrite Hm', Hm1. simpl.
    rewrite length_seqZ. lia.
Qed.

End weave_loop_proofs.

Lemma first_named_filter name l :
  first_named name l = []
  ∧ TransformSpec.named name l = []
  ∨ ∃ e rest rest', first_named name l = e :: rest
      ∧ TransformSpec.named name l = e :: rest'.
Proof.
  induction l as [|x l IH]; simpl; [left; auto|].
  destruct (String.eqb (Value x) name); [right; eauto|exact IH].
Qed.

Lemma each_named_filter {S} name (body : XMLElement → S → outcome S) :
  ∀ l s, each_named name body l s = foldM body (TransformSpec.named name l) s.
Proof.
  induction l as [|e l IH]; intros s; simpl; [reflexivity|].
  destruct (String.eqb (Value e) name); simpl.
  - destruct (body e s); simpl; [apply IH|reflexivity|reflexivity].
  - apply IH.
Qed.

Section transform_proofs.
Context `{IgnMath} `{Parsers}.
Import SkeletonTransform.

Abbreviation tags :=
  (λ nt : NodeTransform, (nt_type nt, nt_sid nt)).

Lemma sid_from_Ok x rest nt nt' :
  sid_from (x :: rest) nt = Ok nt' →
  nt_sid nt = None →
  nt_sid nt' = Attribute "sid" x ∧ nt_type nt' = nt_type nt
  ∧ nt_transform nt' = nt_transform nt.
Proof.
  unfold sid_from. simpl. destruct (Attribute "sid" x) as [sid|]; simpl.
  - intros [= <-] _. auto.
  - intros [= <-] Hnone. auto.
Qed.

(** The rotate loop of the skeleton path composes the matrix that the
    rotate loop of the node path composes, and adds one ROTATE per
    element. *)
Lemma rotate_steps_agree : ∀ l transform _node transform' _node',
  foldM rotate_step l (transform, _node) = Ok (transform', _node') →
  foldM NodeTransforms.rotate_element l transform = Ok transform'
  ∧ ∃ added, rawTransforms _node' = rawTransforms _node ++ added
      ∧ tags <$> added = (λ r, (ROTATE, Attribute "sid" r)) <$> l.
Proof.
  induction l as [|r l IH]; intros transform _node transform' _node' Hrun;
    simpl in Hrun.
  - injection Hrun as <- <-. split; [reflexivity|].
    exists []. split; [symmetry; apply app_nil_r|reflexivity].
  - apply bind_Ok in Hrun as [[t1 n1] [Hstep Hrun]].
    unfold rotate_step in Hstep.
    apply bind_Ok in Hstep as [rotateStr [Htext Hstep]].
    apply bind_Ok in Hstep as [nt [Hsid Hstep]].
    injection Hstep as <- <-.
    apply sid_from_Ok in Hsid as [Hs [Ht _]]; [|reflexivity].
    destruct (IH _ _ _ _ Hrun) as [Hmat [added [Hraw Htags]]].
    split.
    + change (foldM NodeTransforms.rotate_element (r :: l) transform)
        with (s' ← NodeTransforms.rotate_element r transform;
              foldM NodeTransforms.rotate_element l s').
      assert (Hstep : NodeTransforms.rotate_element r transform
                      = Ok (Matrix4d_mul transform
                              (Matrix4d_assign3
                                 (Matrix3d_Axis
                                    (mkVector3d
                                       (nth_double 0 (extract 4 rotateStr))
                                       (nth_double 1 (extract 4 rotateStr))
                                       (nth_double 2 (extract 4 rotateStr)))
                                    (IGN_DTOR (nth_double 3 (extract 4 rotateStr)))
                                    Matrix3d_default)
                                 Matrix4d_Identity))).
      { unfold NodeTransforms.rotate_element. rewrite Htext. reflexivity. }
      rewrite Hstep. exact Hmat.
    + eexists (_ :: added). split.
      * rewrite Hraw. simpl. rewrite <- app_assoc. reflexivity.
      * rewrite !fmap_cons. f_equal; [|exact Htags].
        simpl. rewrite Hs. reflexivity.
Qed.

Lemma SetSkeletonNodeTransform_run (_elem : XMLElement) (_node _node' : SkeletonNode) :
  SetSkeletonNodeTransform _elem _node = Ok _node' →
  NodeTransforms.LoadNodeTransform _elem = Ok (node_transform _node')
  ∧ ∃ added, rawTransforms _node' = rawTransforms _node ++ added
      ∧ tags <$> added = TransformSpec.described _elem.
Proof.
  intros Hrun. unfold SetSkeletonNodeTransform in Hrun.
  apply bind_Ok in Hrun as [[transform n1] [Hrun [= <-]]].
  unfold NodeTransforms.LoadNodeTransform, TransformSpec.described,
    FirstChildElement in *.
  destruct (first_named_filter "matrix" (children _elem))
    as [[Hm Hmf]|[m [rest [rest' [Hm Hmf]]]]]; rewrite Hm in *; rewrite Hmf.
  - apply bind_Ok in Hrun as [[t1 n2] [Htrans Hrun]].
    apply bind_Ok in Hrun as [[t2 n3] [Hrot Hrun]].
    rewrite each_named_filter in Hrot.
    apply rotate_steps_agree in Hrot as [Hmat [rots [Hraw Htags]]].
    assert (Hfirst : (match first_named "translate" (children _elem) with
                      | t :: _ =>
                          transStr ← std_string (GetText t);
                          translate ← lexical_cast (lexical_cast_Vector3d transStr);
                          Ok (Matrix4d_Translate translate Matrix4d_Identity)
                      | [] => Ok Matrix4d_Identity
                      end) = Ok t1
                     ∧ ∃ tr, rawTransforms n2 = rawTransforms _node ++ tr
                         ∧ tags <$> tr
                           = match TransformSpec.named "translate"
                                     (children _elem) with
                             | t :: _ => [(TRANSLATE, Attribute "sid" t)]
                             | [] => []
                             end).
    { destruct (first_named_filter "translate" (children _elem))
        as [[Ht Htf]|[t [trest [trest' [Ht Htf]]]]]; rewrite Ht in *;
        rewrite Htf.
      - injection Htrans as <- <-. split; [reflexivity|].
        exists []. split; [symmetry; apply app_nil_r|reflexivity].
      - apply bind_Ok in Htrans as [transStr [Htext Htrans]].
        apply bind_Ok in Htrans as [translate [Hcast Htrans]].
        apply bind_Ok in Htrans as [nt [Hsid Htrans]].
        injection Htrans as <- <-.
        apply sid_from_Ok in Hsid as [Hs _]; [|reflexivity].
        rewrite Htext. simpl. rewrite Hcast. simpl. split; [reflexivity|].
        eexists [_]. split; [reflexivity|]. simpl. rewrite Hs. reflexivity. }
    destruct Hfirst as [-> [tr [Hraw1 Htags1]]]. simpl.
    rewrite each_named_filter, Hmat. simpl.
    destruct (first_named "scale" (children _elem)) as [|sc ?].
    + injection Hrun as <- <-. split; [reflexivity|].
      exists (tr ++ rots). split.
      * rewrite Hraw, Hraw1, <- app_assoc. reflexivity.
      * rewrite fmap_app, Htags1, Htags. reflexivity.
    + apply bind_Ok in Hrun as [scaleStr [_ Hrun]].
      apply bind_Ok in Hrun as [scale [_ Hrun]].
      apply bind_Ok in Hrun as [nt [Hsid _]].
      rewrite sid_from_null in Hsid. discriminate.
  - apply bind_Ok in Hrun as [matrixStr [Htext Hrun]].
    apply bind_Ok in Hrun as [nt [Hsid Hrun]].
    injection Hrun as <- <-.
    apply sid_from_Ok in Hsid as [Hs [Ht _]]; [|reflexivity].
    rewrite Htext. simpl. split; [reflexivity|].
    eexists [_]. split; [reflexivity|]. simpl. rewrite Hs, Ht. reflexivity.
Qed.

End transform_proofs.

Lemma pairs_ind {A} (P : list A → Prop) :
  P [] → (∀ x, P [x]) → (∀ x y rest, P rest → P (x :: y :: rest)) →
  ∀ l, P l.
Proof.
  intros H0 H1 H2. fix IH 1. intros [|x [|y rest]].
  - exact H0.
  - apply H1.
  - apply H2. apply IH.
Qed.

Lemma half_step n : (S (S n)) / 2 = S (n / 2).
Proof.
  change (S (S n)) with (2 + n). change 2 with (1 * 2) at 1.
  rewrite Nat.add_comm, Nat.div_add by lia. lia.
Qed.

Section lines_proofs.
Context `{IgnMath} `{Parsers} `{Materials} `{IntStream}.
Import Weaver.

(** Each pair of the stream adds two vertices, each with an index of its
    own. *)
Lemma line_pairs_run verts : ∀ ints (subMesh subMesh' : SubMesh),
  Lines.line_pairs verts ints subMesh = Ok subMesh' →
  length (sm_vertices subMesh')
  = length (sm_vertices subMesh) + 2 * (length ints / 2)
  ∧ sm_indices subMesh'
    = sm_indices subMesh
      ++ (u32 <$> seqZ (VertexCount subMesh)
                       (Z.of_nat (2 * (length ints / 2))))
  ∧ sm_name subMesh' = sm_name subMesh
  ∧ sm_primitive subMesh' = sm_primitive subMesh
  ∧ sm_normals subMesh' = sm_normals subMesh
  ∧ sm_texcoords subMesh' = sm_texcoords subMesh.
Proof.
  induction ints as [| a | a b rest IH] using pairs_ind;
    intros subMesh subMesh' Hrun.
  - injection Hrun as <-. simpl. rewrite app_nil_r. repeat split. lia.
  - injection Hrun as <-. simpl. rewrite app_nil_r. repeat split. lia.
  - simpl in Hrun.
    apply bind_Ok in Hrun as [va [_ Hrun]].
    apply bind_Ok in Hrun as [vb [_ Hrun]].
    apply IH in Hrun as [Hv [Hi [Hname [Hprim [Hn Ht]]]]].
    change (length (a :: b :: rest)) with (S (S (length rest))).
    rewrite half_step.
    set (d := length rest / 2) in *. clearbody d.
    simpl in Hv, Hi, Hname, Hprim, Hn, Ht.
    rewrite !length_app in Hv. simpl in Hv.
    split; [lia|]. split; [|auto].
    rewrite Hi. unfold VertexCount. simpl. rewrite !length_app. simpl.
    rewrite <- !app_assoc. f_equal.
    replace (Z.of_nat (d + (d + 0)))
      with (Z.of_nat (2 * d)) by lia.
    replace (Z.of_nat (S (d + S (d + 0))))
      with (Z.succ (Z.succ (Z.of_nat (2 * d)))) by lia.
    set (n := Z.of_nat (length (sm_vertices subMesh))).
    rewrite (seqZ_cons n) by lia. rewrite Z.pred_succ.
    rewrite (seqZ_cons (Z.succ n)) by lia. rewrite Z.pred_succ.
    rewrite !fmap_cons. simpl.
    replace (Z.of_nat (length (sm_vertices subMesh) + 1) - 1)%Z
      with n by lia.
    replace (Z.of_nat (length (sm_vertices subMesh) + 1 + 1) - 1)%Z
      with (Z.succ n) by lia.
    replace (Z.of_nat (length (sm_vertices subMesh) + 1 + 1))
      with (Z.succ (Z.succ n)) by lia.
    reflexivity.
Qed.

End lines_proofs.

Lemma each_named_absent {S} name (body : XMLElement → S → outcome S) :
  ∀ l s, first_named name l = [] → each_named name body l s = Ok s.
Proof.
  induction l as [|e l IH]; intros s Hnone; simpl in *; [reflexivity|].
  destruct (String.eqb (Value e) name); [discriminate|exact (IH s Hnone)].
Qed.

Section node_proofs.
Context `{IgnMath} `{Parsers} `{Materials} `{IntStream}.

Variable bind_material :
  string → Mesh → SubMesh → Loader → outcome (Mesh * SubMesh * Loader).
Variable LoadController :
  option XMLElement → option XMLElement → Matrix4d → Mesh → Loader
  → outcome (Mesh * Loader).

Abbreviation LoadNode := (Nodes.LoadNode bind_material LoadController).

Lemma LoadNode_self_instance root rest0 e inst rest url t :
  ElementId_in root "node" url = Some e →
  FirstChildElement "instance_node" e = inst :: rest →
  Attribute "url" inst = Some url →
  FirstChildElement "node" e = [] →
  NodeTransforms.LoadNodeTransform e = Ok t →
  ∀ fuel (_mesh : Mesh) T (w : Loader),
    colladaXml w = root :: rest0 →
    LoadNode fuel e _mesh T w = OutOfFuel.
Proof.
  intros Hfind Hinst Hurl Hkids Htrans.
  induction fuel as [|fuel IH]; intros _mesh T w Hroot; [reflexivity|].
  simpl. rewrite Htrans. simpl.
  rewrite each_named_absent by exact Hkids. simpl.
  rewrite Hinst. rewrite Hurl. simpl.
  assert (Hdoc : ∀ w0 : Loader, colladaXml w0 = root :: rest0 →
            ElementId (colladaXml w0) "node" url = Ok (Some e)).
  { intros w0 Hw0. unfold ElementId. rewrite Hw0. simpl. rewrite Hfind.
    reflexivity. }
  destruct (Attribute "name" e) as [name|].
  - rewrite (Hdoc (Nodes.set_currentNodeName name w) Hroot). simpl.
    apply IH. exact Hroot.
  - rewrite (Hdoc w Hroot). simpl. apply IH. exact Hroot.
Qed.

(** A material binding reads the map it writes and nothing else of the
    loader. *)
Lemma instance_material_run matXml (w1 w2 w1' : Loader) :
  materialMap w1 = materialMap w2 →
  Nodes.instance_material matXml w1 = Ok w1' →
  ∃ w2', Nodes.instance_material matXml w2 = Ok w2'
         ∧ materialMap w1' = materialMap w2'.
Proof.
  intros Hmap Hrun. unfold Nodes.instance_material in *.
  apply bind_Ok in Hrun as [symbol [-> Hrun]].
  apply bind_Ok in Hrun as [target [-> Hrun]].
  injection Hrun as <-. simpl. eexists. split; [reflexivity|].
  simpl. rewrite Hmap. reflexivity.
Qed.

Lemma each_named_related {S} (R : S → S → Prop) name
    (body : XMLElement → S → outcome S) :
  (∀ x s1 s2 s1', R s1 s2 → body x s1 = Ok s1' →
     ∃ s2', body x s2 = Ok s2' ∧ R s1' s2') →
  ∀ l s1 s2 s1', R s1 s2 → each_named name body l s1 = Ok s1' →
    ∃ s2', each_named name body l s2 = Ok s2' ∧ R s1' s2'.
Proof.
  intros Hbody. induction l as [|e l IH]; intros s1 s2 s1' HR Hrun;
    simpl in *.
  - injection Hrun as <-. eauto.
  - destruct (String.eqb (Value e) name); [|eauto].
    apply bind_Ok in Hrun as [t1 [Hstep Hrun]].
    destruct (Hbody e s1 s2 t1 HR Hstep) as [t2 [-> HR']]. simpl. eauto.
Qed.

Lemma read_bindings_run instXml (w1 w2 w1' : Loader) :
  Nodes.read_bindings instXml w1 = Ok w1' →
  ∃ w2', Nodes.read_bindings instXml w2 = Ok w2'
         ∧ materialMap w1' = materialMap w2'.
Proof.
  unfold Nodes.read_bindings.
  apply (each_named_related (λ a b : Loader, materialMap a = materialMap b));
    [|reflexivity].
  intros x s1 s2 s1' HR. unfold Nodes.bind_material_element.
  destruct (FirstChildElement "technique_common" x) as [|techniqueXml ?].
  - intros [= <-]. eauto.
  - apply (each_named_related (λ a b : Loader, materialMap a = materialMap b));
      [|exact HR].
    intros y. apply instance_material_run.
Qed.

(** Names absent from a list of children. *)
Lemma grouping_children_absent l :
  forallb (λ x, negb (NodeSpec.is_instance x)) l = true →
  first_named "instance_node" l = []
  ∧ first_named "instance_geometry" l = []
  ∧ first_named "instance_controller" l = [].
Proof.
  induction l as [|x l IH]; simpl; [auto|].
  intros Hall. apply andb_prop in Hall as [Hx Hl].
  destruct (IH Hl) as [Hn [Hg Hc]].
  unfold NodeSpec.is_instance in Hx.
  destruct (String.eqb (Value x) "instance_node"); [discriminate|].
  destruct (String.eqb (Value x) "instance_geometry"); [discriminate|].
  destruct (String.eqb (Value x) "instance_controller"); [discriminate|].
  auto.
Qed.

Lemma grouping_no_instances tag attrs txt kids :
  NodeSpec.grouping (Element tag attrs txt kids) = true →
  forallb (λ x, negb (NodeSpec.is_instance x)) kids = true.
Proof.
  simpl. induction kids as [|k kids IH]; [reflexivity|].
  intros Hall. apply andb_prop in Hall as [Hk Hrest].
  apply andb_prop in Hk as [Hk _]. simpl. rewrite Hk. exact (IH Hrest).
Qed.

(** The node loader on a tree that only groups nodes: nothing is added to
    the mesh or written to the console, and the current node name ends at
    the last name of the tree. *)
Lemma LoadNode_grouping : ∀ fuel e (_mesh : Mesh) T (w : Loader) _mesh' w',
  NodeSpec.grouping e = true →
  LoadNode fuel e _mesh T w = Ok (_mesh', w') →
  _mesh' = _mesh
  ∧ currentNodeName w' = NodeSpec.last_name e (currentNodeName w)
  ∧ console w' = console w.
Proof.
  induction fuel as [|fuel IH]; intros e _mesh T w _mesh' w' Hgroup Hrun;
    [discriminate|].
  destruct e as [tag attrs txt kids].
  pose proof (grouping_no_instances _ _ _ _ Hgroup) as Hnone.
  apply grouping_children_absent in Hnone as [Hn [Hg Hc]].
  simpl in Hrun.
  apply bind_Ok in Hrun as [t [_ Hrun]].
  apply bind_Ok in Hrun as [[m1 w1] [Hkids Hrun]].
  unfold FirstChildElement in Hrun. simpl in Hrun. rewrite Hn in Hrun.
  rewrite (each_named_absent _ _ _ _ Hg) in Hrun. simpl in Hrun.
  rewrite (each_named_absent _ _ _ _ Hc) in Hrun.
  injection Hrun as <- <-.
  set (w0 := match Attribute "name" (Element tag attrs txt kids) with
             | Some name => Nodes.set_currentNodeName name w
             | None => w
             end) in Hkids.
  assert (Hw0 : currentNodeName w0
                = default (currentNodeName w)
                    (Attribute "name" (Element tag attrs txt kids))
                ∧ console w0 = console w).
  { unfold w0. destruct (Attribute "name" _); simpl; auto. }
  destruct Hw0 as [Hname Hcons]. simpl NodeSpec.last_name.
  rewrite <- Hname, <- Hcons. clear Hname Hcons Hn Hg Hc.
  simpl in Hgroup. clearbody w0.
  revert _mesh w0 Hkids.
  induction kids as [|k kids IHk]; intros _mesh w0 Hkids; simpl in Hkids.
  - injection Hkids as <- <-. auto.
  - apply andb_prop in Hgroup as [Hk Hrest].
    apply andb_prop in Hk as [_ Hk].
    destruct (String.eqb (Value k) "node").
    + apply bind_Ok in Hkids as [[m2 w2] [Hchild Hkids]].
      destruct (IH k _ _ _ _ _ Hk Hchild) as [-> [Hname2 Hcons2]].
      destruct (IHk Hrest _ _ Hkids) as [-> [Hname' Hcons']].
      rewrite Hname', Hname2, Hcons', Hcons2. auto.
    + exact (IHk Hrest _ _ Hkids).
Qed.

End node_proofs.

Section primitive_kind_proofs.
Context `{IgnMath} `{Parsers} `{Materials}.
Import Weaver.

Lemma skin_assignments_primitive skel (l : list (string * float)) :
  ∀ (acc : outcome SubMesh) s',
    foldl (λ acc node_weight,
             s ← acc;
             node ← deref (NodeByName skel node_weight.1);
             Ok (AddNodeAssignment (VertexCount s - 1) node node_weight.2 s))
          acc l = Ok s' →
    ∃ s, acc = Ok s ∧ sm_primitive s' = sm_primitive s.
Proof.
  induction l as [|nw l IH]; intros acc s' Hrun; simpl in Hrun.
  - exists s'. auto.
  - apply IH in Hrun as [s1 [Hstep Hp]].
    apply bind_Ok in Hstep as [s [Hacc Hstep]].
    apply bind_Ok in Hstep as [node [_ Hstep]].
    injection Hstep as <-. exists s. simpl in Hp. auto.
Qed.

Lemma weave_corner_primitive prim (inp : Inputs) (_mesh : Mesh) values st st' :
  weave_corner prim inp _mesh values st = Ok st' →
  sm_primitive st'.1 = sm_primitive st.1.
Proof.
  destruct st as [subMesh vertexIndexMap].
  assert (Hadd : ∀ dae,
            add_corner prim inp _mesh values dae (subMesh, vertexIndexMap)
            = Ok st' →
            sm_primitive st'.1 = sm_primitive subMesh).
  { intros dae Hrun. unfold add_corner in Hrun.
    apply bind_Ok in Hrun as [[[s1 vIdx] mIdx] [Hvert Hrun]].
    apply bind_Ok in Hrun as [[s2 nIdx] [Hnorm Hrun]].
    apply bind_Ok in Hrun as [[s3 tIdx] [Htex Hrun]].
    injection Hrun as <-. simpl.
    assert (H3 : sm_primitive s3 = sm_primitive s2).
    { destruct (hasTexcoords inp).
      - apply bind_Ok in Htex as [t [_ Htex]].
        apply bind_Ok in Htex as [uv [_ [= <- _]]]. reflexivity.
      - injection Htex as <- _. reflexivity. }
    assert (H2 : sm_primitive s2 = sm_primitive s1).
    { destruct (hasNormals inp).
      - apply bind_Ok in Hnorm as [n [_ Hnorm]].
        apply bind_Ok in Hnorm as [nv [_ [= <- _]]]. reflexivity.
      - injection Hnorm as <- _. reflexivity. }
    rewrite H3, H2. clear H3 H2 Hnorm Htex.
    destruct (hasVertices inp); [|injection Hvert as <- _ _; reflexivity].
    apply bind_Ok in Hvert as [v [_ Hvert]].
    apply bind_Ok in Hvert as [s0 [Hcomb Hvert]].
    apply bind_Ok in Hvert as [s0' [Hskin Hvert]].
    injection Hvert as <- _ _.
    assert (H0' : sm_primitive s0 = sm_primitive subMesh).
    { destruct (combinedVertNorms inp).
      - apply bind_Ok in Hcomb as [n [_ [= <-]]]. reflexivity.
      - injection Hcomb as <-. reflexivity. }
    rewrite <- H0'. clear H0' Hcomb.
    unfold skin_vertex in Hskin.
    destruct (mesh_skeleton _mesh) as [skel|];
      [|injection Hskin as <-; reflexivity].
    apply bind_Ok in Hskin as [[s4 vertex] [Hset Hskin]].
    apply skin_assignments_primitive in Hskin as [s5 [[= <-] Hp]].
    rewrite Hp. destruct prim.
    - apply bind_Ok in Hset as [v' [_ [= <- _]]]. reflexivity.
    - apply bind_Ok in Hset as [v' [_ [= <- _]]]. reflexivity. }
  intros Hrun. unfold weave_corner in Hrun.
  destruct (hasVertices inp); [|exact (Hadd _ Hrun)].
  apply bind_Ok in Hrun as [v [_ Hrun]].
  destruct (vertexIndexMap !! _) as [inputValues|]; [|exact (Hadd _ Hrun)].
  apply bind_Ok in Hrun as [reuse [_ Hrun]].
  destruct reuse as [reuseIndex|]; [|exact (Hadd _ Hrun)].
  injection Hrun as <-. reflexivity.
Qed.

Abbreviation kind :=
  (λ st : SubMesh * gmap Z (list GeometryIndices), sm_primitive st.1).

Lemma triangles_loop_primitive (inp : Inputs) (_mesh : Mesh) strs fuel :
  ∀ j st st',
    Primitives.triangles_loop inp _mesh strs fuel j st = Ok st' →
    kind st' = kind st.
Proof.
  induction fuel as [|fuel IH]; intros j st st' Hrun; simpl in Hrun;
    destruct (j <? _)%Z; try discriminate;
    try (injection Hrun as <-; reflexivity).
  apply bind_Ok in Hrun as [values [_ Hrun]].
  apply bind_Ok in Hrun as [st1 [Hstep Hrun]].
  rewrite (IH _ _ _ Hrun). exact (weave_corner_primitive _ _ _ _ _ _ Hstep).
Qed.

Lemma polylist_polygons_primitive (inp : Inputs) (_mesh : Mesh) strs W vcounts :
  ∀ previous base st st',
    Primitives.polylist_polygons inp _mesh strs W previous base vcounts st
    = Ok st' →
    kind st' = kind st.
Proof.
  induction vcounts as [|n rest IH]; intros previous base st st' Hrun;
    simpl in Hrun.
  - injection Hrun as <-. reflexivity.
  - apply bind_Ok in Hrun as [s1 [Hpoly Hrun]].
    rewrite (IH _ _ _ _ Hrun).
    revert Hpoly. unfold Primitives.polylist_polygon.
    apply (foldM_inv (λ s, kind s = kind st)); [|reflexivity].
    intros k s s' Hs. unfold Primitives.polylist_triangle.
    apply (foldM_inv (λ s, kind s = kind st)); [|exact Hs].
    intros j s2 s3 Hs2 Hcorner. unfold Primitives.polylist_corner in Hcorner.
    apply bind_Ok in Hcorner as [values [_ Hcorner]].
    rewrite (weave_corner_primitive _ _ _ _ _ _ Hcorner). exact Hs2.
Qed.

End primitive_kind_proofs.

Section loader_shape_proofs.
Context `{IgnMath} `{Parsers} `{Materials}.
Import Weaver.

Variable bind_material :
  string → Mesh → SubMesh → Loader → outcome (Mesh * SubMesh * Loader).
Hypothesis Hkeeps : MeshSpec.keeps_geometry bind_material.

Lemma start_submesh_run primXml (_mesh : Mesh) (w : Loader) mesh1 sm0 w1 :
  Primitives.start_submesh bind_material primXml _mesh w = Ok (mesh1, sm0, w1) →
  mesh_submeshes mesh1 = mesh_submeshes _mesh
  ∧ sm_primitive sm0 = TRIANGLES ∧ MeshSpec.no_geometry sm0.
Proof.
  unfold Primitives.start_submesh.
  destruct (Attribute "material" primXml) as [matStr|].
  - intros Hrun.
    destruct (Hkeeps _ _ _ _ _ _ _ Hrun) as [Hm [Hp [Hv [Hn [Ht Hi]]]]].
    split; [exact Hm|]. split; [rewrite Hp; reflexivity|].
    unfold MeshSpec.no_geometry. rewrite Hv, Hn, Ht, Hi. auto.
  - intros [= <- <- <-]. repeat split.
Qed.

(** What the weaving of one sub-mesh leaves, whatever the inputs are. *)
Lemma woven_well_formed (inp : Inputs) st :
  (hasVertices inp = true → MeshSpec.woven inp st) →
  (hasVertices inp = false → sm_vertices st.1 = []) →
  MeshSpec.indices_in_bounds st.1 →
  MeshSpec.indices_in_bounds st.1
  ∧ (sm_vertices st.1 ≠ [] → MeshSpec.attributes_in_step st.1).
Proof.
  intros Hwoven Hnone Hidx. split; [exact Hidx|]. intros Hverts.
  destruct (hasVertices inp) eqn:Hv; [|contradiction (Hverts (Hnone eq_refl))].
  destruct (Hwoven eq_refl) as [_ [_ [Hn Ht]]].
  exists (MeshSpec.normals_per_vertex inp), (MeshSpec.texcoords_per_vertex inp).
  split; [|split; [|split; assumption]].
  - unfold MeshSpec.normals_per_vertex.
    destruct (combinedVertNorms inp), (hasNormals inp); simpl; lia.
  - unfold MeshSpec.texcoords_per_vertex. destruct (hasTexcoords inp); lia.
Qed.

Lemma triangles_loop_no_vertices (inp : Inputs) (_mesh : Mesh) strs fuel :
  hasVertices inp = false →
  ∀ j st st',
    Primitives.triangles_loop inp _mesh strs fuel j st = Ok st' →
    sm_vertices st'.1 = sm_vertices st.1 ∧ sm_indices st'.1 = sm_indices st.1.
Proof.
  intros Hv.
  induction fuel as [|fuel IH]; intros j st st' Hrun; simpl in Hrun;
    destruct (j <? _)%Z; try discriminate;
    try (injection Hrun as <-; auto).
  apply bind_Ok in Hrun as [values [_ Hrun]].
  apply bind_Ok in Hrun as [st1 [Hstep Hrun]].
  destruct (IH _ _ _ Hrun) as [Hv' Hi'].
  destruct (weave_corner_no_vertices _ _ _ _ _ _ Hv Hstep) as [Hv1 Hi1].
  split; congruence.
Qed.

Lemma polylist_polygons_no_vertices (inp : Inputs) (_mesh : Mesh) strs W
    vcounts :
  hasVertices inp = false →
  ∀ previous base st st',
    Primitives.polylist_polygons inp _mesh strs W previous base vcounts st
    = Ok st' →
    sm_vertices st'.1 = sm_vertices st.1 ∧ sm_indices st'.1 = sm_indices st.1.
Proof.
  intros Hv.
  induction vcounts as [|n rest IH]; intros previous base st st' Hrun;
    simpl in Hrun.
  - injection Hrun as <-. auto.
  - apply bind_Ok in Hrun as [s1 [Hpoly Hrun]].
    destruct (IH _ _ _ _ Hrun) as [Hv' Hi'].
    rewrite Hv', Hi'. clear Hv' Hi' Hrun.
    revert Hpoly. unfold Primitives.polylist_polygon.
    apply (foldM_inv (λ s, sm_vertices s.1 = sm_vertices st.1
                           ∧ sm_indices s.1 = sm_indices st.1)); [|auto].
    intros k s s' Hs. unfold Primitives.polylist_triangle.
    apply (foldM_inv (λ s, sm_vertices s.1 = sm_vertices st.1
                           ∧ sm_indices s.1 = sm_indices st.1)); [|exact Hs].
    intros j s2 s3 [Hs2v Hs2i] Hcorner.
    unfold Primitives.polylist_corner in Hcorner.
    apply bind_Ok in Hcorner as [values [_ Hcorner]].
    destruct (weave_corner_no_vertices _ _ _ _ _ _ Hv Hcorner) as [Hv1 Hi1].
    split; congruence.
Qed.

Lemma LoadTriangles_run fuel _trianglesXml T (_mesh : Mesh) (w : Loader)
    _mesh' w' :
  Primitives.LoadTriangles bind_material fuel _trianglesXml T _mesh w
  = Ok (_mesh', w') →
  (Sources.array_text (FirstChildElement "p" _trianglesXml) = None
   ∧ mesh_submeshes _mesh' = mesh_submeshes _mesh)
  ∨ (Sources.array_text (FirstChildElement "p" _trianglesXml) ≠ None
     ∧ ∃ subMesh,
         mesh_submeshes _mesh' = mesh_submeshes _mesh ++ [subMesh]
         ∧ sm_primitive subMesh = TRIANGLES
         ∧ MeshSpec.indices_in_bounds subMesh
         ∧ (sm_vertices subMesh ≠ [] → MeshSpec.attributes_in_step subMesh)).
Proof.
  intros Hrun. unfold Primitives.LoadTriangles in Hrun.
  apply bind_Ok in Hrun as [[[mesh1 sm0] w1] [Hstart Hrun]].
  apply start_submesh_run in Hstart as [Hmesh [Hprim Hfresh]].
  apply bind_Ok in Hrun as [[inp w2] [_ Hrun]].
  destruct (Sources.array_text _) as [pStr|].
  - right. split; [discriminate|].
    apply bind_Ok in Hrun as [[subMesh vertexIndexMap] [Hloop Hrun]].
    injection Hrun as <- <-. exists subMesh.
    split; [simpl; rewrite Hmesh; reflexivity|].
    split; [rewrite <- Hprim;
            exact (triangles_loop_primitive _ _ _ _ _ _ _ Hloop)|].
    pose proof (no_geometry_woven inp sm0 Hfresh) as Hwoven.
    apply (woven_well_formed inp (subMesh, vertexIndexMap)).
    + intros Hv.
      (* every corner keeps the invariant *)
      clear Hprim Hmesh. revert Hloop Hwoven.
      generalize 0%Z as j. generalize (sm0, (∅ : gmap Z (list GeometryIndices))).
      induction fuel as [|fuel IH]; intros st j Hloop Hst; simpl in Hloop;
        destruct (j <? _)%Z; try discriminate;
        try (injection Hloop as <-; exact Hst).
      apply bind_Ok in Hloop as [values [_ Hloop]].
      apply bind_Ok in Hloop as [st1 [Hstep Hloop]].
      apply (IH st1 _ Hloop).
      exact (proj1 (weave_corner_woven _ _ _ _ _ _ Hv Hst Hstep)).
    + intros Hv.
      destruct (triangles_loop_no_vertices _ _ _ _ Hv _ _ _ Hloop) as [Hv' _].
      simpl in Hv'. simpl. rewrite Hv'. exact (proj1 Hfresh).
    + destruct Hwoven as [Hidx [Hrec _]].
      exact (proj1 (triangles_loop_in_bounds _ _ _ _ _ _ _
                      (conj Hidx Hrec) Hloop)).
  - left. injection Hrun as <- _. split; [reflexivity|exact Hmesh].
Qed.

Lemma LoadPolylist_run _polylistXml T (_mesh : Mesh) (w : Loader) _mesh' w' :
  Primitives.LoadPolylist bind_material _polylistXml T _mesh w
  = Ok (_mesh', w') →
  ∃ subMesh,
    mesh_submeshes _mesh' = mesh_submeshes _mesh ++ [subMesh]
    ∧ sm_primitive subMesh = TRIANGLES
    ∧ MeshSpec.indices_in_bounds subMesh
    ∧ (∃ triangles, length (sm_indices subMesh) = 3 * triangles)
    ∧ (sm_vertices subMesh ≠ [] → MeshSpec.attributes_in_step subMesh).
Proof.
  intros Hrun. unfold Primitives.LoadPolylist in Hrun.
  apply bind_Ok in Hrun as [[[mesh1 sm0] w1] [Hstart Hrun]].
  apply start_submesh_run in Hstart as [Hmesh [Hprim Hfresh]].
  apply bind_Ok in Hrun as [[inp w2] [_ Hrun]].
  apply bind_Ok in Hrun as [vcountXml [_ Hrun]].
  apply bind_Ok in Hrun as [vcountStr [_ Hrun]].
  apply bind_Ok in Hrun as [pXml [_ Hrun]].
  apply bind_Ok in Hrun as [pStr [_ Hrun]].
  apply bind_Ok in Hrun as [[subMesh vertexIndexMap] [Hloop Hrun]].
  injection Hrun as <- <-. exists subMesh.
  split; [simpl; rewrite Hmesh; reflexivity|].
  split; [rewrite <- Hprim;
          exact (polylist_polygons_primitive _ _ _ _ _ _ _ _ _ Hloop)|].
  pose proof (no_geometry_woven inp sm0 Hfresh) as Hwoven.
  assert (Hidx : MeshSpec.indices_in_bounds subMesh).
  { destruct Hwoven as [Hidx [Hrec _]].
    exact (proj1 (polylist_polygons_in_bounds _ _ _ _ _ _ _ _ _
                    (conj Hidx Hrec) Hloop)). }
  split; [exact Hidx|].
  destruct (hasVertices inp) eqn:Hv.
  - destruct (polylist_polygons_woven _ _ _ _ _ Hv _ _ _ _ Hwoven Hloop)
      as [Hst' Hcount].
    split.
    + eexists. simpl in Hcount. rewrite Hcount.
      destruct Hfresh as [_ [_ [_ ->]]]. simpl. reflexivity.
    + apply (woven_well_formed inp (subMesh, vertexIndexMap));
        [intros _; exact Hst'|congruence|exact Hidx].
  - destruct (polylist_polygons_no_vertices _ _ _ _ _ Hv _ _ _ _ Hloop)
      as [Hv' Hi'].
    simpl in Hv', Hi'. destruct Hfresh as [Hfv [_ [_ Hfi]]].
    split.
    + exists 0. rewrite Hi', Hfi. reflexivity.
    + intros Hne. contradiction Hne. rewrite Hv'. exact Hfv.
Qed.

End loader_shape_proofs.

Section geometry_proofs.
Context `{IgnMath} `{Parsers} `{Materials} `{IntStream}.
Import Weaver.

Lemma LoadLines_run _xml T (_mesh : Mesh) (w : Loader) _mesh' w' :
  Lines.LoadLines _xml T _mesh w = Ok (_mesh', w') →
  ∃ pXml rest pStr subMesh,
    FirstChildElement "p" _xml = pXml :: rest
    ∧ GetText pXml = Some pStr
    ∧ _mesh' = AddSubMesh subMesh _mesh
    ∧ sm_primitive subMesh = LINES
    ∧ sm_name subMesh = currentNodeName w
    ∧ length (sm_vertices subMesh)
      = 2 * (length (istringstream_ints pStr) / 2)
    ∧ sm_indices subMesh
      = u32 <$> seqZ 0 (Z.of_nat (length (sm_vertices subMesh)))
    ∧ sm_normals subMesh = [] ∧ sm_texcoords subMesh = [].
Proof.
  intros Hrun. unfold Lines.LoadLines in Hrun.
  apply bind_Ok in Hrun as [inputXml [_ Hrun]].
  apply bind_Ok in Hrun as [source [_ Hrun]].
  apply bind_Ok in Hrun as [[[verts norms] w1] [_ Hrun]].
  apply bind_Ok in Hrun as [pXml [Hp Hrun]].
  apply bind_Ok in Hrun as [pStr [Htext Hrun]].
  apply bind_Ok in Hrun as [subMesh [Hpairs Hrun]].
  injection Hrun as <- <-.
  destruct (FirstChildElement "p" _xml) as [|pXml' rest]; [discriminate|].
  injection Hp as ->.
  destruct (GetText pXml) as [text|] eqn:Hgot; [|discriminate].
  injection Htext as ->.
  apply line_pairs_run in Hpairs as [Hv [Hi [Hname [Hprim [Hn Ht]]]]].
  change (length (sm_vertices subMesh)
          = 0 + 2 * (length (istringstream_ints pStr) / 2)) in Hv.
  rewrite Nat.add_0_l in Hv.
  change (sm_indices subMesh
          = [] ++ (u32 <$> seqZ 0 (Z.of_nat
                     (2 * (length (istringstream_ints pStr) / 2))))) in Hi.
  rewrite app_nil_l in Hi.
  exists pXml, rest, pStr, subMesh.
  split; [reflexivity|]. split; [exact Hgot|]. split; [reflexivity|].
  split; [exact Hprim|]. split; [exact Hname|]. split; [exact Hv|].
  split; [|split; [exact Hn|exact Ht]].
  rewrite Hi, Hv. reflexivity.
Qed.

Variable bind_material :
  string → Mesh → SubMesh → Loader → outcome (Mesh * SubMesh * Loader).
Hypothesis Hkeeps : MeshSpec.keeps_geometry bind_material.

Lemma each_named_appends (P : SubMesh → Prop) name
    (body : XMLElement → Mesh * Loader → outcome (Mesh * Loader)) :
  (∀ x st st', body x st = Ok st' →
     ∃ new, mesh_submeshes st'.1 = mesh_submeshes st.1 ++ new ∧ Forall P new) →
  ∀ l st st', each_named name body l st = Ok st' →
    ∃ new, mesh_submeshes st'.1 = mesh_submeshes st.1 ++ new ∧ Forall P new.
Proof.
  intros Hbody. induction l as [|e l IH]; intros st st' Hrun; simpl in Hrun.
  - injection Hrun as <-. exists []. split; [symmetry; apply app_nil_r|].
    constructor.
  - destruct (String.eqb (Value e) name); [|exact (IH _ _ Hrun)].
    apply bind_Ok in Hrun as [st1 [Hstep Hrun]].
    destruct (Hbody _ _ _ Hstep) as [new1 [Hm1 HP1]].
    destruct (IH _ _ Hrun) as [new2 [Hm2 HP2]].
    exists (new1 ++ new2). split.
    + rewrite Hm2, Hm1, <- app_assoc. reflexivity.
    + apply Forall_app. auto.
Qed.

Lemma LoadGeometry_run fuel xml T (_mesh : Mesh) (w : Loader) _mesh' w' :
  Geometry.LoadGeometry bind_material fuel (Some xml) T _mesh w
  = Ok (_mesh', w') →
  ∃ faces lines,
    mesh_submeshes _mesh' = mesh_submeshes _mesh ++ faces ++ lines
    ∧ Forall (λ s, sm_primitive s = TRIANGLES
                   ∧ MeshSpec.indices_in_bounds s) faces
    ∧ Forall (λ s, sm_primitive s = LINES
                   ∧ MeshSpec.indices_in_bounds s) lines.
Proof.
  unfold Geometry.LoadGeometry.
  destruct (FirstChildElement "mesh" xml) as [|meshXml ?].
  - intros [= <- <-]. exists [], []. simpl.
    split; [symmetry; apply app_nil_r|]. split; constructor.
  - intros Hrun.
    apply bind_Ok in Hrun as [st1 [Htri Hrun]].
    apply bind_Ok in Hrun as [st2 [Hpoly Hlines]].
    apply (each_named_appends
             (λ s, sm_primitive s = TRIANGLES ∧ MeshSpec.indices_in_bounds s))
      in Htri as [tris [Hm1 HP1]].
    2:{ intros x [m0 w0] [m1 w1] Hstep.
        apply (LoadTriangles_run bind_material Hkeeps) in Hstep
          as [[_ Hsame]|[_ [subMesh [Hadd [Hprim [Hidx _]]]]]].
        - exists []. simpl. split; [rewrite app_nil_r; exact Hsame|constructor].
        - exists [subMesh]. split; [exact Hadd|]. constructor; [auto|constructor]. }
    apply (each_named_appends
             (λ s, sm_primitive s = TRIANGLES ∧ MeshSpec.indices_in_bounds s))
      in Hpoly as [polys [Hm2 HP2]].
    2:{ intros x [m0 w0] [m1 w1] Hstep.
        apply (LoadPolylist_run bind_material Hkeeps) in Hstep
          as [subMesh [Hadd [Hprim [Hidx _]]]].
        exists [subMesh]. split; [exact Hadd|]. constructor; [auto|constructor]. }
    apply (each_named_appends
             (λ s, sm_primitive s = LINES ∧ MeshSpec.indices_in_bounds s))
      in Hlines as [lines [Hm3 HP3]].
    2:{ intros x [m0 w0] [m1 w1] Hstep.
        apply LoadLines_run in Hstep
          as [pXml [rest [pStr [subMesh [_ [_ [-> [Hprim [_ [_ [Hi _]]]]]]]]]]].
        exists [subMesh]. split; [reflexivity|].
        constructor; [|constructor]. split; [exact Hprim|].
        unfold MeshSpec.indices_in_bounds, VertexCount. rewrite Hi.
        apply Forall_fmap. apply Forall_forall. intros i Hi'.
        apply elem_of_seqZ in Hi'. simpl.
        pose proof (u32_range i). pose proof (u32_le i ltac:(lia)). lia. }
    exists (tris ++ polys), lines. split.
    + simpl in *. rewrite Hm3, Hm2, Hm1, <- !app_assoc. reflexivity.
    + split; [apply Forall_app; auto|exact HP3].
Qed.

End geometry_proofs.

Section edge_proofs.
Context `{IgnMath} `{Parsers} `{Materials}.
Import Weaver.

Variable bind_material :
  string → Mesh → SubMesh → Loader → outcome (Mesh * SubMesh * Loader).

Lemma bind_Fault {A B} (m : outcome A) (f : A → outcome B) e :
  m = Fault e → m ≫= f = Fault e.
Proof. intros ->. reflexivity. Qed.

Lemma LoadPolylist_needs_streams _polylistXml T (_mesh : Mesh) (w : Loader) :
  Sources.array_text (FirstChildElement "vcount" _polylistXml) = None
  ∨ Sources.array_text (FirstChildElement "p" _polylistXml) = None →
  ¬ is_Ok (Primitives.LoadPolylist bind_material _polylistXml T _mesh w).
Proof.
  intros Hmissing [[_mesh' w'] Hrun]. unfold Primitives.LoadPolylist in Hrun.
  apply bind_Ok in Hrun as [[[mesh1 sm0] w1] [_ Hrun]].
  apply bind_Ok in Hrun as [[inp w2] [_ Hrun]].
  apply bind_Ok in Hrun as [vcountXml [Hvc Hrun]].
  apply bind_Ok in Hrun as [vcountStr [Hvs Hrun]].
  apply bind_Ok in Hrun as [pXml [Hp Hrun]].
  apply bind_Ok in Hrun as [pStr [Hps _]].
  destruct (FirstChildElement "vcount" _polylistXml) as [|v ?];
    [discriminate|].
  destruct (FirstChildElement "p" _polylistXml) as [|p ?]; [discriminate|].
  injection Hvc as ->. injection Hp as ->. simpl in Hmissing.
  destruct (GetText vcountXml); [|discriminate].
  destruct (GetText pXml); [|discriminate].
  destruct Hmissing; discriminate.
Qed.

(** The loop of LoadTriangles when no [<input>] was read: the step is 0. *)
Lemma triangles_loop_stuck (_mesh : Mesh) strs st :
  strs ≠ [] →
  ∀ fuel, Primitives.triangles_loop no_inputs _mesh strs fuel 0 st = OutOfFuel.
Proof.
  intros Hne. destruct st as [subMesh vertexIndexMap].
  assert (Hlt : (0 <? Z.of_nat (length strs))%Z = true).
  { apply Z.ltb_lt. destruct strs; [contradiction|simpl; lia]. }
  induction fuel as [|fuel IH]; simpl; rewrite Hlt; [reflexivity|].
  exact IH.
Qed.

Lemma LoadTriangles_without_inputs _trianglesXml T (_mesh : Mesh) (w : Loader)
    mesh1 sm0 w1 pStr :
  Primitives.start_submesh bind_material _trianglesXml _mesh w
  = Ok (mesh1, sm0, w1) →
  FirstChildElement "input" _trianglesXml = [] →
  Sources.array_text (FirstChildElement "p" _trianglesXml) = Some pStr →
  ∀ fuel,
    Primitives.LoadTriangles bind_material fuel _trianglesXml T _mesh w
    = OutOfFuel.
Proof.
  intros Hstart Hinputs Hp fuel. unfold Primitives.LoadTriangles.
  rewrite Hstart. simpl. unfold read_inputs.
  rewrite each_named_absent by exact Hinputs. simpl. rewrite Hp.
  rewrite triangles_loop_stuck; [reflexivity|].
  intros Hnil. pose proof (split_spaces_length pStr) as Hlen.
  rewrite Hnil in Hlen. discriminate.
Qed.




End edge_proofs.

Section skeleton_node_proofs.
Context `{IgnMath} `{Parsers}.
Import SkeletonNodes.

Lemma std_string_Ok p s : std_string p = Ok s → p = Some s.
Proof. destruct p; simpl; congruence. Qed.

Lemma LoadSkeletonNodes_mirror : ∀ e t,
  LoadSkeletonNodes e = Ok t →
  Forall2 SkeletonSpec.built_for
          (SkeletonSpec.joint_elements e) (SkeletonSpec.nodes t).
Proof.
  induction e as [tag attrs txt kids IH] using XMLElement_forall_ind.
  intros t Hrun. simpl in Hrun.
  apply bind_Ok in Hrun as [name [Hname Hrun]].
  apply bind_Ok in Hrun as [id [Hid Hrun]].
  apply bind_Ok in Hrun as [type [Htype Hrun]].
  apply bind_Ok in Hrun as [node [Hnode Hrun]].
  apply bind_Ok in Hrun as [childNodes [Hkids Hrun]].
  injection Hrun as <-.
  apply std_string_Ok in Hid, Htype.
  simpl. constructor.
  - split; [|exact Hnode].
    unfold SkeletonSpec.declared. simpl.
    change (List.find (λ kv : string * string, String.eqb kv.1 "id") attrs)
      with (List.find (λ kv : string * string, String.eqb kv.1 "id")
              (attributes (Element tag attrs txt kids))).
    fold (Attribute "id" (Element tag attrs txt kids)).
    fold (Attribute "sid" (Element tag attrs txt kids)).
    fold (Attribute "name" (Element tag attrs txt kids)).
    fold (Attribute "type" (Element tag attrs txt kids)).
    destruct (Attribute "sid" (Element tag attrs txt kids)) as [sid|].
    + apply std_string_Ok in Hname. injection Hname as ->.
      rewrite Hid, Htype. reflexivity.
    + apply std_string_Ok in Hname. rewrite Hname, Hid, Htype. reflexivity.
  - clear Hname Hid Htype Hnode. revert childNodes Hkids.
    induction IH as [|k kids Hk _ IHkids]; intros childNodes Hkids.
    + injection Hkids as <-. constructor.
    + destruct (String.eqb (Value k) "node").
      * apply bind_Ok in Hkids as [child [Hchild Hkids]].
        apply bind_Ok in Hkids as [later [Hlater Hkids]].
        injection Hkids as <-. simpl.
        apply Forall2_app; [exact (Hk child Hchild)|exact (IHkids later Hlater)].
      * simpl. exact (IHkids childNodes Hkids).
Qed.

End skeleton_node_proofs.

Section target_proofs.
Import ChannelTarget.

Abbreviation chars := list_ascii_of_string.
Abbreviation len s := (Z.of_nat (String.length s)).

Lemma length_append a b :
  String.length (a ++ b)%string = String.length a + String.length b.
Proof. induction a as [|c a IH]; simpl; [reflexivity|]. rewrite IH. reflexivity. Qed.

Lemma chars_append a b : chars (a ++ b)%string = chars a ++ chars b.
Proof. induction a as [|c a IH]; simpl; [reflexivity|]. rewrite IH. reflexivity. Qed.

Lemma find_from_absent c s : ∀ pos,
  ¬ In c (chars s) → find_from c s pos = npos.
Proof.
  induction s as [|a s IH]; intros pos Hnot; simpl; [reflexivity|].
  simpl in Hnot. destruct (Ascii.eqb_spec a c); [tauto|].
  apply IH. tauto.
Qed.

Lemma find_from_append c a b : ∀ pos,
  ¬ In c (chars a) →
  find_from c (a ++ b)%string pos = find_from c b (pos + len a)%Z.
Proof.
  induction a as [|x a IH]; intros pos Hnot; simpl.
  - f_equal. lia.
  - simpl in Hnot. destruct (Ascii.eqb_spec x c); [tauto|].
    rewrite IH by tauto. f_equal. lia.
Qed.

Lemma find_at c a b :
  ¬ In c (chars a) → find (a ++ String c b)%string c = len a.
Proof.
  intros Hnot. unfold find. rewrite find_from_append by exact Hnot.
  simpl. rewrite Ascii.eqb_refl. lia.
Qed.

Lemma find_absent c s : ¬ In c (chars s) → find s c = npos.
Proof. apply find_from_absent. Qed.

Lemma find_from_range c s : ∀ pos,
  find_from c s pos = npos
  ∨ (pos ≤ find_from c s pos < pos + len s)%Z.
Proof.
  induction s as [|a s IH]; intros pos; simpl; [left; reflexivity|].
  destruct (Ascii.eqb a c); [right; lia|].
  destruct (IH (pos + 1)%Z) as [->|Hr]; [left; reflexivity|right; lia].
Qed.

Lemma substring_skip a s : ∀ m,
  String.substring (String.length a) m (a ++ s)%string = String.substring 0 m s.
Proof. induction a as [|c a IH]; intros m; simpl; [reflexivity|apply IH]. Qed.

Lemma substring_take a s :
  String.substring 0 (String.length a) (a ++ s)%string = a.
Proof.
  induction a as [|c a IH]; simpl.
  - destruct s; reflexivity.
  - rewrite IH. reflexivity.
Qed.

Lemma substring_all s : String.substring 0 (String.length s) s = s.
Proof.
  induction s as [|c s IH]; simpl; [reflexivity|]. rewrite IH. reflexivity.
Qed.

(** [(a ++ b ++ c).substr(|a|, |b|)] is [b]. *)
Lemma substr_middle a b c n :
  n = len b →
  substr (a ++ b ++ c)%string (len a) n = Ok b.
Proof.
  intros ->. unfold substr. rewrite !length_append.
  destruct (Z.ltb_spec (Z.of_nat (String.length a
                          + (String.length b + String.length c)))
                       (Z.of_nat (String.length a))); [lia|].
  f_equal. rewrite Nat2Z.id.
  replace (Z.to_nat _) with (String.length b) by lia.
  rewrite substring_skip. apply substring_take.
Qed.

(** [(a ++ b).substr(|a|, n)] is [b] when [n] reaches the end. *)
Lemma substr_rest a b n :
  (len b ≤ n)%Z → substr (a ++ b)%string (len a) n = Ok b.
Proof.
  intros Hn. unfold substr. rewrite !length_append.
  destruct (Z.ltb_spec (Z.of_nat (String.length a + String.length b))
                       (Z.of_nat (String.length a))); [lia|].
  f_equal. rewrite Nat2Z.id.
  replace (Z.to_nat _) with (String.length b) by lia.
  rewrite substring_skip. apply substring_all.
Qed.

Lemma substr_head b c : substr (b ++ c)%string 0 (len b) = Ok b.
Proof. exact (substr_middle "" b c _ eq_refl). Qed.

Lemma append_cons a c b :
  (a ++ String c b)%string = ((a ++ String c "") ++ b)%string.
Proof.
  induction a as [|x a IH]; [reflexivity|].
  change (String x (a ++ String c b) = String x ((a ++ String c "") ++ b))%string.
  f_equal. exact IH.
Qed.

(** [(a ++ c :: b).substr(|a| + 1, n)] is [b] when [n] reaches the end. *)
Lemma substr_after a c b n :
  (len b ≤ n)%Z → substr (a ++ String c b)%string (len a + 1) n = Ok b.
Proof.
  intros Hn. rewrite append_cons.
  replace (len a + 1)%Z with (len (a ++ String c "")%string)
    by (rewrite length_append; simpl; lia).
  apply substr_rest. exact Hn.
Qed.

(** [(a ++ c :: b ++ d).substr(|a| + 1, |b|)] is [b]. *)
Lemma substr_between a c b d n :
  n = len b →
  substr (a ++ String c (b ++ d))%string (len a + 1) n = Ok b.
Proof.
  intros Hn. rewrite (append_cons a c (b ++ d)%string).
  replace (len a + 1)%Z with (len (a ++ String c "")%string)
    by (rewrite length_append; simpl; lia).
  apply substr_middle. exact Hn.
Qed.

Lemma substr_defined s pos n :
  (0 ≤ pos ≤ len s)%Z → ∃ r, substr s pos n = Ok r.
Proof.
  intros Hpos. unfold substr.
  destruct (Z.ltb_spec (Z.of_nat (String.length s)) pos); [lia|eauto].
Qed.


Lemma size_t_small z : (0 ≤ z < 2 ^ 64)%Z → size_t z = z.
Proof. intros Hz. unfold size_t. apply Z.mod_small. exact Hz. Qed.

Lemma size_t_wrap : size_t (npos + 1) = 0%Z.
Proof. reflexivity. Qed.

Lemma substr_after_find s c :
  ∃ r, substr s (size_t (find s c + 1)) npos = Ok r.
Proof.
  unfold find. destruct (find_from_range c s 0) as [->|Hr].
  - rewrite size_t_wrap. apply substr_defined. lia.
  - destruct (Z.ltb_spec (find_from c s 0 + 1) (2 ^ 64)) as [Hlt|Hge].
    + rewrite size_t_small by lia. apply substr_defined. lia.
    + apply substr_defined. unfold size_t.
      pose proof (Z.mod_pos_bound (find_from c s 0 + 1) (2 ^ 64) ltac:(lia)).
      pose proof (Z.mod_le (find_from c s 0 + 1) (2 ^ 64) ltac:(lia) ltac:(lia)).
      lia.
Qed.

Section parse_proofs.
Context `{Parsers}.

Variables bone sid : string.
Hypothesis Hslash : ¬ In "/"%char (chars bone).
Hypothesis Hparen : ¬ In "("%char (chars (bone ++ sid)%string).
Hypothesis Hdot : ¬ In "."%char (chars (bone ++ sid)%string).

Lemma absent_in_target c suffix :
  c ≠ "/"%char → ¬ In c (chars (bone ++ sid)%string) →
  ¬ In c (chars suffix) →
  ¬ In c (chars (bone ++ String "/" (sid ++ suffix))%string).
Proof.
  clear Hslash Hparen Hdot.
  intros Hc Hnot Hsuffix. rewrite chars_append in *. simpl.
  rewrite chars_append. rewrite !in_app_iff in *. simpl.
  rewrite in_app_iff. intros [Hb|[Heq|[Hs|Hx]]]; try tauto. congruence.
Qed.

Lemma absent_before c :
  ¬ In c (chars (bone ++ sid)%string) →
  c ≠ "/"%char →
  ¬ In c (chars (bone ++ String "/" sid)%string).
Proof.
  clear Hslash Hparen Hdot.
  intros Hnot Hc. rewrite chars_append in *. simpl.
  rewrite !in_app_iff in *. simpl. intros [Hb|[Heq|Hs]]; try tauto. congruence.
Qed.

Lemma parse_plain :
  (len bone + len sid + 2 < 2 ^ 64)%Z →
  parse (bone ++ String "/" sid)%string
  = Ok {| targetBone := bone; targetTrans := sid; idx1 := -1; idx2 := -1 |}.
Proof.
  intros Hlen. unfold parse.
  rewrite (find_at "/" bone sid Hslash).
  rewrite (find_absent "(" _ (absent_before "(" Hparen ltac:(discriminate))).
  rewrite (find_absent "." _ (absent_before "." Hdot ltac:(discriminate))).
  change (negb (npos =? npos)%Z) with false. cbv iota.
  change (Ascii.eqb "0" "0") with true. cbv iota.
  change (Ascii.eqb "0" ".") with false. cbv iota.
  change (Ascii.eqb "0" "(") with false. cbv iota.
  rewrite (substr_head bone (String "/" sid)).
  change (Ok bone ≫= ?f) with (f bone). cbv beta.
  rewrite (size_t_small (len bone + 1)) by lia.
  rewrite (substr_after bone "/" sid npos) by (unfold npos; lia).
  destruct (substr_after_find (bone ++ String "/" sid)%string "0") as [r ->].
  reflexivity.
Qed.

Lemma target_split c suffix :
  (bone ++ String "/" (sid ++ String c suffix))%string
  = ((bone ++ String "/" sid) ++ String c suffix)%string.
Proof.
  clear. induction bone as [|x a IH].
  - change (String "/" (sid ++ String c suffix)
            = String "/" sid ++ String c suffix)%string. reflexivity.
  - change (String x (a ++ String "/" (sid ++ String c suffix))
            = String x ((a ++ String "/" sid) ++ String c suffix))%string.
    f_equal. exact IH.
Qed.

Lemma length_head :
  len (bone ++ String "/" sid)%string = (len bone + 1 + len sid)%Z.
Proof. rewrite length_append. simpl. lia. Qed.

Lemma parse_member member :
  ¬ In "("%char (chars member) →
  (len bone + len sid + len member + 3 < 2 ^ 64)%Z →
  parse (bone ++ String "/" (sid ++ String "." member))%string
  = Ok {| targetBone := bone; targetTrans := sid;
          idx1 := member_index member; idx2 := -1 |}.
Proof.
  intros Hmember Hlen. unfold parse.
  rewrite (find_at "/" bone _ Hslash).
  rewrite (find_absent "(" _
             (absent_in_target "(" (String "." member) ltac:(discriminate)
                Hparen
                ltac:(simpl; intros [Heq|Hin]; [discriminate|tauto]))).
  assert (Hfind : find (bone ++ String "/" (sid ++ String "." member))%string "."
                  = (len bone + 1 + len sid)%Z).
  { rewrite target_split, <- length_head. apply find_at.
    apply absent_before; [exact Hdot|discriminate]. }
  rewrite Hfind.
  change (negb (npos =? npos)%Z) with false. cbv iota.
  assert (Hne : negb (len bone + 1 + len sid =? npos)%Z = true).
  { apply negb_true_iff. apply Z.eqb_neq. unfold npos. lia. }
  rewrite Hne. cbv iota.
  change (Ascii.eqb "." "0") with false.
  change (Ascii.eqb "." ".") with true. cbv iota.
  rewrite Hfind.
  rewrite (substr_head bone _).
  change (Ok bone ≫= ?f) with (f bone). cbv beta.
  rewrite (size_t_small (len bone + 1)) by lia.
  rewrite (size_t_small (len bone + 1 + len sid - len bone - 1)) by lia.
  rewrite (substr_between bone "/" sid (String "." member)) by lia.
  change (Ok sid ≫= ?f) with (f sid). cbv beta.
  rewrite (size_t_small (len bone + 1 + len sid + 1)) by lia.
  rewrite target_split, <- length_head.
  rewrite (substr_after _ "." member npos) by (unfold npos; lia).
  reflexivity.
Qed.

Lemma parse_indexed rest :
  (len bone + len sid + len rest + 3 < 2 ^ 64)%Z →
  parse (bone ++ String "/" (sid ++ String "(" rest))%string
  = (idx1Str ← substr rest 0 1;
     '(idx1, idx2) ←
       (if (4 <? len rest)%Z
        then idx2Str ← substr rest 3 1;
             Ok (parseInt idx1Str, parseInt idx2Str)
        else Ok (parseInt idx1Str, -1)%Z);
     Ok {| targetBone := bone; targetTrans := sid;
           idx1 := idx1; idx2 := idx2 |}).
Proof.
  clear Hdot. intros Hlen. unfold parse.
  rewrite (find_at "/" bone _ Hslash).
  assert (Hfind : find (bone ++ String "/" (sid ++ String "(" rest))%string "("
                  = (len bone + 1 + len sid)%Z).
  { rewrite target_split, <- length_head. apply find_at.
    apply absent_before; [exact Hparen|discriminate]. }
  rewrite Hfind.
  assert (Hne : negb (len bone + 1 + len sid =? npos)%Z = true).
  { apply negb_true_iff. apply Z.eqb_neq. unfold npos. lia. }
  rewrite Hne. cbv iota.
  change (Ascii.eqb "(" "0") with false.
  change (Ascii.eqb "(" ".") with false.
  change (Ascii.eqb "(" "(") with true. cbv iota.
  rewrite Hfind.
  rewrite (substr_head bone _).
  change (Ok bone ≫= ?f) with (f bone). cbv beta.
  rewrite (size_t_small (len bone + 1)) by lia.
  rewrite (size_t_small (len bone + 1 + len sid - len bone - 1)) by lia.
  rewrite (substr_between bone "/" sid (String "(" rest)) by lia.
  change (Ok sid ≫= ?f) with (f sid). cbv beta.
  rewrite (size_t_small (len bone + 1 + len sid + 1)) by lia.
  rewrite target_split, <- length_head.
  rewrite (substr_after _ "(" rest npos) by (unfold npos; lia).
  change (Ok rest ≫= ?f) with (f rest). cbv beta.
  destruct (substr rest 0 1) as [idx1Str| |]; [|reflexivity|reflexivity].
  change (Ok idx1Str ≫= ?f) with (f idx1Str). cbv beta.
  destruct (4 <? len rest)%Z; [|reflexivity].
  destruct (substr rest 3 1); reflexivity.
Qed.

End parse_proofs.
End target_proofs.

Section material_proofs.
Context `{IgnMath} `{Parsers} `{Materials} `{!MaterialOps}.
Import MaterialLoader.

Lemma LoadTransparent_ids _elem (_mat : Material) (w : Loader) mat' w' :
  LoadTransparent _elem _mat w = Ok (mat', w') →
  materialIds w' = materialIds w.
Proof.
  unfold LoadTransparent. destruct (Attribute "opaque" _elem) as [opaque|].
  - destruct (FirstChildElement "color" _elem) as [|colorXml ?].
    + intros [= <- <-]. reflexivity.
    + destruct (GetText colorXml) as [colorStr|].
      * intros Hrun. apply bind_Ok in Hrun as [color [_ Hrun]].
        destruct (String.eqb opaque "RGB_ZERO");
          [|destruct (String.eqb opaque "A_ONE")];
          injection Hrun as <- <-; reflexivity.
      * intros [= <- <-]. reflexivity.
  - intros [= <- <-]. reflexivity.
Qed.

Lemma load_transparent_ids blockXml (mat : Material) (w : Loader) mat' w' :
  load_transparent blockXml mat w = Ok (mat', w') →
  materialIds w' = materialIds w.
Proof.
  unfold load_transparent.
  destruct (FirstChildElement "transparent" blockXml) as [|transXml ?].
  - intros [= <- <-]. reflexivity.
  - apply LoadTransparent_ids.
Qed.

Lemma lambert_ids lambertXml (mat : Material) (w : Loader) mat' w' :
  lambert lambertXml mat w = Ok (mat', w') →
  materialIds w' = materialIds w.
Proof.
  unfold lambert. intros Hrun.
  apply bind_Ok in Hrun as [m1 [_ Hrun]].
  apply bind_Ok in Hrun as [m2 [_ Hrun]].
  apply bind_Ok in Hrun as [m3 [_ Hrun]].
  apply bind_Ok in Hrun as [m4 [_ Hrun]].
  exact (load_transparent_ids _ _ _ _ _ Hrun).
Qed.

Lemma phong_ids phongXml (mat : Material) (w : Loader) mat' w' :
  phong phongXml mat w = Ok (mat', w') →
  materialIds w' = materialIds w.
Proof.
  unfold phong. intros Hrun.
  apply bind_Ok in Hrun as [m1 [_ Hrun]].
  apply bind_Ok in Hrun as [m2 [_ Hrun]].
  apply bind_Ok in Hrun as [m3 [_ Hrun]].
  apply bind_Ok in Hrun as [m4 [_ Hrun]].
  apply bind_Ok in Hrun as [m5 [_ Hrun]].
  apply bind_Ok in Hrun as [m6 [_ Hrun]].
  exact (load_transparent_ids _ _ _ _ _ Hrun).
Qed.

(** What a call of LoadMaterial that returned leaves in the loader. *)
Lemma LoadMaterial_run _name (w : Loader) r w' :
  LoadMaterial _name w = Ok (r, w') →
  match r with
  | Some mat =>
      materialIds w' !! _name = Some mat
      ∧ ∀ other, other ≠ _name →
          materialIds w' !! other = materialIds w !! other
  | None => w' = w
  end.
Proof.
  unfold LoadMaterial. destruct (materialIds w !! _name) as [mat|] eqn:Hcache.
  - intros [= <- <-]. split; [exact Hcache|]. reflexivity.
  - intros Hrun. apply bind_Ok in Hrun as [matXml [_ Hrun]].
    destruct matXml as [matXml|]; [|injection Hrun as <- <-; reflexivity].
    destruct (FirstChildElement "instance_effect" matXml)
      as [|instanceEffect ?]; [injection Hrun as <- <-; reflexivity|].
    apply bind_Ok in Hrun as [effectName [_ Hrun]].
    apply bind_Ok in Hrun as [found [_ Hrun]].
    apply bind_Ok in Hrun as [effectXml [_ Hrun]].
    apply bind_Ok in Hrun as [[mat w1] [Hblock Hrun]].
    injection Hrun as <- <-.
    assert (Hids : materialIds w1 = materialIds w).
    { destruct (FirstChildElement "profile_COMMON" effectXml)
        as [|commonXml ?]; [injection Hblock as <- <-; reflexivity|].
      apply bind_Ok in Hblock as [techniqueXml [_ Hblock]].
      destruct (FirstChildElement "lambert" techniqueXml) as [|lambertXml ?];
        [|exact (lambert_ids _ _ _ _ _ Hblock)].
      destruct (FirstChildElement "phong" techniqueXml) as [|phongXml ?];
        [|exact (phong_ids _ _ _ _ _ Hblock)].
      destruct (FirstChildElement "blinn" techniqueXml) as [|blinnXml ?];
        [|exact (phong_ids _ _ _ _ _ Hblock)].
      injection Hblock as <- <-. reflexivity. }
    assert (Hids' : ∀ w2 : Loader,
              materialIds
                (match FirstChildElement "profile_CG" effectXml with
                 | _ :: _ => emit ignerr "profile_CG unsupported" w2
                 | [] => w2
                 end) = materialIds w2)
      by (intros w2; destruct (FirstChildElement "profile_CG" effectXml);
          reflexivity).
    assert (Hids'' : ∀ w2 : Loader,
              materialIds
                (match FirstChildElement "profile_GLSL" effectXml with
                 | _ :: _ => emit ignerr "profile_GLSL unsupported" w2
                 | [] => w2
                 end) = materialIds w2)
      by (intros w2; destruct (FirstChildElement "profile_GLSL" effectXml);
          reflexivity).
    simpl. rewrite Hids', Hids'', Hids. split.
    + apply lookup_insert_eq.
    + intros other Hother. apply lookup_insert_ne. congruence.
Qed.

End material_proofs.

Section binding_proofs.
Context `{IgnMath} `{Parsers} `{Materials}.

Variable LoadMaterial : string → Loader → outcome (option Material * Loader).
Variable IndexOfMaterial : option Material → Mesh → Z.
Variable AddMaterial : option Material → Mesh → Z * Mesh.

Lemma bind_material_run matStr (_mesh : Mesh) (subMesh : SubMesh) (w : Loader)
    _mesh' subMesh' w' :
  MaterialBinding.bind_material LoadMaterial IndexOfMaterial AddMaterial
    matStr _mesh subMesh w = Ok (_mesh', subMesh', w') →
  ∃ mat,
    (_mesh' = _mesh ∨ _mesh' = (AddMaterial mat _mesh).2)
    ∧ (subMesh' = subMesh
       ∨ ∃ i, (0 ≤ i)%Z
              ∧ subMesh' = MaterialBinding.SetMaterialIndex i subMesh).
Proof.
  unfold MaterialBinding.bind_material. intros Hrun.
  apply bind_Ok in Hrun as [[mat w1] [_ Hrun]]. exists mat.
  destruct (IndexOfMaterial mat _mesh <? 0)%Z eqn:Hfound.
  - destruct (AddMaterial mat _mesh) as [matIndex mesh1]. simpl.
    destruct (matIndex <? 0)%Z eqn:Hadded; injection Hrun as <- <- <-.
    + split; [right; reflexivity|left; reflexivity].
    + split; [right; reflexivity|]. right. exists matIndex.
      split; [lia|reflexivity].
  - rewrite Hfound in Hrun. injection Hrun as <- <- <-.
    split; [left; reflexivity|]. right. eexists.
    split; [|reflexivity]. lia.
Qed.

End binding_proofs.

Lemma each_named_first {S} name (body : XMLElement → S → outcome S) :
  ∀ l x rest s, first_named name l = x :: rest →
    each_named name body l s
    = (s' ← body x s; each_named name body rest s').
Proof.
  induction l as [|e l IH]; intros x rest s Hfirst; simpl in *;
    [discriminate|].
  destruct (String.eqb (Value e) name).
  - injection Hfirst as <- <-. reflexivity.
  - exact (IH x rest s Hfirst).
Qed.

(** ** Further properties of the loader *)

(** X1.  ElementId returns the first element, in document order from the
    root, that passes the test of lines 862-864 for the id without its
    leading [#]; it returns null when no element passes, and it
    dereferences the root. *)
Theorem ElementId_first_in_document_order :
  ∀ (root : cursor) (_name _id : string),
    ElementId root _name _id
    = match root with
      | [] => Fault NullDeref
      | e :: _ =>
          Ok (List.find (DocumentOrder.answers _name (strip_hash _id))
                        (DocumentOrder.preorder e))
      end.
Proof.
  intros root _name _id. destruct root as [|e rest]; [reflexivity|].
  unfold ElementId. simpl. f_equal. apply ElementId_in_preorder.
Qed.

(** X2.  When the id is not empty the element name that is asked for plays
    no part: the same element comes back for every name, whatever its own
    tag is. *)
Theorem ElementId_ignores_name_for_ids :
  ∀ (root : cursor) (n1 n2 _id : string),
    strip_hash _id ≠ ""%string →
    ElementId root n1 _id = ElementId root n2 _id.
Proof.
  intros root n1 n2 _id Hid. destruct root as [|e rest]; [reflexivity|].
  unfold ElementId. simpl. f_equal.
  rewrite !ElementId_in_preorder.
  induction (DocumentOrder.preorder e) as [|x l IH]; simpl; [reflexivity|].
  rewrite (answers_named n1 n2 _ x Hid).
  destruct (DocumentOrder.answers n2 _ x); [reflexivity | exact IH].
Qed.

Lemma ElementId_ignores_name_for_ids_witness :
  strip_hash "#square" ≠ ""%string
  ∧ ElementId [Sample.square_doc] "material" "#square"
    = ElementId [Sample.square_doc] "geometry" "#square".
Proof.
  assert (H1 : strip_hash "#square" ≠ ""%string) by (simpl; discriminate).
  refine (conj H1 _).
  exact (ElementId_ignores_name_for_ids [Sample.square_doc] "material"
           "geometry" "#square" H1).
Defined.

(** X3.  Load does not return for a file that cannot be read or that has
    no [COLLADA] root: after the two error lines the null root is
    dereferenced for its version. *)
Theorem Load_without_root_faults :
  ∀ (M : IgnMath) (P : Parsers) (Mat : Materials)
    (LoadNode : XMLElement → Mesh → Matrix4d → Loader → outcome (Mesh * Loader))
    (fs : Driver.FileSystem) (_filename : string) (w : Loader),
    first_named "COLLADA" (fs _filename).2 = [] →
    Driver.Load LoadNode fs _filename w = Fault NullDeref.
Proof.
  intros M P Mat LoadNode fs _filename w Hroot. unfold Driver.Load.
  destruct (fs _filename) as [err doc]. simpl in Hroot.
  unfold Driver.check_version, Driver.find_root. simpl. rewrite Hroot.
  reflexivity.
Qed.

Section driver_edge_samples.
#[local] Existing Instances Sample.math Sample.parsers Sample.materials.

Lemma Load_without_root_faults_witness :
  first_named "COLLADA" (Sample.disk "missing.dae").2 = []
  ∧ Driver.Load Sample.skip_node Sample.disk "missing.dae" Sample.fresh_loader
    = Fault NullDeref.
Proof.
  assert (H1 : first_named "COLLADA" (Sample.disk "missing.dae").2 = [])
    by reflexivity.
  refine (conj H1 _).
  exact (Load_without_root_faults Sample.math Sample.parsers Sample.materials
           Sample.skip_node Sample.disk "missing.dae" Sample.fresh_loader H1).
Defined.

End driver_edge_samples.

(** X4.  The test of line 121 is inverted: for a document with a versioned
    root, Load writes "Unable to load collada file[...]" exactly when
    LoadFile reported no error, and goes on to LoadScene either way. *)
Theorem Load_reports_success_as_failure :
  ∀ (M : IgnMath) (P : Parsers) (Mat : Materials)
    (LoadNode : XMLElement → Mesh → Matrix4d → Loader → outcome (Mesh * Loader))
    (fs : Driver.FileSystem) (_filename : string) (w : Loader)
    (err : Z) (doc : list XMLElement) (root : XMLElement)
    (rest : list XMLElement) (version : string),
    fs _filename = (err, doc) →
    first_named "COLLADA" doc = root :: rest →
    Attribute "version" root = Some version →
    ∃ (w1 : Loader) (emitted : list message),
      console w1 = console w ++ emitted
      ∧ (In (ignerr,
             ("Unable to load collada file[" ++ _filename ++ "]")%string)
            emitted
         ↔ err = Driver.XML_NO_ERROR)
      ∧ Driver.Load LoadNode fs _filename w
        = ('(mesh, w2) ← Driver.LoadScene LoadNode
                            (SetPath (path w1) Mesh_new) w1;
           Ok (Mesh_Scale (mkVector3d (meter w2) (meter w2) (meter w2)) mesh,
               w2)).
Proof.
  intros M P Mat LoadNode fs _filename w err doc root rest version
    Hfs Hroot Hversion.
  destruct (Load_prologue LoadNode fs _filename w err doc root rest version
              Hfs Hroot Hversion) as [w1 [Hload [_ [_ [_ Hconsole]]]]].
  exists w1. eexists. split; [exact Hconsole|]. split; [|exact Hload].
  assert (Hother : ¬ In (ignerr,
                         ("Unable to load collada file[" ++ _filename ++ "]")%string)
                        (if String.eqb version "1.4.0" || String.eqb version "1.4.1"
                         then [] else [Driver.version_error])).
  { destruct (_ || _); [intros []|].
    intros [Heq|[]]. discriminate Heq. }
  rewrite in_app_iff.
  destruct (Z.eqb_spec err Driver.XML_NO_ERROR) as [Herr|Herr].
  - split; [intros _; exact Herr|]. intros _. left. left. reflexivity.
  - split; [|intros Heq; contradiction].
    intros [[]|Hin]. contradiction.
Qed.

(** X5.  The path that Load gives to the mesh is the file name up to its
    last [/], whatever the name after it is. *)
Theorem Load_mesh_path :
  ∀ (M : IgnMath) (P : Parsers) (Mat : Materials)
    (LoadNode : XMLElement → Mesh → Matrix4d → Loader → outcome (Mesh * Loader))
    (fs : Driver.FileSystem) (dir base : string) (w : Loader)
    (err : Z) (doc : list XMLElement) (root : XMLElement)
    (rest : list XMLElement) (version : string),
    ¬ In "/"%char (list_ascii_of_string base) →
    fs (dir ++ String "/" base)%string = (err, doc) →
    first_named "COLLADA" doc = root :: rest →
    Attribute "version" root = Some version →
    ∃ w1 : Loader,
      path w1 = dir
      ∧ Driver.Load LoadNode fs (dir ++ String "/" base)%string w
        = ('(mesh, w2) ← Driver.LoadScene LoadNode (SetPath dir Mesh_new) w1;
           Ok (Mesh_Scale (mkVector3d (meter w2) (meter w2) (meter w2)) mesh,
               w2)).
Proof.
  intros M P Mat LoadNode fs dir base w err doc root rest version
    Hbase Hfs Hroot Hversion.
  destruct (Load_prologue LoadNode fs _ w err doc root rest version
              Hfs Hroot Hversion) as [w1 [Hload [Hpath _]]].
  rewrite (reset_path_directory dir base w Hbase) in Hpath.
  exists w1. split; [exact Hpath|]. rewrite Hload, Hpath. reflexivity.
Qed.

Section driver_more_samples.
#[local] Existing Instances Sample.math Sample.parsers Sample.materials.

Lemma Load_reports_success_as_failure_witness :
  Sample.disk "meshes/model.dae" = (0%Z, [Sample.collada_1_5])
  ∧ first_named "COLLADA" [Sample.collada_1_5] = Sample.collada_1_5 :: []
  ∧ Attribute "version" Sample.collada_1_5 = Some "1.5.0"%string
  ∧ ∃ (w1 : Loader) (emitted : list message),
      console w1 = console Sample.fresh_loader ++ emitted
      ∧ (In (ignerr, "Unable to load collada file[meshes/model.dae]"%string)
            emitted
         ↔ 0%Z = Driver.XML_NO_ERROR)
      ∧ Driver.Load Sample.skip_node Sample.disk "meshes/model.dae"
          Sample.fresh_loader
        = ('(mesh, w2) ← Driver.LoadScene Sample.skip_node
                            (SetPath (path w1) Mesh_new) w1;
           Ok (Mesh_Scale (mkVector3d (meter w2) (meter w2) (meter w2)) mesh,
               w2)).
Proof.
  assert (H1 : Sample.disk "meshes/model.dae" = (0%Z, [Sample.collada_1_5]))
    by reflexivity.
  assert (H2 : first_named "COLLADA" [Sample.collada_1_5]
               = Sample.collada_1_5 :: []) by reflexivity.
  assert (H3 : Attribute "version" Sample.collada_1_5 = Some "1.5.0"%string)
    by reflexivity.
  refine (conj H1 (conj H2 (conj H3 _))).
  exact (Load_reports_success_as_failure Sample.math Sample.parsers
           Sample.materials Sample.skip_node Sample.disk "meshes/model.dae"
           Sample.fresh_loader 0%Z [Sample.collada_1_5] Sample.collada_1_5 []
           "1.5.0" H1 H2 H3).
Defined.

Lemma Load_mesh_path_witness :
  ¬ In "/"%char (list_ascii_of_string "model.dae")
  ∧ Sample.disk "meshes/model.dae" = (0%Z, [Sample.collada_1_5])
  ∧ first_named "COLLADA" [Sample.collada_1_5] = Sample.collada_1_5 :: []
  ∧ Attribute "version" Sample.collada_1_5 = Some "1.5.0"%string
  ∧ ∃ w1 : Loader,
      path w1 = "meshes"%string
      ∧ Driver.Load Sample.skip_node Sample.disk "meshes/model.dae"
          Sample.fresh_loader
        = ('(mesh, w2) ← Driver.LoadScene Sample.skip_node
                            (SetPath "meshes" Mesh_new) w1;
           Ok (Mesh_Scale (mkVector3d (meter w2) (meter w2) (meter w2)) mesh,
               w2)).
Proof.
  assert (H0 : ¬ In "/"%char (list_ascii_of_string "model.dae")).
  { simpl. intros H. repeat (destruct H as [H|H]; [discriminate H|]).
    exact H. }
  assert (H1 : Sample.disk "meshes/model.dae" = (0%Z, [Sample.collada_1_5]))
    by reflexivity.
  assert (H2 : first_named "COLLADA" [Sample.collada_1_5]
               = Sample.collada_1_5 :: []) by reflexivity.
  assert (H3 : Attribute "version" Sample.collada_1_5 = Some "1.5.0"%string)
    by reflexivity.
  refine (conj H0 (conj H1 (conj H2 (conj H3 _)))).
  exact (Load_mesh_path Sample.math Sample.parsers Sample.materials
           Sample.skip_node Sample.disk "meshes" "model.dae"
           Sample.fresh_loader 0%Z [Sample.collada_1_5] Sample.collada_1_5 []
           "1.5.0" H0 H1 H2 H3).
Defined.

End driver_more_samples.

(** ** Sources *)

(** X6.  LoadPositions reads the text of [<float_array>] three tokens at a
    time, a token ending at every space.  When the number of tokens (one
    more than the number of spaces) is a multiple of three it adds one
    position for each three tokens to the caller's buffer; otherwise the
    iterator is taken past the end of the tokens: a trailing space or a
    doubled space is enough. *)
Theorem LoadPositions_whole_triples :
  ∀ (M : IgnMath) (P : Parsers) (Mat : Materials) _id (T : Matrix4d)
    (b : list Vector3d * gmap Z Z) (w : Loader) src fa rest text,
    positionIds (sources w) !! _id = None →
    ElementId (colladaXml w) "source" _id = Ok (Some src) →
    FirstChildElement "float_array" src = fa :: rest →
    GetText fa = Some text →
    (S (spaces text) mod 3 = 0 →
     ∃ b' w', Sources.LoadPositions _id T b w = Ok (b', w')
              ∧ length b'.1 = length b.1 + S (spaces text) / 3)
    ∧ (S (spaces text) mod 3 ≠ 0 →
       Sources.LoadPositions _id T b w = Fault OutOfRange).
Proof.
  intros M P Mat _id T b w src fa rest text Hcache Hsrc Hfa Htext.
  rewrite (LoadPositions_from_text _id T b w src fa rest text
             Hcache Hsrc Hfa Htext).
  rewrite <- split_spaces_length.
  destruct (read_positions_whole T (split_spaces text) (b.1, ([], b.2)))
    as [Hok Hbad].
  split.
  - intros Hm. destruct (Hok Hm) as [[values [unique duplicates]] [Hrun Hl]].
    rewrite Hrun. simpl. eexists. eexists. split; [reflexivity|]. exact Hl.
  - intros Hm. rewrite (Hbad Hm). reflexivity.
Qed.

(** X7.  LoadNormals takes the doubles that the stream yields three at a
    time and drops what is left at the end; it returns for every text.
    Each normal it adds is the triple turned by the transform without its
    translation and passed through Normalize, and the new normals follow
    what the caller's buffer held. *)
Theorem LoadNormals_complete_triples :
  ∀ (M : IgnMath) (P : Parsers) (Mat : Materials) _id (T : Matrix4d)
    (b : list Vector3d * gmap Z Z) (w : Loader) src fa rest text,
    normalIds (sources w) !! _id = None →
    ElementId (colladaXml w) "source" _id = Ok (Some src) →
    FirstChildElement "float_array" src = fa :: rest →
    GetText fa = Some text →
    ∃ new duplicates w',
      Sources.LoadNormals _id T b w = Ok ((b.1 ++ new, duplicates), w')
      ∧ length new = length (istringstream_doubles text) / 3
      ∧ ∀ k nv, new !! k = Some nv →
          ∃ x y z,
            istringstream_doubles text !! (3 * k) = Some x
            ∧ istringstream_doubles text !! (3 * k + 1) = Some y
            ∧ istringstream_doubles text !! (3 * k + 2) = Some z
            ∧ nv = Vector3d_Normalize
                     (Matrix4d_mul_vec (Matrix4d_Translate Vector3d_Zero T)
                        (mkVector3d x y z)).
Proof.
  intros M P Mat _id T b w src fa rest text Hcache Hsrc Hfa Htext.
  unfold Sources.LoadNormals. rewrite Hcache, Hsrc. simpl.
  rewrite Hfa. simpl. rewrite Htext.
  pose proof (read_normals_content (Matrix4d_Translate Vector3d_Zero T) _
                (istringstream_doubles text) (b.1, ([], b.2))
                (Nat.le_refl _)) as [new [Hvalues Hnew]].
  pose proof (read_normals_length (Matrix4d_Translate Vector3d_Zero T)
                (istringstream_doubles text) (b.1, ([], b.2))) as Hlen.
  destruct (Sources.read_normals _ _ _) as [values [unique duplicates]].
  simpl in Hvalues, Hlen. subst values.
  exists new, duplicates. eexists. split; [reflexivity|].
  split; [|exact Hnew]. rewrite length_app in Hlen. lia.
Qed.

(** X8.  A source that is in the cache is returned as it was stored: the
    transform and the buffers of a later call are not looked at, so a
    geometry that is instantiated under a second transform gets the
    positions and normals of the first. *)
Theorem sources_cache_ignores_transform :
  ∀ (M : IgnMath) (P : Parsers) (Mat : Materials) _id (T : Matrix4d)
    (b : list Vector3d * gmap Z Z) (w : Loader) r w' vs,
    (Sources.LoadPositions _id T b w = Ok (r, w') →
     positionIds (sources w') !! _id = Some vs →
     ∀ T' b', Sources.LoadPositions _id T' b' w' = Ok (r, w'))
    ∧ (Sources.LoadNormals _id T b w = Ok (r, w') →
       normalIds (sources w') !! _id = Some vs →
       ∀ T' b', Sources.LoadNormals _id T' b' w' = Ok (r, w')).
Proof.
  intros. split.
  - apply LoadPositions_cached.
  - apply LoadNormals_cached.
Qed.

Section source_samples.
#[local] Existing Instances Sample.math Sample.parsers Sample.materials.

Lemma LoadPositions_whole_triples_witness :
  positionIds (sources Sample.square_loader) !! "#positions"%string = None
  ∧ ElementId (colladaXml Sample.square_loader) "source" "#positions"
    = Ok (Some Fixtures.positions_source)
  ∧ FirstChildElement "float_array" Fixtures.positions_source
    = Fixtures.positions_array
      :: tail (FirstChildElement "float_array" Fixtures.positions_source)
  ∧ GetText Fixtures.positions_array = Some "0 0 0 1 0 0 1 1 0 0 1 0"%string
  ∧ S (spaces "0 0 0 1 0 0 1 1 0 0 1 0") mod 3 = 0
  ∧ ∃ b' w',
      Sources.LoadPositions "#positions" Sample.identity4 ([], ∅)
        Sample.square_loader = Ok (b', w')
      ∧ length b'.1 = 0 + S (spaces "0 0 0 1 0 0 1 1 0 0 1 0") / 3.
Proof.
  assert (H1 : positionIds (sources Sample.square_loader)
               !! "#positions"%string = None) by reflexivity.
  assert (H2 : ElementId (colladaXml Sample.square_loader) "source"
                 "#positions" = Ok (Some Fixtures.positions_source))
    by reflexivity.
  assert (H3 : FirstChildElement "float_array" Fixtures.positions_source
               = Fixtures.positions_array
                 :: tail (FirstChildElement "float_array"
                            Fixtures.positions_source)) by reflexivity.
  assert (H4 : GetText Fixtures.positions_array
               = Some "0 0 0 1 0 0 1 1 0 0 1 0"%string) by reflexivity.
  assert (H5 : S (spaces "0 0 0 1 0 0 1 1 0 0 1 0") mod 3 = 0)
    by reflexivity.
  refine (conj H1 (conj H2 (conj H3 (conj H4 (conj H5 _))))).
  exact (proj1 (LoadPositions_whole_triples Sample.math Sample.parsers
                  Sample.materials "#positions" Sample.identity4 ([], ∅)
                  Sample.square_loader Fixtures.positions_source
                  Fixtures.positions_array _ _ H1 H2 H3 H4) H5).
Defined.

Lemma LoadNormals_complete_triples_witness :
  normalIds (sources Sample.square_loader) !! "#normals"%string = None
  ∧ ElementId (colladaXml Sample.square_loader) "source" "#normals"
    = Ok (Some Sample.normals_source)
  ∧ FirstChildElement "float_array" Sample.normals_source
    = Fixtures.normals_array
      :: tail (FirstChildElement "float_array" Sample.normals_source)
  ∧ GetText Fixtures.normals_array = Some "0 0 1 0 0 2"%string
  ∧ ∃ new duplicates w',
      Sources.LoadNormals "#normals" Sample.identity4 ([], ∅)
        Sample.square_loader = Ok (([] ++ new, duplicates), w')
      ∧ length new = length (istringstream_doubles "0 0 1 0 0 2") / 3
      ∧ ∀ k nv, new !! k = Some nv →
          ∃ x y z,
            istringstream_doubles "0 0 1 0 0 2" !! (3 * k) = Some x
            ∧ istringstream_doubles "0 0 1 0 0 2" !! (3 * k + 1) = Some y
            ∧ istringstream_doubles "0 0 1 0 0 2" !! (3 * k + 2) = Some z
            ∧ nv = Vector3d_Normalize
                     (Matrix4d_mul_vec
                        (Matrix4d_Translate Vector3d_Zero Sample.identity4)
                        (mkVector3d x y z)).
Proof.
  assert (H1 : normalIds (sources Sample.square_loader)
               !! "#normals"%string = None) by reflexivity.
  assert (H2 : ElementId (colladaXml Sample.square_loader) "source"
                 "#normals" = Ok (Some Sample.normals_source))
    by reflexivity.
  assert (H3 : FirstChildElement "float_array" Sample.normals_source
               = Fixtures.normals_array
                 :: tail (FirstChildElement "float_array"
                            Sample.normals_source)) by reflexivity.
  assert (H4 : GetText Fixtures.normals_array = Some "0 0 1 0 0 2"%string)
    by reflexivity.
  refine (conj H1 (conj H2 (conj H3 (conj H4 _)))).
  exact (LoadNormals_complete_triples Sample.math Sample.parsers
           Sample.materials "#normals" Sample.identity4 ([], ∅)
           Sample.square_loader Sample.normals_source
           Fixtures.normals_array _ _ H1 H2 H3 H4).
Defined.

Lemma sources_cache_ignores_transform_witness :
  Sources.LoadPositions "#positions" Sample.identity4 ([], ∅)
    Sample.square_loader
  = Ok (Fixtures.loaded_positions.1, Fixtures.loaded_positions.2)
  ∧ positionIds (sources Fixtures.loaded_positions.2) !! "#positions"%string
    = Some Fixtures.loaded_positions.1.1
  ∧ ∀ T' b',
      Sources.LoadPositions "#positions" T' b' Fixtures.loaded_positions.2
      = Ok (Fixtures.loaded_positions.1, Fixtures.loaded_positions.2).
Proof.
  assert (H1 : Sources.LoadPositions "#positions" Sample.identity4 ([], ∅)
                 Sample.square_loader
               = Ok (Fixtures.loaded_positions.1, Fixtures.loaded_positions.2))
    by (vm_compute; reflexivity).
  assert (H2 : positionIds (sources Fixtures.loaded_positions.2)
               !! "#positions"%string
               = Some Fixtures.loaded_positions.1.1)
    by (vm_compute; reflexivity).
  refine (conj H1 (conj H2 _)).
  exact (proj1 (sources_cache_ignores_transform Sample.math Sample.parsers
                  Sample.materials "#positions" Sample.identity4 ([], ∅)
                  Sample.square_loader Fixtures.loaded_positions.1
                  Fixtures.loaded_positions.2 Fixtures.loaded_positions.1.1)
               H1 H2).
Defined.

End source_samples.

(** ** Node transforms *)

(** X9.  Whenever SetSkeletonNodeTransform returns, the matrix it stores on
    the skeleton node is the matrix that LoadNodeTransform computes for the
    same element: the two copies of the transform code agree where both
    return. *)
Theorem skeleton_transform_is_node_transform :
  ∀ (M : IgnMath) (P : Parsers) (_elem : XMLElement)
    (_node _node' : SkeletonTransform.SkeletonNode),
    SkeletonTransform.SetSkeletonNodeTransform _elem _node = Ok _node' →
    NodeTransforms.LoadNodeTransform _elem
    = Ok (SkeletonTransform.node_transform _node').
Proof.
  intros M P _elem _node _node' Hrun.
  exact (proj1 (SetSkeletonNodeTransform_run _elem _node _node' Hrun)).
Qed.

(** X10.  SetSkeletonNodeTransform appends raw transforms to those the node
    has, with the kind and the SID of the elements in this order: the first
    [<matrix>] alone when there is one, else the first [<translate>] and
    then every [<rotate>] in document order. *)
Theorem raw_transforms_follow_the_elements :
  ∀ (M : IgnMath) (P : Parsers) (_elem : XMLElement)
    (_node _node' : SkeletonTransform.SkeletonNode),
    SkeletonTransform.SetSkeletonNodeTransform _elem _node = Ok _node' →
    ∃ added,
      SkeletonTransform.rawTransforms _node'
      = SkeletonTransform.rawTransforms _node ++ added
      ∧ (λ nt, (SkeletonTransform.nt_type nt, SkeletonTransform.nt_sid nt))
          <$> added
        = TransformSpec.described _elem.
Proof.
  intros M P _elem _node _node' Hrun.
  exact (proj2 (SetSkeletonNodeTransform_run _elem _node _node' Hrun)).
Qed.

Section transform_samples.
#[local] Existing Instances Sample.math Sample.parsers Sample.materials.

Lemma skeleton_transform_is_node_transform_witness :
  SkeletonTransform.SetSkeletonNodeTransform Sample.turned_joint
    Sample.fresh_node = Ok Fixtures.turned_node
  ∧ NodeTransforms.LoadNodeTransform Sample.turned_joint
    = Ok (SkeletonTransform.node_transform Fixtures.turned_node).
Proof.
  assert (H1 : SkeletonTransform.SetSkeletonNodeTransform Sample.turned_joint
                 Sample.fresh_node = Ok Fixtures.turned_node)
    by (vm_compute; reflexivity).
  refine (conj H1 _).
  exact (skeleton_transform_is_node_transform Sample.math Sample.parsers
           Sample.turned_joint Sample.fresh_node Fixtures.turned_node H1).
Defined.

Lemma raw_transforms_follow_the_elements_witness :
  SkeletonTransform.SetSkeletonNodeTransform Sample.turned_joint
    Sample.fresh_node = Ok Fixtures.turned_node
  ∧ ∃ added,
      SkeletonTransform.rawTransforms Fixtures.turned_node
      = SkeletonTransform.rawTransforms Sample.fresh_node ++ added
      ∧ (λ nt, (SkeletonTransform.nt_type nt, SkeletonTransform.nt_sid nt))
          <$> added
        = TransformSpec.described Sample.turned_joint.
Proof.
  assert (H1 : SkeletonTransform.SetSkeletonNodeTransform Sample.turned_joint
                 Sample.fresh_node = Ok Fixtures.turned_node)
    by (vm_compute; reflexivity).
  refine (conj H1 _).
  exact (raw_transforms_follow_the_elements Sample.math Sample.parsers
           Sample.turned_joint Sample.fresh_node Fixtures.turned_node H1).
Defined.

End transform_samples.

(** ** Sub-meshes of triangles and polygons *)

(** X11.  With a material binder that leaves geometry alone, LoadTriangles
    either finds no index text and adds nothing to the mesh, or adds one
    sub-mesh at the end: its kind is TRIANGLES, every index refers to one
    of its vertices, and when it has vertices its normals and texcoords
    come in a fixed number per vertex. *)
Theorem LoadTriangles_submesh_well_formed :
  ∀ (M : IgnMath) (P : Parsers) (Mat : Materials)
    (bind_material : string → Mesh → SubMesh → Loader
                     → outcome (Mesh * SubMesh * Loader))
    (fuel : nat) (_trianglesXml : XMLElement) (T : Matrix4d)
    (_mesh : Mesh) (w : Loader) (_mesh' : Mesh) (w' : Loader),
    MeshSpec.keeps_geometry bind_material →
    Primitives.LoadTriangles bind_material fuel _trianglesXml T _mesh w
    = Ok (_mesh', w') →
    (Sources.array_text (FirstChildElement "p" _trianglesXml) = None
     ∧ mesh_submeshes _mesh' = mesh_submeshes _mesh)
    ∨ (Sources.array_text (FirstChildElement "p" _trianglesXml) ≠ None
       ∧ ∃ subMesh,
           mesh_submeshes _mesh' = mesh_submeshes _mesh ++ [subMesh]
           ∧ sm_primitive subMesh = TRIANGLES
           ∧ MeshSpec.indices_in_bounds subMesh
           ∧ (sm_vertices subMesh ≠ []
              → MeshSpec.attributes_in_step subMesh)).
Proof.
  intros M P Mat bind_material fuel _trianglesXml T _mesh w _mesh' w'
    Hkeeps Hrun.
  exact (LoadTriangles_run bind_material Hkeeps fuel _trianglesXml T _mesh w
           _mesh' w' Hrun).
Qed.

(** X12.  With a material binder that leaves geometry alone, LoadPolylist
    adds one sub-mesh at the end of the mesh whenever it returns: its kind
    is TRIANGLES, its indices come in threes and refer to its vertices, and
    when it has vertices its normals and texcoords come in a fixed number
    per vertex. *)
Theorem LoadPolylist_submesh_well_formed :
  ∀ (M : IgnMath) (P : Parsers) (Mat : Materials)
    (bind_material : string → Mesh → SubMesh → Loader
                     → outcome (Mesh * SubMesh * Loader))
    (_polylistXml : XMLElement) (T : Matrix4d)
    (_mesh : Mesh) (w : Loader) (_mesh' : Mesh) (w' : Loader),
    MeshSpec.keeps_geometry bind_material →
    Primitives.LoadPolylist bind_material _polylistXml T _mesh w
    = Ok (_mesh', w') →
    ∃ subMesh,
      mesh_submeshes _mesh' = mesh_submeshes _mesh ++ [subMesh]
      ∧ sm_primitive subMesh = TRIANGLES
      ∧ MeshSpec.indices_in_bounds subMesh
      ∧ (∃ triangles, length (sm_indices subMesh) = 3 * triangles)
      ∧ (sm_vertices subMesh ≠ [] → MeshSpec.attributes_in_step subMesh).
Proof.
  intros M P Mat bind_material _polylistXml T _mesh w _mesh' w' Hkeeps Hrun.
  exact (LoadPolylist_run bind_material Hkeeps _polylistXml T _mesh w
           _mesh' w' Hrun).
Qed.

(** X13.  The loop of LoadTriangles adds one index for every [offsetSize]
    tokens of the index text, so it returns only for a text whose number of
    tokens is a multiple of the number of inputs; the sub-mesh stays well
    formed throughout. *)
Theorem triangles_loop_one_index_per_corner :
  ∀ (M : IgnMath) (P : Parsers) (Mat : Materials) (inp : Weaver.Inputs)
    (_mesh : Mesh) (strs : list string) (fuel : nat)
    (st st' : SubMesh * gmap Z (list Weaver.GeometryIndices)),
    Weaver.hasVertices inp = true →
    (0 < Weaver.offsetSize inp)%Z →
    (Z.of_nat (length strs) + Weaver.offsetSize inp ≤ 2 ^ 32)%Z →
    MeshSpec.woven inp st →
    Primitives.triangles_loop inp _mesh strs fuel 0 st = Ok st' →
    MeshSpec.woven inp st'
    ∧ (Z.of_nat (length (sm_indices st'.1) - length (sm_indices st.1))
       * Weaver.offsetSize inp
       = Z.of_nat (length strs))%Z.
Proof.
  intros M P Mat inp _mesh strs fuel st st' Hv Hpos Hlen Hwoven Hrun.
  destruct (triangles_loop_woven inp _mesh strs Hv Hpos Hlen fuel 0 st st'
              ltac:(lia) Hwoven Hrun) as [Hw [Hcount _]].
  split; [exact Hw|]. rewrite Hcount. lia.
Qed.

Section primitive_samples.
#[local] Existing Instances Sample.math Sample.parsers Sample.materials.

Lemma no_material_keeps_geometry : MeshSpec.keeps_geometry Sample.no_material.
Proof.
  intros matStr _mesh subMesh w _mesh' subMesh' w' Hrun.
  injection Hrun as <- <- <-. repeat split.
Defined.

Lemma LoadTriangles_submesh_well_formed_witness :
  MeshSpec.keeps_geometry Sample.no_material
  ∧ Primitives.LoadTriangles Sample.no_material 10 Sample.crease_triangles
      Sample.identity4 Mesh_new (Sample.loader_on Sample.crease_doc)
    = Ok (Fixtures.crease_loaded.1, Fixtures.crease_loaded.2)
  ∧ ((Sources.array_text (FirstChildElement "p" Sample.crease_triangles) = None
      ∧ mesh_submeshes Fixtures.crease_loaded.1 = mesh_submeshes Mesh_new)
     ∨ (Sources.array_text (FirstChildElement "p" Sample.crease_triangles)
        ≠ None
        ∧ ∃ subMesh,
            mesh_submeshes Fixtures.crease_loaded.1
            = mesh_submeshes Mesh_new ++ [subMesh]
            ∧ sm_primitive subMesh = TRIANGLES
            ∧ MeshSpec.indices_in_bounds subMesh
            ∧ (sm_vertices subMesh ≠ []
               → MeshSpec.attributes_in_step subMesh))).
Proof.
  assert (H1 : Primitives.LoadTriangles Sample.no_material 10
                 Sample.crease_triangles Sample.identity4 Mesh_new
                 (Sample.loader_on Sample.crease_doc)
               = Ok (Fixtures.crease_loaded.1, Fixtures.crease_loaded.2))
    by (vm_compute; reflexivity).
  refine (conj no_material_keeps_geometry (conj H1 _)).
  exact (LoadTriangles_submesh_well_formed Sample.math Sample.parsers
           Sample.materials Sample.no_material 10 Sample.crease_triangles
           Sample.identity4 Mesh_new (Sample.loader_on Sample.crease_doc)
           Fixtures.crease_loaded.1 Fixtures.crease_loaded.2
           no_material_keeps_geometry H1).
Defined.

Lemma LoadPolylist_submesh_well_formed_witness :
  MeshSpec.keeps_geometry Sample.no_material
  ∧ Primitives.LoadPolylist Sample.no_material Sample.square_polylist
      Sample.identity4 Mesh_new Sample.square_loader
    = Ok (Fixtures.quad_loaded.1, Fixtures.quad_loaded.2)
  ∧ ∃ subMesh,
      mesh_submeshes Fixtures.quad_loaded.1
      = mesh_submeshes Mesh_new ++ [subMesh]
      ∧ sm_primitive subMesh = TRIANGLES
      ∧ MeshSpec.indices_in_bounds subMesh
      ∧ (∃ triangles, length (sm_indices subMesh) = 3 * triangles)
      ∧ (sm_vertices subMesh ≠ [] → MeshSpec.attributes_in_step subMesh).
Proof.
  assert (H1 : Primitives.LoadPolylist Sample.no_material
                 Sample.square_polylist Sample.identity4 Mesh_new
                 Sample.square_loader
               = Ok (Fixtures.quad_loaded.1, Fixtures.quad_loaded.2))
    by (vm_compute; reflexivity).
  refine (conj no_material_keeps_geometry (conj H1 _)).
  exact (LoadPolylist_submesh_well_formed Sample.math Sample.parsers
           Sample.materials Sample.no_material Sample.square_polylist
           Sample.identity4 Mesh_new Sample.square_loader
           Fixtures.quad_loaded.1 Fixtures.quad_loaded.2
           no_material_keeps_geometry H1).
Defined.

Lemma triangles_loop_one_index_per_corner_witness :
  Weaver.hasVertices Sample.crease_inputs = true
  ∧ (0 < Weaver.offsetSize Sample.crease_inputs)%Z
  ∧ (Z.of_nat (length (split_spaces "0 0 0 1 0 0"))
     + Weaver.offsetSize Sample.crease_inputs ≤ 2 ^ 32)%Z
  ∧ MeshSpec.woven Sample.crease_inputs (Primitives.SubMesh_new, ∅)
  ∧ Primitives.triangles_loop Sample.crease_inputs Mesh_new
      (split_spaces "0 0 0 1 0 0") 10 0 (Primitives.SubMesh_new, ∅)
    = Ok Fixtures.crease_woven
  ∧ MeshSpec.woven Sample.crease_inputs Fixtures.crease_woven
  ∧ (Z.of_nat (length (sm_indices Fixtures.crease_woven.1)
               - length (sm_indices
                           (Primitives.SubMesh_new,
                            ∅ : gmap Z (list Weaver.GeometryIndices)).1))
     * Weaver.offsetSize Sample.crease_inputs
     = Z.of_nat (length (split_spaces "0 0 0 1 0 0")))%Z.
Proof.
  assert (H1 : Weaver.hasVertices Sample.crease_inputs = true)
    by reflexivity.
  assert (H2 : (0 < Weaver.offsetSize Sample.crease_inputs)%Z)
    by reflexivity.
  assert (H3 : (Z.of_nat (length (split_spaces "0 0 0 1 0 0"))
                + Weaver.offsetSize Sample.crease_inputs ≤ 2 ^ 32)%Z)
    by (vm_compute; discriminate).
  assert (H4 : MeshSpec.woven Sample.crease_inputs
                 (Primitives.SubMesh_new, ∅)).
  { split; [constructor|]. split; [|split; reflexivity].
    intros p entries Hp. simpl in Hp. rewrite lookup_empty in Hp.
    discriminate Hp. }
  assert (H5 : Primitives.triangles_loop Sample.crease_inputs Mesh_new
                 (split_spaces "0 0 0 1 0 0") 10 0
                 (Primitives.SubMesh_new, ∅)
               = Ok Fixtures.crease_woven)
    by (vm_compute; reflexivity).
  refine (conj H1 (conj H2 (conj H3 (conj H4 (conj H5 _))))).
  exact (triangles_loop_one_index_per_corner Sample.math Sample.parsers
           Sample.materials Sample.crease_inputs Mesh_new
           (split_spaces "0 0 0 1 0 0") 10 (Primitives.SubMesh_new, ∅)
           Fixtures.crease_woven H1 H2 H3 H4 H5).
Defined.

End primitive_samples.

(** ** Skinned corners *)



Section skin_corner_samples.
#[local] Existing Instances Sample.math Sample.parsers Sample.materials.



End skin_corner_samples.

(** ** Primitives that the loaders do not return for *)

(** X16.  LoadPolylist does not return for a [<polylist>] that lacks the
    text of [<vcount>] or of [<p>]: both are dereferenced without a
    test. *)
Theorem LoadPolylist_requires_vcount_and_p :
  ∀ (M : IgnMath) (P : Parsers) (Mat : Materials)
    (bind_material : string → Mesh → SubMesh → Loader
                     → outcome (Mesh * SubMesh * Loader))
    (_polylistXml : XMLElement) (T : Matrix4d) (_mesh : Mesh) (w : Loader),
    Sources.array_text (FirstChildElement "vcount" _polylistXml) = None
    ∨ Sources.array_text (FirstChildElement "p" _polylistXml) = None →
    ¬ is_Ok (Primitives.LoadPolylist bind_material _polylistXml T _mesh w).
Proof.
  intros M P Mat bind_material _polylistXml T _mesh w Hmissing.
  exact (LoadPolylist_needs_streams bind_material _polylistXml T _mesh w
           Hmissing).
Qed.

(** X17.  LoadTriangles does not terminate for a [<triangles>] that has
    index text and no [<input>]: offsetSize stays 0, so the loop over the
    tokens never advances. *)
Theorem LoadTriangles_without_input_never_ends :
  ∀ (M : IgnMath) (P : Parsers) (Mat : Materials)
    (bind_material : string → Mesh → SubMesh → Loader
                     → outcome (Mesh * SubMesh * Loader))
    (_trianglesXml : XMLElement) (T : Matrix4d) (_mesh : Mesh) (w : Loader)
    (pStr : string),
    is_Ok (Primitives.start_submesh bind_material _trianglesXml _mesh w) →
    FirstChildElement "input" _trianglesXml = [] →
    Sources.array_text (FirstChildElement "p" _trianglesXml) = Some pStr →
    ∀ fuel,
      Primitives.LoadTriangles bind_material fuel _trianglesXml T _mesh w
      = OutOfFuel.
Proof.
  intros M P Mat bind_material _trianglesXml T _mesh w pStr
    [[[mesh1 sm0] w1] Hstart] Hinput Hp fuel.
  exact (LoadTriangles_without_inputs bind_material _trianglesXml T _mesh w
           mesh1 sm0 w1 pStr Hstart Hinput Hp fuel).
Qed.

Section stuck_samples.
#[local] Existing Instances Sample.math Sample.parsers Sample.materials.

Lemma LoadPolylist_requires_vcount_and_p_witness :
  (Sources.array_text (FirstChildElement "vcount" Fixtures.bare_polylist)
   = None
   ∨ Sources.array_text (FirstChildElement "p" Fixtures.bare_polylist) = None)
  ∧ ¬ is_Ok (Primitives.LoadPolylist Sample.no_material
               Fixtures.bare_polylist Sample.identity4 Mesh_new
               Sample.square_loader).
Proof.
  assert (H1 : Sources.array_text
                 (FirstChildElement "vcount" Fixtures.bare_polylist) = None
               ∨ Sources.array_text
                   (FirstChildElement "p" Fixtures.bare_polylist) = None)
    by (left; reflexivity).
  refine (conj H1 _).
  exact (LoadPolylist_requires_vcount_and_p Sample.math Sample.parsers
           Sample.materials Sample.no_material Fixtures.bare_polylist
           Sample.identity4 Mesh_new Sample.square_loader H1).
Defined.

Lemma LoadTriangles_without_input_never_ends_witness :
  is_Ok (Primitives.start_submesh Sample.no_material Fixtures.bare_triangles
           Mesh_new Sample.fresh_loader)
  ∧ FirstChildElement "input" Fixtures.bare_triangles = []
  ∧ Sources.array_text (FirstChildElement "p" Fixtures.bare_triangles)
    = Some "0 1 2"%string
  ∧ ∀ fuel,
      Primitives.LoadTriangles Sample.no_material fuel
        Fixtures.bare_triangles Sample.identity4 Mesh_new Sample.fresh_loader
      = OutOfFuel.
Proof.
  assert (H1 : is_Ok (Primitives.start_submesh Sample.no_material
                        Fixtures.bare_triangles Mesh_new Sample.fresh_loader))
    by (eexists; reflexivity).
  assert (H2 : FirstChildElement "input" Fixtures.bare_triangles = [])
    by reflexivity.
  assert (H3 : Sources.array_text
                 (FirstChildElement "p" Fixtures.bare_triangles)
               = Some "0 1 2"%string) by reflexivity.
  refine (conj H1 (conj H2 (conj H3 _))).
  exact (LoadTriangles_without_input_never_ends Sample.math Sample.parsers
           Sample.materials Sample.no_material Fixtures.bare_triangles
           Sample.identity4 Mesh_new Sample.fresh_loader "0 1 2" H1 H2 H3).
Defined.

End stuck_samples.

(** ** Lines and geometries *)

(** X18.  When LoadLines returns it has added one sub-mesh of kind LINES
    that carries the name of the current node: it has one vertex of its own
    for every index of [<p>] that belongs to a complete pair, so no vertex
    is shared and an index left alone at the end is dropped; its indices
    count the vertices up from 0 and it has no normals and no texcoords. *)
Theorem LoadLines_one_vertex_per_index :
  ∀ (M : IgnMath) (P : Parsers) (Mat : Materials) (I : IntStream)
    (_xml : XMLElement) (T : Matrix4d) (_mesh : Mesh) (w : Loader)
    (_mesh' : Mesh) (w' : Loader),
    Lines.LoadLines _xml T _mesh w = Ok (_mesh', w') →
    ∃ pXml rest pStr subMesh,
      FirstChildElement "p" _xml = pXml :: rest
      ∧ GetText pXml = Some pStr
      ∧ _mesh' = AddSubMesh subMesh _mesh
      ∧ sm_primitive subMesh = LINES
      ∧ sm_name subMesh = currentNodeName w
      ∧ length (sm_vertices subMesh)
        = 2 * (length (istringstream_ints pStr) / 2)
      ∧ sm_indices subMesh
        = u32 <$> seqZ 0 (Z.of_nat (length (sm_vertices subMesh)))
      ∧ sm_normals subMesh = [] ∧ sm_texcoords subMesh = [].
Proof.
  intros M P Mat I _xml T _mesh w _mesh' w' Hrun.
  exact (LoadLines_run _xml T _mesh w _mesh' w' Hrun).
Qed.

(** X19.  LoadGeometry appends the sub-meshes of a geometry in the order of
    its three loops and not in document order: first those of the
    [<triangles>] and [<polylist>] children, of kind TRIANGLES, then those
    of the [<lines>] children, of kind LINES; what the mesh held stays in
    front, and every index of a new sub-mesh refers to one of its
    vertices. *)
Theorem LoadGeometry_faces_before_lines :
  ∀ (M : IgnMath) (P : Parsers) (Mat : Materials) (I : IntStream)
    (bind_material : string → Mesh → SubMesh → Loader
                     → outcome (Mesh * SubMesh * Loader))
    (fuel : nat) (xml : XMLElement) (T : Matrix4d) (_mesh : Mesh)
    (w : Loader) (_mesh' : Mesh) (w' : Loader),
    MeshSpec.keeps_geometry bind_material →
    Geometry.LoadGeometry bind_material fuel (Some xml) T _mesh w
    = Ok (_mesh', w') →
    ∃ faces lines,
      mesh_submeshes _mesh' = mesh_submeshes _mesh ++ faces ++ lines
      ∧ Forall (λ s, sm_primitive s = TRIANGLES
                     ∧ MeshSpec.indices_in_bounds s) faces
      ∧ Forall (λ s, sm_primitive s = LINES
                     ∧ MeshSpec.indices_in_bounds s) lines.
Proof.
  intros M P Mat I bind_material fuel xml T _mesh w _mesh' w' Hkeeps Hrun.
  exact (LoadGeometry_run bind_material Hkeeps fuel xml T _mesh w _mesh' w'
           Hrun).
Qed.

Section geometry_samples.
#[local] Existing Instances Sample.math Sample.parsers Sample.materials
  Fixtures.int_stream.

Lemma LoadLines_one_vertex_per_index_witness :
  Lines.LoadLines Fixtures.square_lines Sample.identity4 Mesh_new
    (Sample.loader_on Fixtures.wire_doc)
  = Ok (Fixtures.lines_loaded.1, Fixtures.lines_loaded.2)
  ∧ ∃ pXml rest pStr subMesh,
      FirstChildElement "p" Fixtures.square_lines = pXml :: rest
      ∧ GetText pXml = Some pStr
      ∧ Fixtures.lines_loaded.1 = AddSubMesh subMesh Mesh_new
      ∧ sm_primitive subMesh = LINES
      ∧ sm_name subMesh = currentNodeName (Sample.loader_on Fixtures.wire_doc)
      ∧ length (sm_vertices subMesh)
        = 2 * (length (istringstream_ints pStr) / 2)
      ∧ sm_indices subMesh
        = u32 <$> seqZ 0 (Z.of_nat (length (sm_vertices subMesh)))
      ∧ sm_normals subMesh = [] ∧ sm_texcoords subMesh = [].
Proof.
  assert (H1 : Lines.LoadLines Fixtures.square_lines Sample.identity4
                 Mesh_new (Sample.loader_on Fixtures.wire_doc)
               = Ok (Fixtures.lines_loaded.1, Fixtures.lines_loaded.2))
    by (vm_compute; reflexivity).
  refine (conj H1 _).
  exact (LoadLines_one_vertex_per_index Sample.math Sample.parsers
           Sample.materials Fixtures.int_stream Fixtures.square_lines
           Sample.identity4 Mesh_new (Sample.loader_on Fixtures.wire_doc)
           Fixtures.lines_loaded.1 Fixtures.lines_loaded.2 H1).
Defined.

Lemma LoadGeometry_faces_before_lines_witness :
  MeshSpec.keeps_geometry Sample.no_material
  ∧ Geometry.LoadGeometry Sample.no_material 10 (Some Fixtures.wire_geometry)
      Sample.identity4 Mesh_new (Sample.loader_on Fixtures.wire_doc)
    = Ok (Fixtures.wire_loaded.1, Fixtures.wire_loaded.2)
  ∧ ∃ faces lines,
      mesh_submeshes Fixtures.wire_loaded.1
      = mesh_submeshes Mesh_new ++ faces ++ lines
      ∧ Forall (λ s, sm_primitive s = TRIANGLES
                     ∧ MeshSpec.indices_in_bounds s) faces
      ∧ Forall (λ s, sm_primitive s = LINES
                     ∧ MeshSpec.indices_in_bounds s) lines.
Proof.
  assert (H1 : Geometry.LoadGeometry Sample.no_material 10
                 (Some Fixtures.wire_geometry) Sample.identity4 Mesh_new
                 (Sample.loader_on Fixtures.wire_doc)
               = Ok (Fixtures.wire_loaded.1, Fixtures.wire_loaded.2))
    by (vm_compute; reflexivity).
  refine (conj no_material_keeps_geometry (conj H1 _)).
  exact (LoadGeometry_faces_before_lines Sample.math Sample.parsers
           Sample.materials Fixtures.int_stream Sample.no_material 10
           Fixtures.wire_geometry Sample.identity4 Mesh_new
           (Sample.loader_on Fixtures.wire_doc)
           Fixtures.wire_loaded.1 Fixtures.wire_loaded.2
           no_material_keeps_geometry H1).
Defined.

End geometry_samples.

(** ** Nodes *)

(** X20.  LoadNode does not terminate on a node whose [<instance_node>]
    refers to the node itself: the reference is followed again at every
    visit, and nothing in the loader remembers the nodes it is inside. *)
Theorem LoadNode_self_instance_never_ends :
  ∀ (M : IgnMath) (P : Parsers) (Mat : Materials) (I : IntStream)
    (bind_material : string → Mesh → SubMesh → Loader
                     → outcome (Mesh * SubMesh * Loader))
    (LoadController : option XMLElement → option XMLElement → Matrix4d
                      → Mesh → Loader → outcome (Mesh * Loader))
    (root : XMLElement) (others : list XMLElement) (e inst : XMLElement)
    (rest : list XMLElement) (url : string) (t : Matrix4d),
    ElementId_in root "node" url = Some e →
    FirstChildElement "instance_node" e = inst :: rest →
    Attribute "url" inst = Some url →
    FirstChildElement "node" e = [] →
    NodeTransforms.LoadNodeTransform e = Ok t →
    ∀ (fuel : nat) (_mesh : Mesh) (T : Matrix4d) (w : Loader),
      colladaXml w = root :: others →
      Nodes.LoadNode bind_material LoadController fuel e _mesh T w
      = OutOfFuel.
Proof.
  intros M P Mat I bind_material LoadController root others e inst rest url t
    Hfind Hinst Hurl Hnodes Htransform fuel _mesh T w Hdoc.
  exact (LoadNode_self_instance bind_material LoadController root others e
           inst rest url t Hfind Hinst Hurl Hnodes Htransform fuel _mesh T w
           Hdoc).
Qed.

(** X21.  The material map with which an instance is loaded holds the
    bindings of that instance and nothing else: it is the same whatever
    the loader held before, so the bindings of an earlier instance do not
    reach a later one. *)
Theorem bindings_do_not_leak :
  ∀ (M : IgnMath) (P : Parsers) (Mat : Materials) (I : IntStream)
    (instXml : XMLElement) (w1 w2 w1' : Loader),
    Nodes.read_bindings instXml w1 = Ok w1' →
    ∃ w2', Nodes.read_bindings instXml w2 = Ok w2'
           ∧ materialMap w1' = materialMap w2'.
Proof.
  intros M P Mat I instXml w1 w2 w1' Hrun.
  exact (read_bindings_run instXml w1 w2 w1' Hrun).
Qed.

(** X22.  On a tree of nodes that instantiate nothing LoadNode leaves the
    mesh and the console as they are, and leaves as the current node name
    the [name] that comes last in document order in the tree: after a
    child has been visited the name of its parent is not put back. *)
Theorem LoadNode_keeps_the_last_name :
  ∀ (M : IgnMath) (P : Parsers) (Mat : Materials) (I : IntStream)
    (bind_material : string → Mesh → SubMesh → Loader
                     → outcome (Mesh * SubMesh * Loader))
    (LoadController : option XMLElement → option XMLElement → Matrix4d
                      → Mesh → Loader → outcome (Mesh * Loader))
    (fuel : nat) (e : XMLElement) (_mesh : Mesh) (T : Matrix4d) (w : Loader)
    (_mesh' : Mesh) (w' : Loader),
    NodeSpec.grouping e = true →
    Nodes.LoadNode bind_material LoadController fuel e _mesh T w
    = Ok (_mesh', w') →
    _mesh' = _mesh
    ∧ currentNodeName w' = NodeSpec.last_name e (currentNodeName w)
    ∧ console w' = console w.
Proof.
  intros M P Mat I bind_material LoadController fuel e _mesh T w _mesh' w'
    Hgroup Hrun.
  exact (LoadNode_grouping bind_material LoadController fuel e _mesh T w
           _mesh' w' Hgroup Hrun).
Qed.

(** ** Skeletons *)

(** X23.  The tree that LoadSkeletonNodes returns mirrors the node elements
    below its argument: listed parent first, the nodes of the tree and the
    elements called [node] correspond one to one in document order, and
    each node has the name ([sid] before [name]), id and type that its
    element declares and the transforms that SetSkeletonNodeTransform
    gives a new node for that element. *)
Theorem LoadSkeletonNodes_mirrors_the_elements :
  ∀ (M : IgnMath) (P : Parsers) (e : XMLElement)
    (t : SkeletonNodes.SkeletonTree),
    SkeletonNodes.LoadSkeletonNodes e = Ok t →
    Forall2 SkeletonSpec.built_for
            (SkeletonSpec.joint_elements e) (SkeletonSpec.nodes t).
Proof.
  intros M P e t Hrun. exact (LoadSkeletonNodes_mirror e t Hrun).
Qed.

Section node_samples.
#[local] Existing Instances Sample.math Sample.parsers Sample.materials
  Fixtures.int_stream.

Lemma LoadNode_self_instance_never_ends_witness :
  ElementId_in Fixtures.loop_doc "node" "#again" = Some Fixtures.loop_node
  ∧ FirstChildElement "instance_node" Fixtures.loop_node
    = Fixtures.loop_instance :: []
  ∧ Attribute "url" Fixtures.loop_instance = Some "#again"%string
  ∧ FirstChildElement "node" Fixtures.loop_node = []
  ∧ NodeTransforms.LoadNodeTransform Fixtures.loop_node
    = Ok Matrix4d_Identity
  ∧ colladaXml (Sample.loader_on Fixtures.loop_doc) = Fixtures.loop_doc :: []
  ∧ ∀ fuel : nat,
      Nodes.LoadNode Sample.no_material Fixtures.no_controller fuel
        Fixtures.loop_node Mesh_new Sample.identity4
        (Sample.loader_on Fixtures.loop_doc)
      = OutOfFuel.
Proof.
  assert (H1 : ElementId_in Fixtures.loop_doc "node" "#again"
               = Some Fixtures.loop_node) by reflexivity.
  assert (H2 : FirstChildElement "instance_node" Fixtures.loop_node
               = Fixtures.loop_instance :: []) by reflexivity.
  assert (H3 : Attribute "url" Fixtures.loop_instance = Some "#again"%string)
    by reflexivity.
  assert (H4 : FirstChildElement "node" Fixtures.loop_node = [])
    by reflexivity.
  assert (H5 : NodeTransforms.LoadNodeTransform Fixtures.loop_node
               = Ok Matrix4d_Identity) by reflexivity.
  assert (H6 : colladaXml (Sample.loader_on Fixtures.loop_doc)
               = Fixtures.loop_doc :: []) by reflexivity.
  refine (conj H1 (conj H2 (conj H3 (conj H4 (conj H5 (conj H6 _)))))).
  exact (λ fuel,
           LoadNode_self_instance_never_ends Sample.math Sample.parsers
             Sample.materials Fixtures.int_stream Sample.no_material
             Fixtures.no_controller Fixtures.loop_doc [] Fixtures.loop_node
             Fixtures.loop_instance [] "#again" Matrix4d_Identity
             H1 H2 H3 H4 H5 fuel Mesh_new Sample.identity4
             (Sample.loader_on Fixtures.loop_doc) H6).
Defined.

Lemma bindings_do_not_leak_witness :
  Nodes.read_bindings Fixtures.bound_instance Fixtures.stale_loader
  = Ok (Fixtures.bindings_read Fixtures.stale_loader)
  ∧ ∃ w2', Nodes.read_bindings Fixtures.bound_instance Sample.fresh_loader
           = Ok w2'
           ∧ materialMap (Fixtures.bindings_read Fixtures.stale_loader)
             = materialMap w2'.
Proof.
  assert (H1 : Nodes.read_bindings Fixtures.bound_instance
                 Fixtures.stale_loader
               = Ok (Fixtures.bindings_read Fixtures.stale_loader))
    by (vm_compute; reflexivity).
  refine (conj H1 _).
  exact (bindings_do_not_leak Sample.math Sample.parsers Sample.materials
           Fixtures.int_stream Fixtures.bound_instance Fixtures.stale_loader
           Sample.fresh_loader (Fixtures.bindings_read Fixtures.stale_loader)
           H1).
Defined.

Lemma LoadNode_keeps_the_last_name_witness :
  NodeSpec.grouping Fixtures.arm_group = true
  ∧ Nodes.LoadNode Sample.no_material Fixtures.no_controller 5
      Fixtures.arm_group Mesh_new Sample.identity4 Sample.fresh_loader
    = Ok (Fixtures.group_loaded.1, Fixtures.group_loaded.2)
  ∧ Fixtures.group_loaded.1 = Mesh_new
  ∧ currentNodeName Fixtures.group_loaded.2
    = NodeSpec.last_name Fixtures.arm_group
        (currentNodeName Sample.fresh_loader)
  ∧ console Fixtures.group_loaded.2 = console Sample.fresh_loader.
Proof.
  assert (H1 : NodeSpec.grouping Fixtures.arm_group = true) by reflexivity.
  assert (H2 : Nodes.LoadNode Sample.no_material Fixtures.no_controller 5
                 Fixtures.arm_group Mesh_new Sample.identity4
                 Sample.fresh_loader
               = Ok (Fixtures.group_loaded.1, Fixtures.group_loaded.2))
    by (vm_compute; reflexivity).
  refine (conj H1 (conj H2 _)).
  exact (LoadNode_keeps_the_last_name Sample.math Sample.parsers
           Sample.materials Fixtures.int_stream Sample.no_material
           Fixtures.no_controller 5 Fixtures.arm_group Mesh_new
           Sample.identity4 Sample.fresh_loader Fixtures.group_loaded.1
           Fixtures.group_loaded.2 H1 H2).
Defined.

Lemma LoadSkeletonNodes_mirrors_the_elements_witness :
  SkeletonNodes.LoadSkeletonNodes Fixtures.arm_joints
  = Ok Fixtures.arm_skeleton
  ∧ Forall2 SkeletonSpec.built_for
            (SkeletonSpec.joint_elements Fixtures.arm_joints)
            (SkeletonSpec.nodes Fixtures.arm_skeleton).
Proof.
  assert (H1 : SkeletonNodes.LoadSkeletonNodes Fixtures.arm_joints
               = Ok Fixtures.arm_skeleton) by (vm_compute; reflexivity).
  refine (conj H1 _).
  exact (LoadSkeletonNodes_mirrors_the_elements Sample.math Sample.parsers
           Fixtures.arm_joints Fixtures.arm_skeleton H1).
Defined.

End node_samples.

(** ** Animation channel targets *)

(** X24.  The target [bone/sid] of a channel names the transform [sid] of
    [bone] with no index, and [bone/sid.member] names it with the index of
    the member: 0, 1, 2 and 3 for X, Y, Z and ANGLE, and -1, which stands
    for no index, for every other member. *)
Theorem channel_target_member :
  ∀ (P : Parsers) (bone sid member : string),
    ¬ In "/"%char (list_ascii_of_string bone) →
    ¬ In "("%char (list_ascii_of_string (bone ++ sid)%string) →
    ¬ In "."%char (list_ascii_of_string (bone ++ sid)%string) →
    ¬ In "("%char (list_ascii_of_string member) →
    (Z.of_nat (String.length bone) + Z.of_nat (String.length sid)
     + Z.of_nat (String.length member) + 3 < 2 ^ 64)%Z →
    ChannelTarget.parse (bone ++ String "/" sid)%string
    = Ok {| ChannelTarget.targetBone := bone;
            ChannelTarget.targetTrans := sid;
            ChannelTarget.idx1 := -1; ChannelTarget.idx2 := -1 |}
    ∧ ChannelTarget.parse
        (bone ++ String "/" (sid ++ String "." member))%string
      = Ok {| ChannelTarget.targetBone := bone;
              ChannelTarget.targetTrans := sid;
              ChannelTarget.idx1 := ChannelTarget.member_index member;
              ChannelTarget.idx2 := -1 |}.
Proof.
  intros P bone sid member Hslash Hparen Hdot Hmember Hlen. split.
  - apply (parse_plain bone sid Hslash Hparen Hdot). lia.
  - exact (parse_member bone sid Hslash Hparen Hdot member Hmember Hlen).
Qed.

(** X25.  In a target [bone/sid(...] the indices are read from fixed
    columns of what follows the first parenthesis: the first index is the
    number in its first character, and when more than four characters
    follow, the second index is the number in the fourth, as in [(i)(j)];
    an index of two digits is cut to its first digit. *)
Theorem channel_target_index_columns :
  ∀ (P : Parsers) (bone sid rest : string),
    ¬ In "/"%char (list_ascii_of_string bone) →
    ¬ In "("%char (list_ascii_of_string (bone ++ sid)%string) →
    (Z.of_nat (String.length bone) + Z.of_nat (String.length sid)
     + Z.of_nat (String.length rest) + 3 < 2 ^ 64)%Z →
    ChannelTarget.parse
      (bone ++ String "/" (sid ++ String "(" rest))%string
    = Ok {| ChannelTarget.targetBone := bone;
            ChannelTarget.targetTrans := sid;
            ChannelTarget.idx1 := parseInt (String.substring 0 1 rest);
            ChannelTarget.idx2 :=
              if (4 <? Z.of_nat (String.length rest))%Z
              then parseInt (String.substring 3 1 rest) else (-1)%Z |}.
Proof.
  intros P bone sid rest Hslash Hparen Hlen.
  rewrite (parse_indexed bone sid Hslash Hparen rest Hlen).
  assert (Hfirst : ChannelTarget.substr rest 0 1
                   = Ok (String.substring 0 1 rest)).
  { unfold ChannelTarget.substr.
    destruct (Z.ltb_spec (Z.of_nat (String.length rest)) 0) as [Hneg|_];
      [lia|].
    destruct rest as [|c r]; [reflexivity|].
    replace (Z.min 1 (Z.of_nat (String.length (String c r)) - 0)) with 1%Z
      by (simpl String.length; lia).
    reflexivity. }
  rewrite Hfirst.
  change (Ok (String.substring 0 1 rest) ≫= ?f)
    with (f (String.substring 0 1 rest)). cbv beta.
  destruct (Z.ltb_spec 4 (Z.of_nat (String.length rest))) as [Hlong|Hshort];
    [|reflexivity].
  assert (Hfourth : ChannelTarget.substr rest 3 1
                    = Ok (String.substring 3 1 rest)).
  { unfold ChannelTarget.substr.
    destruct (Z.ltb_spec (Z.of_nat (String.length rest)) 3) as [Hneg|_];
      [lia|].
    replace (Z.min 1 (Z.of_nat (String.length rest) - 3)) with 1%Z by lia.
    reflexivity. }
  rewrite Hfourth. reflexivity.
Qed.

Section target_samples.
#[local] Existing Instances Sample.math Sample.parsers Sample.materials.

Lemma no_such_character (c : ascii) (s : string) :
  forallb (λ a, negb (Ascii.eqb a c)) (list_ascii_of_string s) = true →
  ¬ In c (list_ascii_of_string s).
Proof.
  intros Hall Hin. rewrite forallb_forall in Hall.
  specialize (Hall c Hin). rewrite Ascii.eqb_refl in Hall. discriminate Hall.
Defined.

Lemma channel_target_member_witness :
  ¬ In "/"%char (list_ascii_of_string "hip")
  ∧ ¬ In "("%char (list_ascii_of_string ("hip" ++ "rotateX")%string)
  ∧ ¬ In "."%char (list_ascii_of_string ("hip" ++ "rotateX")%string)
  ∧ ¬ In "("%char (list_ascii_of_string "ANGLE")
  ∧ (Z.of_nat (String.length "hip") + Z.of_nat (String.length "rotateX")
     + Z.of_nat (String.length "ANGLE") + 3 < 2 ^ 64)%Z
  ∧ ChannelTarget.parse ("hip" ++ String "/" "rotateX")%string
    = Ok {| ChannelTarget.targetBone := "hip";
            ChannelTarget.targetTrans := "rotateX";
            ChannelTarget.idx1 := -1; ChannelTarget.idx2 := -1 |}
  ∧ ChannelTarget.parse
      ("hip" ++ String "/" ("rotateX" ++ String "." "ANGLE"))%string
    = Ok {| ChannelTarget.targetBone := "hip";
            ChannelTarget.targetTrans := "rotateX";
            ChannelTarget.idx1 := ChannelTarget.member_index "ANGLE";
            ChannelTarget.idx2 := -1 |}.
Proof.
  assert (H1 : ¬ In "/"%char (list_ascii_of_string "hip"))
    by (apply no_such_character; reflexivity).
  assert (H2 : ¬ In "("%char (list_ascii_of_string ("hip" ++ "rotateX")%string))
    by (apply no_such_character; reflexivity).
  assert (H3 : ¬ In "."%char (list_ascii_of_string ("hip" ++ "rotateX")%string))
    by (apply no_such_character; reflexivity).
  assert (H4 : ¬ In "("%char (list_ascii_of_string "ANGLE"))
    by (apply no_such_character; reflexivity).
  assert (H5 : (Z.of_nat (String.length "hip")
                + Z.of_nat (String.length "rotateX")
                + Z.of_nat (String.length "ANGLE") + 3 < 2 ^ 64)%Z)
    by reflexivity.
  refine (conj H1 (conj H2 (conj H3 (conj H4 (conj H5 _))))).
  exact (channel_target_member Sample.parsers "hip" "rotateX" "ANGLE"
           H1 H2 H3 H4 H5).
Defined.

Lemma channel_target_index_columns_witness :
  ¬ In "/"%char (list_ascii_of_string "hip")
  ∧ ¬ In "("%char (list_ascii_of_string ("hip" ++ "transform")%string)
  ∧ (Z.of_nat (String.length "hip") + Z.of_nat (String.length "transform")
     + Z.of_nat (String.length "12)(3)") + 3 < 2 ^ 64)%Z
  ∧ ChannelTarget.parse
      ("hip" ++ String "/" ("transform" ++ String "(" "12)(3)"))%string
    = Ok {| ChannelTarget.targetBone := "hip";
            ChannelTarget.targetTrans := "transform";
            ChannelTarget.idx1 := parseInt (String.substring 0 1 "12)(3)");
            ChannelTarget.idx2 :=
              if (4 <? Z.of_nat (String.length "12)(3)"))%Z
              then parseInt (String.substring 3 1 "12)(3)") else (-1)%Z |}.
Proof.
  assert (H1 : ¬ In "/"%char (list_ascii_of_string "hip"))
    by (apply no_such_character; reflexivity).
  assert (H2 : ¬ In "("%char
                 (list_ascii_of_string ("hip" ++ "transform")%string))
    by (apply no_such_character; reflexivity).
  assert (H3 : (Z.of_nat (String.length "hip")
                + Z.of_nat (String.length "transform")
                + Z.of_nat (String.length "12)(3)") + 3 < 2 ^ 64)%Z)
    by reflexivity.
  refine (conj H1 (conj H2 (conj H3 _))).
  exact (channel_target_index_columns Sample.parsers "hip" "transform"
           "12)(3)" H1 H2 H3).
Defined.

End target_samples.

(** ** Materials *)

(** X26.  The material block of LoadTriangles and LoadPolylist leaves the
    geometry of the sub-mesh alone and, for a Mesh::AddMaterial that does
    not touch the sub-meshes, those of the mesh too; the material index of
    the sub-mesh is either left as it was or set to an index that is not
    negative. *)
Theorem bind_material_keeps_geometry :
  ∀ (M : IgnMath) (P : Parsers) (Mat : Materials)
    (LoadMaterial : string → Loader → outcome (option Material * Loader))
    (IndexOfMaterial : option Material → Mesh → Z)
    (AddMaterial : option Material → Mesh → Z * Mesh),
    (∀ mat _mesh,
       mesh_submeshes (AddMaterial mat _mesh).2 = mesh_submeshes _mesh) →
    MeshSpec.keeps_geometry
      (MaterialBinding.bind_material LoadMaterial IndexOfMaterial AddMaterial)
    ∧ ∀ matStr _mesh subMesh w _mesh' subMesh' w',
        MaterialBinding.bind_material LoadMaterial IndexOfMaterial AddMaterial
          matStr _mesh subMesh w = Ok (_mesh', subMesh', w') →
        sm_material subMesh' = sm_material subMesh
        ∨ ∃ i, (0 ≤ i)%Z ∧ sm_material subMesh' = Some i.
Proof.
  intros M P Mat LoadMaterial IndexOfMaterial AddMaterial Hadd. split.
  - intros matStr _mesh subMesh w _mesh' subMesh' w' Hrun.
    destruct (bind_material_run LoadMaterial IndexOfMaterial AddMaterial
                matStr _mesh subMesh w _mesh' subMesh' w' Hrun)
      as [mat [Hmesh Hsub]].
    split.
    + destruct Hmesh as [->| ->]; [reflexivity|apply Hadd].
    + destruct Hsub as [->|[i [_ ->]]]; repeat split.
  - intros matStr _mesh subMesh w _mesh' subMesh' w' Hrun.
    destruct (bind_material_run LoadMaterial IndexOfMaterial AddMaterial
                matStr _mesh subMesh w _mesh' subMesh' w' Hrun)
      as [mat [_ Hsub]].
    destruct Hsub as [->|[i [Hi ->]]]; [left; reflexivity|].
    right. exists i. split; [exact Hi|reflexivity].
Qed.

(** X27.  LoadMaterial loads a material once: when it returns a material,
    the loader it leaves returns the same material for the same name
    without reading the document again, and the entries of the cache under
    other names are as before.  When it returns null, because the document
    has no such material or the material has no [<instance_effect>], the
    loader is unchanged: nothing is cached and nothing is reported. *)
Theorem LoadMaterial_loads_once :
  ∀ (M : IgnMath) (P : Parsers) (Mat : Materials) (Ops : MaterialOps)
    (_name : string) (w : Loader) (r : option Material) (w' : Loader),
    MaterialLoader.LoadMaterial _name w = Ok (r, w') →
    match r with
    | Some mat =>
        MaterialLoader.LoadMaterial _name w' = Ok (Some mat, w')
        ∧ ∀ other, other ≠ _name →
            materialIds w' !! other = materialIds w !! other
    | None => w' = w
    end.
Proof.
  intros M P Mat Ops _name w r w' Hrun.
  pose proof (LoadMaterial_run _name w r w' Hrun) as Hleft.
  destruct r as [mat|]; [|exact Hleft].
  destruct Hleft as [Hcache Hothers]. split; [|exact Hothers].
  unfold MaterialLoader.LoadMaterial. rewrite Hcache. reflexivity.
Qed.

Section material_samples.
#[local] Existing Instances Sample.math Sample.parsers Sample.materials
  Fixtures.material_ops.

Lemma bind_material_keeps_geometry_witness :
  (∀ (mat : option Material) (_mesh : Mesh),
     mesh_submeshes (Fixtures.add_first mat _mesh).2 = mesh_submeshes _mesh)
  ∧ MeshSpec.keeps_geometry
      (MaterialBinding.bind_material Fixtures.named_material
         Fixtures.not_indexed Fixtures.add_first)
  ∧ ∀ matStr _mesh subMesh w _mesh' subMesh' w',
      MaterialBinding.bind_material Fixtures.named_material
        Fixtures.not_indexed Fixtures.add_first
        matStr _mesh subMesh w = Ok (_mesh', subMesh', w') →
      sm_material subMesh' = sm_material subMesh
      ∨ ∃ i, (0 ≤ i)%Z ∧ sm_material subMesh' = Some i.
Proof.
  assert (H1 : ∀ (mat : option Material) (_mesh : Mesh),
             mesh_submeshes (Fixtures.add_first mat _mesh).2
             = mesh_submeshes _mesh) by (intros mat _mesh; reflexivity).
  refine (conj H1 _).
  exact (bind_material_keeps_geometry Sample.math Sample.parsers
           Sample.materials Fixtures.named_material Fixtures.not_indexed
           Fixtures.add_first H1).
Defined.

Lemma LoadMaterial_loads_once_witness :
  MaterialLoader.LoadMaterial "red" (Sample.loader_on Fixtures.red_doc)
  = Ok (Some (default ""%string Fixtures.red_loaded.1), Fixtures.red_loaded.2)
  ∧ MaterialLoader.LoadMaterial "red" Fixtures.red_loaded.2
    = Ok (Some (default ""%string Fixtures.red_loaded.1),
          Fixtures.red_loaded.2)
  ∧ ∀ other, other ≠ "red"%string →
      materialIds Fixtures.red_loaded.2 !! other
      = materialIds (Sample.loader_on Fixtures.red_doc) !! other.
Proof.
  assert (H1 : MaterialLoader.LoadMaterial "red"
                 (Sample.loader_on Fixtures.red_doc)
               = Ok (Some (default ""%string Fixtures.red_loaded.1),
                     Fixtures.red_loaded.2))
    by (vm_compute; reflexivity).
  refine (conj H1 _).
  exact (LoadMaterial_loads_once Sample.math Sample.parsers Sample.materials
           Fixtures.material_ops "red" (Sample.loader_on Fixtures.red_doc)
           (Some (default ""%string Fixtures.red_loaded.1))
           Fixtures.red_loaded.2 H1).
Defined.

End material_samples.

(** ** References that lead nowhere *)

(** X28.  LoadMaterial does not return for a material whose
    [<instance_effect>] names an effect that is not in the document: the
    null that ElementId returns is dereferenced for [profile_COMMON]. *)
Theorem LoadMaterial_missing_effect_faults :
  ∀ (M : IgnMath) (P : Parsers) (Mat : Materials) (Ops : MaterialOps)
    (_name : string) (w : Loader) (matXml instanceEffect : XMLElement)
    (rest : list XMLElement) (effectName : string),
    materialIds w !! _name = None →
    ElementId (colladaXml w) "material" _name = Ok (Some matXml) →
    FirstChildElement "instance_effect" matXml = instanceEffect :: rest →
    Attribute "url" instanceEffect = Some effectName →
    ElementId (colladaXml w) "effect" effectName = Ok None →
    MaterialLoader.LoadMaterial _name w = Fault NullDeref.
Proof.
  intros M P Mat Ops _name w matXml instanceEffect rest effectName
    Hcache Hmat Hinst Hurl Heffect.
  unfold MaterialLoader.LoadMaterial.
  rewrite Hcache, Hmat. simpl. rewrite Hinst, Hurl. simpl.
  rewrite Heffect. reflexivity.
Qed.

(** X29.  LoadNode does not return for a node whose first
    [<instance_geometry>] names a geometry that is not in the document:
    the null that ElementId returns goes to LoadGeometry, which
    dereferences it. *)
Theorem LoadNode_missing_geometry_faults :
  ∀ (M : IgnMath) (P : Parsers) (Mat : Materials) (I : IntStream)
    (bind_material : string → Mesh → SubMesh → Loader
                     → outcome (Mesh * SubMesh * Loader))
    (LoadController : option XMLElement → option XMLElement → Matrix4d
                      → Mesh → Loader → outcome (Mesh * Loader))
    (e instGeomXml : XMLElement) (rest : list XMLElement) (geomURL : string)
    (_mesh : Mesh) (T : Matrix4d) (w : Loader),
    is_Ok (NodeTransforms.LoadNodeTransform e) →
    FirstChildElement "node" e = [] →
    FirstChildElement "instance_node" e = [] →
    FirstChildElement "instance_geometry" e = instGeomXml :: rest →
    Attribute "url" instGeomXml = Some geomURL →
    ElementId (colladaXml w) "geometry" geomURL = Ok None →
    is_Ok (Nodes.read_bindings instGeomXml w) →
    ∀ fuel,
      Nodes.LoadNode bind_material LoadController (S fuel) e _mesh T w
      = Fault NullDeref.
Proof.
  intros M P Mat I bind_material LoadController e instGeomXml rest geomURL
    _mesh T w [t Htransform] Hnodes Hinst Hgeom Hurl Hfind [w1 Hbind] fuel.
  simpl. rewrite Htransform. simpl.
  unfold FirstChildElement in *.
  rewrite (each_named_absent "node" _ (children e) _ Hnodes). simpl.
  rewrite Hinst.
  rewrite (each_named_first "instance_geometry" _ (children e) instGeomXml
             rest _ Hgeom).
  set (w0 := match Attribute "name" e with
             | Some name => Nodes.set_currentNodeName name w
             | None => w
             end).
  assert (Hdoc : colladaXml w0 = colladaXml w)
    by (unfold w0; destruct (Attribute "name" e); reflexivity).
  destruct (read_bindings_run instGeomXml w w0 w1 Hbind) as [w2 [Hbind0 _]].
  assert (Hstep : Nodes.instance_geometry bind_material fuel
                    (Matrix4d_mul T t) instGeomXml (_mesh, w0)
                  = Fault NullDeref).
  { unfold Nodes.instance_geometry. rewrite Hurl. simpl.
    rewrite Hdoc, Hfind. simpl. rewrite Hbind0. reflexivity. }
  rewrite Hstep. reflexivity.
Qed.

Section dangling_samples.
#[local] Existing Instances Sample.math Sample.parsers Sample.materials
  Fixtures.int_stream Fixtures.material_ops.

Lemma LoadMaterial_missing_effect_faults_witness :
  materialIds (Sample.loader_on Fixtures.dangling_doc) !! "#ghost"%string
  = None
  ∧ ElementId (colladaXml (Sample.loader_on Fixtures.dangling_doc))
      "material" "#ghost" = Ok (Some Fixtures.dangling_material)
  ∧ FirstChildElement "instance_effect" Fixtures.dangling_material
    = Element "instance_effect" [("url", "#gone")] None []%string :: []
  ∧ Attribute "url" (Element "instance_effect" [("url", "#gone")] None [])
    = Some "#gone"%string
  ∧ ElementId (colladaXml (Sample.loader_on Fixtures.dangling_doc))
      "effect" "#gone" = Ok None
  ∧ MaterialLoader.LoadMaterial "#ghost"
      (Sample.loader_on Fixtures.dangling_doc) = Fault NullDeref.
Proof.
  assert (H1 : materialIds (Sample.loader_on Fixtures.dangling_doc)
               !! "#ghost"%string = None) by reflexivity.
  assert (H2 : ElementId (colladaXml (Sample.loader_on Fixtures.dangling_doc))
                 "material" "#ghost" = Ok (Some Fixtures.dangling_material))
    by reflexivity.
  assert (H3 : FirstChildElement "instance_effect" Fixtures.dangling_material
               = Element "instance_effect" [("url", "#gone")] None []%string
                 :: []) by reflexivity.
  assert (H4 : Attribute "url"
                 (Element "instance_effect" [("url", "#gone")] None [])
               = Some "#gone"%string) by reflexivity.
  assert (H5 : ElementId (colladaXml (Sample.loader_on Fixtures.dangling_doc))
                 "effect" "#gone" = Ok None) by reflexivity.
  refine (conj H1 (conj H2 (conj H3 (conj H4 (conj H5 _))))).
  exact (LoadMaterial_missing_effect_faults Sample.math Sample.parsers
           Sample.materials Fixtures.material_ops "#ghost"
           (Sample.loader_on Fixtures.dangling_doc) Fixtures.dangling_material
           _ [] "#gone" H1 H2 H3 H4 H5).
Defined.

Lemma LoadNode_missing_geometry_faults_witness :
  is_Ok (NodeTransforms.LoadNodeTransform Fixtures.lost_node)
  ∧ FirstChildElement "node" Fixtures.lost_node = []
  ∧ FirstChildElement "instance_node" Fixtures.lost_node = []
  ∧ FirstChildElement "instance_geometry" Fixtures.lost_node
    = Fixtures.lost_instance :: []
  ∧ Attribute "url" Fixtures.lost_instance = Some "#nowhere"%string
  ∧ ElementId (colladaXml Sample.square_loader) "geometry" "#nowhere"
    = Ok None
  ∧ is_Ok (Nodes.read_bindings Fixtures.lost_instance Sample.square_loader)
  ∧ ∀ fuel,
      Nodes.LoadNode Sample.no_material Fixtures.no_controller (S fuel)
        Fixtures.lost_node Mesh_new Sample.identity4 Sample.square_loader
      = Fault NullDeref.
Proof.
  assert (H1 : is_Ok (NodeTransforms.LoadNodeTransform Fixtures.lost_node))
    by (eexists; reflexivity).
  assert (H2 : FirstChildElement "node" Fixtures.lost_node = [])
    by reflexivity.
  assert (H3 : FirstChildElement "instance_node" Fixtures.lost_node = [])
    by reflexivity.
  assert (H4 : FirstChildElement "instance_geometry" Fixtures.lost_node
               = Fixtures.lost_instance :: []) by reflexivity.
  assert (H5 : Attribute "url" Fixtures.lost_instance
               = Some "#nowhere"%string) by reflexivity.
  assert (H6 : ElementId (colladaXml Sample.square_loader) "geometry"
                 "#nowhere" = Ok None) by reflexivity.
  assert (H7 : is_Ok (Nodes.read_bindings Fixtures.lost_instance
                        Sample.square_loader))
    by (eexists; reflexivity).
  refine (conj H1 (conj H2 (conj H3 (conj H4 (conj H5 (conj H6
            (conj H7 _))))))).
  exact (LoadNode_missing_geometry_faults Sample.math Sample.parsers
           Sample.materials Fixtures.int_stream Sample.no_material
           Fixtures.no_controller Fixtures.lost_node Fixtures.lost_instance
           [] "#nowhere" Mesh_new Sample.identity4 Sample.square_loader
           H1 H2 H3 H4 H5 H6 H7).
Defined.

End dangling_samples.
